(* ===== verification/_CoqProject ===== *)
-Q . S2P
Prelude.v
Endian.v
TaskQueue.v
Socket.v
RingBuffer.v
BufferPool.v
ByteWriter.v
ByteReader.v
MessageCodec.v
Message.v
Framer.v
PacketWriter.v
PacketReader.v
PacketCodec.v
TimerWheel.v
Handle.v
SessionRegistry.v
World.v
EventLoop.v
Acceptor.v
Listener.v
Connector.v
ConnectorInv.v
Connecting.v
Config.v
ConfigSpec.v
JobSystem.v
Monitoring.v
Logger.v
Threads.v
AppCallbacks.v
Resources.v
HttpStatus.v
Lifecycle.v
EngineRun.v
Program.v
SignalHandler.v
Session.v
SessionInv.v
SessionSend.v
SessionClose.v
SessionRecv.v
Worker.v
SessionSender.v
WorkerShutdown.v
Runtime.v
RuntimeInv.v
Delivery.v
Guard.v
Controllers.v
Composite.v
Startup.v
Trading.v
Benchmark.v
Report.v
