(* ===== verification/Prelude.v ===== *)
(** * HyperNet / HyperApp: a verification development

    The repository is a C++20 network engine and what is built on it:

    - [hypernet] (src/engine): one event loop per worker thread over epoll;
      sessions with ring buffers, a length-prefix framer, an opcode dispatcher,
      a timer wheel, and task queues between the workers;
    - [hyperapp] (src/runtime/extensions/app): the application runtime, one
      shard (session registry, state guard, service) per worker, and broadcasts
      across workers;
    - a trading domain and three programs (src/domains, src/apps) on top: a
      gateway, a mock exchange and a load generator.

    A worker accepts a socket, makes a [Session] for it and registers the
    descriptor with its [EventLoop].  Readable events fill the session's
    receive ring; the framer cuts frames out of it; the [SessionManager]
    splits the opcode and the [Dispatcher] calls the application, which sends
    packets (through the send ring), closes sessions and talks to sessions of
    other workers by posting tasks.  Timers close silent sessions.  A
    [ConnectorManager] per worker dials out and tracks requests.  Counters of
    all this are served as a page over HTTP.

    ** Files

    Data and containers (each operation a function of the object's record, as
    in the source, with sizes at 64 bits):

    - [Prelude]: machine integers, bytes, list slices, runs and invariants,
      outcomes of calls that read memory; tactics [zb_eval], [b2p], [zlen_lia];
    - [Endian]: protocol/Endian.hpp;
    - [RingBuffer]: buffer/RingBuffer.{hpp,cpp}, BufferView.hpp;
    - [BufferPool]: buffer/BufferPool.{hpp,cpp};
    - [ByteWriter], [ByteReader], [MessageCodec]: protocol/MessageCodec.hpp;
    - [Message]: MessageView, MessageHeader, opcode split and Dispatcher;
    - [Framer]: protocol/LengthPrefixFramer.hpp over a ring buffer;
    - [PacketWriter], [PacketReader], [PacketCodec]: hyperapp's packet writer
      and reader, builders and parsers, the trading packets, with a class
      [PacketLaws] that states what a packet type promises and that the guards
      of [Guard] and the roles of [Trading] use;
    - [TimerWheel]: core/TimerWheel.{hpp,cpp};
    - [Handle]: SessionHandle.hpp and the ids of SessionManager;
    - [SessionRegistry]: hyperapp/core/SessionRegistry.{hpp,cpp};
    - [Config], [ConfigSpec]: EngineConfig, Options, EffectiveOptions, Defaults
      and core/ConfigLoader.cpp over a tree of TOML values (the values are what
      the vendored parser would return), and what a loaded or validated
      configuration guarantees;
    - [JobSystem]: hyperapp/jobs/JobSystem.{hpp,cpp}: threads, queue, condition
      variable and stop, as interleaved steps;
    - [TaskQueue]: util/SpinLock.hpp and core/TaskQueue.cpp, memory access by
      memory access;
    - [Logger]: core/Logger.{hpp,cpp}, core/LoggingConfig.cpp and the thread tag
      of ThreadContext: callers, log thread and stop as interleaved steps, and
      the text of a line;
    - [Threads]: core/ThreadContext.hpp, the thread-local variables of any
      number of threads;
    - [Socket]: net/Socket.{hpp,cpp} over a table of descriptors whose numbers
      are used again;
    - [Monitoring], [HttpStatus]: monitoring/Metrics.{hpp,cpp} and
      monitoring/HttpStatusServer.cpp, with a scraper and an HTTP reader as
      the other side.

    One worker:

    - [World]: the state a worker acts on (sessions on a heap, the manager, the
      descriptor table of net/EventLoop.cpp over net/EpollReactor.cpp, metrics,
      kernel connections) and the effect monad;
    - [EventLoop]: the run loop of net/EventLoop.cpp: wake-up descriptor, task
      queue, timers and the dispatch of a batch of events;
    - [Acceptor]: net/Acceptor.cpp's accept loop;
    - [Listener]: its constructor and the set-up and removal of a worker's
      listener in core/WorkerContext.cpp, over [Socket];
    - [Connector], [ConnectorInv], [Connecting]:
      connector/ConnectorManager.cpp, requests and dials with callbacks that may
      call back in, its invariant and its theorems;
    - [Session]: net/Session.cpp and net/SessionManager.cpp, function by
      function, over [World];
    - [SessionInv], [SessionClose], [SessionSend], [SessionRecv]: the invariant
      and what closing, sending and receiving do, as rules of a small program
      logic ([wp]);
    - [Worker]: any sequence of accepts, events, timers, tasks and closes, and
      the theorems;
    - [SessionSender]: ISessionSender.hpp with its laws as a class, the sender
      of a worker as its instance and the sends of SessionHandle as its client;
    - [WorkerShutdown]: the end of a manager, sessions and dials together;
    - [Resources]: constructors, destructors and initialisation of reactor,
      loop, manager and WorkerContext: descriptors, senders, exceptions.

    All workers:

    - [Runtime]: core/TaskQueue.cpp, EventLoop::post, the scheduler and router
      factories, TopicBroadcaster, SessionService and AppRuntime; threads as
      stacks of instructions that interleave at the shared queues;
    - [RuntimeInv]: the invariant of all interleavings;
    - [Delivery]: confinement, exactly-once broadcast and its completion;
    - [Guard]: SessionStateMachine and the guarded registration of AppRuntime;
    - [Lifecycle]: core/WorkerContext.cpp, AppCallbackInvoker::postAndWait and
      the start and shutdown of Engine.cpp, with main thread, workers, clients
      and time as interleaved steps.  A loop is a queue of tasks here and
      sessions are a count;
    - [AppCallbacks]: AppCallbackInvoker in full: callbacks that post, wait and
      throw, from any threads, over the loop of the callback worker;
    - [EngineRun]: run, stop, the signal wait and the reset of Engine.cpp as
      single accesses of the main thread and any callers of stop, with signals;
      start and shutdown of the workers are one step each here;
    - [Program]: ServerBuilder.hpp, Server.hpp, the constructor of Engine and
      the main functions of src/apps, with their exit codes;
    - [SignalHandler]: core/SignalHandler.{hpp,cpp}, which stands by itself.

    The trading roles:

    - [Controllers]: UpstreamGateway.hpp, PacketBind.hpp, the handshake and
      benchmark controllers of gateway, exchange and client, their
      installation and the session callbacks of the gateway application;
    - [Composite]: the binder of PacketBind.hpp with its checks,
      CompositeController.cpp and the Install functions, shown to be what
      [Controllers] says role by role;
    - [Startup]: IWorkerScheduler.hpp as a class with its laws,
      WorkerControllerAppBase.hpp, SessionService::connectTcp and the start of
      the three programs of src/apps, proved for all programs whose controllers
      keep the laws of a class;
    - [Trading]: the gateway as a machine under any callbacks of the engine, and
      the way of a packet through the three programs;
    - [Benchmark]: the load generator's run;
    - [Report]: LatencyRecorder.hpp and the lines printed after it, with
      [double] arithmetic as rounding to 53 bits.

    ** What the theorems show

    - Refinement: the ring buffer is a bounded FIFO whatever the wrap-around;
      the framer finds exactly the frames of the wire format and does not
      depend on how the stream is cut; the registry with its three indices is
      a map from sessions to topic sets.
    - One worker: no run aborts or touches a dead session; per session the
      bytes given to the kernel and those still in the ring are the accepted
      packets in order; reading delivers the frames of the stream in order;
      sending queues a whole packet or closes; a session is registered for
      writing exactly while bytes wait; sessions start and end in pairs;
      closing is final at any depth of nested callbacks; silent sessions are
      closed after the configured time.
    - The loop and the listeners: a posted task runs whatever the wake-up
      descriptor does; the queue behind it is atomic under any interleaving;
      the accept loop empties the backlog and ends; a listener is set up whole
      or not at all, and removed without a trace.
    - Sockets: every open descriptor has one owner, none is closed twice or for
      another component, and each call does what its name says or reports the
      error of the system call.
    - Running: a call of stop or a signal ends a run, no wake-up is lost and
      the first request stays the recorded one; the log has every message at or
      above its level once and in order, and a stop of it ends and leaves
      nothing unwritten.  A program runs an engine exactly when its
      configuration loads and its log file opens.
    - Dialling out: a request is answered once and a request in flight times
      out; a dial calls back once, leaks no socket and ends.
    - All workers: sends, closes and registry calls happen on the worker that
      owns the session under every interleaving; a broadcast reaches every
      subscribed session exactly once and always completes; handlers run only
      in the states their mask allows; jobs run once and a stop runs those that
      are queued.
    - Trading: the gateway forwards pings to live sessions only and no
      assertion fails, through any callbacks; a ping comes back to the session
      that sent it, as bytes through all hops; the benchmark counts every
      answer and stops at the last, and the percentiles and means it reports
      are the exact ones although they are computed in floating point.  The
      programs start each worker exactly
      once with its hook and dials, and can always finish their start.
    - Callbacks of the application run once, on their worker, and waiting for
      one never blocks forever, also on the worker's own thread; what a thread
      knows about itself depends on that thread only; a worker owns its
      descriptors exactly, whatever fails while it is built.
    - Shutdown: the main thread needs a bounded number of steps and is never
      stuck; at the end all threads are joined and loops, managers and
      listeners are gone, and no destroyed loop was used if the application's
      stop callback posts to worker 0 only.
    - Settings: validation reports the first failed check, a loaded
      configuration is valid, and worker options derived from it keep the
      bounds the components rely on.
    - Monitoring: every request gets the response its request line calls for,
      and the page has the values the counting calls add up to; a stop ends
      the server thread.
    - Timers fire once and on time in ticks; ids are unique for 2^32 - 1
      sessions of a worker; encodings have inverses.
    - Where the code does not do what it means to, a theorem shows it: the
      64-bit check of ByteReader can wrap ([reader_check_wraps]), a timer can
      fire early by less than a tick ([timer_can_fire_early]), session ids
      collide after 2^32 sessions ([session_ids_collide]), shutdown neither
      reports the end of sessions nor lowers the gauge
      ([shutdown_closes_silently]), a refused second registration changes the
      guard of the first handler ([second_registration_moves_guard]), a late
      reply loses a retried request ([late_reply_loses_request]), a dial can
      connect three times ([dial_may_try_three_times]), an event of a closed
      descriptor can reach the handler of its successor
      ([stale_event_reaches_new_handler]), an aborted connection stalls the
      accept loop ([aborted_connection_stalls_accept]), two settings are not
      range-checked ([unchecked_numbers_wrap]), the status server reports a
      start that failed ([failed_bind_reports_success]) and can be held by one
      client ([stuck_client_blocks_stop]), the load generator's second mode
      repeats its first packet ([tps_mode_never_ends]), and the stop callback
      of the trading programs, or a start that failed, uses a destroyed loop
      ([server_stop_uses_dead_loop], [failed_start_uses_dead_loop]), a stop
      that comes too early ends the process or is lost for good
      ([early_stop_kills_process], [stop_during_reset_is_lost]), one that
      comes late uses a destroyed status server or leaves the wrong state
      ([stop_races_teardown], [state_can_stay_stopping]), and a message logged
      after the log was stopped is silently dropped ([late_message_is_lost]).
      The load generator prints its time in whole seconds
      ([elapsed_in_whole_seconds]).
      SignalHandler can report signal 0 ([signal_number_can_be_lost]) and the
      error of a roll-back ([failed_rollback_leaves_handler]).

    ** Bounds

    Loops of the session code are run with fuel: the frame loop with the bytes
    in the ring (a frame takes at least one), the receive and send loops with
    one more than the answers the kernel has left, the consumption of a ring
    with the bytes to consume.  Closing can nest through callbacks; the
    depth allowed is the number of live sessions plus one.  The theorems show
    that a run never ends for lack of fuel, so the bounds are no restriction.

    What the kernel answers (how much a read or send moves, errors, the clock)
    is read from lists that stand for any behaviour; when a list ends, sockets
    answer EAGAIN.  The application is any program over the engine's
    interface, given as a tree.

    The accept loop has one more step than the queued connections and the
    faults given; a send of the status page ends when the kernel's answers do,
    and the case that they run out is part of the theorem.

    The report is proved exact for up to 2^44 samples, which is what a 47-bit
    address space holds, and for sums below 2^52 ns (52 days).

    ** Not modelled

    The vendored TOML parser, core/libs/toml.hpp, a third-party library (its
    result is data of [Config]), and the text that callers format into log
    messages.  Declarations without code (class headers, concepts, macros that
    only forward) have no definition of their own.
    Memory exhaustion is modelled only where the source handles it. *)

From Stdlib Require Export ZArith Lia.
From Stdlib Require Import Strings.Byte.
From stdpp Require Export base numbers list list_numbers gmap strings.

#[global] Open Scope Z_scope.

(* ------------------------------------------------------------------ *)
(** ** Machine integers

    A [w]-bit unsigned integer is a [Z] in [0, 2^w); the operations that can
    wrap around in the source say so with [u8], [u16], [u32] and [u64]. *)

Abbreviation U64 := 18446744073709551616 (only parsing).
Abbreviation U32 := 4294967296 (only parsing).
Abbreviation U16 := 65536 (only parsing).

Definition u8 (z : Z) : Z := z mod 256.
Definition u16 (z : Z) : Z := z mod U16.
Definition u32 (z : Z) : Z := z mod U32.
Definition u64 (z : Z) : Z := z mod U64.

(** [std::size_t] addition and subtraction on a 64-bit target. *)
Definition size_add (a b : Z) : Z := u64 (a + b).
Definition size_sub (a b : Z) : Z := u64 (a - b).

(** [std::numeric_limits<std::size_t>::max()] and the largest size a
    [std::vector] of bytes accepts ([PTRDIFF_MAX]). *)
Abbreviation SIZE_MAX := 18446744073709551615 (only parsing).
Abbreviation VEC_MAX := 9223372036854775807 (only parsing).

(** [static_cast<int>] of an unsigned 32-bit value (two's complement). *)
Definition i32_of_u32 (z : Z) : Z := if z <? 2147483648 then z else z - U32.

(** C++ conversion of an integer to [bool] and of a flag test. *)
Definition has_flag (mask flag : Z) : bool := negb (Z.land mask flag =? 0).

Lemma u64_small (z : Z) : 0 <= z < U64 -> u64 z = z.
Proof. apply Z.mod_small. Qed.

Lemma u64_range (z : Z) : 0 <= u64 z < U64.
Proof. apply Z.mod_pos_bound. lia. Qed.

Lemma size_add_small (a b : Z) : 0 <= a + b < U64 -> size_add a b = a + b.
Proof. apply u64_small. Qed.

Lemma size_sub_small (a b : Z) : 0 <= a - b < U64 -> size_sub a b = a - b.
Proof. apply u64_small. Qed.

(** Reduction modulo [c] of a number below [2*c]: the two cases of a wrap
    around the end of a circular array. *)
Lemma mod_wrap (a c : Z) :
  0 <= a < 2 * c ->
  (a < c /\ a mod c = a) \/ (c <= a /\ a mod c = a - c).
Proof.
  intros [Ha Hc]. destruct (Z.lt_ge_cases a c) as [H | H].
  - left. split; [done |]. by apply Z.mod_small.
  - right. split; [done |].
    replace a with (a - c + 1 * c) at 1 by lia.
    rewrite Z.mod_add by lia. apply Z.mod_small. lia.
Qed.

(** Or-ing in a value below the lowest bit of [a] is addition. *)
Lemma lor_low a x k : 0 <= k -> 0 <= x < 2 ^ k -> Z.lor (a * 2 ^ k) x = a * 2 ^ k + x.
Proof.
  intros Hk Hx. rewrite <- Z.add_lor_land.
  replace (Z.land (a * 2 ^ k) x) with 0; [lia |].
  symmetry. apply Z.bits_inj'. intros n Hn. rewrite Z.land_spec, Z.bits_0.
  destruct (Z.lt_ge_cases n k).
  - by rewrite Z.mul_pow2_bits_low by lia.
  - rewrite <- (Z.mod_small x (2 ^ k)) by lia.
    by rewrite Z.mod_pow2_bits_high, andb_false_r by lia.
Qed.

(** Case analysis on every [a mod c] of the goal and hypotheses whose
    argument is below [2*c]. *)
Ltac wrap_cases :=
  repeat (
    match goal with
    | |- context [?a mod ?c] =>
        let H := fresh "Hw" in let m := fresh "m" in
        pose proof (mod_wrap a c ltac:(lia)) as H; remember (a mod c) as m in *
    | _ : context [?a mod ?c] |- _ =>
        let H := fresh "Hw" in let m := fresh "m" in
        pose proof (mod_wrap a c ltac:(lia)) as H; remember (a mod c) as m in *
    end;
    repeat match goal with E : ?m = _ mod _ |- _ => is_var m; clear E end);
  repeat match goal with H : (_ /\ _) \/ (_ /\ _) |- _ => destruct H as [[? ?] | [? ?]] end.

(* ------------------------------------------------------------------ *)
(** ** Bytes *)

Abbreviation byte := Byte.byte.

#[global] Instance byte_eq_decision : EqDecision byte := Byte.byte_eq_dec.

Definition b2z (b : byte) : Z := Z.of_N (Byte.to_N b).

(** [static_cast<std::uint8_t>]: keep the low eight bits. *)
Definition z2b (z : Z) : byte :=
  match Byte.of_N (Z.to_N (u8 z)) with Some b => b | None => x00 end.

Lemma b2z_range (b : byte) : 0 <= b2z b < 256.
Proof. unfold b2z. pose proof (Byte.to_N_bounded b). lia. Qed.

Lemma u8_range (z : Z) : 0 <= u8 z < 256.
Proof. apply Z.mod_pos_bound. lia. Qed.

Lemma b2z_z2b (z : Z) : b2z (z2b z) = u8 z.
Proof.
  unfold z2b, b2z. pose proof (u8_range z) as H.
  destruct (Byte.of_N (Z.to_N (u8 z))) as [b |] eqn:E.
  - apply Byte.to_of_N in E. rewrite E. lia.
  - apply Byte.of_N_None_iff in E. lia.
Qed.

Lemma z2b_b2z (b : byte) : z2b (b2z b) = b.
Proof.
  unfold z2b. unfold u8. rewrite Z.mod_small by apply b2z_range.
  unfold b2z. rewrite N2Z.id, Byte.of_to_N. done.
Qed.

Lemma b2z_inj (a b : byte) : b2z a = b2z b -> a = b.
Proof. intros H. rewrite <- (z2b_b2z a), <- (z2b_b2z b). by rewrite H. Qed.

(* ------------------------------------------------------------------ *)
(** ** Lists indexed by sizes

    Sizes and offsets are [Z]; a [std::vector] or array of bytes is a list.
    [slice off n l] is the [n] elements from offset [off], [blit off src dst]
    is [memcpy(dst + off, src, |src|)]. *)

Section ZList.
Context {A : Type}.
Implicit Types l : list A.

Definition zlen l : Z := Z.of_nat (length l).
Definition ztake (n : Z) l : list A := take (Z.to_nat n) l.
Definition zdrop (n : Z) l : list A := drop (Z.to_nat n) l.
Definition slice (off n : Z) l : list A := ztake n (zdrop off l).
Definition blit (off : Z) (src dst : list A) : list A :=
  ztake off dst ++ src ++ zdrop (off + zlen src) dst.

Lemma zlen_nonneg l : 0 <= zlen l.
Proof. unfold zlen. lia. Qed.

Lemma zlen_nil : zlen [] = 0.
Proof. done. Qed.

Lemma zlen_cons x l : zlen (x :: l) = 1 + zlen l.
Proof. unfold zlen. simpl. lia. Qed.

Lemma zlen_app l1 l2 : zlen (l1 ++ l2) = zlen l1 + zlen l2.
Proof. unfold zlen. rewrite length_app. lia. Qed.

Lemma zlen_ztake n l : 0 <= n -> zlen (ztake n l) = Z.min n (zlen l).
Proof. intros. unfold zlen, ztake. rewrite length_take. lia. Qed.

Lemma zlen_zdrop n l : 0 <= n -> zlen (zdrop n l) = Z.max 0 (zlen l - n).
Proof. intros. unfold zlen, zdrop. rewrite length_drop. lia. Qed.

Lemma zlen_slice off n l :
  0 <= off -> 0 <= n -> off + n <= zlen l -> zlen (slice off n l) = n.
Proof. intros. unfold slice. rewrite zlen_ztake, zlen_zdrop; lia. Qed.

Lemma zlen_blit off src dst :
  0 <= off -> off + zlen src <= zlen dst -> zlen (blit off src dst) = zlen dst.
Proof.
  intros. unfold blit. pose proof (zlen_nonneg src).
  rewrite !zlen_app, zlen_ztake, zlen_zdrop; lia.
Qed.

Lemma blit_nil off dst : 0 <= off -> blit off [] dst = dst.
Proof. intros. unfold blit. rewrite zlen_nil, Z.add_0_r. apply take_drop. Qed.

Lemma zlen_zero_nil l : zlen l = 0 -> l = [].
Proof. destruct l; [done |]. rewrite zlen_cons. pose proof (zlen_nonneg l). lia. Qed.

Lemma ztake_0 l : ztake 0 l = [].
Proof. done. Qed.

Lemma zdrop_0 l : zdrop 0 l = l.
Proof. done. Qed.

Lemma ztake_ge n l : zlen l <= n -> ztake n l = l.
Proof. intros. apply take_ge. unfold zlen in *. lia. Qed.

Lemma zdrop_ge n l : zlen l <= n -> zdrop n l = [].
Proof. intros. apply drop_ge. unfold zlen in *. lia. Qed.

Lemma ztake_zdrop n l : ztake n l ++ zdrop n l = l.
Proof. apply take_drop. Qed.

Lemma ztake_app_le n l1 l2 : n <= zlen l1 -> ztake n (l1 ++ l2) = ztake n l1.
Proof. intros. apply take_app_le. unfold zlen in *. lia. Qed.

Lemma ztake_app l1 l2 : ztake (zlen l1) (l1 ++ l2) = l1.
Proof. unfold ztake, zlen. rewrite Nat2Z.id. by apply take_app_length'. Qed.

Lemma zdrop_app l1 l2 : zdrop (zlen l1) (l1 ++ l2) = l2.
Proof. unfold zdrop, zlen. rewrite Nat2Z.id. by apply drop_app_length'. Qed.

Lemma zdrop_app_le n l1 l2 : n <= zlen l1 -> zdrop n (l1 ++ l2) = zdrop n l1 ++ l2.
Proof. intros. apply drop_app_le. unfold zlen in *. lia. Qed.

Lemma zdrop_zdrop n m l : 0 <= n -> 0 <= m -> zdrop n (zdrop m l) = zdrop (m + n) l.
Proof. intros. unfold zdrop. rewrite drop_drop. f_equal. lia. Qed.

Lemma ztake_ztake n m l : 0 <= n -> 0 <= m -> ztake n (ztake m l) = ztake (Z.min n m) l.
Proof. intros. unfold ztake. rewrite take_take. f_equal. lia. Qed.

Lemma zdrop_ztake n m l :
  0 <= n <= m -> zdrop n (ztake m l) = ztake (m - n) (zdrop n l).
Proof. intros. unfold ztake, zdrop. rewrite skipn_firstn_comm. f_equal. lia. Qed.

(** Splitting a prefix in two. *)
Lemma ztake_plus n m l :
  0 <= n -> 0 <= m -> ztake (n + m) l = ztake n l ++ ztake m (zdrop n l).
Proof.
  intros. rewrite <- (ztake_zdrop n l) at 1. unfold ztake, zdrop.
  replace (Z.to_nat (n + m)) with (Z.to_nat n + Z.to_nat m)%nat by lia.
  rewrite take_drop. symmetry. apply take_take_drop.
Qed.

Lemma lookup_ztake n l (i : nat) :
  Z.of_nat i < n -> ztake n l !! i = l !! i.
Proof. intros. apply lookup_take_lt. lia. Qed.

Lemma lookup_zdrop n l (i : nat) :
  0 <= n -> zdrop n l !! i = l !! Z.to_nat (n + Z.of_nat i).
Proof. intros. unfold zdrop. rewrite lookup_drop. f_equal. lia. Qed.

Lemma lookup_slice off n l (i : nat) :
  0 <= off -> Z.of_nat i < n -> slice off n l !! i = l !! Z.to_nat (off + Z.of_nat i).
Proof. intros. unfold slice. rewrite lookup_ztake by lia. by rewrite lookup_zdrop. Qed.

(** Reading inside and outside the range a [memcpy] wrote. *)
Lemma lookup_blit_in off src dst (i : nat) :
  0 <= off -> off + zlen src <= zlen dst ->
  off <= Z.of_nat i < off + zlen src ->
  blit off src dst !! i = src !! Z.to_nat (Z.of_nat i - off).
Proof.
  intros Ho Hd [Hi1 Hi2]. unfold blit.
  assert (Hlen : length (ztake off dst) = Z.to_nat off).
  { unfold ztake. rewrite length_take. unfold zlen in *. lia. }
  rewrite lookup_app_r by (rewrite Hlen; lia). rewrite Hlen.
  rewrite lookup_app_l by (unfold zlen in *; lia). f_equal. lia.
Qed.

Lemma lookup_blit_out off src dst (i : nat) :
  0 <= off -> off + zlen src <= zlen dst ->
  Z.of_nat i < off \/ off + zlen src <= Z.of_nat i ->
  blit off src dst !! i = dst !! i.
Proof.
  intros Ho Hd Hi. unfold blit. pose proof (zlen_nonneg src).
  assert (Hlen : length (ztake off dst) = Z.to_nat off).
  { unfold ztake. rewrite length_take. unfold zlen in *. lia. }
  destruct Hi as [Hi | Hi].
  - rewrite lookup_app_l by (rewrite Hlen; lia). by apply lookup_ztake.
  - rewrite lookup_app_r by (rewrite Hlen; lia). rewrite Hlen.
    rewrite lookup_app_r by (unfold zlen in *; lia).
    rewrite lookup_zdrop by lia. f_equal. unfold zlen in *. lia.
Qed.

(** Two lists of the same length are equal when they agree at each index. *)
Lemma zlist_eq l1 l2 :
  zlen l1 = zlen l2 ->
  (forall i : nat, Z.of_nat i < zlen l1 -> l1 !! i = l2 !! i) -> l1 = l2.
Proof.
  intros Hl Hi. apply list_eq. intros i.
  destruct (Z.lt_ge_cases (Z.of_nat i) (zlen l1)) as [H | H]; [by apply Hi |].
  unfold zlen in *. rewrite !lookup_ge_None_2 by lia. done.
Qed.

(** A slice depends only on the cells it covers. *)
Lemma slice_ext off n l1 l2 :
  0 <= off -> off + n <= zlen l1 -> zlen l1 = zlen l2 ->
  (forall j : nat, off <= Z.of_nat j < off + n -> l1 !! j = l2 !! j) ->
  slice off n l1 = slice off n l2.
Proof.
  intros Ho Hn Hl He. destruct (Z.le_gt_cases n 0) as [Hz | Hz].
  { unfold slice, ztake. by replace (Z.to_nat n) with 0%nat by lia. }
  apply zlist_eq; [rewrite !zlen_slice; lia |].
  rewrite zlen_slice by lia. intros i Hi. rewrite !lookup_slice by lia.
  apply He. lia.
Qed.

End ZList.

Create HintDb zlist.
Create Rewrite HintDb zlist.
#[export] Hint Rewrite @zlen_nil @zlen_cons @zlen_app : zlist.
#[export] Hint Rewrite @zlen_ztake @zlen_zdrop @zlen_slice @zlen_blit
  using (rewrite ?zlen_nil, ?zlen_cons, ?zlen_app; lia) : zlist.
#[export] Hint Resolve zlen_nonneg : zlist.

(** Normalises the lengths in the goal and closes it by linear arithmetic. *)
Ltac zlen_lia :=
  autorewrite with zlist in *;
  repeat match goal with
  | |- context [zlen ?l] =>
      lazymatch goal with H : 0 <= zlen l |- _ => fail | _ => pose proof (zlen_nonneg l) end
  | _ : context [zlen ?l] |- _ =>
      lazymatch goal with H : 0 <= zlen l |- _ => fail | _ => pose proof (zlen_nonneg l) end
  end; try lia.

(** ** Lists grown at the back ([push_back], queues) *)

Section Lists.
Context {A : Type}.
Implicit Types l : list A.

Lemma prefix_app_inv l1 l2 l3 : l1 `prefix_of` l2 -> l1 `prefix_of` l2 ++ l3.
Proof. intros [k ->]. exists (k ++ l3). by rewrite app_assoc. Qed.

Lemma NoDup_snoc l x : NoDup l -> x ∉ l -> NoDup (l ++ [x]).
Proof.
  intros Hl Hx. apply NoDup_app. split; [done |]. split.
  - intros y Hy ->%list_elem_of_singleton. done.
  - apply NoDup_singleton.
Qed.

End Lists.

(** ** Booleans and decisions *)

(** Turns boolean comparisons in hypotheses into propositions. *)
Ltac b2p :=
  repeat match goal with
  | H : negb _ = true |- _ => apply negb_true_iff in H
  | H : negb _ = false |- _ => apply negb_false_iff in H
  | H : andb _ _ = true |- _ => apply andb_true_iff in H; destruct H
  | H : andb _ _ = false |- _ => apply andb_false_iff in H
  | H : orb _ _ = true |- _ => apply orb_true_iff in H
  | H : orb _ _ = false |- _ => apply orb_false_iff in H; destruct H
  | H : Z.eqb _ _ = true |- _ => apply Z.eqb_eq in H
  | H : Z.eqb _ _ = false |- _ => apply Z.eqb_neq in H
  | H : Z.ltb _ _ = true |- _ => apply Z.ltb_lt in H
  | H : Z.ltb _ _ = false |- _ => apply Z.ltb_ge in H
  | H : Z.leb _ _ = true |- _ => apply Z.leb_le in H
  | H : Z.leb _ _ = false |- _ => apply Z.leb_gt in H
  | H : bool_decide _ = true |- _ => apply bool_decide_eq_true in H
  | H : bool_decide _ = false |- _ => apply bool_decide_eq_false in H
  end.

(** Evaluates the comparisons of the goal that linear arithmetic decides. *)
Ltac zb_eval :=
  repeat match goal with
  | |- context [?a =? ?b] =>
      first [rewrite (proj2 (Z.eqb_neq a b)) by lia | rewrite (proj2 (Z.eqb_eq a b)) by lia]
  | |- context [?a <? ?b] =>
      first [rewrite (proj2 (Z.ltb_ge a b)) by lia | rewrite (proj2 (Z.ltb_lt a b)) by lia]
  | |- context [?a <=? ?b] =>
      first [rewrite (proj2 (Z.leb_gt a b)) by lia | rewrite (proj2 (Z.leb_le a b)) by lia]
  end; cbn [negb andb orb].

(** Splits on the conditions of the [if]s of the goal and of hypotheses. *)
Ltac if_cases :=
  repeat match goal with
  | |- context [if ?b then _ else _] => let E := fresh "E" in destruct b eqn:E
  | H : context [if ?b then _ else _] |- _ => let E := fresh "E" in destruct b eqn:E
  end; b2p.

(** ** Reachability *)

Section Reach.
Context {S : Type} (step : S -> S -> Prop).

Inductive star : S -> S -> Prop :=
| star_refl s : star s s
| star_step s1 s2 s3 : star s1 s2 -> step s2 s3 -> star s1 s3.

(** An invariant that every step preserves holds in each reachable state. *)
Lemma star_invariant (I : S -> Prop) s1 s2 :
  (forall s s', I s -> step s s' -> I s') -> star s1 s2 -> I s1 -> I s2.
Proof. intros Hs H HI. induction H; [done |]. eauto. Qed.

End Reach.

(** ** Running a sequence of operations *)

Section Run.
Context {S O R : Type} (step : S -> O -> S * R).

(** The state after [ops] and the results in order. *)
Fixpoint run (s : S) (ops : list O) : S * list R :=
  match ops with
  | [] => (s, [])
  | o :: rest =>
      let '(s1, r) := step s o in
      let '(s2, rs) := run s1 rest in (s2, r :: rs)
  end.

End Run.

(** A relation kept by every pair of steps, with equal results, is kept by
    every run, with equal results. *)
Lemma run_simulation {S1 S2 O R} (step1 : S1 -> O -> S1 * R) (step2 : S2 -> O -> S2 * R)
    (ok : O -> Prop) (rel : S1 -> S2 -> Prop) :
  (forall s1 s2 o, ok o -> rel s1 s2 ->
     rel (step1 s1 o).1 (step2 s2 o).1 /\ (step1 s1 o).2 = (step2 s2 o).2) ->
  forall ops s1 s2, Forall ok ops -> rel s1 s2 ->
    rel (run step1 s1 ops).1 (run step2 s2 ops).1 /\
    (run step1 s1 ops).2 = (run step2 s2 ops).2.
Proof.
  intros Hstep ops. induction ops as [| o ops IH]; intros s1 s2 Hok Hr; [done |].
  inversion Hok; subst. simpl.
  destruct (Hstep s1 s2 o) as [Hr1 He]; [done | done |].
  destruct (step1 s1 o) as [s1' r1], (step2 s2 o) as [s2' r2]; simpl in *.
  destruct (IH s1' s2') as [Hr2 He2]; [done | done |].
  destruct (run step1 s1' ops), (run step2 s2' ops); simpl in *. by subst.
Qed.

(* ------------------------------------------------------------------ *)
(** ** Outcome of a call that reads memory

    [Done a s] returned with value [a] and object state [s]; [Failed] returned
    [false] and left the object as it was; [Undefined] read outside an array. *)

Inductive outcome (A S : Type) : Type :=
| Done (a : A) (s : S)
| Failed
| Undefined.

Arguments Done {_ _} _ _.
Arguments Failed {_ _}.
Arguments Undefined {_ _}.

(** [if (!call(...)) return false;] *)
Definition obind {A B S} (m : outcome A S) (f : A -> S -> outcome B S) : outcome B S :=
  match m with
  | Done a s => f a s
  | Failed => Failed
  | Undefined => Undefined
  end.

Notation "'let?' ( a , s ) := m 'in' f" :=
  (obind m (fun a s => f)) (at level 10, a name, s name, m at level 100, f at level 200).

(** The value of a memory access, [Undefined] when it was out of bounds. *)
Definition deref {A S} (v : option A) (s : S) : outcome A S :=
  match v with Some a => Done a s | None => Undefined end.
