(* ===== verification/Endian.v ===== *)
(** * Endian: big-endian integer encoding

    Models [engine/include/hypernet/protocol/Endian.hpp].  The store functions
    return the bytes they put in [out]; the load functions read [p[i]] with
    [at_] and are [None] when an index is outside the bytes [p] points at.

    [be_bytes] and [be_value] are the reference definitions (digits in base
    256, most significant first); the shift-and-mask code is proved equal to
    them, and the round trips follow from one induction. *)

From S2P Require Import Prelude.

Module Endian.

(* ------------------------------------------------------------------ *)
(** ** The code *)

(** [static_cast<std::uint8_t>((v >> k) & 0xFF)]. *)
Definition octet (v k : Z) : byte := z2b (Z.land (Z.shiftr v k) 255).

Definition storeU16Be (v : Z) : list byte := [octet v 8; octet v 0].

Definition storeU32Be (v : Z) : list byte :=
  [octet v 24; octet v 16; octet v 8; octet v 0].

Definition storeU64Be (v : Z) : list byte :=
  [octet v 56; octet v 48; octet v 40; octet v 32;
   octet v 24; octet v 16; octet v 8; octet v 0].

(** [p[i]], [None] outside the array. *)
Definition at_ (p : list byte) (i : nat) : option Z := b2z <$> p !! i.

(** The shifts of the load functions, at the width of the shifted type. *)
Definition shl32 (x k : Z) : Z := u32 (Z.shiftl x k).
Definition shl64 (x k : Z) : Z := u64 (Z.shiftl x k).

Definition loadU16Be (p : list byte) : option Z :=
  b0 ← at_ p 0; b1 ← at_ p 1;
  Some (u16 (Z.lor (shl32 b0 8) (shl32 b1 0))).

Definition loadU32Be (p : list byte) : option Z :=
  b0 ← at_ p 0; b1 ← at_ p 1; b2 ← at_ p 2; b3 ← at_ p 3;
  Some (Z.lor (Z.lor (Z.lor (shl32 b0 24) (shl32 b1 16)) (shl32 b2 8)) (shl32 b3 0)).

Definition loadU64Be (p : list byte) : option Z :=
  b0 ← at_ p 0; b1 ← at_ p 1; b2 ← at_ p 2; b3 ← at_ p 3;
  b4 ← at_ p 4; b5 ← at_ p 5; b6 ← at_ p 6; b7 ← at_ p 7;
  Some (Z.lor (Z.lor (Z.lor (Z.lor (Z.lor (Z.lor (Z.lor
    (shl64 b0 56) (shl64 b1 48)) (shl64 b2 40)) (shl64 b3 32))
    (shl64 b4 24)) (shl64 b5 16)) (shl64 b6 8)) (shl64 b7 0)).

(* ------------------------------------------------------------------ *)
(** ** Reference definitions *)

(** The [n] low base-256 digits of [v], most significant first. *)
Fixpoint be_bytes (n : nat) (v : Z) : list byte :=
  match n with
  | O => []
  | S m => be_bytes m (v / 256) ++ [z2b v]
  end.

(** The number a digit string stands for. *)
Definition be_value (l : list byte) : Z :=
  fold_left (fun acc x => acc * 256 + b2z x) l 0.

Lemma be_value_snoc l x : be_value (l ++ [x]) = be_value l * 256 + b2z x.
Proof. unfold be_value. by rewrite fold_left_app. Qed.

Lemma be_bytes_length n v : length (be_bytes n v) = n.
Proof.
  revert v. induction n as [| n IH]; intros v; [done |].
  simpl. rewrite length_app, IH. simpl. lia.
Qed.

Lemma be_value_bytes n v : be_value (be_bytes n v) = v mod 256 ^ Z.of_nat n.
Proof.
  revert v. induction n as [| n IH]; intros v.
  - by rewrite Z.mod_1_r.
  - cbn [be_bytes]. rewrite be_value_snoc, IH, b2z_z2b. unfold u8.
    rewrite Nat2Z.inj_succ, Z.pow_succ_r, Z.rem_mul_r by lia. lia.
Qed.

Lemma be_value_range l : 0 <= be_value l < 256 ^ zlen l.
Proof.
  induction l as [| x l IH] using rev_ind; [done |].
  rewrite be_value_snoc, zlen_app. pose proof (b2z_range x). pose proof (zlen_nonneg l).
  change (zlen [x]) with 1. rewrite Z.pow_add_r, Z.pow_1_r by lia. nia.
Qed.

Lemma be_bytes_value l : be_bytes (length l) (be_value l) = l.
Proof.
  induction l as [| x l IH] using rev_ind; [done |].
  rewrite length_app, Nat.add_comm, be_value_snoc. simpl.
  pose proof (b2z_range x).
  rewrite Z.div_add_l, (Z.div_small (b2z x)), Z.add_0_r, IH by lia.
  f_equal. f_equal. apply b2z_inj. rewrite b2z_z2b. unfold u8.
  rewrite Z.add_comm, Z.mod_add by lia. by apply Z.mod_small.
Qed.

(* ------------------------------------------------------------------ *)
(** ** The code computes the reference definitions *)

Lemma octet_div v k : 0 <= k -> octet v k = z2b (v / 2 ^ k).
Proof.
  intros. apply b2z_inj. unfold octet. rewrite !b2z_z2b. unfold u8.
  change 255 with (Z.ones 8). rewrite Z.land_ones, Z.shiftr_div_pow2 by lia.
  change (2 ^ 8) with 256. by rewrite Z.mod_mod by lia.
Qed.

(** One step of a load: the next lower octet. *)
Lemma lor_octet a x k :
  0 <= k -> 0 <= x < 256 ->
  Z.lor (a * 2 ^ (k + 8)) (x * 2 ^ k) = (a * 256 + x) * 2 ^ k.
Proof.
  intros Hk Hx. rewrite lor_low.
  - rewrite Z.pow_add_r by lia. change (2 ^ 8) with 256. lia.
  - lia.
  - rewrite Z.pow_add_r by lia. change (2 ^ 8) with 256. nia.
Qed.

Lemma shl_small x k w :
  0 <= k -> 0 <= x < 256 -> k + 8 <= w -> Z.shiftl x k mod 2 ^ w = x * 2 ^ k.
Proof.
  intros Hk Hx Hw. rewrite Z.shiftl_mul_pow2 by lia. apply Z.mod_small.
  assert (2 ^ (k + 8) <= 2 ^ w) by (apply Z.pow_le_mono_r; lia).
  rewrite Z.pow_add_r in H by lia. change (2 ^ 8) with 256 in H. nia.
Qed.

Lemma shl32_small x k : 0 <= k -> k + 8 <= 32 -> 0 <= x < 256 -> shl32 x k = x * 2 ^ k.
Proof. intros. by apply (shl_small x k 32). Qed.

Lemma shl64_small x k : 0 <= k -> k + 8 <= 64 -> 0 <= x < 256 -> shl64 x k = x * 2 ^ k.
Proof. intros. by apply (shl_small x k 64). Qed.

(** Collapses a chain of or-ed octets into a sum, from the left. *)
Ltac collapse_octets :=
  repeat match goal with
  | |- context [Z.lor (?a * 2 ^ ?k1) (?x * 2 ^ ?k2)] =>
      replace (Z.lor (a * 2 ^ k1) (x * 2 ^ k2)) with ((a * 256 + x) * 2 ^ k2)
        by (symmetry; apply (lor_octet a x k2); [lia | apply b2z_range])
  end.

Lemma storeU16Be_eq v : storeU16Be v = be_bytes 2 v.
Proof. unfold storeU16Be. rewrite !octet_div by lia. simpl. by rewrite Z.div_1_r. Qed.

Lemma storeU32Be_eq v : storeU32Be v = be_bytes 4 v.
Proof.
  unfold storeU32Be. rewrite !octet_div by lia. simpl.
  by rewrite !Z.div_div, Z.div_1_r by lia.
Qed.

Lemma storeU64Be_eq v : storeU64Be v = be_bytes 8 v.
Proof.
  unfold storeU64Be. rewrite !octet_div by lia. simpl.
  by rewrite !Z.div_div, Z.div_1_r by lia.
Qed.

Lemma loadU16Be_eq b0 b1 rest : loadU16Be (b0 :: b1 :: rest) = Some (be_value [b0; b1]).
Proof.
  unfold loadU16Be; simpl. f_equal. pose proof (b2z_range b0). pose proof (b2z_range b1).
  rewrite !shl32_small by (lia || apply b2z_range). collapse_octets.
  unfold u16, be_value; simpl. rewrite Z.mod_small; lia.
Qed.

Lemma loadU32Be_eq b0 b1 b2 b3 rest :
  loadU32Be (b0 :: b1 :: b2 :: b3 :: rest) = Some (be_value [b0; b1; b2; b3]).
Proof.
  unfold loadU32Be; simpl. f_equal.
  rewrite !shl32_small by (lia || apply b2z_range). collapse_octets.
  unfold be_value; simpl. lia.
Qed.

Lemma loadU64Be_eq b0 b1 b2 b3 b4 b5 b6 b7 rest :
  loadU64Be (b0 :: b1 :: b2 :: b3 :: b4 :: b5 :: b6 :: b7 :: rest) =
  Some (be_value [b0; b1; b2; b3; b4; b5; b6; b7]).
Proof.
  unfold loadU64Be; simpl. f_equal.
  rewrite !shl64_small by (lia || apply b2z_range). collapse_octets.
  unfold be_value; simpl. lia.
Qed.

(** A load of [n] octets from a list reads its first [n] bytes. *)
Lemma loadU16Be_spec l : 2 <= zlen l -> loadU16Be l = Some (be_value (ztake 2 l)).
Proof.
  intros H. destruct l as [| b0 [| b1 l]]; [by zlen_lia.. |]. apply loadU16Be_eq.
Qed.

Lemma loadU32Be_spec l : 4 <= zlen l -> loadU32Be l = Some (be_value (ztake 4 l)).
Proof.
  intros H. destruct l as [| b0 [| b1 [| b2 [| b3 l]]]]; [by zlen_lia.. |].
  apply loadU32Be_eq.
Qed.

Lemma loadU64Be_spec l : 8 <= zlen l -> loadU64Be l = Some (be_value (ztake 8 l)).
Proof.
  intros H.
  destruct l as [| b0 [| b1 [| b2 [| b3 [| b4 [| b5 [| b6 [| b7 l]]]]]]]]; [by zlen_lia.. |].
  apply loadU64Be_eq.
Qed.

(** Loading what was stored, whatever follows it. *)
Lemma load_storeU16 v rest : 0 <= v < U16 -> loadU16Be (storeU16Be v ++ rest) = Some v.
Proof.
  intros H. unfold storeU16Be; cbn [app]. rewrite loadU16Be_eq.
  fold (storeU16Be v). rewrite storeU16Be_eq, be_value_bytes. f_equal. by apply Z.mod_small.
Qed.

Lemma load_storeU32 v rest : 0 <= v < U32 -> loadU32Be (storeU32Be v ++ rest) = Some v.
Proof.
  intros H. unfold storeU32Be; cbn [app]. rewrite loadU32Be_eq.
  fold (storeU32Be v). rewrite storeU32Be_eq, be_value_bytes. f_equal. by apply Z.mod_small.
Qed.

Lemma load_storeU64 v rest : 0 <= v < U64 -> loadU64Be (storeU64Be v ++ rest) = Some v.
Proof.
  intros H. unfold storeU64Be; cbn [app]. rewrite loadU64Be_eq.
  fold (storeU64Be v). rewrite storeU64Be_eq, be_value_bytes. f_equal. by apply Z.mod_small.
Qed.

Lemma zlen_storeU16 v : zlen (storeU16Be v) = 2. Proof. done. Qed.
Lemma zlen_storeU32 v : zlen (storeU32Be v) = 4. Proof. done. Qed.
Lemma zlen_storeU64 v : zlen (storeU64Be v) = 8. Proof. done. Qed.

#[export] Hint Rewrite zlen_storeU16 zlen_storeU32 zlen_storeU64 : zlist.

(** A loaded value is in the range of its type. *)
Lemma loadU32Be_range l v : loadU32Be l = Some v -> 0 <= v < U32.
Proof.
  intros H. destruct l as [| b0 [| b1 [| b2 [| b3 l]]]]; try done.
  rewrite loadU32Be_eq in H. injection H as <-.
  apply (be_value_range [b0; b1; b2; b3]).
Qed.

(* ------------------------------------------------------------------ *)
(** ** Theorems *)

(** At each width the store and load functions are inverse: a value in
    range is loaded back from its stored bytes, whatever bytes follow, and the
    bytes a value was loaded from are the bytes stored for it (so the encoding
    is unique); the stored bytes are the base-256 digits, most significant first. *)
Theorem endian_roundtrip :
  (forall v rest, 0 <= v < U16 -> loadU16Be (storeU16Be v ++ rest) = Some v) /\
  (forall v rest, 0 <= v < U32 -> loadU32Be (storeU32Be v ++ rest) = Some v) /\
  (forall v rest, 0 <= v < U64 -> loadU64Be (storeU64Be v ++ rest) = Some v) /\
  (forall p v, zlen p = 2 -> loadU16Be p = Some v -> storeU16Be v = p) /\
  (forall p v, zlen p = 4 -> loadU32Be p = Some v -> storeU32Be v = p) /\
  (forall p v, zlen p = 8 -> loadU64Be p = Some v -> storeU64Be v = p) /\
  (forall v, storeU16Be v = be_bytes 2 v /\ storeU32Be v = be_bytes 4 v /\
             storeU64Be v = be_bytes 8 v).
Proof.
  split_and!; eauto using load_storeU16, load_storeU32, load_storeU64.
  - intros p v Hp Hv. rewrite loadU16Be_spec in Hv by lia. injection Hv as <-.
    rewrite ztake_ge, storeU16Be_eq by lia.
    replace 2%nat with (length p) by (unfold zlen in *; lia). apply be_bytes_value.
  - intros p v Hp Hv. rewrite loadU32Be_spec in Hv by lia. injection Hv as <-.
    rewrite ztake_ge, storeU32Be_eq by lia.
    replace 4%nat with (length p) by (unfold zlen in *; lia). apply be_bytes_value.
  - intros p v Hp Hv. rewrite loadU64Be_spec in Hv by lia. injection Hv as <-.
    rewrite ztake_ge, storeU64Be_eq by lia.
    replace 8%nat with (length p) by (unfold zlen in *; lia). apply be_bytes_value.
  - auto using storeU16Be_eq, storeU32Be_eq, storeU64Be_eq.
Qed.

End Endian.
