(* ===== verification/TaskQueue.v ===== *)
(** * TaskQueue: the queue of a worker under its spin lock

    Models [SpinLock], [SpinLockGuard] and [TaskQueue] at the level of their
    memory accesses: the lock is a flag that [test_and_set] reads and sets in
    one step, the queue is plain memory that a thread reads in one step and
    writes in another.  Any number of threads run any programs of [push] and
    [tryPop], interleaved in any order.

    The theorem is the contract the other components rely on (they treat a
    push or a pop as one step): every run is a run of an atomic queue. *)

From S2P Require Import Prelude.

Module TaskQueue.

Section TaskQueue.
Context {T : Type}.

(* ------------------------------------------------------------------ *)
(** ** The lock *)

(** [flag_.test_and_set()]: the value before, and the flag after. *)
Definition test_and_set (flag_ : bool) : bool * bool := (flag_, true).

(** [try_lock]: whether the lock was taken. *)
Definition try_lock (flag_ : bool) : bool * bool :=
  let '(was, flag_) := test_and_set flag_ in (negb was, flag_).

Definition unlock (flag_ : bool) : bool := false.

(* ------------------------------------------------------------------ *)
(** ** The queue *)

Inductive op := Push (task : T) | TryPop.

(** [tryPop] returns [false], or [true] with the task in [outTask]. *)
Inductive result := Pushed | Popped (out : option T).

(** Where a thread is in its current call: outside, in the loop of [lock], in
    the critical section before its first access and after it (with what it
    read), and at the guard's destructor with the result to return. *)
Inductive place :=
| Outside
| Locking (o : op)
| Entered (o : op)
| Read (o : op) (seen : list T)
| Leaving (r : result).

Record thread := mk_thread { todo : list op; at_ : place; results : list result }.

Record state := mk_state { flag_ : bool; queue_ : list T; threads : list thread }.

(** One step of thread [th].  The guard's constructor runs [lock], whose loop
    repeats [test_and_set]; [push] and [tryPop] read the queue and write it
    back. *)
Definition thread_step (f : bool) (q : list T) (th : thread) : option (bool * list T * thread) :=
  match at_ th with
  | Outside =>
      match todo th with
      | [] => None
      | o :: rest => Some (f, q, mk_thread rest (Locking o) (results th))
      end
  | Locking o =>
      let '(was, f) := test_and_set f in
      Some (f, q, mk_thread (todo th) (if was then Locking o else Entered o) (results th))
  | Entered o =>
      match o, q with
      | TryPop, [] => Some (f, q, mk_thread (todo th) (Leaving (Popped None)) (results th))
      | _, _ => Some (f, q, mk_thread (todo th) (Read o q) (results th))
      end
  | Read (Push task) seen => Some (f, seen ++ [task], mk_thread (todo th) (Leaving Pushed) (results th))
  | Read TryPop seen => Some (f, tail seen, mk_thread (todo th) (Leaving (Popped (head seen))) (results th))
  | Leaving r => Some (unlock f, q, mk_thread (todo th) Outside (results th ++ [r]))
  end.

Definition step (s : state) (i : nat) : option state :=
  th ← threads s !! i;
  '(f, q, th) ← thread_step (flag_ s) (queue_ s) th;
  Some (mk_state f q (<[i := th]> (threads s))).

Fixpoint run (s : state) (sched : list nat) : option state :=
  match sched with
  | [] => Some s
  | i :: rest => s ← step s i; run s rest
  end.

Definition start (progs : list (list op)) : state := mk_state false [] (map (fun p => mk_thread p Outside []) progs).

(* ------------------------------------------------------------------ *)
(** ** The atomic queue *)

Definition apply (o : op) (q : list T) : result * list T :=
  match o with
  | Push task => (Pushed, q ++ [task])
  | TryPop => (Popped (head q), tail q)
  end.

(** A thread of the specification: what it still has to do and its results. *)
Record athread := mk_athread { a_todo : list op; a_results : list result }.
Record astate := mk_astate { a_queue : list T; a_threads : list athread }.

Definition astep (a : astate) (i : nat) : option astate :=
  th ← a_threads a !! i;
  match a_todo th with
  | [] => None
  | o :: rest =>
      let '(r, q) := apply o (a_queue a) in
      Some (mk_astate q (<[i := mk_athread rest (a_results th ++ [r])]> (a_threads a)))
  end.

Fixpoint arun (a : astate) (sched : list nat) : option astate :=
  match sched with
  | [] => Some a
  | i :: rest => a ← astep a i; arun a rest
  end.

Definition astart (progs : list (list op)) : astate := mk_astate [] (map (fun p => mk_athread p []) progs).

(* ------------------------------------------------------------------ *)
(** ** The simulation *)

(** What the specification has seen of a thread: a call counts once its access
    that decides is done. *)
Definition view (th : thread) : athread :=
  match at_ th with
  | Outside => mk_athread (todo th) (results th)
  | Locking o | Entered o | Read o _ => mk_athread (o :: todo th) (results th)
  | Leaving r => mk_athread (todo th) (results th ++ [r])
  end.

Definition abstract (s : state) : astate := mk_astate (queue_ s) (map view (threads s)).

(** A thread that has the lock. *)
Definition inside (th : thread) : bool :=
  match at_ th with Entered _ | Read _ _ | Leaving _ => true | _ => false end.

(** The flag is set exactly while one thread is inside, no two threads are,
    and what a thread has read is still in the queue. *)
Record inv (s : state) : Prop := {
  inv_flag : flag_ s = true <-> exists i th, threads s !! i = Some th /\ inside th = true;
  inv_one : forall i j thi thj, threads s !! i = Some thi -> threads s !! j = Some thj ->
    inside thi = true -> inside thj = true -> i = j;
  inv_seen : forall i th o seen, threads s !! i = Some th -> at_ th = Read o seen ->
    seen = queue_ s /\ (o = TryPop -> seen <> [])
}.

Lemma start_inv_queue progs : inv (start progs).
Proof.
  assert (forall i th, threads (start progs) !! i = Some th -> at_ th = Outside) as H.
  { intros i th E. cbn in E. rewrite list_lookup_fmap in E. by apply fmap_Some in E as (p & _ & ->). }
  split.
  - split; [done |]. intros (i & th & E & C). unfold inside in C. by rewrite (H i th E) in C.
  - intros i j thi thj E _ C. unfold inside in C. by rewrite (H i thi E) in C.
  - intros i th o seen E R. by rewrite (H i th E) in R.
Qed.

(** The invariant after a step of thread [i], from what the step did. *)
Lemma inv_update s i th f q th' : inv s -> threads s !! i = Some th ->
  (inside th' = true -> inside th = true \/ flag_ s = false) ->
  (inside th = false -> q = queue_ s) ->
  (forall o seen, at_ th' = Read o seen -> seen = q /\ (o = TryPop -> seen <> [])) ->
  f = (if inside th' then true else if inside th then false else flag_ s) ->
  inv (mk_state f q (<[i := th']> (threads s))).
Proof.
  intros [If Io Is] E Hin Hq Hs ->.
  assert (Lk : forall j thj, <[i := th']> (threads s) !! j = Some thj -> (j = i /\ thj = th') \/ (j <> i /\ threads s !! j = Some thj)).
  { intros j thj. rewrite list_lookup_insert. destruct (decide _) as [[-> _] |]; [by intros [= <-]; left |]. destruct (decide (j = i)) as [-> |]; [| by right].
    intros Ej. exfalso. pose proof (lookup_lt_Some _ _ _ E). naive_solver. }
  assert (<[i := th']> (threads s) !! i = Some th') as Li by (apply list_lookup_insert_eq; by eapply lookup_lt_Some).
  assert (forall j thj, j <> i -> threads s !! j = Some thj -> inside thj = true -> inside th' = false /\ inside th = false) as Alone.
  { intros j thj Nj Ej Cj. assert (inside th = false) as Ct by (destruct (inside th) eqn:?; [by destruct Nj; apply (Io j i thj th) | done]).
    split; [| done]. destruct (inside th'); [| done]. destruct (Hin eq_refl) as [? | Ff]; [congruence |].
    assert (flag_ s = true) by (apply If; by exists j, thj). congruence. }
  split; cbn [flag_ queue_ threads].
  - split.
    + destruct (inside th') eqn:C'; [intros _; by exists i, th' |]. destruct (inside th) eqn:C; [done |].
      intros (j & thj & Ej & Cj)%If. exists j, thj. rewrite list_lookup_insert_ne; [done |]. intros ->. congruence.
    + intros (j & thj & Ej & Cj). destruct (Lk j thj Ej) as [[-> ->] | [Nj Ej']]; [by rewrite Cj |].
      destruct (Alone j thj Nj Ej' Cj) as [-> ->]. apply If. by exists j, thj.
  - intros j k thj thk Ej Ek Cj Ck.
    destruct (Lk j thj Ej) as [[-> ->] | [Nj Ej']], (Lk k thk Ek) as [[-> ->] | [Nk Ek']]; [done | | | by eapply Io].
    + destruct (Alone k thk Nk Ek' Ck). congruence.
    + destruct (Alone j thj Nj Ej' Cj). congruence.
  - intros j thj o seen Ej Rj. destruct (Lk j thj Ej) as [[-> ->] | [Nj Ej']]; [by apply Hs |].
    destruct (Alone j thj Nj Ej') as [_ C]; [unfold inside; by rewrite Rj |]. rewrite (Hq C). by apply (Is j thj).
Qed.

Lemma queue_step_inv s i s' : inv s -> step s i = Some s' -> inv s'.
Proof.
  intros I. unfold step. destruct (threads s !! i) as [th |] eqn:E; [| done]. cbn.
  pose proof (inv_flag _ I) as If. pose proof (inv_seen _ I i th) as Is.
  assert (inside th = true -> flag_ s = true) as Hf by (intros; apply If; by exists i, th).
  unfold thread_step. destruct (at_ th) as [| o | o | [t |] seen | r] eqn:A.
  1: destruct (todo th) as [| o rest]; [done |].
  3: destruct o as [t |], (queue_ s) as [| x q] eqn:Q.
  all: cbn; intros [= <-]; apply (inv_update s i th); unfold inside in *; cbn; rewrite ?A in *; try done.
  all: try (by intros ? ? [= <- <-]).
  all: try (by rewrite (Hf eq_refl)).
  all: destruct (flag_ s); auto; done.
Qed.

(** Each step is a step of the atomic queue or changes nothing it sees. *)
Lemma step_refines s i s' : inv s -> step s i = Some s' ->
  abstract s' = abstract s \/ astep (abstract s) i = Some (abstract s').
Proof.
  intros I. unfold step. destruct (threads s !! i) as [th |] eqn:E; [| done]. cbn.
  assert (Same : forall f th', view th' = view th -> abstract (mk_state f (queue_ s) (<[i := th']> (threads s))) = abstract s).
  { intros f th' V. unfold abstract; cbn. f_equal. rewrite list_fmap_insert, V. apply list_insert_id. by rewrite list_lookup_fmap, E. }
  assert (Atomic : forall f q o rest rs r th', view th = mk_athread (o :: rest) rs -> apply o (queue_ s) = (r, q) ->
    view th' = mk_athread rest (rs ++ [r]) -> astep (abstract s) i = Some (abstract (mk_state f q (<[i := th']> (threads s))))).
  { intros f q o rest rs r th' V Ha V'. unfold astep, abstract; cbn. rewrite list_lookup_fmap, E; cbn. rewrite V; cbn.
    rewrite Ha. by rewrite list_fmap_insert, V'. }
  unfold thread_step. destruct th as [td a rs]; cbn [at_ todo results] in *.
  destruct a as [| o | o | [t |] seen | r].
  - destruct td as [| o rest]; [done |]. intros [= <-]. left. by apply Same.
  - cbn. intros [= <-]. left. apply Same. by destruct (flag_ s).
  - destruct o as [t |]; [intros [= <-]; left; by apply Same |].
    destruct (queue_ s) as [| x q] eqn:Q; intros [= <-]; [right | left; rewrite <- Q in *; by apply Same].
    by eapply Atomic.
  - intros [= <-]. right. destruct (inv_seen _ I i _ _ _ E eq_refl) as [-> _]. by eapply Atomic.
  - intros [= <-]. right. destruct (inv_seen _ I i _ _ _ E eq_refl) as [-> _]. by eapply Atomic.
  - intros [= <-]. left. by apply Same.
Qed.

Lemma queue_run_inv sched : forall s s', inv s -> run s sched = Some s' -> inv s'.
Proof.
  induction sched as [| i sched IH]; cbn; intros s s' I E; [by simplify_eq |].
  apply bind_Some in E as (s1 & E1 & E). eapply IH, E. by eapply queue_step_inv.
Qed.

Lemma run_refines sched : forall s s', inv s -> run s sched = Some s' ->
  exists asched, arun (abstract s) asched = Some (abstract s').
Proof.
  induction sched as [| i sched IH]; cbn; intros s s' I E; [simplify_eq; by exists [] |].
  apply bind_Some in E as (s1 & E1 & E). destruct (IH s1 s' (queue_step_inv _ _ _ I E1) E) as [asched H].
  destruct (step_refines s i s1 I E1) as [<- | S]; [by exists asched |]. exists (i :: asched). cbn. by rewrite S.
Qed.

(* ------------------------------------------------------------------ *)
(** ** Progress *)

Definition finished (th : thread) : Prop := todo th = [] /\ at_ th = Outside.

#[export] Instance finished_dec th : Decision (finished th).
Proof. destruct th as [[] [] rs]; (left; split; reflexivity) || (right; intros [? ?]; discriminate). Defined.

(** Steps a thread still needs when nobody else has the lock. *)
Definition cost (th : thread) : nat :=
  5 * length (todo th) +
  match at_ th with Outside => 0 | Locking _ => 4 | Entered _ => 3 | Read _ _ => 2 | Leaving _ => 1 end.

Definition total_cost (s : state) : nat := sum_list_with cost (threads s).

Lemma sum_insert (f : thread -> nat) l i th th' : l !! i = Some th ->
  (sum_list_with f (<[i := th']> l) + f th = sum_list_with f l + f th')%nat.
Proof. revert i. induction l as [| x l IH]; intros [| i] E; simplify_eq/=; [lia |]. specialize (IH i E). lia. Qed.

(** Somebody can make a step that brings the end nearer: the thread that has
    the lock, or any thread when the lock is free. *)
Lemma step_closer s : inv s -> ~ Forall finished (threads s) ->
  exists i s', step s i = Some s' /\ (total_cost s' < total_cost s)%nat.
Proof.
  intros I N.
  assert (exists i th, threads s !! i = Some th /\ ~ finished th /\ (inside th = true \/ flag_ s = false)) as (i & th & E & Nf & L).
  { destruct (flag_ s) eqn:F.
    - destruct (proj1 (inv_flag _ I) F) as (i & th & E & C). exists i, th. split_and!; auto. intros [_ O]. unfold inside in C. by rewrite O in C.
    - apply not_Forall_Exists in N; [| intros th; destruct (finished_dec th); [by left | by right]].
      apply Exists_exists in N as (th & (i & E)%list_elem_of_lookup & Nf). exists i, th. auto. }
  assert (exists f q th', thread_step (flag_ s) (queue_ s) th = Some (f, q, th') /\ (cost th' < cost th)%nat) as (f & q & th' & S & C).
  { destruct th as [td a rs]; unfold thread_step, cost, inside, finished in *; cbn in *.
    destruct a as [| o | o | [t |] seen | r]; cbn.
    - destruct td as [| o rest]; [naive_solver |]. do 3 eexists. split; [done | cbn; lia].
    - destruct L as [? | ->]; [done |]. do 3 eexists. split; [done | cbn; lia].
    - destruct o, (queue_ s); do 3 eexists; (split; [done | cbn; lia]).
    - do 3 eexists. split; [done | cbn; lia].
    - do 3 eexists. split; [done | cbn; lia].
    - do 3 eexists. split; [done | cbn; lia]. }
  exists i, (mk_state f q (<[i := th']> (threads s))). unfold step. rewrite E; cbn. rewrite S; cbn. split; [done |].
  pose proof (sum_insert cost (threads s) i th th' E). unfold total_cost; cbn. lia.
Qed.

Lemma can_finish n : forall s, inv s -> (total_cost s <= n)%nat ->
  exists sched s', run s sched = Some s' /\ (length sched <= n)%nat /\ Forall finished (threads s').
Proof.
  induction n as [| n IH]; intros s I C.
  all: destruct (decide (Forall finished (threads s))) as [F | F].
  1,3: exists [], s; split_and!; cbn; done || lia.
  - destruct (step_closer s I F) as (i & s' & _ & L). lia.
  - destruct (step_closer s I F) as (i & s1 & E & L). destruct (IH s1) as (sched & s' & R & Ln & Fin); [by eapply queue_step_inv | lia |].
    exists (i :: sched), s'. cbn. rewrite E. cbn. split_and!; [done | lia | done].
Qed.

(** C15: under any interleaving the queue behind the spin lock is an atomic
    queue: the results of all calls and the contents are those of some order
    of whole pushes and pops in which each thread keeps its own order; no two
    threads are ever inside together; and from every state all threads can
    finish, within five steps for each call that is left. *)
Theorem task_queue_is_atomic progs sched s : run (start progs) sched = Some s ->
  (exists asched, arun (astart progs) asched = Some (mk_astate (queue_ s) (map view (threads s)))) /\
  (forall i j thi thj, threads s !! i = Some thi -> threads s !! j = Some thj ->
     inside thi = true -> inside thj = true -> i = j) /\
  (exists sched' s', run s sched' = Some s' /\ (length sched' <= total_cost s)%nat /\ Forall finished (threads s')).
Proof.
  intros R. pose proof (start_inv_queue progs) as I0. pose proof (queue_run_inv _ _ _ I0 R) as I. split_and!.
  - destruct (run_refines _ _ _ I0 R) as [asched H]. exists asched. unfold abstract in H. rewrite <- H.
    unfold astart, start; cbn. by rewrite map_map.
  - apply I.
  - by apply can_finish.
Qed.

End TaskQueue.

Arguments op : clear implicits.
Arguments result : clear implicits.

(** Two producers and a consumer; the second producer finds the lock taken. *)
Definition demo_progs : list (list (op Z)) := [[Push 1]; [Push 2]; [TryPop; TryPop]].
Definition demo_sched : list nat := [0; 0; 1; 1; 0; 1; 0; 0; 1; 1; 2; 1; 1; 2; 2; 2; 2; 2]%nat.

Lemma task_queue_is_atomic_witness : exists s, run (start demo_progs) demo_sched = Some s /\ queue_ s = [2] /\
  (exists asched, arun (astart demo_progs) asched = Some (mk_astate (queue_ s) (map view (threads s)))) /\
  (forall i j thi thj, threads s !! i = Some thi -> threads s !! j = Some thj ->
     inside thi = true -> inside thj = true -> i = j) /\
  (exists sched' s', run s sched' = Some s' /\ (length sched' <= total_cost s)%nat /\ Forall finished (threads s')).
Proof.
  eexists. split; [vm_compute; reflexivity |]. split; [vm_compute; reflexivity |].
  apply (task_queue_is_atomic demo_progs demo_sched). vm_compute; reflexivity.
Defined.

End TaskQueue.
