(* ===== verification/Socket.v ===== *)
(** * Socket: the owner of a descriptor

    Models [net/Socket.hpp] and [net/Socket.cpp]: every constructor, the move
    operations, the destructor and all calls, over a table of the process's
    open descriptors.

    A [Socket] variable is a name in [objs] with the value of its [fd_].  The
    kernel gives a new descriptor the lowest number that is not open, so a
    number is used again as soon as it is closed.  What each system call
    answers is read from [script] and stands for any behaviour of the kernel;
    when the script ends, calls succeed.  Descriptors that other components
    hold are in [foreign]; a close of a number that is not open, or of a
    foreign one, sets [misuse]. *)

From stdpp Require Import strings.
From S2P Require Import Prelude.

Module Socket.

(* ------------------------------------------------------------------ *)
(** ** The kernel *)

Definition EBADF : Z := 9.
Definition EINVAL : Z := 22.
Definition ENOSYS : Z := 38.
Definition O_NONBLOCK : Z := 2048.

Inductive family := AF_INET | AF_INET6.
Inductive sockopt := SO_REUSEADDR | SO_REUSEPORT | TCP_NODELAY.

#[export] Instance family_eq_dec : EqDecision family.
Proof. solve_decision. Defined.
#[export] Instance sockopt_eq_dec : EqDecision sockopt.
Proof. solve_decision. Defined.

(** A [sockaddr_in]: the port is kept in network byte order. *)
Record sockaddr := mk_addr { sin_addr : Z; sin_port : Z }.

#[export] Instance sockaddr_eq_dec : EqDecision sockaddr.
Proof. solve_decision. Defined.

(** [htons] and [ntohs] on a little-endian target swap the two bytes. *)
Definition swap16 (p : Z) : Z := Z.lor (u16 (Z.shiftl p 8)) (Z.shiftr p 8).
Definition htons : Z -> Z := swap16.
Definition ntohs : Z -> Z := swap16.

(** An open descriptor. *)
Record descr := mk_descr {
  d_family : family;
  d_flags : Z;                    (** the flags of [fcntl] *)
  d_opts : list sockopt;          (** the options that are on *)
  d_bound : option sockaddr;
  d_backlog : option Z;           (** set by [listen] *)
  d_peer : option sockaddr
}.

Definition fresh_descr (f : family) (flags : Z) : descr := mk_descr f flags [] None None None.
Definition with_flags d flags := mk_descr (d_family d) flags (d_opts d) (d_bound d) (d_backlog d) (d_peer d).
Definition with_opt d (o : sockopt) (on : bool) :=
  mk_descr (d_family d) (d_flags d) ((if on then [o] else []) ++ filter (fun o' => o' <> o) (d_opts d)) (d_bound d) (d_backlog d) (d_peer d).
Definition with_bound d a := mk_descr (d_family d) (d_flags d) (d_opts d) (Some a) (d_backlog d) (d_peer d).
Definition with_backlog d n := mk_descr (d_family d) (d_flags d) (d_opts d) (d_bound d) (Some n) (d_peer d).
Definition with_peer d a := mk_descr (d_family d) (d_flags d) (d_opts d) (d_bound d) (d_backlog d) (Some a).

(** What the kernel says to one call: success, with a number where the call
    has one to return, or an errno. *)
Inductive answer := Fine (n : N) | Fails (e : Z).

Record world := mk_world {
  fds : gmap Z descr;
  objs : gmap nat Z;
  errno : Z;
  script : list answer;
  foreign : gset Z;
  misuse : bool
}.

Definition set_fds w m := mk_world m (objs w) (errno w) (script w) (foreign w) (misuse w).
Definition set_objs w m := mk_world (fds w) m (errno w) (script w) (foreign w) (misuse w).
Definition set_errno w e := mk_world (fds w) (objs w) e (script w) (foreign w) (misuse w).
Definition set_script w l := mk_world (fds w) (objs w) (errno w) l (foreign w) (misuse w).
Definition set_foreign w s := mk_world (fds w) (objs w) (errno w) (script w) s (misuse w).
Definition set_misuse w := mk_world (fds w) (objs w) (errno w) (script w) (foreign w) true.

(** Effects on the world. *)
Definition M (A : Type) : Type := world -> A * world.
Definition ret {A} (a : A) : M A := fun w => (a, w).
Definition after {A B} (m : M A) (f : A -> M B) : M B := fun w => let '(a, w) := m w in f a w.
Notation "x <-- m ; k" := (after m (fun x => k)) (at level 100, m at level 99, k at level 200, right associativity).
Notation "m ;;; k" := (after m (fun _ => k)) (at level 100, k at level 200, right associativity).
Definition modify (f : world -> world) : M unit := fun w => (tt, f w).
Definition gets {A} (f : world -> A) : M A := fun w => (f w, w).

(** The lowest number that is not open. *)
Definition lowest (m : gmap Z descr) : Z :=
  match list_find (fun n => m !! n = None) (seqZ 0 (Z.of_nat (S (size m)))) with
  | Some (_, n) => n
  | None => 0
  end.

(** The next answer, with [errno] set when it is an error. *)
Definition ask : M (option Z) := fun w =>
  match script w with
  | [] => (Some 0, w)
  | Fine n :: rest => (Some (Z.of_N n), set_script w rest)
  | Fails e :: rest => (None, set_errno (set_script w rest) e)
  end.

(** A call that makes a new descriptor. *)
Definition sys_new (d : descr) : M Z :=
  r <-- ask;
  match r with
  | None => ret (-1)
  | Some _ => fun w => let fd := lowest (fds w) in (fd, set_fds w (<[fd := d]> (fds w)))
  end.

(** A call on descriptor [fd] that changes it by [f] when it succeeds. *)
Definition sys_on (fd : Z) (f : descr -> descr) : M Z :=
  d <-- gets (fun w => fds w !! fd);
  match d with
  | None => modify (fun w => set_errno w EBADF);;; ret (-1)
  | Some d =>
      r <-- ask;
      match r with
      | None => ret (-1)
      | Some n => modify (fun w => set_fds w (<[fd := f d]> (fds w)));;; ret n
      end
  end.

(** [close(2)]. *)
Definition sys_close (fd : Z) : M unit := fun w =>
  match fds w !! fd with
  | None => (tt, set_misuse (set_errno w EBADF))
  | Some _ =>
      let w := if decide (fd ∈ foreign w) then set_misuse w else w in
      (tt, set_foreign (set_fds w (delete fd (fds w))) (foreign w ∖ {[fd]}))
  end.

(* ------------------------------------------------------------------ *)
(** ** The class *)

Definition fd_ (x : nat) : M Z := gets (fun w => default (-1) (objs w !! x)).
Definition set_fd_ (x : nat) (fd : Z) : M unit := modify (fun w => set_objs w (<[x := fd]> (objs w))).

(** [isValid]. *)
Definition isValid (x : nat) : M bool := fd <-- fd_ x; ret (0 <=? fd).

(** [close]. *)
Definition close (x : nat) : M unit :=
  fd <-- fd_ x;
  if 0 <=? fd then sys_close fd;;; set_fd_ x (-1) else ret tt.

(** [Socket(fd)] and [Socket()]. *)
Definition construct (x : nat) (fd : Z) : M unit := set_fd_ x fd.

(** [~Socket]. *)
Definition destroy (x : nat) : M unit :=
  close x;;; modify (fun w => set_objs w (delete x (objs w))).

(** [Socket(Socket &&other)]. *)
Definition move_construct (x other : nat) : M unit :=
  fd <-- fd_ other; set_fd_ x fd;;; set_fd_ other (-1).

(** [operator=(Socket &&other)]. *)
Definition move_assign (x other : nat) : M unit :=
  if decide (x = other) then ret tt
  else close x;;; fd <-- fd_ other; set_fd_ x fd;;; set_fd_ other (-1).

(** [createTcpIPv4] and [createTcpIPv6]; the object returned is [x]. *)
Definition createTcp (f : family) (x : nat) : M unit :=
  fd <-- sys_new (fresh_descr f 0);
  if fd <? 0 then construct x (-1) else construct x fd.

(** The guard of every call: an object without descriptor sets [EBADF]. *)
Definition guarded {A} (x : nat) (bad : A) (k : Z -> M A) : M A :=
  fd <-- fd_ x;
  if 0 <=? fd then k fd else modify (fun w => set_errno w EBADF);;; ret bad.

Definition checked (m : M Z) : M bool := r <-- m; ret (negb (r =? -1)).

Definition setNonBlocking (x : nat) (enable : bool) : M bool :=
  guarded x false (fun fd =>
    r <-- sys_on fd (fun d => d);
    if r =? -1 then ret false
    else
      flags <-- gets (fun w => default 0 (d_flags <$> fds w !! fd));
      let newFlags := if enable then Z.lor flags O_NONBLOCK else Z.land flags (Z.lnot O_NONBLOCK) in
      checked (sys_on fd (fun d => with_flags d newFlags))).

Definition setOption (o : sockopt) (x : nat) (enable : bool) : M bool :=
  guarded x false (fun fd => checked (sys_on fd (fun d => with_opt d o enable))).
Definition setReuseAddr : nat -> bool -> M bool := setOption SO_REUSEADDR.
Definition setReusePort : nat -> bool -> M bool := setOption SO_REUSEPORT.
Definition setNoDelay : nat -> bool -> M bool := setOption TCP_NODELAY.

(** [bind(addr, len)] and [connect(addr, len)]. *)
Definition bind_addr (x : nat) (a : sockaddr) : M bool :=
  guarded x false (fun fd => checked (sys_on fd (fun d => with_bound d a))).
Definition connect_addr (x : nat) (a : sockaddr) : M bool :=
  guarded x false (fun fd => checked (sys_on fd (fun d => with_peer d a))).

Definition listen (x : nat) (backlog : Z) : M bool :=
  guarded x false (fun fd => checked (sys_on fd (fun d => with_backlog d backlog))).

(** [send] and [recv] hand over what the system call returns. *)
Definition send (x : nat) : M Z := guarded x (-1) (fun fd => sys_on fd (fun d => d)).
Definition recv (x : nat) : M Z := guarded x (-1) (fun fd => sys_on fd (fun d => d)).

(** [accept]: [accept4] with a fall-back for kernels without it; [x] is the
    object returned. *)
Definition accept (l x : nat) : M unit :=
  fd <-- fd_ l;
  if fd <? 0 then modify (fun w => set_errno w EBADF);;; construct x (-1)
  else
    newFd <-- sys_new (fresh_descr AF_INET O_NONBLOCK);
    e <-- gets errno;
    newFd <-- (if (newFd <? 0) && (e =? ENOSYS) then sys_new (fresh_descr AF_INET 0) else ret newFd);
    if newFd <? 0 then construct x (-1) else construct x newFd.

Section Text.
Context (inet_pton : string -> option Z).

(** [bind(ip, port)] and [connect(ip, port)]. *)
Definition by_name (call : nat -> sockaddr -> M bool) (x : nat) (ip : string) (port : Z) : M bool :=
  guarded x false (fun _ =>
    match inet_pton ip with
    | None => modify (fun w => set_errno w EINVAL);;; ret false
    | Some a => call x (mk_addr a (htons port))
    end).
Definition bind : nat -> string -> Z -> M bool := by_name bind_addr.
Definition connect : nat -> string -> Z -> M bool := by_name connect_addr.

(* ------------------------------------------------------------------ *)
(** ** Programs over sockets *)

(** What a program can do.  [Adopt]: [Socket{fd}] with a descriptor that came
    from elsewhere; [Elsewhere] and [CloseElsewhere]: other components open and
    close descriptors of their own. *)
Inductive op :=
| Default (x : nat)
| Adopt (x : nat) (fd : Z)
| Create (f : family) (x : nat)
| Accept (l x : nat)
| MoveConstruct (x other : nat)
| MoveAssign (x other : nat)
| Close (x : nat)
| Destroy (x : nat)
| NonBlocking (x : nat) (on : bool)
| Option_ (o : sockopt) (x : nat) (on : bool)
| Bind (x : nat) (ip : string) (port : Z)
| Connect (x : nat) (ip : string) (port : Z)
| Listen (x : nat) (backlog : Z)
| Send (x : nat)
| Recv (x : nat)
| Elsewhere (d : descr)
| CloseElsewhere (fd : Z).

(** The objects an operation uses, and the name it constructs. *)
Definition uses (o : op) : list nat :=
  match o with
  | Default _ | Adopt _ _ | Create _ _ | Elsewhere _ | CloseElsewhere _ => []
  | Accept l _ => [l]
  | MoveConstruct _ other => [other]
  | MoveAssign x other => [x; other]
  | Close x | Destroy x | NonBlocking x _ | Option_ _ x _ | Bind x _ _ | Connect x _ _ | Listen x _ | Send x | Recv x => [x]
  end.
Definition makes (o : op) : option nat :=
  match o with
  | Default x | Adopt x _ | Create _ x | Accept _ x | MoveConstruct x _ => Some x
  | _ => None
  end.

(** The rules of the language: objects are alive when used, names are free when
    an object is constructed there; a descriptor is adopted from, and closed
    by, the component that has it. *)
Definition allowed (w : world) (o : op) : bool :=
  forallb (fun x => bool_decide (is_Some (objs w !! x))) (uses o) &&
  match makes o with Some x => bool_decide (objs w !! x = None) | None => true end &&
  match o with Adopt _ fd | CloseElsewhere fd => bool_decide (fd ∈ foreign w) | _ => true end.

Definition perform (o : op) : M unit :=
  match o with
  | Default x => construct x (-1)
  | Adopt x fd => construct x fd;;; modify (fun w => set_foreign w (foreign w ∖ {[fd]}))
  | Create f x => createTcp f x
  | Accept l x => accept l x
  | MoveConstruct x other => move_construct x other
  | MoveAssign x other => move_assign x other
  | Close x => close x
  | Destroy x => destroy x
  | NonBlocking x on => setNonBlocking x on;;; ret tt
  | Option_ o x on => setOption o x on;;; ret tt
  | Bind x ip port => bind x ip port;;; ret tt
  | Connect x ip port => connect x ip port;;; ret tt
  | Listen x n => listen x n;;; ret tt
  | Send x => send x;;; ret tt
  | Recv x => recv x;;; ret tt
  | Elsewhere d =>
      fd <-- sys_new d;
      if fd <? 0 then ret tt else modify (fun w => set_foreign w ({[fd]} ∪ foreign w))
  | CloseElsewhere fd =>
      modify (fun w => set_foreign (set_fds w (delete fd (fds w))) (foreign w ∖ {[fd]}))
  end.

Definition step (w : world) (o : op) : option world :=
  if allowed w o then Some (snd (perform o w)) else None.

Fixpoint run (w : world) (ops : list op) : option world :=
  match ops with
  | [] => Some w
  | o :: rest => w ← step w o; run w rest
  end.

Definition start (answers : list answer) : world := mk_world ∅ ∅ 0 answers ∅ false.

End Text.

(* ------------------------------------------------------------------ *)
(** ** Ownership *)

(** Every object has no descriptor or one that is open, its own alone; every
    open descriptor has an owner. *)
Record inv (w : world) : Prop := {
  inv_own : forall x fd, objs w !! x = Some fd -> fd = -1 \/ (0 <= fd /\ is_Some (fds w !! fd) /\ fd ∉ foreign w);
  inv_one : forall x y fd, objs w !! x = Some fd -> objs w !! y = Some fd -> 0 <= fd -> x = y;
  inv_held : forall fd, is_Some (fds w !! fd) -> 0 <= fd /\ (fd ∈ foreign w \/ exists x, objs w !! x = Some fd);
  inv_out : forall fd, fd ∈ foreign w -> is_Some (fds w !! fd);
  inv_clean : misuse w = false
}.

Lemma lowest_spec m : m !! lowest m = None /\ 0 <= lowest m.
Proof.
  unfold lowest. destruct (list_find _ _) as [[i n] |] eqn:E.
  - apply list_find_Some in E as (L & N & _). apply lookup_seqZ in L. split; [done | lia].
  - exfalso. apply list_find_None in E. rewrite Forall_forall in E.
    assert (length (seqZ 0 (Z.of_nat (S (size m)))) <= size m)%nat as H; [| rewrite length_seqZ in H; lia].
    set (l := seqZ _ _) in *. rewrite <- (size_list_to_set (C := gset Z) l) by apply NoDup_seqZ. rewrite <- (size_dom m).
    apply subseteq_size. intros n Hn. apply elem_of_list_to_set in Hn. apply elem_of_dom.
    specialize (E n Hn). by destruct (m !! n).
Qed.

(** The two worlds differ only inside descriptors, in [errno] and the script. *)
Definition same (w w' : world) : Prop :=
  dom (fds w') = dom (fds w) /\ objs w' = objs w /\ foreign w' = foreign w /\ misuse w' = misuse w.

#[export] Instance same_preorder : PreOrder same.
Proof. split; [by intros w | intros w1 w2 w3 (? & ? & ? & ?) (? & ? & ? & ?); repeat split; congruence]. Qed.

Lemma same_inv w w' : same w w' -> inv w -> inv w'.
Proof.
  intros (D & O & F & U) [H1 H2 H3 H4 H5].
  assert (forall fd, is_Some (fds w' !! fd) <-> is_Some (fds w !! fd)) as L by (intros fd; by rewrite <- !elem_of_dom, D).
  split; try setoid_rewrite L; rewrite ?O, ?F, ?U; auto.
Qed.

(** Effects that keep to [same]. *)
Definition quiet {A} (m : M A) : Prop := forall w, same w (snd (m w)).

Lemma quiet_ret {A} (a : A) : quiet (ret a).
Proof. by intros w. Qed.

Lemma quiet_gets {A} (f : world -> A) : quiet (gets f).
Proof. by intros w. Qed.

Lemma quiet_after {A B} (m : M A) (f : A -> M B) : quiet m -> (forall a, quiet (f a)) -> quiet (after m f).
Proof.
  intros Hm Hf w. unfold after. specialize (Hm w). destruct (m w) as [a w1]. etrans; [exact Hm | apply Hf].
Qed.

Lemma quiet_errno e : quiet (modify (fun w => set_errno w e)).
Proof. by intros w. Qed.

Lemma quiet_ask : quiet ask.
Proof. intros w. unfold ask. by destruct (script w) as [| [] ]. Qed.

Create HintDb sock.
#[local] Hint Resolve @quiet_ret @quiet_gets @quiet_after quiet_errno quiet_ask : sock.

Lemma quiet_sys_on fd f : quiet (sys_on fd f).
Proof.
  intros w. unfold sys_on, after, gets. destruct (fds w !! fd) as [d |] eqn:E; [| done].
  pose proof (quiet_ask w) as H. destruct (ask w) as [[n |] w1]; [| done]. cbn in *.
  destruct H as (D & O & F & U). repeat split; try done. cbn. rewrite dom_insert_L.
  assert (fd ∈ dom (fds w1)) by (rewrite D; by eapply elem_of_dom_2). set_solver.
Qed.

Lemma quiet_fd x : quiet (fd_ x).
Proof. by intros w. Qed.
#[local] Hint Resolve quiet_sys_on quiet_fd : sock.

Lemma quiet_guarded {A} x (bad : A) k : (forall fd, quiet (k fd)) -> quiet (guarded x bad k).
Proof. intros H. unfold guarded. apply quiet_after; [auto with sock |]. intros fd. destruct (0 <=? fd); auto with sock. Qed.

Lemma quiet_checked m : quiet m -> quiet (checked m).
Proof. intros H. unfold checked. auto with sock. Qed.
#[local] Hint Resolve @quiet_guarded quiet_checked : sock.

Lemma quiet_setNonBlocking x on : quiet (setNonBlocking x on).
Proof.
  apply quiet_guarded. intros fd. apply quiet_after; [auto with sock |]. intros r. destruct (r =? -1); auto with sock.
Qed.

Lemma quiet_by_name inet call x ip port : (forall y a, quiet (call y a)) -> quiet (by_name inet call x ip port).
Proof. intros H. apply quiet_guarded. intros fd. destruct (inet ip); auto with sock. Qed.

(** ** What changes the owners *)

(** The name [x] holds no descriptor. *)
Definition empty_at (w : world) (x : nat) : Prop := objs w !! x = None \/ objs w !! x = Some (-1).

Lemma inv_name w x : inv w -> empty_at w x -> inv (set_objs w (<[x := -1]> (objs w))).
Proof.
  intros [H1 H2 H3 H4 H5] E. split; cbn; try done.
  - intros y fd. rewrite lookup_insert_Some. intros [[_ <-] | [_ L]]; [by left | by apply (H1 y)].
  - intros y z fd. rewrite !lookup_insert_Some. intros [[_ <-] | [_ Ly]] [[_ ?] | [_ Lz]] P; try lia. by apply (H2 y z fd).
  - intros fd P. destruct (H3 fd P) as [? [? | [y L]]]; split; auto. right. exists y.
    rewrite lookup_insert_ne; [done |]. intros ->. destruct E; simplify_eq/=. lia.
Qed.

Lemma inv_drop w x : inv w -> objs w !! x = Some (-1) -> inv (set_objs w (delete x (objs w))).
Proof.
  intros [H1 H2 H3 H4 H5] E. split; cbn; try done.
  - intros y fd [_ L]%lookup_delete_Some. by apply (H1 y).
  - intros y z fd [_ Ly]%lookup_delete_Some [_ Lz]%lookup_delete_Some. by apply H2.
  - intros fd P. destruct (H3 fd P) as [? [? | [y L]]]; split; auto. right. exists y.
    rewrite lookup_delete_ne; [done |]. intros ->. simplify_eq. lia.
Qed.

Lemma inv_move w x y fd : inv w -> x <> y -> empty_at w x -> objs w !! y = Some fd ->
  inv (set_objs w (<[y := -1]> (<[x := fd]> (objs w)))).
Proof.
  intros [H1 H2 H3 H4 H5] N E L.
  assert (Lk : forall z g, <[y := -1]> (<[x := fd]> (objs w)) !! z = Some g ->
    g = -1 \/ (z = x /\ g = fd) \/ (z <> x /\ z <> y /\ objs w !! z = Some g)).
  { intros z g. rewrite !lookup_insert_Some. intros [[_ <-] | [? [[<- <-] | [? ?]]]]; auto. }
  split; cbn; try done.
  - intros z g [-> | [[-> ->] | (_ & _ & Lz)]]%Lk; [by left | by apply (H1 y) | by apply (H1 z)].
  - intros z z' g [-> | [[-> ->] | (Nx & Ny & Lz)]]%Lk [? | [[-> ?] | (Nx' & Ny' & Lz')]]%Lk P; try lia; simplify_eq.
    + by destruct Ny'; apply (H2 z' y fd).
    + by destruct Ny; apply (H2 z y fd).
    + by apply (H2 z z' g).
  - intros g P. destruct (H3 g P) as [Pg [? | [z Lz]]]; split; auto. right.
    destruct (decide (z = y)) as [-> | Nz]; simplify_eq.
    + exists x. by rewrite lookup_insert_ne, lookup_insert_eq.
    + exists z. rewrite lookup_insert_ne by done. rewrite lookup_insert_ne; [done |]. intros ->. destruct E; simplify_eq.
Qed.

(** A descriptor that was just opened and the object or component that gets
    it. *)
Lemma inv_open w x d : inv w -> empty_at w x -> let fd := lowest (fds w) in
  inv (set_objs (set_fds w (<[fd := d]> (fds w))) (<[x := fd]> (objs w))).
Proof.
  intros [H1 H2 H3 H4 H5] E fd. destruct (lowest_spec (fds w)) as [N P]. fold fd in N, P.
  assert (forall g, is_Some (<[fd := d]> (fds w) !! g) <-> g = fd \/ is_Some (fds w !! g)) as L.
  { intros g. rewrite lookup_insert_is_Some. destruct (decide (fd = g)); naive_solver. }
  assert (fd ∉ foreign w) as Nf by (intros [? ?]%H4; congruence).
  assert (forall z, objs w !! z = Some fd -> False) as No by (intros z [? | (_ & [? ?] & _)]%H1; [lia | congruence]).
  split; cbn; try done; try setoid_rewrite L.
  - intros y g. rewrite lookup_insert_Some. intros [[_ <-] | [_ Ly]]; [right; auto |].
    destruct (H1 y g Ly) as [? | (? & ? & ?)]; auto.
  - intros y z g. rewrite !lookup_insert_Some. intros [[<- <-] | [_ Ly]] [[<- ?] | [_ Lz]] Pg; simplify_eq; auto; try (exfalso; by eauto). by apply (H2 y z g).
  - intros g [-> | Pg]; [split; [done |]; right; exists x; by rewrite lookup_insert_eq |].
    destruct (H3 g Pg) as [? [? | [y Ly]]]; split; auto. right. exists y.
    rewrite lookup_insert_ne; [done |]. intros ->. destruct E; simplify_eq. lia.
  - auto.
Qed.

Lemma close_spec w x : inv w -> is_Some (objs w !! x) ->
  inv (snd (close x w)) /\ objs (snd (close x w)) = <[x := -1]> (objs w) /\ foreign (snd (close x w)) = foreign w.
Proof.
  intros I [fd L]. destruct (inv_own _ I x fd L) as [-> | (P & [d D] & Nf)].
  - unfold close, after, fd_, gets. rewrite L; cbn. split_and!; [done | by rewrite insert_id | done].
  - unfold close, after, fd_, gets. rewrite L; cbn. zb_eval. unfold sys_close. rewrite D. rewrite decide_False by done. cbn.
    replace (foreign w ∖ {[fd]}) with (foreign w) by set_solver. split_and!; try done.
    assert (forall g, is_Some (delete fd (fds w) !! g) <-> g <> fd /\ is_Some (fds w !! g)) as Ld.
    { intros g. rewrite lookup_delete_is_Some. naive_solver. }
    destruct I as [H1 H2 H3 H4 H5]. split; cbn; try done; try setoid_rewrite Ld.
    + intros y g. rewrite lookup_insert_Some. intros [[_ <-] | [Ny Ly]]; [by left |].
      destruct (H1 y g Ly) as [? | (? & ? & ?)]; [by left |]. right. split_and!; auto. intros ->. by destruct Ny; apply (H2 x y fd).
    + intros y z g. rewrite !lookup_insert_Some. intros [[_ <-] | [_ Ly]] [[_ ?] | [_ Lz]] Pg; try lia. by apply (H2 y z g).
    + intros g [Ng Pg]. destruct (H3 g Pg) as [? [? | [y Ly]]]; split; auto. right. exists y.
      rewrite lookup_insert_ne; [done |]. intros ->. congruence.
    + intros g Fg. split; [intros ->; done | auto].
Qed.

Lemma destroy_spec w x : inv w -> is_Some (objs w !! x) ->
  inv (snd (destroy x w)) /\ objs (snd (destroy x w)) = delete x (objs w) /\ foreign (snd (destroy x w)) = foreign w.
Proof.
  intros I E. destruct (close_spec w x I E) as (I' & O & F). unfold destroy, after.
  destruct (close x w) as [[] w1]; cbn in *. split_and!; [| by rewrite O, delete_insert_eq | done].
  apply inv_drop; [done |]. by rewrite O, lookup_insert_eq.
Qed.

Lemma move_assign_spec w x y : inv w -> is_Some (objs w !! x) -> is_Some (objs w !! y) -> inv (snd (move_assign x y w)).
Proof.
  intros I Ex [fd Ey]. unfold move_assign. destruct (decide (x = y)) as [| N]; [done |].
  destruct (close_spec w x I Ex) as (I' & O & _). unfold after at 1. destruct (close x w) as [[] w1]; cbn in *.
  assert (objs w1 !! y = Some fd) as L by by rewrite O, lookup_insert_ne.
  unfold after, fd_, set_fd_, gets, modify. rewrite L. cbn. apply (inv_move w1); auto. right. by rewrite O, lookup_insert_eq.
Qed.

(** A new descriptor is opened for [x], or [x] is left without. *)
Lemma sys_new_spec w d : inv w ->
  let '(fd, w') := sys_new d w in
  (fd = -1 /\ same w w') \/ exists w1, same w w1 /\ fd = lowest (fds w1) /\ w' = set_fds w1 (<[fd := d]> (fds w1)).
Proof.
  intros I. unfold sys_new, after. pose proof (quiet_ask w) as Q. destruct (ask w) as [[n |] w1]; cbn in *; [| by left].
  right. by exists w1.
Qed.

Lemma empty_same w w' x : same w w' -> empty_at w x -> empty_at w' x.
Proof. intros (_ & O & _). unfold empty_at. by rewrite O. Qed.

(** The end of [createTcp] and [accept]. *)
Lemma new_object w d x : inv w -> empty_at w x ->
  let '(fd, w') := sys_new d w in inv (snd ((if fd <? 0 then construct x (-1) else construct x fd) w')).
Proof.
  intros I E. pose proof (sys_new_spec w d I) as H. destruct (sys_new d w) as [fd w'].
  destruct H as [[-> S] | (w1 & S & -> & ->)].
  - cbn. apply inv_name; [by eapply same_inv | by eapply empty_same].
  - destruct (lowest_spec (fds w1)) as [_ P]. zb_eval. cbn. apply (inv_open w1); [by eapply same_inv | by eapply empty_same].
Qed.

Lemma accept_spec w l x : inv w -> empty_at w x -> inv (snd (accept l x w)).
Proof.
  intros I E. unfold accept, after at 1, fd_ at 1, gets at 1.
  destruct (_ <? 0); [apply (inv_name (set_errno w EBADF)); [exact (same_inv _ _ (quiet_errno EBADF w) I) | done] |].
  unfold after. pose proof (new_object w (fresh_descr AF_INET O_NONBLOCK) x I E) as H.
  pose proof (sys_new_spec w (fresh_descr AF_INET O_NONBLOCK) I) as H2.
  destruct (sys_new _ w) as [fd w']. cbn. destruct ((fd <? 0) && _) eqn:B; [| done].
  apply andb_true_iff in B as [B _]. destruct H2 as [[-> S] | (w1 & _ & -> & _)].
  - pose proof (new_object w' (fresh_descr AF_INET 0) x (same_inv _ _ S I) (empty_same _ _ _ S E)) as H'.
    by destruct (sys_new _ w').
  - destruct (lowest_spec (fds w1)). b2p. lia.
Qed.

(** A descriptor that moves to an object from another component, and what other
    components do with theirs. *)
Lemma inv_adopt w x fd : inv w -> empty_at w x -> fd ∈ foreign w ->
  inv (set_foreign (set_objs w (<[x := fd]> (objs w))) (foreign w ∖ {[fd]})).
Proof.
  intros I E Fo. pose proof (inv_out _ I fd Fo) as Op. destruct (inv_held _ I fd Op) as [P _].
  destruct I as [H1 H2 H3 H4 H5]. split; cbn; try done.
  - intros y g. rewrite lookup_insert_Some. intros [[_ <-] | [_ L]]; [right; split_and!; auto; set_solver |].
      destruct (H1 y g L) as [? | (? & ? & ?)]; [by left | right; split_and!; auto; set_solver].
  - assert (forall z, objs w !! z = Some fd -> False) as No by (intros z [? | (_ & _ & ?)]%H1; [lia | done]).
      intros y z g. rewrite !lookup_insert_Some. intros [[<- <-] | [_ Ly]] [[<- ?] | [_ Lz]] Pg; simplify_eq; auto; try (exfalso; by eauto).
      by apply (H2 y z g).
  - intros g Pg. destruct (H3 g Pg) as [? [? | [y L]]]; split; auto.
    + destruct (decide (g = fd)) as [-> |]; [right; exists x; by rewrite lookup_insert_eq | left; set_solver].
    + right. exists y. rewrite lookup_insert_ne; [done |]. intros ->. destruct E; simplify_eq. lia.
  - intros g Fg. apply H4. set_solver.
Qed.

Lemma inv_elsewhere w d : inv w -> let fd := lowest (fds w) in
  inv (set_foreign (set_fds w (<[fd := d]> (fds w))) ({[fd]} ∪ foreign w)).
Proof.
  intros I fd. destruct (lowest_spec (fds w)) as [N P]. fold fd in N, P.
  destruct I as [H1 H2 H3 H4 H5].
    assert (forall g, is_Some (<[fd := d]> (fds w) !! g) <-> g = fd \/ is_Some (fds w !! g)) as L.
    { intros g. rewrite lookup_insert_is_Some. destruct (decide (fd = g)); naive_solver. }
    split; cbn; try done; try setoid_rewrite L.
  - intros y g Ly. destruct (H1 y g Ly) as [? | (? & [? ?] & ?)]; [by left |]. right. split_and!; eauto.
      rewrite elem_of_union, elem_of_singleton. intros [-> | ?]; [congruence | done].
  - intros g [-> | Pg]; [split; [done | left; set_solver] |]. destruct (H3 g Pg) as [? [? | ?]]; split; auto. left. set_solver.
  - intros g. rewrite elem_of_union, elem_of_singleton. intros [-> | ?]; auto.
Qed.

Lemma inv_close_elsewhere w fd : inv w -> fd ∈ foreign w ->
  inv (set_foreign (set_fds w (delete fd (fds w))) (foreign w ∖ {[fd]})).
Proof.
  intros I Fo. destruct I as [H1 H2 H3 H4 H5].
    assert (forall g, is_Some (delete fd (fds w) !! g) <-> g <> fd /\ is_Some (fds w !! g)) as L.
    { intros g. rewrite lookup_delete_is_Some. naive_solver. }
    split; cbn; try done; try setoid_rewrite L.
  - intros y g Ly. destruct (H1 y g Ly) as [? | (? & ? & ?)]; [by left |]. right. split_and!; auto; [by intros -> | set_solver].
  - intros g [Ng Pg]. destruct (H3 g Pg) as [? [? | ?]]; split; auto. left. set_solver.
  - intros g [Fg Ng]%elem_of_difference. split; [by rewrite elem_of_singleton in Ng | auto].
Qed.

Lemma perform_inv inet w o : inv w -> allowed w o = true -> inv (snd (perform inet o w)).
Proof.
  intros I A. unfold allowed in A. rewrite !andb_true_iff, forallb_forall in A. destruct A as [[U Mk] Fo].
  assert (forall x, List.In x (uses o) -> is_Some (objs w !! x)) as Live by (intros x Hx%U; by apply bool_decide_eq_true in Hx).
  assert (forall x, makes o = Some x -> empty_at w x) as Free by (intros x Hx; rewrite Hx in Mk; left; by apply bool_decide_eq_true in Mk).
  assert (Q : forall A (m : M A), quiet m -> inv (snd ((m ;;; ret tt) w))).
  { intros B m H. specialize (H w). unfold after. destruct (m w) as [b w1]. cbn in *. by eapply same_inv. }
  destruct o as [x | x fd | f x | l x | x y | x y | x | x | x on | so x on | x ip port | x ip port | x n | x | x | d | fd];
    cbn [perform uses makes] in *.
  - by apply inv_name, Free.
  - apply bool_decide_eq_true in Fo. exact (inv_adopt w x fd I (Free x eq_refl) Fo).
  - pose proof (new_object w (fresh_descr f 0) x I (Free x eq_refl)). unfold createTcp, after. by destruct (sys_new _ w).
  - apply accept_spec; [done | by apply Free].
  - destruct (Live y ltac:(by left)) as [fd L]. unfold move_construct, after, fd_, set_fd_, gets, modify. rewrite L. cbn.
    apply (inv_move w x y fd); [done | | by apply Free | done].
    intros <-. apply bool_decide_eq_true in Mk. congruence.
  - apply move_assign_spec; [done | apply Live; cbn; auto..].
  - apply close_spec; [done | apply Live; cbn; auto].
  - apply destroy_spec; [done | apply Live; cbn; auto].
  - apply Q, quiet_setNonBlocking.
  - apply Q. unfold setOption. auto with sock.
  - apply Q, quiet_by_name. intros. unfold bind_addr. auto with sock.
  - apply Q, quiet_by_name. intros. unfold connect_addr. auto with sock.
  - apply Q. unfold listen. auto with sock.
  - apply Q. unfold send. auto with sock.
  - apply Q. unfold recv. auto with sock.
  - unfold after. pose proof (sys_new_spec w d I) as H. destruct (sys_new d w) as [fd w'].
    destruct H as [[-> S] | (w1 & S & -> & ->)]; [by eapply same_inv |].
    apply (same_inv _ _ S) in I. destruct (lowest_spec (fds w1)) as [N P]. zb_eval. cbn.
    exact (inv_elsewhere w1 d I).
  - apply bool_decide_eq_true in Fo. exact (inv_close_elsewhere w fd I Fo).
Qed.

Lemma socket_run_inv inet ops : forall w w', inv w -> run inet w ops = Some w' -> inv w'.
Proof.
  induction ops as [| o ops IH]; cbn; intros w w' I E; [by simplify_eq |].
  apply bind_Some in E as (w1 & E1 & E). eapply IH, E. unfold step in E1.
  destruct (allowed w o) eqn:A; [| done]. simplify_eq. by apply perform_inv.
Qed.

Lemma start_owned answers : inv (start answers).
Proof. split; cbn; try done; try (by intros ? [? ?]); intros *; set_solver. Qed.

(** C22: whatever a program does with sockets and whatever the kernel answers,
    every open descriptor has exactly one owner; the class never closes a
    number that is not open or that another component holds, although numbers
    are used again; and when all objects are gone no descriptor of theirs is
    open. *)
Theorem sockets_own_descriptors inet answers ops w : run inet (start answers) ops = Some w ->
  misuse w = false /\
  (forall fd, is_Some (fds w !! fd) -> fd ∈ foreign w \/ exists! x, objs w !! x = Some fd) /\
  (forall x fd, objs w !! x = Some fd -> fd = -1 \/ (is_Some (fds w !! fd) /\ fd ∉ foreign w)) /\
  (objs w = ∅ -> dom (fds w) = foreign w).
Proof.
  intros R. pose proof (socket_run_inv inet ops _ _ (start_owned answers) R) as [H1 H2 H3 H4 H5]. split_and!.
  - done.
  - intros fd P. destruct (H3 fd P) as [? [? | [x L]]]; [by left |]. right. exists x. split; [done |]. intros y Ly. by apply (H2 x y fd).
  - intros x fd L. destruct (H1 x fd L) as [? | (_ & ? & ?)]; auto.
  - intros E. apply set_eq. intros fd. rewrite elem_of_dom. split; [| auto].
    intros P. destruct (H3 fd P) as [_ [? | [x L]]]; [done |]. by rewrite E, lookup_empty in L.
Qed.

(* ------------------------------------------------------------------ *)
(** ** What the calls do *)

Inductive call :=
| CNonBlocking (on : bool)
| COption (o : sockopt) (on : bool)
| CBind (ip : string) (port : Z)
| CConnect (ip : string) (port : Z)
| CListen (backlog : Z).

Definition do_call (inet_pton : string -> option Z) (c : call) (x : nat) : M bool :=
  match c with
  | CNonBlocking on => setNonBlocking x on
  | COption o on => setOption o x on
  | CBind ip port => bind inet_pton x ip port
  | CConnect ip port => connect inet_pton x ip port
  | CListen backlog => listen x backlog
  end.

(** What a call is to do to the descriptor; [None]: its text is no address. *)
Definition effect (inet_pton : string -> option Z) (c : call) : option (descr -> descr) :=
  match c with
  | CNonBlocking on => Some (fun d => with_flags d (if on then Z.setbit (d_flags d) 11 else Z.clearbit (d_flags d) 11))
  | COption o on => Some (fun d => with_opt d o on)
  | CBind ip port => (fun a d => with_bound d (mk_addr a (htons port))) <$> inet_pton ip
  | CConnect ip port => (fun a d => with_peer d (mk_addr a (htons port))) <$> inet_pton ip
  | CListen backlog => Some (fun d => with_backlog d backlog)
  end.

(** The system calls it takes, and the first that fails. *)
Definition syscalls (c : call) : nat := match c with CNonBlocking _ => 2 | _ => 1 end.

Fixpoint first_error (n : nat) (l : list answer) : option Z * list answer :=
  match n, l with
  | O, _ => (None, l)
  | S n, [] => (None, [])
  | S n, Fine _ :: rest => first_error n rest
  | S n, Fails e :: rest => (Some e, rest)
  end.

(** The specification of a call on object [x] whose descriptor is [fd]. *)
Definition reference (inet_pton : string -> option Z) (c : call) (fd : Z) (w : world) : bool * world :=
  if fd <? 0 then (false, set_errno w EBADF) else
  match effect inet_pton c with
  | None => (false, set_errno w EINVAL)
  | Some f =>
      match first_error (syscalls c) (script w) with
      | (Some e, rest) => (false, set_errno (set_script w rest) e)
      | (None, rest) => (true, set_fds (set_script w rest) (alter f fd (fds w)))
      end
  end.

Lemma nonblock_bits flags (on : bool) :
  (if on then Z.lor flags O_NONBLOCK else Z.land flags (Z.lnot O_NONBLOCK)) = (if on then Z.setbit flags 11 else Z.clearbit flags 11).
Proof. destruct on; [by rewrite Z.setbit_spec' | by rewrite Z.clearbit_spec', Z.ldiff_land]. Qed.

Lemma set_script_id w : set_script w (script w) = w.
Proof. by destruct w. Qed.

Lemma set_fds_id w : set_fds w (fds w) = w.
Proof. by destruct w. Qed.

Lemma alter_insert (f : descr -> descr) fd d (m : gmap Z descr) : m !! fd = Some d -> alter f fd m = <[fd := f d]> m.
Proof.
  intros L. apply map_eq. intros i. destruct (decide (i = fd)) as [-> |].
  - by rewrite lookup_alter_eq, lookup_insert_eq, L.
  - by rewrite lookup_alter_ne, lookup_insert_ne.
Qed.

(** One system call on an open descriptor. *)
Lemma sys_on_open fd f d w : fds w !! fd = Some d ->
  sys_on fd f w =
  match script w with
  | Fails e :: rest => (-1, set_errno (set_script w rest) e)
  | Fine n :: rest => (Z.of_N n, set_fds (set_script w rest) (<[fd := f d]> (fds w)))
  | [] => (0, set_fds w (<[fd := f d]> (fds w)))
  end.
Proof. intros L. unfold sys_on, after, gets. rewrite L. unfold ask. by destruct (script w) as [| [n | e] rest]. Qed.

Lemma checked_open fd f d w : fds w !! fd = Some d ->
  checked (sys_on fd f) w =
  match first_error 1 (script w) with
  | (Some e, rest) => (false, set_errno (set_script w rest) e)
  | (None, rest) => (true, set_fds (set_script w rest) (<[fd := f d]> (fds w)))
  end.
Proof.
  intros L. unfold checked, after. rewrite (sys_on_open fd f d w L).
  destruct (script w) as [| [n | e] rest] eqn:E; cbn; [by rewrite <- E, set_script_id | | done].
  unfold ret. f_equal. by destruct n.
Qed.

Lemma guarded_open {A} x (bad : A) k fd w : objs w !! x = Some fd ->
  guarded x bad k w = if fd <? 0 then (bad, set_errno w EBADF) else k fd w.
Proof.
  intros L. unfold guarded, after, fd_, gets. rewrite L. cbn. rewrite Z.ltb_antisym. by destruct (0 <=? fd).
Qed.

(** A call that is one system call, and one that takes its address as text. *)
Lemma single_call inet c x fd w f : objs w !! x = Some fd -> (0 <= fd -> is_Some (fds w !! fd)) ->
  syscalls c = 1%nat -> effect inet c = Some f ->
  guarded x false (fun fd => checked (sys_on fd f)) w = reference inet c fd w.
Proof.
  intros L O Hs He. rewrite (guarded_open x _ _ fd w L). unfold reference. rewrite He, Hs.
  destruct (Z.ltb_spec fd 0) as [| P]; [done |]. destruct (O P) as [d D]. rewrite (checked_open fd f d w D).
  by rewrite (alter_insert f fd d).
Qed.

Lemma named_call inet c x fd w call ip port f : objs w !! x = Some fd -> (0 <= fd -> is_Some (fds w !! fd)) ->
  (forall y a, call y a = guarded y false (fun fd => checked (sys_on fd (fun d => f d a)))) ->
  syscalls c = 1%nat -> effect inet c = (fun a d => f d (mk_addr a (htons port))) <$> inet ip ->
  by_name inet call x ip port w = reference inet c fd w.
Proof.
  intros L O Hc Hs He. unfold by_name. rewrite (guarded_open x _ _ fd w L). destruct (inet ip) as [a |] eqn:Ei.
  - destruct (fd <? 0) eqn:P; [unfold reference; by rewrite P |]. rewrite Hc. by apply single_call; rewrite ?He.
  - unfold reference. rewrite He. by destruct (fd <? 0).
Qed.

Lemma nonblocking_call inet x fd w on : objs w !! x = Some fd -> (0 <= fd -> is_Some (fds w !! fd)) ->
  setNonBlocking x on w = reference inet (CNonBlocking on) fd w.
Proof.
  intros L O. unfold setNonBlocking. rewrite (guarded_open x _ _ fd w L). unfold reference.
  destruct (Z.ltb_spec fd 0) as [| P]; [done |]. destruct (O P) as [d D]. cbn [effect syscalls].
  unfold after. rewrite (sys_on_open fd _ d w D), insert_id by done. set (f := fun d : descr => with_flags d _).
  assert (Second : forall w1, fds w1 = fds w -> checked (sys_on fd (fun d' => with_flags d' (if on then Z.lor (d_flags d) O_NONBLOCK else Z.land (d_flags d) (Z.lnot O_NONBLOCK)))) w1 =
    match first_error 1 (script w1) with
    | (Some e, rest) => (false, set_errno (set_script w1 rest) e)
    | (None, rest) => (true, set_fds (set_script w1 rest) (alter f fd (fds w1)))
    end).
  { intros w1 E. rewrite (checked_open fd _ d w1) by by rewrite E. by rewrite nonblock_bits, (alter_insert _ fd d) by by rewrite E. }
  destruct (script w) as [| [n | e] rest] eqn:S; cbn [first_error]; [| | done].
  - cbn. rewrite D. cbn. rewrite set_fds_id, Second by done. rewrite S. cbn. by rewrite <- S, !set_script_id.
  - replace (Z.of_N n =? -1) with false by (symmetry; by destruct n). cbn. rewrite D. cbn. rewrite Second by done. cbn.
    by destruct rest as [| [] ].
Qed.

Lemma calls_reference inet c x fd w :
  objs w !! x = Some fd -> (0 <= fd -> is_Some (fds w !! fd)) ->
  do_call inet c x w = reference inet c fd w.
Proof.
  intros L O. destruct c as [on | o on | ip port | ip port | n].
  - by apply nonblocking_call.
  - by apply single_call.
  - by eapply named_call.
  - by eapply named_call.
  - by apply single_call.
Qed.

(** Each call does what it is named for and no more: on an object without
    descriptor it fails with [EBADF], on text that is no address with [EINVAL],
    both without a system call; otherwise it makes its system calls, reports
    the first that fails and then leaves the descriptor as it was, or changes
    the one setting (the other flags are kept when the non-blocking flag
    is set or cleared). *)
Theorem socket_calls_exact inet c x fd w :
  objs w !! x = Some fd -> (0 <= fd -> is_Some (fds w !! fd)) ->
  do_call inet c x w = reference inet c fd w /\
  (forall on f d i, effect inet (CNonBlocking on) = Some f -> 0 <= i ->
     Z.testbit (d_flags (f d)) i = if i =? 11 then on else Z.testbit (d_flags d) i).
Proof.
  intros L O. split; [by apply calls_reference |]. intros on f d i [= <-] P. cbn.
  destruct (Z.eqb_spec i 11) as [-> | N], on.
  - by apply Z.setbit_eq.
  - by apply Z.clearbit_eq.
  - apply Z.setbit_neq; lia.
  - apply Z.clearbit_neq; lia.
Qed.

(* ------------------------------------------------------------------ *)
(** ** A run *)

Definition demo_pton (ip : string) : option Z := if String.eqb ip "127.0.0.1" then Some 2130706433 else None.

(** A listener is set up and moved, a connection is accepted by a kernel
    without [accept4], its number is used again by another component. *)
Definition demo_answers : list answer := [Fine 0; Fine 0; Fine 0; Fails ENOSYS; Fine 0; Fine 0].
Definition demo_ops : list op :=
  [Elsewhere (fresh_descr AF_INET 0); Create AF_INET 1; Default 2; Bind 1 "localhost" 9000; Bind 1 "127.0.0.1" 9000; MoveAssign 2 1;
   Listen 1 128; Accept 2 3; Close 3; Elsewhere (fresh_descr AF_INET 0); Close 3; MoveAssign 2 2;
   Destroy 3; Destroy 2; Destroy 1; Elsewhere (fresh_descr AF_INET6 0)].

Lemma sockets_own_descriptors_witness : exists w, run demo_pton (start demo_answers) demo_ops = Some w /\ dom (fds w) = {[0; 1; 2]} /\
  misuse w = false /\
  (forall fd, is_Some (fds w !! fd) -> fd ∈ foreign w \/ exists! x, objs w !! x = Some fd) /\
  (forall x fd, objs w !! x = Some fd -> fd = -1 \/ (is_Some (fds w !! fd) /\ fd ∉ foreign w)) /\
  (objs w = ∅ -> dom (fds w) = foreign w).
Proof.
  eexists. split; [vm_compute; reflexivity |]. split; [vm_compute; reflexivity |].
  apply (sockets_own_descriptors demo_pton demo_answers demo_ops). vm_compute; reflexivity.
Defined.

Definition demo_open : world :=
  mk_world {[4 := fresh_descr AF_INET 2]} {[0%nat := 4]} 0 [Fine 2; Fails 13] ∅ false.

Lemma socket_calls_exact_witness :
  do_call demo_pton (CNonBlocking true) 0 demo_open = (false, set_errno (set_script demo_open []) 13) /\
  do_call demo_pton (CNonBlocking true) 0 demo_open = reference demo_pton (CNonBlocking true) 4 demo_open.
Proof.
  split; [vm_compute; reflexivity |].
  apply (socket_calls_exact demo_pton (CNonBlocking true) 0 4 demo_open); [vm_compute; reflexivity | intros _; vm_compute; by eexists].
Defined.

End Socket.
