(* ===== verification/RingBuffer.v ===== *)
(** * RingBuffer: the fixed-size byte ring of [hypernet::buffer]

    Models [engine/include/hypernet/buffer/RingBuffer.hpp],
    [engine/src/hypernet/buffer/RingBuffer.cpp] and
    [engine/include/hypernet/buffer/BufferView.hpp].  The state is the record
    [t] with the class's five members; sizes are 64-bit and every [+] and [-]
    of the source is [size_add] / [size_sub].  A pointer argument is an
    [option] ([None] is [nullptr]); a pointer into [buffer_] is its offset.

    [contents] is the abstraction: the bytes a reader will get, in order.
    The theorems show that each operation is the corresponding operation of a
    bounded FIFO byte queue ([fifo_step]), for every position of the wrap
    around, and that no size computation overflows. *)

From S2P Require Import Prelude.

Module RingBuffer.

(* ------------------------------------------------------------------ *)
(** ** State *)

Record t := mk {
  buffer_ : list byte;
  capacity_ : Z;
  head_ : Z;
  tail_ : Z;
  size_ : Z
}.

(** [BufferView]: a start offset in the ring's storage ([None] is a null
    pointer) and a length. *)
Record view := mk_view { vdata : option Z; vsize : Z }.

(** [BufferView{}]. *)
Definition empty_view : view := mk_view None 0.

Definition view_empty (v : view) : bool := vsize v =? 0.

(** [struct iovec] over the ring's storage, and the two-element array the
    callers pass. *)
Record iovec := mk_iovec { iov_base : option Z; iov_len : Z }.

Definition iov2 : Type := iovec * iovec.

Definition null_iov : iovec := mk_iovec None 0.

Definition null_iov2 : iov2 := (null_iov, null_iov).

(** What the constructor can throw. *)
Inductive ctor_error := InvalidArgument | LengthError.

(** [RingBuffer(capacity)]: [buffer_(capacity)] value-initialises the storage
    and throws above [max_size()]; then a zero capacity is refused. *)
Definition create (capacity : Z) : ctor_error + t :=
  if VEC_MAX <? capacity then inl LengthError
  else if capacity =? 0 then inl InvalidArgument
  else inr (mk (replicate (Z.to_nat capacity) (z2b 0)) capacity 0 0 0).

Definition capacity (rb : t) : Z := capacity_ rb.
Definition size (rb : t) : Z := size_ rb.
Definition available (rb : t) : Z := size_ rb.
Definition freeSpace (rb : t) : Z := size_sub (capacity_ rb) (size_ rb).
Definition empty (rb : t) : bool := size_ rb =? 0.
Definition full (rb : t) : bool := size_ rb =? capacity_ rb.

(* ------------------------------------------------------------------ *)
(** ** Operations *)

(** One [memcpy] at [tail_] with the index and size updates that follow it. *)
Definition copy_in (rb : t) (bytes : list byte) : t :=
  mk (blit (tail_ rb) bytes (buffer_ rb)) (capacity_ rb) (head_ rb)
     (size_add (tail_ rb) (zlen bytes) mod capacity_ rb)
     (size_add (size_ rb) (zlen bytes)).

(** One [memcpy] from [head_] with the index and size updates that follow. *)
Definition copy_out (rb : t) (n : Z) : t * list byte :=
  (mk (buffer_ rb) (capacity_ rb) (size_add (head_ rb) n mod capacity_ rb)
      (tail_ rb) (size_sub (size_ rb) n),
   slice (head_ rb) n (buffer_ rb)).

Definition write (rb : t) (data : option (list byte)) (len : Z) : t * Z :=
  match data with
  | None => (rb, 0)
  | Some d =>
      if len =? 0 then (rb, 0) else
      let toWrite := Z.min len (freeSpace rb) in
      if toWrite =? 0 then (rb, 0) else
      let endSpace := size_sub (capacity_ rb) (tail_ rb) in
      let firstPart := Z.min toWrite endSpace in
      let rb1 := copy_in rb (slice 0 firstPart d) in
      let remaining := size_sub toWrite firstPart in
      if 0 <? remaining
      then (copy_in rb1 (slice firstPart remaining d), toWrite)
      else (rb1, toWrite)
  end.

(** [read]: the new state, the bytes stored in [dest] and the result.  [dest]
    is [false] for a null pointer. *)
Definition read (rb : t) (dest : bool) (len : Z) : t * list byte * Z :=
  if negb dest || (len =? 0) then (rb, [], 0) else
  let toRead := Z.min len (size_ rb) in
  if toRead =? 0 then (rb, [], 0) else
  let endData := size_sub (capacity_ rb) (head_ rb) in
  let firstPart := Z.min toRead endData in
  let '(rb1, d1) := copy_out rb firstPart in
  let remaining := size_sub toRead firstPart in
  if 0 <? remaining
  then let '(rb2, d2) := copy_out rb1 remaining in (rb2, d1 ++ d2, toRead)
  else (rb1, d1, toRead).

Definition peek (rb : t) (dest : bool) (len : Z) : list byte * Z :=
  if negb dest || (len =? 0) then ([], 0) else
  let toCopy := Z.min len (size_ rb) in
  if toCopy =? 0 then ([], 0) else
  let endData := size_sub (capacity_ rb) (head_ rb) in
  let firstPart := Z.min toCopy endData in
  let d1 := slice (head_ rb) firstPart (buffer_ rb) in
  let remaining := size_sub toCopy firstPart in
  if 0 <? remaining
  then (d1 ++ slice 0 remaining (buffer_ rb), toCopy)
  else (d1, toCopy).

Definition peekView (rb : t) (maxLen : Z) : view :=
  if (maxLen =? 0) || (size_ rb =? 0) then empty_view else
  let contiguous := Z.min (size_ rb) (size_sub (capacity_ rb) (head_ rb)) in
  let viewSize := Z.min maxLen contiguous in
  if viewSize =? 0 then empty_view else mk_view (Some (head_ rb)) viewSize.

Definition readView (rb : t) (maxLen : Z) : t * view :=
  let v := peekView rb maxLen in
  if view_empty v then (rb, v) else
  let consumed := vsize v in
  (mk (buffer_ rb) (capacity_ rb) (size_add (head_ rb) consumed mod capacity_ rb)
      (tail_ rb) (size_sub (size_ rb) consumed), v).

(** [peekIov] / [writeIov]: the [int] result and the caller's array, which is
    written only when the result is not 0. *)
Definition peekIov (rb : t) (out : option iov2) (maxLen : Z) : Z * option iov2 :=
  match out with
  | None => (0, None)
  | Some o =>
      if (maxLen =? 0) || (size_ rb =? 0) then (0, Some o) else
      let toRead := Z.min maxLen (size_ rb) in
      if toRead =? 0 then (0, Some o) else
      let endData := size_sub (capacity_ rb) (head_ rb) in
      let firstPart := Z.min toRead endData in
      let remaining := size_sub toRead firstPart in
      let first := mk_iovec (Some (head_ rb)) firstPart in
      if 0 <? remaining
      then (2, Some (first, mk_iovec (Some 0) remaining))
      else (1, Some (first, null_iov))
  end.

Definition writeIov (rb : t) (out : option iov2) (maxLen : Z) : Z * option iov2 :=
  match out with
  | None => (0, None)
  | Some o =>
      if maxLen =? 0 then (0, Some o) else
      let free := freeSpace rb in
      if free =? 0 then (0, Some o) else
      let toWrite := Z.min maxLen free in
      if toWrite =? 0 then (0, Some o) else
      let endSpace := size_sub (capacity_ rb) (tail_ rb) in
      let firstPart := Z.min toWrite endSpace in
      let remaining := size_sub toWrite firstPart in
      let first := mk_iovec (Some (tail_ rb)) firstPart in
      if 0 <? remaining
      then (2, Some (first, mk_iovec (Some 0) remaining))
      else (1, Some (first, null_iov))
  end.

Definition commitWrite (rb : t) (n : Z) : t :=
  if n =? 0 then rb else
  let free := freeSpace rb in
  let n := if free <? n then free else n in
  mk (buffer_ rb) (capacity_ rb) (head_ rb)
     (size_add (tail_ rb) n mod capacity_ rb) (size_add (size_ rb) n).

Definition clear (rb : t) : t := mk (buffer_ rb) (capacity_ rb) 0 0 0.

(* ------------------------------------------------------------------ *)
(** ** What the kernel does with the descriptors

    [readv]/[recvmsg] store the received bytes in the described areas in
    order; [writev]/[sendmsg] take them in order. *)

Definition iov_store (buf : list byte) (v : iovec) (bytes : list byte) : list byte :=
  match iov_base v with Some off => blit off bytes buf | None => buf end.

Definition iov_bytes (buf : list byte) (v : iovec) : list byte :=
  match iov_base v with Some off => slice off (iov_len v) buf | None => [] end.

(** Received bytes are scattered over the first area and then the second. *)
Definition scatter (rb : t) (iov : iov2) (bytes : list byte) : t :=
  let b1 := ztake (iov_len iov.1) bytes in
  let b2 := zdrop (iov_len iov.1) bytes in
  mk (iov_store (iov_store (buffer_ rb) iov.1 b1) iov.2 b2)
     (capacity_ rb) (head_ rb) (tail_ rb) (size_ rb).

(** The bytes the descriptors point at. *)
Definition gather (rb : t) (iov : iov2) : list byte :=
  iov_bytes (buffer_ rb) iov.1 ++ iov_bytes (buffer_ rb) iov.2.

(** The bytes behind a view. *)
Definition view_bytes (rb : t) (v : view) : list byte :=
  match vdata v with Some off => slice off (vsize v) (buffer_ rb) | None => [] end.

(* ------------------------------------------------------------------ *)
(** ** Invariant and abstraction *)

Record wf (rb : t) : Prop := {
  wf_len : zlen (buffer_ rb) = capacity_ rb;
  wf_cap : 0 < capacity_ rb <= VEC_MAX;
  wf_head : 0 <= head_ rb < capacity_ rb;
  wf_size : 0 <= size_ rb <= capacity_ rb;
  wf_tail : tail_ rb = (head_ rb + size_ rb) mod capacity_ rb
}.

(** The stored bytes, oldest first: [size_] bytes from [head_], continuing at
    offset 0 after the end of the storage. *)
Definition contents (rb : t) : list byte :=
  slice (head_ rb) (size_ rb) (buffer_ rb ++ buffer_ rb).

(** The facts of [wf] as linear arithmetic. *)
Ltac wf_facts H :=
  let H1 := fresh "Hlen" in let H2 := fresh "Hcap" in let H3 := fresh "Hhead" in
  let H4 := fresh "Hsize" in let H5 := fresh "Htail" in
  destruct H as [H1 H2 H3 H4 H5].

(** Rewrites the 64-bit operations whose results are in range. *)
Ltac no_overflow :=
  repeat match goal with
  | |- context [size_add ?a ?b] => rewrite (size_add_small a b) by lia
  | |- context [size_sub ?a ?b] => rewrite (size_sub_small a b) by lia
  | H : context [size_add ?a ?b] |- _ => rewrite (size_add_small a b) in H by lia
  | H : context [size_sub ?a ?b] |- _ => rewrite (size_sub_small a b) in H by lia
  end.

Section Lemmas.
Implicit Types rb : t.

Lemma tail_range rb : wf rb -> 0 <= tail_ rb < capacity_ rb.
Proof. intros [_ ? ? ? ->]. apply Z.mod_pos_bound. lia. Qed.

Lemma freeSpace_eq rb : wf rb -> freeSpace rb = capacity_ rb - size_ rb.
Proof. intros H. wf_facts H. unfold freeSpace. by no_overflow. Qed.

Lemma contents_len rb : wf rb -> zlen (contents rb) = size_ rb.
Proof. intros H. wf_facts H. unfold contents. apply zlen_slice; zlen_lia. Qed.

(** The [i]-th stored byte sits at [(head_ + i) mod capacity_]. *)
Lemma contents_lookup rb (i : nat) :
  wf rb -> Z.of_nat i < size_ rb ->
  contents rb !! i =
  buffer_ rb !! Z.to_nat ((head_ rb + Z.of_nat i) mod capacity_ rb).
Proof.
  intros H Hi. wf_facts H. unfold contents. rewrite lookup_slice by lia.
  unfold zlen in *. clear Htail. wrap_cases.
  - rewrite lookup_app_l by lia. f_equal. lia.
  - rewrite lookup_app_r by lia. f_equal. lia.
Qed.

(** A [memcpy] of bytes that fit before the end of the storage appends. *)
Lemma copy_in_spec rb bytes :
  wf rb -> zlen bytes <= capacity_ rb - size_ rb ->
  zlen bytes <= capacity_ rb - tail_ rb ->
  wf (copy_in rb bytes) /\ contents (copy_in rb bytes) = contents rb ++ bytes.
Proof.
  intros H Hfree Hend. pose proof (tail_range rb H) as Ht.
  pose proof (contents_len rb H) as Hc. pose proof (zlen_nonneg bytes) as Hb.
  pose proof H as H'. wf_facts H'.
  assert (Hwf : wf (copy_in rb bytes)).
  { unfold copy_in. no_overflow. split; simpl; try lia.
    - rewrite zlen_blit; lia.
    - rewrite Htail. rewrite Z.add_mod_idemp_l by lia. f_equal. lia. }
  split; [done |]. apply zlist_eq.
  { rewrite contents_len by done. zlen_lia. unfold copy_in; simpl. no_overflow. lia. }
  intros i Hi. rewrite contents_len in Hi by done.
  assert (Hs : size_ (copy_in rb bytes) = size_ rb + zlen bytes)
    by (unfold copy_in; simpl; by no_overflow).
  rewrite contents_lookup by (done || lia). simpl.
  destruct (Z.lt_ge_cases (Z.of_nat i) (size_ rb)) as [Hl | Hg].
  - rewrite lookup_app_l by (unfold zlen in *; lia).
    rewrite contents_lookup by done.
    apply lookup_blit_out; [lia | lia |]. rewrite Htail in *. wrap_cases; lia.
  - rewrite lookup_app_r by (unfold zlen in *; lia).
    rewrite lookup_blit_in; [f_equal | lia | lia |].
    all: rewrite Htail in *; unfold zlen in *; wrap_cases; lia.
Qed.

(** Moving [head_] over [n] stored bytes drops them. *)
Lemma advance_head rb n :
  wf rb -> 0 <= n <= size_ rb ->
  let rb' := mk (buffer_ rb) (capacity_ rb) (size_add (head_ rb) n mod capacity_ rb)
                (tail_ rb) (size_sub (size_ rb) n) in
  wf rb' /\ contents rb' = zdrop n (contents rb).
Proof.
  intros H Hn rb'. pose proof (contents_len rb H) as Hc.
  assert (Hwf : wf rb').
  { pose proof H as H'. wf_facts H'. subst rb'. no_overflow.
    split; simpl; try lia; [apply Z.mod_pos_bound; lia |].
    rewrite Htail. rewrite Z.add_mod_idemp_l by lia. f_equal. lia. }
  split; [done |]. pose proof (contents_len rb' Hwf) as Hc'.
  pose proof H as H'. wf_facts H'.
  assert (Hs : size_ rb' = size_ rb - n) by (subst rb'; simpl; by no_overflow).
  apply zlist_eq; [rewrite zlen_zdrop; lia |].
  intros i Hi. rewrite lookup_zdrop, !contents_lookup by (done || lia).
  subst rb'; simpl. f_equal. f_equal. no_overflow.
  rewrite Z.add_mod_idemp_l by lia. f_equal. lia.
Qed.

(** The bytes at [head_] that do not cross the end are the oldest ones. *)
Lemma slice_head rb n :
  wf rb -> 0 <= n <= size_ rb -> n <= capacity_ rb - head_ rb ->
  slice (head_ rb) n (buffer_ rb) = ztake n (contents rb).
Proof.
  intros H Hn He. pose proof (contents_len rb H) as Hc. pose proof H as H'. wf_facts H'.
  apply zlist_eq; [rewrite zlen_slice, zlen_ztake; lia |].
  rewrite zlen_slice by lia. intros i Hi.
  rewrite lookup_slice, lookup_ztake, contents_lookup by (done || lia).
  f_equal. wrap_cases; lia.
Qed.

Lemma copy_out_spec rb n :
  wf rb -> 0 <= n <= size_ rb -> n <= capacity_ rb - head_ rb ->
  wf (copy_out rb n).1 /\
  (copy_out rb n).2 = ztake n (contents rb) /\
  contents (copy_out rb n).1 = zdrop n (contents rb).
Proof.
  intros H Hn He. destruct (advance_head rb n H Hn) as [Hw Hd].
  unfold copy_out; simpl. split; [exact Hw |]. split; [by apply slice_head | exact Hd].
Qed.

Lemma copy_out_size rb n :
  wf rb -> 0 <= n <= size_ rb -> size_ (copy_out rb n).1 = size_ rb - n.
Proof. intros H Hn. wf_facts H. unfold copy_out; simpl. by no_overflow. Qed.

Lemma copy_in_size rb bytes :
  wf rb -> zlen bytes <= capacity_ rb - size_ rb ->
  size_ (copy_in rb bytes) = size_ rb + zlen bytes.
Proof.
  intros H Hn. pose proof (zlen_nonneg bytes). wf_facts H.
  unfold copy_in; simpl. by no_overflow.
Qed.

Lemma create_wf c rb : create c = inr rb -> 0 <= c -> wf rb /\ contents rb = [] /\ capacity_ rb = c.
Proof.
  unfold create. intros H Hc. if_cases; simplify_eq.
  assert (Hz : zlen (replicate (Z.to_nat c) (z2b 0)) = c)
    by (unfold zlen; rewrite length_replicate; lia).
  split; [| done]. split; simpl; try lia. by rewrite Z.mod_0_l by lia.
Qed.

(** [write] appends as much of the data as there is room for. *)
Lemma write_spec rb d len :
  wf rb -> 0 <= len <= zlen d ->
  let n := Z.min len (freeSpace rb) in
  wf (write rb (Some d) len).1 /\
  (write rb (Some d) len).2 = n /\
  contents (write rb (Some d) len).1 = contents rb ++ ztake n d /\
  capacity_ (write rb (Some d) len).1 = capacity_ rb.
Proof.
  intros H Hlen n. pose proof (tail_range rb H) as Ht.
  pose proof (freeSpace_eq rb H) as Hf. pose proof (wf_size rb H).
  pose proof (wf_cap rb H). pose proof (wf_len rb H).
  unfold write. fold n. destruct (Z.eqb_spec len 0) as [-> | Hl0]; simpl.
  { subst n. rewrite Z.min_l by lia. by rewrite ztake_0, app_nil_r. }
  destruct (Z.eqb_spec n 0) as [Hn0 | Hn0]; simpl.
  { by rewrite Hn0, ztake_0, app_nil_r. }
  rewrite (size_sub_small (capacity_ rb)) by lia.
  set (f := Z.min n (capacity_ rb - tail_ rb)).
  rewrite (size_sub_small n f) by lia.
  assert (Hf1 : zlen (slice 0 f d) = f) by (apply zlen_slice; lia).
  destruct (copy_in_spec rb (slice 0 f d) H) as [Hw1 Hc1]; [lia | lia |].
  pose proof (copy_in_size rb (slice 0 f d) H ltac:(lia)) as Hs1.
  destruct (Z.ltb_spec 0 (n - f)) as [Hr | Hr]; simpl.
  - assert (Hf2 : zlen (slice f (n - f) d) = n - f) by (apply zlen_slice; lia).
    assert (Ht1 : tail_ (copy_in rb (slice 0 f d)) = 0).
    { simpl. rewrite Hf1, size_add_small by lia.
      replace (tail_ rb + f) with (capacity_ rb) by lia. apply Z.mod_same. lia. }
    destruct (copy_in_spec _ (slice f (n - f) d) Hw1) as [Hw2 Hc2];
      [simpl in *; lia | rewrite Ht1; simpl in *; lia |].
    split; [done |]. split; [done |]. split; [| done].
    rewrite Hc2, Hc1, <- app_assoc. f_equal. unfold slice.
    rewrite zdrop_0, <- ztake_plus by lia. f_equal. lia.
  - split; [done |]. split; [done |]. split; [| done].
    rewrite Hc1. unfold slice. rewrite zdrop_0. do 2 f_equal. lia.
Qed.

(** [read] removes and returns the oldest bytes. *)
Lemma read_spec rb len :
  wf rb -> 0 <= len ->
  let n := Z.min len (size_ rb) in
  wf (read rb true len).1.1 /\
  (read rb true len).2 = n /\
  (read rb true len).1.2 = ztake n (contents rb) /\
  contents (read rb true len).1.1 = zdrop n (contents rb) /\
  capacity_ (read rb true len).1.1 = capacity_ rb /\
  size_ (read rb true len).1.1 = size_ rb - n.
Proof.
  intros H Hlen n. pose proof (wf_size rb H) as Hs. pose proof (wf_head rb H) as Hh.
  pose proof (wf_cap rb H) as Hcap.
  unfold read. cbn [negb orb]. fold n.
  destruct (Z.eqb_spec len 0) as [-> | Hl0]; cbn [fst snd].
  { replace n with 0 by lia. rewrite ztake_0, zdrop_0. split_and!; auto; lia. }
  destruct (Z.eqb_spec n 0) as [Hn0 | Hn0]; cbn [fst snd].
  { rewrite Hn0, ztake_0, zdrop_0. split_and!; auto; lia. }
  rewrite (size_sub_small (capacity_ rb)) by lia.
  set (f := Z.min n (capacity_ rb - head_ rb)).
  rewrite (size_sub_small n f) by lia.
  destruct (copy_out_spec rb f H) as (Hw1 & Hd1 & Hc1); [lia | lia |].
  pose proof (copy_out_size rb f H ltac:(lia)) as Hs1.
  assert (Hcap1 : capacity_ (copy_out rb f).1 = capacity_ rb) by done.
  assert (Hh1 : 0 < n - f -> head_ (copy_out rb f).1 = 0).
  { intros. simpl. rewrite size_add_small by lia.
    replace (head_ rb + f) with (capacity_ rb) by lia. apply Z.mod_same. lia. }
  destruct (copy_out rb f) as [rb1 d1]. cbn [fst snd] in *.
  destruct (Z.ltb_spec 0 (n - f)) as [Hr | Hr]; cbn [fst snd].
  - destruct (copy_out_spec rb1 (n - f) Hw1) as (Hw2 & Hd2 & Hc2);
      [lia | rewrite Hh1; lia |].
    pose proof (copy_out_size rb1 (n - f) Hw1 ltac:(lia)) as Hs2.
    assert (Hcap2 : capacity_ (copy_out rb1 (n - f)).1 = capacity_ rb1) by done.
    destruct (copy_out rb1 (n - f)) as [rb2 d2]. cbn [fst snd] in *.
    split; [done |]. split; [done |].
    split; [rewrite Hd1, Hd2, Hc1, <- ztake_plus by lia; f_equal; lia |].
    split; [rewrite Hc2, Hc1, zdrop_zdrop by lia; f_equal; lia |].
    split; [congruence | lia].
  - replace n with f by lia. split_and!; auto; lia.
Qed.

(** The two pieces around the end of the storage are the oldest [n] bytes. *)
Lemma two_pieces rb n :
  wf rb -> 0 <= n <= size_ rb ->
  let f := Z.min n (capacity_ rb - head_ rb) in
  slice (head_ rb) f (buffer_ rb) ++ slice 0 (n - f) (buffer_ rb) = ztake n (contents rb).
Proof.
  intros H Hn f. pose proof (contents_len rb H) as Hc. pose proof H as H'. wf_facts H'.
  clear Htail. rewrite slice_head by (done || lia).
  replace n with (f + (n - f)) at 2 by lia. rewrite ztake_plus by lia. f_equal.
  apply zlist_eq; rewrite zlen_slice by lia.
  { rewrite zlen_ztake, zlen_zdrop by lia. lia. }
  intros i Hi. rewrite lookup_slice, lookup_ztake, lookup_zdrop, contents_lookup by (done || lia).
  f_equal. wrap_cases; lia.
Qed.

(** [peek] copies what [read] would return and consumes nothing. *)
Lemma peek_spec rb len :
  wf rb -> 0 <= len ->
  let n := Z.min len (size_ rb) in
  peek rb true len = (ztake n (contents rb), n).
Proof.
  intros H Hlen n. pose proof (wf_size rb H). pose proof (wf_head rb H).
  pose proof (wf_cap rb H).
  pose proof (two_pieces rb n H ltac:(lia)) as Hp. cbv zeta in Hp.
  unfold peek. cbn [negb orb]. fold n.
  destruct (Z.eqb_spec len 0) as [-> | Hl0]; [by replace n with 0 by lia |].
  destruct (Z.eqb_spec n 0) as [-> | Hn0]; [done |].
  rewrite (size_sub_small (capacity_ rb)) by lia.
  set (f := Z.min n (capacity_ rb - head_ rb)) in *.
  rewrite (size_sub_small n f) by lia. rewrite <- Hp.
  destruct (Z.ltb_spec 0 (n - f)); [done |].
  replace (n - f) with 0 by lia. unfold slice at 3. by rewrite ztake_0, app_nil_r.
Qed.

(** The areas [peekIov] describes hold the oldest [maxLen] bytes; it reports
    0 areas exactly when there is nothing to send. *)
Lemma peekIov_spec rb o maxLen :
  wf rb -> 0 <= maxLen ->
  exists cnt iov, peekIov rb (Some o) maxLen = (cnt, Some iov) /\
    (cnt = 0 <-> maxLen = 0 \/ size_ rb = 0) /\ 0 <= cnt <= 2 /\
    (cnt <> 0 ->
     gather rb iov = ztake maxLen (contents rb) /\
     iov_len iov.1 + iov_len iov.2 = Z.min maxLen (size_ rb) /\
     0 < iov_len iov.1 /\ 0 <= iov_len iov.2 /\ (cnt = 2 <-> iov_len iov.2 <> 0)).
Proof.
  intros H Hlen. pose proof (wf_size rb H). pose proof (wf_head rb H).
  pose proof (wf_cap rb H). pose proof (contents_len rb H) as Hc.
  set (n := Z.min maxLen (size_ rb)).
  pose proof (two_pieces rb n H ltac:(lia)) as Hp. cbv zeta in Hp.
  assert (Hn : ztake maxLen (contents rb) = ztake n (contents rb)).
  { rewrite <- (ztake_ge (size_ rb) (contents rb)) at 1 by lia.
    rewrite ztake_ztake by lia. done. }
  unfold peekIov. destruct (Z.eqb_spec maxLen 0) as [-> | Hm]; cbn [orb].
  { exists 0, o. split_and!; (done || lia). }
  destruct (Z.eqb_spec (size_ rb) 0) as [Hs | Hs].
  { exists 0, o. split_and!; (done || lia). }
  fold n. destruct (Z.eqb_spec n 0); [lia |].
  rewrite (size_sub_small (capacity_ rb)) by lia.
  set (f := Z.min n (capacity_ rb - head_ rb)) in *.
  rewrite (size_sub_small n f) by lia.
  destruct (Z.ltb_spec 0 (n - f)); do 2 eexists; (split; [done |]);
    split_and!; try lia; intros _; unfold gather, iov_bytes; simpl;
    split_and!; try lia; rewrite Hn, <- Hp; [done |].
  replace (n - f) with 0 by lia. unfold slice at 3. by rewrite ztake_0.
Qed.

(** Receiving into the areas of [writeIov] and committing is a [write]. *)
Lemma recv_is_write rb o bytes :
  wf rb -> 0 < zlen bytes <= freeSpace rb ->
  exists cnt iov, writeIov rb (Some o) (freeSpace rb) = (cnt, Some iov) /\ cnt <> 0 /\
    iov_len iov.1 + iov_len iov.2 = freeSpace rb /\
    commitWrite (scatter rb iov bytes) (zlen bytes) = (write rb (Some bytes) (zlen bytes)).1.
Proof.
  intros H Hb. pose proof (freeSpace_eq rb H) as Hf. pose proof (tail_range rb H) as Ht.
  pose proof (wf_size rb H). pose proof (wf_cap rb H). pose proof (wf_len rb H).
  unfold writeIov, write.
  rewrite (Z.min_l (freeSpace rb)), (Z.min_l (zlen bytes)) by lia. zb_eval.
  rewrite (size_sub_small (capacity_ rb)) by lia.
  set (e := capacity_ rb - tail_ rb).
  set (f := Z.min (freeSpace rb) e). set (g := Z.min (zlen bytes) e).
  rewrite (size_sub_small (freeSpace rb)), (size_sub_small (zlen bytes)) by lia.
  assert (Hg : ztake f bytes = slice 0 g bytes).
  { unfold slice. rewrite zdrop_0. unfold g.
    destruct (Z.le_ge_cases (zlen bytes) e).
    - rewrite !ztake_ge by lia. done.
    - f_equal. lia. }
  assert (Hg1 : zlen (slice 0 g bytes) = g) by (apply zlen_slice; lia).
  assert (Hfree : forall buf, freeSpace (mk buf (capacity_ rb) (head_ rb) (tail_ rb) (size_ rb))
                              = freeSpace rb) by done.
  assert (Htl : size_add (tail_ rb) (zlen bytes) mod capacity_ rb =
                (tail_ rb + zlen bytes) mod capacity_ rb) by (by rewrite size_add_small by lia).
  destruct (Z.ltb_spec 0 (zlen bytes - g)) as [Hr | Hr].
  - assert (g = e /\ f = e) as [Hge Hfe] by lia.
    zb_eval.
    do 2 eexists. split; [done |]. split; [lia |]. split; [simpl; lia |].
    unfold scatter, commitWrite, iov_store; cbn [iov_base iov_len fst snd].
    rewrite Hfree. zb_eval.
    unfold copy_in; cbn [buffer_ capacity_ head_ tail_ size_ fst snd].
    rewrite Hg, Hg1.
    assert (Ht0 : size_add (tail_ rb) g mod capacity_ rb = 0).
    { rewrite size_add_small by lia. replace (tail_ rb + g) with (capacity_ rb) by lia.
      apply Z.mod_same. lia. }
    assert (Hg2 : zdrop f bytes = slice g (zlen bytes - g) bytes).
    { unfold slice. rewrite Hge, Hfe. rewrite ztake_ge; [done |]. rewrite zlen_zdrop; lia. }
    rewrite Ht0, <- Hg2, Htl, zlen_zdrop by lia. f_equal.
    + rewrite size_add_small by lia. wrap_cases; lia.
    + rewrite (size_add_small (size_ rb) g), !size_add_small by lia. lia.
  - assert (Hd : zdrop f bytes = []) by (apply zdrop_ge; lia).
    assert (Heq : commitWrite (scatter rb (mk_iovec (Some (tail_ rb)) f,
        if 0 <? freeSpace rb - f then mk_iovec (Some 0) (freeSpace rb - f) else null_iov) bytes)
        (zlen bytes) = copy_in rb (slice 0 g bytes)).
    { unfold scatter, commitWrite, iov_store; cbn [iov_base iov_len fst snd].
      rewrite Hfree. zb_eval.
      unfold copy_in; cbn [buffer_ capacity_ head_ tail_ size_ fst snd].
      rewrite Hg, Hg1, Hd. replace (zlen bytes) with g by lia.
      destruct (0 <? freeSpace rb - f); cbn; by rewrite ?blit_nil by lia. }
    destruct (Z.ltb_spec 0 (freeSpace rb - f));
      do 2 eexists; (split; [done |]); (split; [lia |]); (split; [simpl; lia |]); exact Heq.
Qed.

(** [readView] hands out a prefix of the oldest bytes, without copying, and
    consumes exactly those; the view is empty only when nothing is stored or
    nothing is asked for. *)
Lemma readView_spec rb maxLen :
  wf rb -> 0 <= maxLen ->
  let k := Z.min maxLen (Z.min (size_ rb) (capacity_ rb - head_ rb)) in
  wf (readView rb maxLen).1 /\
  vsize (readView rb maxLen).2 = k /\
  view_bytes rb (readView rb maxLen).2 = ztake k (contents rb) /\
  contents (readView rb maxLen).1 = zdrop k (contents rb) /\
  capacity_ (readView rb maxLen).1 = capacity_ rb /\
  size_ (readView rb maxLen).1 = size_ rb - k /\
  buffer_ (readView rb maxLen).1 = buffer_ rb /\
  (k = 0 <-> maxLen = 0 \/ size_ rb = 0).
Proof.
  intros H Hm k. pose proof (wf_size rb H) as Hs. pose proof (wf_head rb H) as Hh.
  pose proof (wf_cap rb H) as Hcap.
  assert (Hk0 : k = 0 <-> maxLen = 0 \/ size_ rb = 0) by lia.
  assert (Hpv : peekView rb maxLen = if k =? 0 then empty_view else mk_view (Some (head_ rb)) k).
  { unfold peekView. rewrite (size_sub_small (capacity_ rb)) by lia. fold k.
    destruct (Z.eqb_spec maxLen 0), (Z.eqb_spec (size_ rb) 0); cbn [orb];
      destruct (Z.eqb_spec k 0); (done || lia). }
  unfold readView. rewrite Hpv. destruct (Z.eqb_spec k 0) as [Hk | Hk].
  - cbn. unfold view_bytes; cbn. rewrite Hk, ztake_0, zdrop_0. split_and!; auto; lia.
  - unfold view_empty; cbn [vsize]. rewrite (proj2 (Z.eqb_neq k 0)) by done.
    destruct (advance_head rb k H ltac:(lia)) as [Hw Hd].
    unfold view_bytes; cbn [fst snd vsize vdata buffer_ capacity_ size_].
    rewrite (size_sub_small (size_ rb) k) in * by lia.
    split_and!; auto; try lia. apply slice_head; (done || lia).
Qed.

(** [write] leaves every cell alone that is not one of the next free ones. *)
Lemma write_frame rb d (j : nat) :
  wf rb -> zlen d <= freeSpace rb -> 0 <= Z.of_nat j < capacity_ rb ->
  (forall i, 0 <= i < zlen d -> (tail_ rb + i) mod capacity_ rb <> Z.of_nat j) ->
  buffer_ (write rb (Some d) (zlen d)).1 !! j = buffer_ rb !! j.
Proof.
  intros H Hd Hj Hout. pose proof (freeSpace_eq rb H) as Hf.
  pose proof (tail_range rb H). pose proof (wf_cap rb H). pose proof (wf_len rb H) as Hl.
  pose proof (zlen_nonneg d). pose proof (wf_size rb H).
  assert (Hcell : forall lo m, 0 <= lo -> lo + m <= zlen d -> 0 <= m ->
    forall base, (forall i, 0 <= i < m -> base + i = (tail_ rb + (lo + i)) mod capacity_ rb) ->
    Z.of_nat j < base \/ base + m <= Z.of_nat j).
  { intros lo m Hlo Hm Hm0 base Hb.
    destruct (Z.lt_ge_cases (Z.of_nat j) base); [by left |].
    destruct (Z.le_gt_cases (base + m) (Z.of_nat j)); [by right |].
    exfalso. apply (Hout (lo + (Z.of_nat j - base))); [lia |]. rewrite <- Hb by lia. lia. }
  unfold write. rewrite Z.min_l by lia. rewrite (size_sub_small (capacity_ rb)) by lia.
  destruct (Z.eqb_spec (zlen d) 0); [done |].
  set (f := Z.min (zlen d) (capacity_ rb - tail_ rb)).
  rewrite (size_sub_small (zlen d) f) by lia.
  assert (Hz : zlen (slice 0 f d) = f) by (apply zlen_slice; lia).
  assert (Hb1 : buffer_ (copy_in rb (slice 0 f d)) !! j = buffer_ rb !! j).
  { unfold copy_in; cbn [buffer_]. apply lookup_blit_out; [lia | lia |]. rewrite Hz.
    apply (Hcell 0 f); [lia.. |]. intros i Hi. rewrite Z.mod_small; lia. }
  destruct (Z.ltb_spec 0 (zlen d - f)) as [Hr | Hr]; [| done]. cbn [fst].
  rewrite <- Hb1. set (rb1 := copy_in rb (slice 0 f d)) in *.
  assert (Ht1 : tail_ rb1 = 0).
  { subst rb1. unfold copy_in; cbn [tail_]. rewrite Hz, size_add_small by lia.
    replace (tail_ rb + f) with (capacity_ rb) by lia. apply Z.mod_same. lia. }
  assert (Hl1 : zlen (buffer_ rb1) = capacity_ rb).
  { subst rb1. unfold copy_in; cbn [buffer_]. rewrite zlen_blit; lia. }
  assert (Hz2 : zlen (slice f (zlen d - f) d) = zlen d - f) by (apply zlen_slice; lia).
  unfold copy_in; cbn [buffer_]. rewrite Ht1. apply lookup_blit_out; [lia | lia |]. rewrite Hz2.
  apply (Hcell f (zlen d - f)); [lia.. |]. intros i Hi.
  replace (tail_ rb + (f + i)) with (i + 1 * capacity_ rb) by lia.
  rewrite Z.mod_add by lia. rewrite Z.mod_small; lia.
Qed.

(** A receive of no bytes changes nothing. *)
Lemma recv_nothing rb iov :
  0 <= default 0 (iov_base iov.1) -> 0 <= default 0 (iov_base iov.2) ->
  commitWrite (scatter rb iov []) (zlen (@nil byte)) = rb.
Proof.
  destruct iov as [[[o1 |] n1] [[o2 |] n2]], rb; simpl; intros;
    unfold scatter, commitWrite, iov_store; simpl; unfold ztake, zdrop;
    by rewrite ?take_nil, ?drop_nil, ?blit_nil by lia.
Qed.

Lemma readView_tail rb maxLen : tail_ (readView rb maxLen).1 = tail_ rb.
Proof. unfold readView. by destruct (view_empty _). Qed.

Lemma readView_head rb maxLen off :
  vdata (readView rb maxLen).2 = Some off -> off = head_ rb.
Proof. unfold readView, peekView. if_cases; simpl; congruence. Qed.

Lemma clear_spec rb : wf rb -> wf (clear rb) /\ contents (clear rb) = [].
Proof.
  intros H. wf_facts H. split; [| done].
  split; simpl; try lia. by rewrite Z.mod_0_l by lia.
Qed.

End Lemmas.

(* ------------------------------------------------------------------ *)
(** ** The specification: a bounded FIFO of bytes *)

Record fifo := mk_fifo { q_cap : Z; q_data : list byte }.

(** Calls of the class's interface.  [ORecv avail] is one pass of the receive
    loop: [writeIov] over the free space, the kernel stores as much of the
    available bytes as fits, [commitWrite]. *)
Inductive op :=
| OWrite (data : list byte)
| OWriteNull (len : Z)
| ORead (dest : bool) (len : Z)
| OPeek (dest : bool) (len : Z)
| ORecv (avail : list byte)
| OGather (maxLen : Z)
| OClear.

Definition op_ok (o : op) : Prop :=
  match o with
  | ORead _ len | OPeek _ len | OGather len => 0 <= len
  | _ => True
  end.

Definition ring_step (rb : t) (o : op) : t * (list byte * Z) :=
  match o with
  | OWrite d => let '(rb', n) := write rb (Some d) (zlen d) in (rb', ([], n))
  | OWriteNull len => let '(rb', n) := write rb None len in (rb', ([], n))
  | ORead dest len => let '(rb', d, n) := read rb dest len in (rb', (d, n))
  | OPeek dest len => (rb, peek rb dest len)
  | ORecv avail =>
      match writeIov rb (Some null_iov2) (freeSpace rb) with
      | (cnt, Some iov) =>
          if cnt =? 0 then (rb, ([], 0)) else
          let got := ztake (iov_len iov.1 + iov_len iov.2) avail in
          (commitWrite (scatter rb iov got) (zlen got), ([], zlen got))
      | (_, None) => (rb, ([], 0))
      end
  | OGather maxLen =>
      match peekIov rb (Some null_iov2) maxLen with
      | (cnt, Some iov) =>
          if cnt =? 0 then (rb, ([], 0))
          else (rb, (gather rb iov, iov_len iov.1 + iov_len iov.2))
      | (_, None) => (rb, ([], 0))
      end
  | OClear => (clear rb, ([], 0))
  end.

(** The bounded queue: appending takes what fits, reading takes from the
    front. *)
Definition fifo_push (q : fifo) (d : list byte) : fifo * (list byte * Z) :=
  let n := Z.min (zlen d) (q_cap q - zlen (q_data q)) in
  (mk_fifo (q_cap q) (q_data q ++ ztake n d), ([], n)).

Definition fifo_front (q : fifo) (len : Z) : list byte * Z :=
  let n := Z.min len (zlen (q_data q)) in (ztake n (q_data q), n).

Definition fifo_step (q : fifo) (o : op) : fifo * (list byte * Z) :=
  match o with
  | OWrite d | ORecv d => fifo_push q d
  | OWriteNull _ => (q, ([], 0))
  | ORead false _ | OPeek false _ => (q, ([], 0))
  | ORead true len =>
      let '(d, n) := fifo_front q len in (mk_fifo (q_cap q) (zdrop n (q_data q)), (d, n))
  | OPeek true len | OGather len => (q, fifo_front q len)
  | OClear => (mk_fifo (q_cap q) [], ([], 0))
  end.

(** The ring represents the queue. *)
Definition represents (rb : t) (q : fifo) : Prop :=
  wf rb /\ contents rb = q_data q /\ capacity_ rb = q_cap q.

Section Refinement.
Implicit Types (rb : t) (q : fifo).

Lemma represents_size rb q : represents rb q -> size_ rb = zlen (q_data q).
Proof. intros (H & <- & _). symmetry. by apply contents_len. Qed.

Lemma write_refines rb q d :
  represents rb q ->
  represents (write rb (Some d) (zlen d)).1 (fifo_push q d).1 /\
  (write rb (Some d) (zlen d)).2 = (fifo_push q d).2.2.
Proof.
  intros Hr. pose proof (represents_size rb q Hr) as Hs. destruct Hr as (H & Hc & Hq).
  pose proof (zlen_nonneg d).
  destruct (write_spec rb d (zlen d) H) as (Hw & Hn & Hc' & Hq'); [lia |].
  rewrite freeSpace_eq in * by done. unfold fifo_push; cbn [fst snd].
  rewrite <- Hs, <- Hq. split; [| done]. split; [done |]. split; [| exact Hq'].
  cbn [q_data]. by rewrite Hc', Hc.
Qed.

Lemma recv_refines rb q avail :
  represents rb q ->
  represents (ring_step rb (ORecv avail)).1 (fifo_push q avail).1 /\
  (ring_step rb (ORecv avail)).2 = (fifo_push q avail).2.
Proof.
  intros Hr. pose proof (represents_size rb q Hr) as Hs.
  pose proof Hr as (H & Hc & Hq). pose proof (zlen_nonneg avail).
  pose proof (freeSpace_eq rb H) as Hf. pose proof (wf_size rb H). pose proof (wf_cap rb H).
  pose proof (tail_range rb H).
  set (got := ztake (freeSpace rb) avail).
  assert (Hgot : zlen got = Z.min (freeSpace rb) (zlen avail)) by (apply zlen_ztake; lia).
  destruct (Z.eq_dec (freeSpace rb) 0) as [Hz | Hz].
  - assert (Hstep : ring_step rb (ORecv avail) = (rb, ([], 0))).
    { unfold ring_step, writeIov. by rewrite Hz. }
    rewrite Hstep. unfold fifo_push. rewrite <- Hs, <- Hq.
    replace (Z.min (zlen avail) (capacity_ rb - size_ rb)) with 0 by lia.
    simpl. rewrite ztake_0, app_nil_r. split; [| done]. split; [done |]. by rewrite <- Hc.
  - assert (Hstep : ring_step rb (ORecv avail) =
              ((write rb (Some got) (zlen got)).1, ([], zlen got))).
    { destruct (Z.eq_dec (zlen avail) 0) as [Ha | Ha].
      - assert (got = []) as -> by (apply zlen_zero_nil; lia).
        apply zlen_zero_nil in Ha as ->. unfold ring_step, writeIov.
        rewrite Z.min_id. zb_eval. rewrite (size_sub_small (capacity_ rb)) by lia.
        assert (Hnil : forall n, ztake n (@nil byte) = []) by (intros; apply take_nil).
        destruct (0 <? _); cbn [fst snd]; zb_eval; rewrite Hnil, recv_nothing; done || (simpl; lia).
      - destruct (recv_is_write rb null_iov2 got H) as (cnt & iov & E & Hcnt & Hi & Hx);
          [lia |].
        unfold ring_step. rewrite E. zb_eval. rewrite Hi. fold got. by rewrite Hx. }
    rewrite Hstep. destruct (write_refines rb q got Hr) as [Hr1 _].
    unfold fifo_push in *. rewrite <- Hs, <- Hq, <- Hf in *. cbn [fst snd] in *.
    rewrite Z.min_l in Hr1 by lia. rewrite Z.min_comm, <- Hgot. split; [| done].
    rewrite (ztake_ge (zlen got) got) in Hr1 by lia.
    replace (ztake (zlen got) avail) with got; [done |].
    rewrite Hgot, <- ztake_ztake, (ztake_ge (zlen avail)) by lia. done.
Qed.

Lemma ring_step_refines rb q o :
  op_ok o -> represents rb q ->
  represents (ring_step rb o).1 (fifo_step q o).1 /\ (ring_step rb o).2 = (fifo_step q o).2.
Proof.
  intros Ho Hr. pose proof (represents_size rb q Hr) as Hs. pose proof Hr as (H & Hc & Hq).
  destruct o as [d | len | dest len | dest len | avail | maxLen |]; simpl in Ho.
  - destruct (write_refines rb q d Hr) as [Hr1 Hn]. unfold ring_step, fifo_step.
    destruct (write rb (Some d) (zlen d)); simpl in *. by rewrite Hn.
  - done.
  - destruct dest; [| done]. unfold ring_step, fifo_step, fifo_front.
    destruct (read_spec rb len H Ho) as (Hw & Hn & Hd & Hc' & Hcap & _).
    destruct (read rb true len) as [[rb' d] n]; simpl in *. subst.
    rewrite <- Hs, <- Hc. split; [| done]. split; [done |]. by simpl; rewrite <- Hq.
  - destruct dest; [| done]. unfold ring_step, fifo_step, fifo_front.
    rewrite peek_spec by done. rewrite <- Hs, <- Hc. done.
  - by apply recv_refines.
  - destruct (peekIov_spec rb null_iov2 maxLen H Ho) as (cnt & iov & E & Hz & _ & Hg).
    unfold ring_step, fifo_step, fifo_front. rewrite E, <- Hs, <- Hc.
    destruct (Z.eqb_spec cnt 0) as [-> | Hcnt]; (split; [done |]); simpl.
    + pose proof (wf_size rb H). by replace (Z.min maxLen (size_ rb)) with 0 by lia.
    + destruct (Hg Hcnt) as (-> & -> & _). f_equal.
      pose proof (contents_len rb H). pose proof (wf_size rb H).
      rewrite <- (ztake_ge (size_ rb) (contents rb)) at 1 by lia. by rewrite ztake_ztake by lia.
  - destruct (clear_spec rb H) as [Hw Hcl]. unfold ring_step, fifo_step; simpl.
    split; [| done]. by split.
Qed.

End Refinement.

(* ------------------------------------------------------------------ *)
(** ** Theorems *)

(** C6: a [RingBuffer] is a bounded FIFO of bytes.  Whatever capacity the
    constructor accepts and whatever sequence of writes, reads, peeks, scatter
    receives, gather sends and clears follows, every call returns the same
    count and the same bytes as the queue of that capacity, wherever the data
    wraps around; and the ring is well formed afterwards. *)
Theorem ring_is_bounded_fifo (c : Z) (rb : t) (ops : list op) :
  0 <= c -> create c = inr rb -> Forall op_ok ops ->
  (run ring_step rb ops).2 = (run fifo_step (mk_fifo c []) ops).2 /\
  represents (run ring_step rb ops).1 (run fifo_step (mk_fifo c []) ops).1.
Proof.
  intros Hc Hcr Hok. destruct (create_wf c rb Hcr Hc) as (Hw & Hcon & Hcap).
  destruct (run_simulation ring_step fifo_step op_ok represents) with (ops := ops)
    (s1 := rb) (s2 := mk_fifo c []) as [Hr He]; [| done | done |].
  - intros rb0 q o Ho Hr. by apply ring_step_refines.
  - done.
Qed.

Definition b (z : Z) : byte := z2b z.

Definition fresh3 : t := mk [z2b 0; z2b 0; z2b 0] 3 0 0 0.

Lemma ring_is_bounded_fifo_witness :
  (run ring_step fresh3
     [OWrite [b 1; b 2]; ORead true 1; ORecv [b 3; b 4; b 5]; OPeek true 9; ORead true 2]).2 =
  [([], 2); ([b 1], 1); ([], 2); ([b 2; b 3; b 4], 3); ([b 2; b 3], 2)].
Proof.
  etransitivity; [apply (ring_is_bounded_fifo 3 fresh3) |].
  - lia.
  - vm_compute. reflexivity.
  - repeat constructor; simpl; lia.
  - vm_compute. reflexivity.
Defined.

(** The bytes behind the view that [readView] hands out stay what they
    were while at most as many bytes are written as were free before the
    call; the ring reuses the consumed area only after that. *)
Theorem readView_stays_valid (rb : t) (maxLen : Z) (d : list byte) :
  wf rb -> 0 <= maxLen -> zlen d <= freeSpace rb ->
  let '(rb1, v) := readView rb maxLen in
  view_bytes (write rb1 (Some d) (zlen d)).1 v = ztake (vsize v) (contents rb).
Proof.
  intros H Hm Hd. pose proof (readView_spec rb maxLen H Hm) as Hs. cbv zeta in Hs.
  pose proof (freeSpace_eq rb H) as Hf. pose proof (freeSpace_eq _ (proj1 Hs)) as Hf1.
  pose proof (readView_tail rb maxLen) as Ht.
  pose proof (readView_head rb maxLen) as Hv.
  destruct (readView rb maxLen) as [rb1 v]; cbn [fst snd] in *.
  destruct Hs as (Hw1 & Hk & Hb & _ & Hcap & Hsz & Hbuf & _).
  pose proof (wf_size rb H). pose proof (wf_head rb H). pose proof (wf_cap rb H).
  rewrite Hk, <- Hb. unfold view_bytes. destruct (vdata v) as [off |]; [| done].
  specialize (Hv off eq_refl) as ->.
  destruct (write_spec rb1 d (zlen d) Hw1) as (Hw2 & _ & _ & Hcap2); [zlen_lia |].
  pose proof (wf_len _ Hw2). pose proof (wf_len _ H).
  symmetry. apply slice_ext; [lia | lia | lia |].
  intros j Hj. symmetry. rewrite write_frame; [by rewrite Hbuf | done | lia | lia |].
  intros i Hi. rewrite Ht, Hcap. rewrite (wf_tail rb H), Z.add_mod_idemp_l by lia.
  wrap_cases; lia.
Qed.

Lemma readView_stays_valid_witness :
  let rb := mk [b 7; b 8; b 9; b 6] 4 2 1 3 in
  view_bytes (write (readView rb 5).1 (Some [b 1]) 1).1 (readView rb 5).2 = [b 9; b 6].
Proof.
  apply (readView_stays_valid (mk [b 7; b 8; b 9; b 6] 4 2 1 3) 5 [b 1]);
    [split; vm_compute; intuition congruence | lia | vm_compute; congruence].
Defined.

End RingBuffer.
