(* ===== verification/BufferPool.v ===== *)
(** * BufferPool: the per-thread pool of fixed-size blocks

    Models [engine/include/hypernet/buffer/BufferPool.hpp] and
    [engine/src/hypernet/buffer/BufferPool.cpp].  A pointer is its offset in
    [storage_]; [None] is [nullptr].  [deallocate] is modelled for both build
    modes: with assertions ([debug = true]) a foreign, misaligned or
    already-free pointer is [AssertionFailed]; without them it is pushed.

    The theorems follow a client through any sequence of calls: the blocks it
    holds and the blocks in the free list are always the blocks of the
    storage, each exactly once. *)

From S2P Require Import Prelude.

Module BufferPool.

Record t := mk {
  blockSize_ : Z;
  blockCount_ : Z;
  storageBytes : Z;
  freeList_ : list Z
}.

Inductive error := InvalidArgument | BadAlloc.

(** Offsets of the blocks, in the order the constructor pushes them. *)
Definition block_offsets (blockSize blockCount : Z) : list Z :=
  (fun i => u64 (Z.of_nat i * blockSize)) <$> seq 0 (Z.to_nat blockCount).

Definition create (blockSize blockCount : Z) : error + t :=
  if blockSize =? 0 then inl InvalidArgument else
  if blockCount =? 0 then inl InvalidArgument else
  let bytes := u64 (blockSize * blockCount) in
  if VEC_MAX <? bytes then inl BadAlloc else
  inr (mk blockSize blockCount bytes (block_offsets blockSize blockCount)).

Definition blockSize (p : t) : Z := blockSize_ p.
Definition capacity (p : t) : Z := blockCount_ p.
Definition freeBlocks (p : t) : Z := zlen (freeList_ p).
Definition exhausted (p : t) : bool := freeBlocks p =? 0.

(** [freeList_.back()] and [pop_back()]. *)
Definition allocate (p : t) : t * option Z :=
  match last (freeList_ p) with
  | None => (p, None)
  | Some ptr =>
      (mk (blockSize_ p) (blockCount_ p) (storageBytes p)
          (take (length (freeList_ p) - 1) (freeList_ p)), Some ptr)
  end.

Inductive dealloc_result := Ok (p : t) | AssertionFailed.

Definition deallocate (debug : bool) (p : t) (ptr : option Z) : dealloc_result :=
  match ptr with
  | None => Ok p
  | Some off =>
      let pushed := mk (blockSize_ p) (blockCount_ p) (storageBytes p) (freeList_ p ++ [off]) in
      if debug then
        let end_ := u64 (blockSize_ p * blockCount_ p) in
        if negb ((0 <=? off) && (off <? end_)) then AssertionFailed else
        if negb (off mod blockSize_ p =? 0) then AssertionFailed else
        if bool_decide (off ∈ freeList_ p) then AssertionFailed else
        Ok pushed
      else Ok pushed
  end.

(* ------------------------------------------------------------------ *)
(** ** A client and its blocks *)

(** The pool and the blocks the client holds. *)
Record world := mk_world { pool : t; held : list Z }.

(** A correct client gives back only blocks it holds (or null). *)
Inductive step (debug : bool) : world -> world -> Prop :=
| step_alloc p h p' ptr :
    allocate p = (p', Some ptr) -> step debug (mk_world p h) (mk_world p' (ptr :: h))
| step_alloc_fail p h p' :
    allocate p = (p', None) -> step debug (mk_world p h) (mk_world p' h)
| step_free p h1 ptr h2 p' :
    deallocate debug p (Some ptr) = Ok p' ->
    step debug (mk_world p (h1 ++ ptr :: h2)) (mk_world p' (h1 ++ h2))
| step_free_null p h p' :
    deallocate debug p None = Ok p' -> step debug (mk_world p h) (mk_world p' h).

Record pool_inv (bs bc : Z) (w : world) : Prop := {
  inv_bs : blockSize_ (pool w) = bs;
  inv_bc : blockCount_ (pool w) = bc;
  inv_bytes : storageBytes (pool w) = bs * bc;
  inv_blocks : freeList_ (pool w) ++ held w ≡ₚ block_offsets bs bc
}.

Section Lemmas.
Variables bs bc : Z.
Lemma allocate_perm p p' ptr :
  allocate p = (p', Some ptr) -> freeList_ p ≡ₚ ptr :: freeList_ p' /\
  blockSize_ p' = blockSize_ p /\ blockCount_ p' = blockCount_ p /\ storageBytes p' = storageBytes p.
Proof.
  unfold allocate. destruct (last (freeList_ p)) as [x |] eqn:E; [| done].
  intros [= <- ->]. split; [| done]. apply last_Some in E as [l ->]. simpl.
  rewrite length_app. simpl. replace (length l + 1 - 1)%nat with (length l) by lia.
  rewrite take_app_length. solve_Permutation.
Qed.

Lemma step_inv debug w w' : pool_inv bs bc w -> step debug w w' -> pool_inv bs bc w'.
Proof.
  intros [Hbs Hbc Hby Hbl] Hs. inversion Hs as [p h p' ptr Ha | p h p' Ha | p h1 ptr h2 p' Hd | p h p' Hd];
    subst; simpl in *.
  - apply allocate_perm in Ha as (Hp & ? & ? & ?). split; simpl; try congruence.
    rewrite <- Hbl, Hp. solve_Permutation.
  - unfold allocate in Ha. destruct (last (freeList_ p)); simplify_eq. by split.
  - assert (p' = mk (blockSize_ p) (blockCount_ p) (storageBytes p) (freeList_ p ++ [ptr])) as ->.
    { unfold deallocate in Hd. destruct debug; if_cases; by simplify_eq. }
    split; simpl; try congruence. rewrite <- Hbl. solve_Permutation.
  - simplify_eq. by split.
Qed.

Hypothesis bs_pos : 0 < bs.
Hypothesis bc_pos : 0 < bc.
Hypothesis fits : bs * bc <= VEC_MAX.

Lemma offsets_small : block_offsets bs bc = (fun i => Z.of_nat i * bs) <$> seq 0 (Z.to_nat bc).
Proof.
  unfold block_offsets. apply list_fmap_ext. intros i x Hx.
  apply lookup_seq in Hx as [-> Hi]. apply u64_small. nia.
Qed.

Lemma offsets_spec off :
  off ∈ block_offsets bs bc <-> exists i, 0 <= i < bc /\ off = i * bs.
Proof.
  rewrite offsets_small, list_elem_of_fmap. split.
  - intros (i & -> & Hi%elem_of_seq). exists (Z.of_nat i). lia.
  - intros (i & Hi & ->). exists (Z.to_nat i). split; [lia |]. apply elem_of_seq. lia.
Qed.

Lemma offsets_NoDup : NoDup (block_offsets bs bc).
Proof.
  rewrite offsets_small. apply NoDup_fmap_2_strong; [| apply NoDup_seq].
  intros x y _ _ H. nia.
Qed.

Lemma held_blocks w : pool_inv bs bc w -> NoDup (freeList_ (pool w) ++ held w).
Proof. intros [_ _ _ Hbl]. rewrite Hbl. apply offsets_NoDup. Qed.

End Lemmas.

(* ------------------------------------------------------------------ *)
(** ** Theorems *)

(** Blocks are never handed out twice.  After any sequence of calls by a
    client that frees only what it holds, the blocks held are pairwise
    disjoint ranges inside the storage, none of them is in the free list, the
    next [allocate] returns a block disjoint from all of them, it fails only
    when all blocks are held, and the debug assertions never fire. *)
Theorem pool_blocks_disjoint (debug : bool) (bs bc : Z) (p : t) (w : world) :
  0 <= bs -> 0 <= bc -> bs * bc <= VEC_MAX -> create bs bc = inr p ->
  star (step debug) (mk_world p []) w ->
  NoDup (held w) /\
  (forall off, off ∈ held w -> exists i, 0 <= i < bc /\ off = i * bs /\ off + bs <= storageBytes (pool w)) /\
  (forall a b, a ∈ held w -> b ∈ held w -> a <> b -> a + bs <= b \/ b + bs <= a) /\
  (match allocate (pool w) with
   | (p', Some ptr) => ~ (ptr ∈ held w) /\ ptr + bs <= storageBytes p'
   | (_, None) => zlen (held w) = bc
   end) /\
  (forall off, off ∈ held w -> deallocate true (pool w) (Some off) <> AssertionFailed).
Proof.
  intros Hbs Hbc Hfit Hcr Hrun. unfold create in Hcr. if_cases; simplify_eq.
  rewrite u64_small in * by nia.
  assert (Hi : pool_inv bs bc w).
  { apply (star_invariant (step debug) (pool_inv bs bc) _ w) in Hrun; [done | |].
    - intros s s' Hs Hst. by apply (step_inv bs bc debug s).
    - split; try done. simpl. by rewrite app_nil_r. }
  pose proof (held_blocks bs bc ltac:(lia) ltac:(lia) Hfit w Hi) as Hnd.
  pose proof (offsets_spec bs bc ltac:(lia) ltac:(lia) Hfit) as Hoff.
  destruct Hi as [Hb1 Hb2 Hb3 Hbl]. apply NoDup_app in Hnd as (Hnf & Hdisj & Hnh).
  assert (Hin : forall off, off ∈ freeList_ (pool w) \/ off ∈ held w ->
            exists i, 0 <= i < bc /\ off = i * bs).
  { intros off Ho. apply Hoff. rewrite <- Hbl. by apply elem_of_app. }
  split_and!; [done | | | |].
  - intros off Ho. destruct (Hin off) as (i & Hi & ->); [by right |]. exists i. split_and!; (done || nia).
  - intros a b Ha Hb Hne. destruct (Hin a) as (i & Hi & ->); [by right |].
    destruct (Hin b) as (j & Hj & ->); [by right |]. destruct (Z.lt_trichotomy i j) as [| [|]]; nia.
  - destruct (allocate (pool w)) as [p' [ptr |]] eqn:Ea.
    + apply allocate_perm in Ea as (Hp & _ & _ & Hby).
      assert (Hptr : ptr ∈ freeList_ (pool w)) by (rewrite Hp; apply elem_of_cons; by left).
      split; [by apply Hdisj |]. destruct (Hin ptr) as (i & Hi & ->); [by left |]. nia.
    + unfold allocate in Ea. destruct (last (freeList_ (pool w))) eqn:El; [done |].
      apply last_None in El. rewrite El in Hbl. simpl in Hbl. unfold zlen.
      rewrite (Permutation_length Hbl). unfold block_offsets.
      rewrite length_fmap, length_seq. lia.
  - intros off Ho. destruct (Hin off) as (i & Hi & ->); [by right |].
    unfold deallocate. rewrite Hb1, Hb2, u64_small by nia.
    rewrite Z.mod_mul by lia.
    rewrite bool_decide_eq_false_2 by (intros Hf; exact (Hdisj _ Hf Ho)).
    rewrite (proj2 (Z.leb_le 0 (i * bs))), (proj2 (Z.ltb_lt (i * bs) (bs * bc))) by nia. done.
Qed.

Lemma pool_blocks_disjoint_witness :
  exists w, held w = [0; 8] /\ NoDup (held w) /\
    (forall off, off ∈ held w -> deallocate true (pool w) (Some off) <> AssertionFailed).
Proof.
  exists (mk_world (mk 8 2 16 []) [0; 8]). split; [done |].
  destruct (pool_blocks_disjoint true 8 2 (mk 8 2 16 [0; 8]) (mk_world (mk 8 2 16 []) [0; 8]))
    as (H1 & _ & _ & _ & H5); [lia | lia | lia | vm_compute; reflexivity | | done].
  apply star_step with (mk_world (mk 8 2 16 [0]) [8]).
  - apply star_step with (mk_world (mk 8 2 16 [0; 8]) []); [apply star_refl |].
    apply step_alloc. vm_compute. reflexivity.
  - apply step_alloc. vm_compute. reflexivity.
Defined.

End BufferPool.
