(* ===== verification/ByteWriter.v ===== *)
(** * ByteWriter: the growing output buffer of [MessageCodec.hpp]

    Models [hypernet::protocol::ByteWriter] of
    [engine/include/hypernet/protocol/MessageCodec.hpp].  A writer is its
    buffer; the null pointer of [writeBytes] is [None]. *)

From S2P Require Import Prelude Endian.
Import Endian.

Module ByteWriter.

Record t := mk { buf_ : list byte }.

Definition init : t := mk [].
Definition clear (w : t) : t := mk [].
Definition size (w : t) : Z := zlen (buf_ w).
Definition empty (w : t) : bool := size w =? 0.
Definition release (w : t) : list byte * t := (buf_ w, mk []).

Definition push_back (w : t) (x : byte) : t := mk (buf_ w ++ [x]).

Definition writeU8 (w : t) (v : Z) : t := push_back w (z2b v).

Definition writeU16Be (w : t) (v : Z) : t :=
  push_back (push_back w (octet v 8)) (octet v 0).

Definition writeU32Be (w : t) (v : Z) : t :=
  push_back (push_back (push_back (push_back w
    (octet v 24)) (octet v 16)) (octet v 8)) (octet v 0).

Definition writeU64Be (w : t) (v : Z) : t :=
  push_back (push_back (push_back (push_back (push_back (push_back (push_back (push_back w
    (octet v 56)) (octet v 48)) (octet v 40)) (octet v 32))
    (octet v 24)) (octet v 16)) (octet v 8)) (octet v 0).

(** [data] is [None] for a null pointer, which is ignored. *)
Definition writeBytes (w : t) (data : option (list byte)) (len : Z) : t :=
  if len =? 0 then w else
  match data with
  | None => w
  | Some p => mk (buf_ w ++ slice 0 len p)
  end.

End ByteWriter.
