(* ===== verification/ByteReader.v ===== *)
(** * ByteReader: the bounds-checked reader of [MessageCodec.hpp]

    Models [hypernet::protocol::ByteReader] of
    [engine/include/hypernet/protocol/MessageCodec.hpp].  A reader is its span
    and its 64-bit offset.  The bounds check is [off_ + n <= size] in
    [std::size_t]; [ensure_exact] says when it is the mathematical one. *)

From S2P Require Import Prelude Endian.
Import Endian.

Module ByteReader.

Record t := mk { data_ : list byte; off_ : Z }.

Definition init (data : list byte) : t := mk data 0.
Definition size (r : t) : Z := zlen (data_ r).
Definition remaining (r : t) : Z := size_sub (size r) (off_ r).
Definition atEnd (r : t) : bool := off_ r =? size r.

Definition ensure_ (r : t) (n : Z) : bool := size_add (off_ r) n <=? size r.

Definition advance (r : t) (n : Z) : t := mk (data_ r) (size_add (off_ r) n).

(** [data_[off_ + 0]], ... as the argument of a load. *)
Definition here (r : t) : list byte := zdrop (off_ r) (data_ r).

Definition readU8 (r : t) : outcome Z t :=
  if negb (ensure_ r 1) then Failed else
  deref (at_ (here r) 0) (advance r 1).

Definition readU16Be (r : t) : outcome Z t :=
  if negb (ensure_ r 2) then Failed else
  let? (b0, r0) := deref (at_ (here r) 0) r in
  let? (b1, r1) := deref (at_ (here r0) 1) r0 in
  Done (u16 (Z.lor (shl32 b0 8) (shl32 b1 0))) (advance r1 2).

Definition readU32Be (r : t) : outcome Z t :=
  if negb (ensure_ r 4) then Failed else
  let? (b0, r) := deref (at_ (here r) 0) r in
  let? (b1, r) := deref (at_ (here r) 1) r in
  let? (b2, r) := deref (at_ (here r) 2) r in
  let? (b3, r) := deref (at_ (here r) 3) r in
  Done (Z.lor (Z.lor (Z.lor (shl32 b0 24) (shl32 b1 16)) (shl32 b2 8)) (shl32 b3 0))
       (advance r 4).

Definition readU64Be (r : t) : outcome Z t :=
  if negb (ensure_ r 8) then Failed else
  let? (b0, r) := deref (at_ (here r) 0) r in
  let? (b1, r) := deref (at_ (here r) 1) r in
  let? (b2, r) := deref (at_ (here r) 2) r in
  let? (b3, r) := deref (at_ (here r) 3) r in
  let? (b4, r) := deref (at_ (here r) 4) r in
  let? (b5, r) := deref (at_ (here r) 5) r in
  let? (b6, r) := deref (at_ (here r) 6) r in
  let? (b7, r) := deref (at_ (here r) 7) r in
  Done (Z.lor (Z.lor (Z.lor (Z.lor (Z.lor (Z.lor (Z.lor
    (shl64 b0 56) (shl64 b1 48)) (shl64 b2 40)) (shl64 b3 32))
    (shl64 b4 24)) (shl64 b5 16)) (shl64 b6 8)) (shl64 b7 0)) (advance r 8).

(** The bytes [off, off+len) of the span, [None] when the range leaves it. *)
Definition span_bytes (data : list byte) (off len : Z) : option (list byte) :=
  if off + len <=? zlen data then Some (slice off len data) else None.

(** [out] is [false] for a null pointer. *)
Definition readBytes (r : t) (out : bool) (len : Z) : outcome (list byte) t :=
  if len =? 0 then Done [] r else
  if negb out then Failed else
  if negb (ensure_ r len) then Failed else
  deref (span_bytes (data_ r) (off_ r) len) (advance r len).

Definition readBytesView (r : t) (len : Z) : outcome (list byte) t :=
  if negb (ensure_ r len) then Failed else
  deref (span_bytes (data_ r) (off_ r) len) (advance r len).

Definition skip (r : t) (len : Z) : outcome unit t :=
  if negb (ensure_ r len) then Failed else Done tt (advance r len).

(** The offset is inside the span, which is no larger than an object can be. *)
Record wf (r : t) : Prop := {
  wf_off : 0 <= off_ r <= size r;
  wf_size : size r <= VEC_MAX
}.

(** What is left to read. *)
Definition rest (r : t) : list byte := zdrop (off_ r) (data_ r).

(** Case analysis on the octets a read and a load access at the offset. *)
Ltac load_cases r :=
  change (rest r) with (here r);
  repeat (match goal with |- context [at_ (here r) ?i] => destruct (at_ (here r) i) end; cbn);
  done.

Section Lemmas.
Implicit Types r : t.

Lemma wf_init data : zlen data <= VEC_MAX -> wf (init data).
Proof. intros. split; simpl; [| done]. unfold size; simpl. zlen_lia. Qed.

Lemma rest_len r : wf r -> zlen (rest r) = size r - off_ r.
Proof. intros [H _]. unfold rest. rewrite zlen_zdrop by lia. unfold size in *. lia. Qed.

(** Within the address space the check is the mathematical one. *)
Lemma ensure_exact r n :
  wf r -> 0 <= n -> off_ r + n < U64 -> ensure_ r n = (n <=? zlen (rest r)).
Proof.
  intros H Hn Hs. pose proof (rest_len r H) as Hr. pose proof (wf_off r H).
  unfold ensure_. rewrite size_add_small by lia.
  destruct (Z.leb_spec (off_ r + n) (size r)), (Z.leb_spec n (zlen (rest r))); (done || lia).
Qed.

Lemma advance_spec r n :
  wf r -> 0 <= n <= zlen (rest r) ->
  wf (advance r n) /\ rest (advance r n) = zdrop n (rest r).
Proof.
  intros H Hn. pose proof (rest_len r H) as Hr. destruct H as [Ho Hs].
  assert (Ha : off_ (advance r n) = off_ r + n) by (simpl; apply size_add_small; lia).
  split.
  - split; [rewrite Ha; unfold size in *; simpl; lia | done].
  - unfold rest. rewrite Ha. simpl. by rewrite zdrop_zdrop by lia.
Qed.

(** A fixed-width read in two cases: enough bytes left, or not. *)
Lemma fixed_read_cases r n :
  wf r -> 0 <= n <= 8 ->
  (n <= zlen (rest r) /\ ensure_ r n = true) \/ (zlen (rest r) < n /\ ensure_ r n = false).
Proof.
  intros H Hn. pose proof (wf_off r H). pose proof (wf_size r H).
  rewrite ensure_exact by (done || lia). destruct (Z.leb_spec n (zlen (rest r))); auto.
Qed.

Lemma readU16Be_load r :
  wf r -> readU16Be r = if zlen (rest r) <? 2 then Failed
                        else deref (loadU16Be (rest r)) (advance r 2).
Proof.
  intros H. unfold readU16Be. destruct (fixed_read_cases r 2 H) as [[Hl ->] | [Hl ->]]; [lia | |].
  - zb_eval. unfold loadU16Be. load_cases r.
  - zb_eval. done.
Qed.

Lemma readU32Be_load r :
  wf r -> readU32Be r = if zlen (rest r) <? 4 then Failed
                        else deref (loadU32Be (rest r)) (advance r 4).
Proof.
  intros H. unfold readU32Be. destruct (fixed_read_cases r 4 H) as [[Hl ->] | [Hl ->]]; [lia | |].
  - zb_eval. unfold loadU32Be. load_cases r.
  - zb_eval. done.
Qed.

Lemma readU64Be_load r :
  wf r -> readU64Be r = if zlen (rest r) <? 8 then Failed
                        else deref (loadU64Be (rest r)) (advance r 8).
Proof.
  intros H. unfold readU64Be. destruct (fixed_read_cases r 8 H) as [[Hl ->] | [Hl ->]]; [lia | |].
  - zb_eval. unfold loadU64Be. load_cases r.
  - zb_eval. done.
Qed.

Lemma span_here r n :
  wf r -> 0 <= n <= zlen (rest r) -> span_bytes (data_ r) (off_ r) n = Some (ztake n (rest r)).
Proof.
  intros H Hn. pose proof (rest_len r H). pose proof (wf_off r H).
  unfold span_bytes. unfold size in *. by zb_eval.
Qed.

End Lemmas.

End ByteReader.
