(* ===== verification/MessageCodec.v ===== *)
(** * MessageCodec: [ByteWriter] and [ByteReader] together

    The theorems on [engine/include/hypernet/protocol/MessageCodec.hpp]: a
    sequence of fields written by a writer is what a reader gets back, and what
    happens when the 64-bit bounds check of the reader wraps. *)

From S2P Require Import Prelude Endian ByteWriter ByteReader.
Import Endian.

Module MessageCodec.

(* ------------------------------------------------------------------ *)
(** ** Sequences of fields *)

(** A field of a message and the shape a decoder asks for. *)
Inductive field := F8 (v : Z) | F16 (v : Z) | F32 (v : Z) | F64 (v : Z) | FBytes (l : list byte).
Inductive shape := S8 | S16 | S32 | S64 | SBytes (len : Z).

Definition field_ok (f : field) : Prop :=
  match f with
  | F8 v => 0 <= v < 256
  | F16 v => 0 <= v < U16
  | F32 v => 0 <= v < U32
  | F64 v => 0 <= v < U64
  | FBytes _ => True
  end.

Definition shape_of (f : field) : shape :=
  match f with
  | F8 _ => S8 | F16 _ => S16 | F32 _ => S32 | F64 _ => S64
  | FBytes l => SBytes (zlen l)
  end.

Definition write_field (w : ByteWriter.t) (f : field) : ByteWriter.t :=
  match f with
  | F8 v => ByteWriter.writeU8 w v
  | F16 v => ByteWriter.writeU16Be w v
  | F32 v => ByteWriter.writeU32Be w v
  | F64 v => ByteWriter.writeU64Be w v
  | FBytes l => ByteWriter.writeBytes w (Some l) (zlen l)
  end.

Definition encode (w : ByteWriter.t) (fs : list field) : ByteWriter.t := fold_left write_field fs w.

Definition read_field (r : ByteReader.t) (s : shape) : outcome field ByteReader.t :=
  match s with
  | S8 => let? (v, r) := ByteReader.readU8 r in Done (F8 v) r
  | S16 => let? (v, r) := ByteReader.readU16Be r in Done (F16 v) r
  | S32 => let? (v, r) := ByteReader.readU32Be r in Done (F32 v) r
  | S64 => let? (v, r) := ByteReader.readU64Be r in Done (F64 v) r
  | SBytes len => let? (l, r) := ByteReader.readBytes r true len in Done (FBytes l) r
  end.

Fixpoint decode (r : ByteReader.t) (ss : list shape) : outcome (list field) ByteReader.t :=
  match ss with
  | [] => Done [] r
  | s :: ss' =>
      let? (f, r) := read_field r s in
      let? (fs, r) := decode r ss' in
      Done (f :: fs) r
  end.

(** The bytes of a field. *)
Definition field_bytes (f : field) : list byte :=
  match f with
  | F8 v => [z2b v]
  | F16 v => storeU16Be v
  | F32 v => storeU32Be v
  | F64 v => storeU64Be v
  | FBytes l => l
  end.

Definition shape_size (s : shape) : Z :=
  match s with S8 => 1 | S16 => 2 | S32 => 4 | S64 => 8 | SBytes len => len end.

Section Fields.

Lemma write_field_buf w f :
  ByteWriter.buf_ (write_field w f) = ByteWriter.buf_ w ++ field_bytes f.
Proof.
  destruct f; simpl; rewrite <- ?app_assoc; try done.
  unfold ByteWriter.writeBytes. destruct (Z.eqb_spec (zlen l) 0) as [H | H].
  - by rewrite (zlen_zero_nil l H), app_nil_r.
  - simpl. unfold slice. by rewrite zdrop_0, ztake_ge by lia.
Qed.

Lemma encode_buf w fs :
  ByteWriter.buf_ (encode w fs) = ByteWriter.buf_ w ++ concat (field_bytes <$> fs).
Proof.
  revert w. induction fs as [| f fs IH]; intros w; simpl; [by rewrite app_nil_r |].
  rewrite IH, write_field_buf. by rewrite app_assoc.
Qed.

Lemma zlen_field f : zlen (field_bytes f) = shape_size (shape_of f).
Proof. by destruct f. Qed.

Lemma readU8_byte r :
  ByteReader.wf r -> ByteReader.readU8 r = if zlen (ByteReader.rest r) <? 1 then Failed
                                   else deref (at_ (ByteReader.rest r) 0) (ByteReader.advance r 1).
Proof.
  intros H. unfold ByteReader.readU8.
  destruct (ByteReader.fixed_read_cases r 1 H) as [[Hl ->] | [Hl ->]]; [lia | |]; by zb_eval.
Qed.

Lemma readBytes_spec r len :
  ByteReader.wf r -> 0 <= len -> ByteReader.off_ r + len < U64 ->
  ByteReader.readBytes r true len =
  if zlen (ByteReader.rest r) <? len then Failed
  else Done (ztake len (ByteReader.rest r)) (if len =? 0 then r else ByteReader.advance r len).
Proof.
  intros H Hl Ho. unfold ByteReader.readBytes.
  destruct (Z.eqb_spec len 0) as [-> | Hn].
  { pose proof (zlen_nonneg (ByteReader.rest r)). by zb_eval. }
  cbn [negb]. rewrite ByteReader.ensure_exact by done.
  destruct (Z.leb_spec len (zlen (ByteReader.rest r))); zb_eval; [| done].
  by rewrite ByteReader.span_here by (done || lia).
Qed.

(** Reading a field whose bytes come first. *)
Lemma read_field_step r f tail :
  ByteReader.wf r -> field_ok f -> ByteReader.rest r = field_bytes f ++ tail ->
  exists r', read_field r (shape_of f) = Done f r' /\ ByteReader.wf r' /\ ByteReader.rest r' = tail.
Proof.
  intros H Hok Hr.
  pose proof (ByteReader.rest_len r H) as Hlen. pose proof (ByteReader.wf_off r H).
  pose proof (ByteReader.wf_size r H). rewrite Hr in Hlen. rewrite zlen_app in Hlen.
  pose proof (zlen_nonneg tail). pose proof (zlen_nonneg (field_bytes f)).
  assert (Hadv : ByteReader.wf (ByteReader.advance r (zlen (field_bytes f))) /\
                 ByteReader.rest (ByteReader.advance r (zlen (field_bytes f))) = tail).
  { destruct (ByteReader.advance_spec r (zlen (field_bytes f)) H) as [Hw Hd].
    - rewrite Hr, zlen_app. lia.
    - split; [done |]. by rewrite Hd, Hr, zdrop_app. }
  destruct f as [v | v | v | v | l]; cbn [read_field shape_of field_bytes] in *.
  - rewrite readU8_byte, Hr by done. change ([z2b v] ++ tail) with (z2b v :: tail).
    rewrite zlen_cons. zb_eval. simpl. eexists. split; [| exact Hadv].
    rewrite b2z_z2b. unfold u8. by rewrite Z.mod_small by done.
  - rewrite ByteReader.readU16Be_load, Hr, load_storeU16 by done.
    rewrite zlen_app, zlen_storeU16 in *. zb_eval. simpl. by eexists.
  - rewrite ByteReader.readU32Be_load, Hr, load_storeU32 by done.
    rewrite zlen_app, zlen_storeU32 in *. zb_eval. simpl. by eexists.
  - rewrite ByteReader.readU64Be_load, Hr, load_storeU64 by done.
    rewrite zlen_app, zlen_storeU64 in *. zb_eval. simpl. by eexists.
  - rewrite readBytes_spec, Hr by (done || lia). rewrite zlen_app in *. zb_eval. simpl.
    rewrite ztake_app. eexists. split; [done |].
    destruct (Z.eqb_spec (zlen l) 0) as [Hz |]; [| exact Hadv].
    split; [done |]. by rewrite Hr, (zlen_zero_nil l Hz).
Qed.

Lemma decode_fields r fs tail :
  ByteReader.wf r -> Forall field_ok fs -> ByteReader.rest r = concat (field_bytes <$> fs) ++ tail ->
  exists r', decode r (shape_of <$> fs) = Done fs r' /\ ByteReader.wf r' /\ ByteReader.rest r' = tail.
Proof.
  intros H Hok. revert r H. induction Hok as [| f fs Hf _ IH]; intros r H Hr.
  { by exists r. }
  rewrite !fmap_cons in *. cbn [concat decode] in *. rewrite <- app_assoc in Hr.
  destruct (read_field_step r f _ H Hf Hr) as (r1 & -> & Hw & Hr1). cbn [obind].
  destruct (IH r1 Hw Hr1) as (r2 & -> & Hw2 & Hr2). simpl. by exists r2.
Qed.

End Fields.

(* ------------------------------------------------------------------ *)
(** ** Theorems *)

(** Whatever sequence of in-range integers and byte strings is written
    with a [ByteWriter], a [ByteReader] over the buffer that asks for the same
    sequence of widths gets the same values back, and is then [atEnd]. *)
Theorem codec_roundtrip (fs : list field) :
  Forall field_ok fs -> zlen (ByteWriter.buf_ (encode ByteWriter.init fs)) <= VEC_MAX ->
  exists r, decode (ByteReader.init (ByteWriter.buf_ (encode ByteWriter.init fs))) (shape_of <$> fs)
            = Done fs r /\ ByteReader.atEnd r = true.
Proof.
  intros Hok Hsz. rewrite encode_buf in *. simpl in *.
  set (bytes := concat (field_bytes <$> fs)) in *.
  destruct (decode_fields (ByteReader.init bytes) fs []) as (r & Hd & Hw & Hr).
  - by apply ByteReader.wf_init.
  - done.
  - by rewrite app_nil_r.
  - exists r. split; [done |]. unfold ByteReader.atEnd. apply Z.eqb_eq.
    pose proof (ByteReader.rest_len r Hw) as Hl. rewrite Hr, zlen_nil in Hl. lia.
Qed.

Lemma codec_roundtrip_witness :
  exists r, decode (ByteReader.init (ByteWriter.buf_ (encode ByteWriter.init
              [F8 7; F16 513; FBytes [z2b 1; z2b 2]; F64 72623859790382856])))
              [S8; S16; SBytes 2; S64]
            = Done [F8 7; F16 513; FBytes [z2b 1; z2b 2]; F64 72623859790382856] r /\
            ByteReader.atEnd r = true.
Proof.
  apply (codec_roundtrip [F8 7; F16 513; FBytes [z2b 1; z2b 2]; F64 72623859790382856]).
  - repeat constructor; simpl; lia.
  - vm_compute. congruence.
Defined.

(** The bounds check of [ByteReader] is [off_ + n <= size] computed modulo
    2^64.  A request that stays below 2^64 is answered exactly: it succeeds
    iff that many bytes are left, and never reads outside the span.  But a
    request of [2^64 - off_ + k] bytes passes the check: [skip] then moves the
    offset back to [k], and [readBytes] copies from outside the span. *)
Theorem reader_check_wraps (r : ByteReader.t) :
  ByteReader.wf r ->
  (forall len, 0 <= len -> ByteReader.off_ r + len < U64 ->
     ByteReader.readBytes r true len <> Undefined /\ ByteReader.readBytesView r len <> Undefined /\
     (ByteReader.readBytes r true len = Failed <-> zlen (ByteReader.rest r) < len) /\
     (ByteReader.skip r len = Failed <-> zlen (ByteReader.rest r) < len)) /\
  (forall k, 0 <= k < ByteReader.off_ r ->
     ByteReader.skip r (U64 - ByteReader.off_ r + k) = Done tt (ByteReader.mk (ByteReader.data_ r) k) /\
     ByteReader.readBytes r true (U64 - ByteReader.off_ r + k) = Undefined).
Proof.
  intros H. pose proof (ByteReader.wf_off r H). pose proof (ByteReader.wf_size r H). split.
  - intros len Hl Ho. rewrite readBytes_spec by done.
    unfold ByteReader.readBytesView, ByteReader.skip. rewrite ByteReader.ensure_exact by done.
    destruct (Z.ltb_spec (zlen (ByteReader.rest r)) len); zb_eval.
    + split_and!; done.
    + rewrite ByteReader.span_here by (done || lia). split_and!; try done; split; (done || lia).
  - intros k Hk.
    assert (Hw : size_add (ByteReader.off_ r) (U64 - ByteReader.off_ r + k) = k).
    { unfold size_add, u64. replace (ByteReader.off_ r + (U64 - ByteReader.off_ r + k))
        with (k + 1 * U64) by lia. rewrite Z.mod_add by lia. apply Z.mod_small. lia. }
    unfold ByteReader.skip, ByteReader.readBytes, ByteReader.ensure_, ByteReader.advance. rewrite Hw.
    zb_eval. split; [done |]. unfold ByteReader.span_bytes, ByteReader.size in *. by zb_eval.
Qed.

Lemma reader_check_wraps_witness :
  ByteReader.skip (ByteReader.mk [z2b 1; z2b 2; z2b 3] 2) (U64 - 2 + 0)
  = Done tt (ByteReader.mk [z2b 1; z2b 2; z2b 3] 0).
Proof.
  apply (reader_check_wraps (ByteReader.mk [z2b 1; z2b 2; z2b 3] 2)).
  - split; vm_compute; intuition congruence.
  - vm_compute. intuition congruence.
Defined.

End MessageCodec.
