(* ===== verification/Message.v ===== *)
(** * Message: views, header fields, opcode split and the dispatcher

    Models [MessageView.hpp], [Dispatcher.hpp] ([MessageHeader] and
    [Dispatcher]), [OpcodeU16.hpp] and [BuiltinOpcodes.hpp] of
    [engine/include/hypernet/protocol].  A view holds the bytes reachable from
    its pointer ([None] is [nullptr]) and its size; a handler is the state
    change its [std::function] makes to the world [W] it runs in. *)

From S2P Require Import Prelude Endian.
Import Endian.

Module Message.

(* ------------------------------------------------------------------ *)
(** ** MessageView *)

Record MessageView := mk_view { mv_data : option (list byte); mv_size : Z }.

Definition null_message : MessageView := mk_view None 0.

(** The pointer covers the size. *)
Definition view_ok (v : MessageView) : Prop :=
  match mv_data v with
  | Some p => 0 <= mv_size v <= zlen p
  | None => mv_size v = 0
  end.

(** The bytes a callback may read. *)
Definition view_bytes (v : MessageView) : list byte :=
  match mv_data v with Some p => ztake (mv_size v) p | None => [] end.

(* ------------------------------------------------------------------ *)
(** ** MessageHeader *)

Definition kLengthFieldBytes : Z := 4.
Definition kOpcodeFieldBytes : Z := 2.
Definition kWireBytes : Z := kLengthFieldBytes + kOpcodeFieldBytes.
Definition kMaxPayloadLenU64 : Z := 4294967295.

Record MessageHeader := mk_header { payloadLen : Z; opcode : Z }.

Definition encodeLen (h : MessageHeader) : list byte := storeU32Be (payloadLen h).
Definition encodeOpcode (h : MessageHeader) : list byte := storeU16Be (opcode h).

Definition payloadLenForBody (bodyLen : Z) : Z := size_add kOpcodeFieldBytes bodyLen.

(** The wire bytes of a packet: length, opcode, body. *)
Definition frame (op : Z) (body : list byte) : list byte :=
  let hdr := mk_header (u32 (payloadLenForBody (zlen body))) op in
  encodeLen hdr ++ encodeOpcode hdr ++ body.

Lemma frame_eq op body :
  2 + zlen body < U32 -> frame op body = storeU32Be (2 + zlen body) ++ storeU16Be op ++ body.
Proof.
  intros H. unfold frame, encodeLen, encodeOpcode, payloadLenForBody; simpl.
  pose proof (zlen_nonneg body). unfold kOpcodeFieldBytes.
  rewrite size_add_small by lia. unfold u32. by rewrite Z.mod_small by lia.
Qed.

(* ------------------------------------------------------------------ *)
(** ** Opcode split *)

Definition kOpcodePing : Z := 65534.
Definition kOpcodePong : Z := 65535.

(** [Done (opcode, body)], [Failed] for a payload shorter than an opcode. *)
Definition splitOpcodeU16Be (msg : MessageView) : outcome (Z * MessageView) unit :=
  if mv_size msg <? 2 then Failed else
  match mv_data msg with
  | None => Failed
  | Some p =>
      match loadU16Be p with
      | None => Undefined
      | Some op =>
          let bodyLen := size_sub (mv_size msg) 2 in
          Done (op, mk_view (if bodyLen =? 0 then None else Some (zdrop 2 p)) bodyLen) tt
      end
  end.

(** The reference reading of a payload. *)
Definition split_payload (payload : list byte) : option (Z * list byte) :=
  if zlen payload <? 2 then None
  else Some (be_value (ztake 2 payload), zdrop 2 payload).

Lemma splitOpcode_spec msg :
  view_ok msg -> mv_size msg < U64 ->
  match split_payload (view_bytes msg) with
  | None => splitOpcodeU16Be msg = Failed
  | Some (op, body) =>
      exists bv, splitOpcodeU16Be msg = Done (op, bv) tt /\ view_ok bv /\ view_bytes bv = body
  end.
Proof.
  intros Hok Hs. unfold split_payload, splitOpcodeU16Be, view_bytes, view_ok in *.
  destruct msg as [[p |] n]; simpl in *; [| by subst].
  rewrite zlen_ztake by lia. rewrite Z.min_l by lia.
  destruct (Z.ltb_spec n 2); [done |].
  rewrite loadU16Be_spec by lia. rewrite ztake_ztake, Z.min_l by lia.
  rewrite size_sub_small by lia. eexists. split; [done |]. simpl.
  rewrite zdrop_ztake by lia.
  destruct (Z.eqb_spec (n - 2) 0) as [-> |]; simpl; [by rewrite ztake_0 |].
  rewrite zlen_zdrop by lia. split; [lia | done].
Qed.

Lemma split_frame op body :
  0 <= op < U16 -> split_payload (storeU16Be op ++ body) = Some (op, body).
Proof.
  intros H. unfold split_payload. rewrite zlen_app, zlen_storeU16.
  pose proof (zlen_nonneg body). zb_eval.
  change 2 with (zlen (storeU16Be op)). rewrite ztake_app, zdrop_app.
  rewrite storeU16Be_eq, be_value_bytes. f_equal. f_equal. by apply Z.mod_small.
Qed.

(* ------------------------------------------------------------------ *)
(** ** Dispatcher *)

Section Dispatcher.
Context {Session W : Type}.

Definition Handler : Type := Session -> MessageView -> W -> W.

(** [std::unordered_map<OpCode, Handler>]. *)
Record Dispatcher := mk_dispatcher { handlers_ : gmap Z Handler }.

Definition dispatcher_init : Dispatcher := mk_dispatcher ∅.

(** [handler] is [None] for an empty [std::function]; [emplace] keeps the
    existing entry. *)
Definition registerHandler (d : Dispatcher) (op : Z) (handler : option Handler)
  : Dispatcher * bool :=
  match handler with
  | None => (d, false)
  | Some h =>
      match handlers_ d !! op with
      | Some _ => (d, false)
      | None => (mk_dispatcher (<[op := h]> (handlers_ d)), true)
      end
  end.

Definition unregisterHandler (d : Dispatcher) (op : Z) : Dispatcher * bool :=
  (mk_dispatcher (delete op (handlers_ d)), bool_decide (is_Some (handlers_ d !! op))).

Definition clear (d : Dispatcher) : Dispatcher := mk_dispatcher ∅.

Definition handlerCount (d : Dispatcher) : Z := Z.of_nat (size (handlers_ d)).

Definition dispatch (d : Dispatcher) (op : Z) (s : Session) (body : MessageView) (w : W)
  : W * bool :=
  match handlers_ d !! op with
  | None => (w, false)
  | Some h => (h s body w, true)
  end.

(** Calls that change the table. *)
Inductive table_op :=
| TRegister (op : Z) (h : option Handler)
| TUnregister (op : Z)
| TClear.

Definition table_step (d : Dispatcher) (o : table_op) : Dispatcher :=
  match o with
  | TRegister op h => (registerHandler d op h).1
  | TUnregister op => (unregisterHandler d op).1
  | TClear => clear d
  end.

(** Who owns [op] after a history: the first registration since the opcode was
    last free. *)
Fixpoint owner (op : Z) (cur : option Handler) (hist : list table_op) : option Handler :=
  match hist with
  | [] => cur
  | TRegister op' h :: rest =>
      owner op (if op =? op' then (match cur with Some _ => cur | None => h end) else cur) rest
  | TUnregister op' :: rest => owner op (if op =? op' then None else cur) rest
  | TClear :: rest => owner op None rest
  end.

Lemma table_owner (op : Z) hist (d : Dispatcher) :
  handlers_ (fold_left table_step hist d) !! op = owner op (handlers_ d !! op) hist.
Proof.
  revert d. induction hist as [| o hist IH]; intros d; [done |].
  simpl. rewrite IH. destruct o as [op' h | op' |]; simpl.
  - destruct h as [h |]; simpl; [| by destruct (op =? op'), (handlers_ d !! op)].
    destruct (Z.eqb_spec op op') as [-> | Hne].
    + destruct (handlers_ d !! op') eqn:E; simpl; [by rewrite E |]. by rewrite lookup_insert_eq.
    + destruct (handlers_ d !! op'); simpl; [done |]. by rewrite lookup_insert_ne.
  - destruct (Z.eqb_spec op op') as [-> | Hne].
    + by rewrite lookup_delete_eq.
    + by rewrite lookup_delete_ne.
  - by rewrite lookup_empty.
Qed.

(** After any history of registrations, unregistrations and clears, a
    dispatched opcode runs exactly the handler of its first registration since
    it was last free, on the session and body given, and an opcode without an
    owner changes nothing and reports [false]. *)
Theorem dispatch_runs_owner (hist : list table_op) (op : Z) (s : Session)
    (body : MessageView) (w : W) :
  dispatch (fold_left table_step hist dispatcher_init) op s body w =
  match owner op None hist with
  | Some h => (h s body w, true)
  | None => (w, false)
  end.
Proof. unfold dispatch. rewrite table_owner. by destruct (owner _ _ _). Qed.

End Dispatcher.

End Message.
