(* ===== verification/Framer.v ===== *)
(** * Framer: [LengthPrefixFramer]

    Models [engine/include/hypernet/protocol/LengthPrefixFramer.hpp] and the
    result type of [IFramer.hpp] over the ring of [RingBuffer].  The view
    [tryFrame] returns points into the ring (zero-copy path) or into
    [scratch_] (wrap-around path); its bytes are those at the time of return.

    [parse_one] is the specification on the byte stream the ring holds.
    [tryFrame] refines it, and [drain], the loop over [tryFrame], yields the
    frames of the whole received stream however it was cut into chunks. *)

From S2P Require Import Prelude Endian RingBuffer Message.
Import Endian Message.

Module Framer.

(* ------------------------------------------------------------------ *)
(** ** The code *)

Inductive FrameResult := NeedMore | Framed | Invalid.

Definition kDefaultMaxPayloadLen : Z := 1024 * 1024.

Record t := mk {
  maxPayloadLen_ : Z;
  scratch_ : list byte;
  lastErrorReason_ : option string
}.

Definition create (maxPayloadLen : Z) : t := mk maxPayloadLen [] None.

Definition set_error (f : t) (reason : string) : t :=
  mk (maxPayloadLen_ f) (scratch_ f) (Some reason).

Definition set_scratch (f : t) (s : list byte) : t :=
  mk (maxPayloadLen_ f) s (lastErrorReason_ f).

(** The pointer of a ring view, as the bytes reachable from it. *)
Definition ring_ptr (rb : RingBuffer.t) (v : RingBuffer.view) : option (list byte) :=
  match RingBuffer.vdata v with
  | Some off => Some (zdrop off (RingBuffer.buffer_ rb))
  | None => None
  end.

(** [std::vector<std::byte>::resize]. *)
Definition vec_resize (n : Z) (l : list byte) : list byte :=
  ztake n l ++ replicate (Z.to_nat (n - zlen l)) (z2b 0).

(** Steps 6-8: consume the header, then hand out the payload. *)
Definition extract (f : t) (rb : RingBuffer.t) (payloadLen : Z)
  : t * RingBuffer.t * MessageView * FrameResult :=
  let kHeaderSize := kLengthFieldBytes in
  let '(rb1, _, headerRead) := RingBuffer.read rb true kHeaderSize in
  if negb (headerRead =? kHeaderSize)
  then (set_error f "ringbuffer_read_header_failed", rb1, null_message, Invalid) else
  if payloadLen =? 0 then (f, rb1, mk_view None 0, Framed) else
  let contiguous := RingBuffer.peekView rb1 payloadLen in
  if RingBuffer.vsize contiguous =? payloadLen then
    let '(rb2, payloadView) := RingBuffer.readView rb1 payloadLen in
    (f, rb2, mk_view (ring_ptr rb2 payloadView) (RingBuffer.vsize payloadView), Framed)
  else
    let '(rb2, bytes, payloadRead) := RingBuffer.read rb1 true payloadLen in
    let f2 := set_scratch f (blit 0 bytes (vec_resize payloadLen (scratch_ f))) in
    if negb (payloadRead =? payloadLen)
    then (set_error f2 "ringbuffer_read_payload_short", rb2, null_message, Invalid)
    else (f2, rb2, mk_view (Some (scratch_ f2)) payloadLen, Framed).

Definition tryFrame (f : t) (rb : RingBuffer.t)
  : t * RingBuffer.t * MessageView * FrameResult :=
  let f := mk (maxPayloadLen_ f) (scratch_ f) None in
  let kHeaderSize := kLengthFieldBytes in
  if RingBuffer.available rb <? kHeaderSize then (f, rb, null_message, NeedMore) else
  let '(hdr, copied) := RingBuffer.peek rb true kHeaderSize in
  if negb (copied =? kHeaderSize)
  then (set_error f "ringbuffer_peek_short", rb, null_message, Invalid) else
  match loadU32Be hdr with
  | None => (f, rb, null_message, Invalid) (* [hdr] is an array of four bytes *)
  | Some payloadLen =>
      if maxPayloadLen_ f <? payloadLen
      then (set_error f "payload_len_exceeds_max", rb, null_message, Invalid) else
      if size_sub SIZE_MAX kHeaderSize <? payloadLen
      then (set_error f "size_overflow", rb, null_message, Invalid) else
      let totalFrameBytes := size_add kHeaderSize payloadLen in
      if RingBuffer.capacity rb <? totalFrameBytes
      then (set_error f "frame_exceeds_ring_capacity", rb, null_message, Invalid) else
      if RingBuffer.available rb <? totalFrameBytes then (f, rb, null_message, NeedMore) else
      extract f rb payloadLen
  end.

(* ------------------------------------------------------------------ *)
(** ** Specification on the byte stream *)

Inductive parsed :=
| PNeedMore
| PInvalid
| PFrame (payload rest : list byte).

Definition parse_one (maxLen cap : Z) (stream : list byte) : parsed :=
  if zlen stream <? 4 then PNeedMore else
  let len := be_value (ztake 4 stream) in
  if maxLen <? len then PInvalid else
  if cap <? 4 + len then PInvalid else
  if zlen stream <? 4 + len then PNeedMore else
  PFrame (slice 4 len stream) (zdrop (4 + len) stream).

Section Refinement.
(** Overwriting a whole vector. *)
Lemma blit_resize n l bytes : zlen bytes = n -> blit 0 bytes (vec_resize n l) = bytes.
Proof.
  intros Hn. unfold blit, vec_resize. rewrite ztake_0. cbn [app].
  rewrite zdrop_ge; [apply app_nil_r |]. pose proof (zlen_nonneg bytes). pose proof (zlen_nonneg l).
  rewrite zlen_app, zlen_ztake by lia. unfold zlen at 2. rewrite length_replicate. lia.
Qed.

Implicit Types (f : t) (rb : RingBuffer.t).

(** The payload bytes behind the pointer of a non-empty ring view. *)
Lemma ring_ptr_bytes rb v n :
  RingBuffer.vsize v = n -> 0 < n ->
  RingBuffer.vdata v <> None ->
  view_bytes (mk_view (ring_ptr rb v) n) = RingBuffer.view_bytes rb v.
Proof.
  intros Hn Hp Hv. unfold view_bytes, RingBuffer.view_bytes, ring_ptr; simpl.
  destruct (RingBuffer.vdata v) as [off |]; [| done]. by rewrite Hn.
Qed.

Lemma readView_data rb n :
  RingBuffer.vsize (RingBuffer.readView rb n).2 <> 0 ->
  RingBuffer.vdata (RingBuffer.readView rb n).2 = Some (RingBuffer.head_ rb).
Proof.
  unfold RingBuffer.readView, RingBuffer.peekView. if_cases; simpl; try done.
Qed.

(** A view fits the storage it points into. *)
Lemma readView_ok rb n :
  RingBuffer.wf rb -> 0 < n -> RingBuffer.vsize (RingBuffer.readView rb n).2 = n ->
  view_ok (mk_view (ring_ptr (RingBuffer.readView rb n).1 (RingBuffer.readView rb n).2) n).
Proof.
  intros H Hn Hv.
  destruct (RingBuffer.readView_spec rb n H) as (_ & Hk & _ & _ & _ & _ & Hbuf & _); [lia |].
  unfold view_ok, ring_ptr; simpl. rewrite readView_data by lia. rewrite Hbuf.
  pose proof (RingBuffer.wf_head rb H). pose proof (RingBuffer.wf_len rb H).
  rewrite zlen_zdrop by lia. lia.
Qed.

(** What a successful or failed framing step leaves behind. *)
Record framed_ok f rb (r : t * RingBuffer.t * MessageView * FrameResult)
    (payload rest : list byte) : Prop := {
  fo_result : r.2 = Framed;
  fo_wf : RingBuffer.wf r.1.1.2;
  fo_cap : RingBuffer.capacity_ r.1.1.2 = RingBuffer.capacity_ rb;
  fo_rest : RingBuffer.contents r.1.1.2 = rest;
  fo_view : view_ok r.1.2;
  fo_payload : view_bytes r.1.2 = payload;
  fo_size : 0 <= mv_size r.1.2 < U32;
  fo_max : maxPayloadLen_ r.1.1.1 = maxPayloadLen_ f;
  fo_err : lastErrorReason_ r.1.1.1 = lastErrorReason_ f
}.

Lemma extract_spec f rb len :
  RingBuffer.wf rb -> 0 <= len < U32 -> 4 + len <= RingBuffer.size_ rb ->
  framed_ok f rb (extract f rb len)
    (slice 4 len (RingBuffer.contents rb)) (zdrop (4 + len) (RingBuffer.contents rb)).
Proof.
  intros H Hlen Hsz. unfold extract. change kLengthFieldBytes with 4.
  destruct (RingBuffer.read_spec rb 4 H) as (Hw1 & Hn1 & Hd1 & Hc1 & Hcap1 & Hs1); [lia |].
  destruct (RingBuffer.read rb true 4) as [[rb1 hdr] n1]; simpl in *.
  rewrite Z.min_l in * by lia. subst n1. zb_eval.
  destruct (Z.eqb_spec len 0) as [-> | Hl0].
  { split; simpl; try done; try lia. }
  assert (Hslice : ztake len (RingBuffer.contents rb1) = slice 4 len (RingBuffer.contents rb))
    by (by rewrite Hc1).
  assert (Hdrop : zdrop len (RingBuffer.contents rb1) = zdrop (4 + len) (RingBuffer.contents rb))
    by (rewrite Hc1, zdrop_zdrop by lia; done).
  destruct (Z.eqb_spec (RingBuffer.vsize (RingBuffer.peekView rb1 len)) len) as [Hv | Hv].
  - destruct (RingBuffer.readView_spec rb1 len Hw1) as
      (Hw2 & Hk2 & Hb2 & Hc2 & Hcap2 & Hs2 & Hbuf2 & _); [lia |].
    assert (Hv2 : RingBuffer.vsize (RingBuffer.readView rb1 len).2 = len).
    { unfold RingBuffer.readView. by destruct (RingBuffer.view_empty _). }
    pose proof (readView_ok rb1 len Hw1 ltac:(lia) Hv2) as Hok.
    pose proof (readView_data rb1 len ltac:(lia)) as Hdat.
    destruct (RingBuffer.readView rb1 len) as [rb2 pv]; simpl in *.
    rewrite <- Hk2, Hv2 in Hb2, Hc2.
    split; simpl; rewrite ?Hv2; first [done | lia | congruence | idtac].
    + rewrite ring_ptr_bytes; [| done | lia | by rewrite Hdat].
      rewrite <- Hslice, <- Hb2. unfold RingBuffer.view_bytes. by rewrite Hbuf2.
  - destruct (RingBuffer.read_spec rb1 len Hw1) as (Hw2 & Hn2 & Hd2 & Hc2 & Hcap2 & Hs2); [lia |].
    destruct (RingBuffer.read rb1 true len) as [[rb2 bytes] n2]; simpl in *.
    rewrite Z.min_l in * by lia. subst n2. zb_eval.
    assert (Hbl : zlen bytes = len).
    { rewrite Hd2, zlen_ztake, RingBuffer.contents_len by (done || lia). lia. }
    rewrite blit_resize by done. split; simpl; first [done | lia | congruence | idtac].
    + unfold view_ok; simpl. lia.
    + unfold view_bytes; simpl. rewrite ztake_ge by lia. by rewrite Hd2.
Qed.

(** [tryFrame] follows [parse_one] on the stored bytes. *)
Lemma tryFrame_spec f rb :
  RingBuffer.wf rb ->
  match parse_one (maxPayloadLen_ f) (RingBuffer.capacity_ rb) (RingBuffer.contents rb) with
  | PNeedMore => tryFrame f rb = (mk (maxPayloadLen_ f) (scratch_ f) None, rb, null_message, NeedMore)
  | PInvalid => exists reason, tryFrame f rb =
      (mk (maxPayloadLen_ f) (scratch_ f) (Some reason), rb, null_message, Invalid)
  | PFrame payload rest =>
      framed_ok (mk (maxPayloadLen_ f) (scratch_ f) None) rb (tryFrame f rb) payload rest
  end.
Proof.
  intros H. pose proof (RingBuffer.contents_len rb H) as Hc. pose proof (RingBuffer.wf_size rb H).
  pose proof (RingBuffer.wf_cap rb H).
  unfold parse_one, tryFrame. rewrite Hc. unfold RingBuffer.available, RingBuffer.capacity.
  change kLengthFieldBytes with 4. destruct (Z.ltb_spec (RingBuffer.size_ rb) 4); [done |].
  rewrite RingBuffer.peek_spec by (done || lia). rewrite Z.min_l by lia. zb_eval.
  set (hdr := ztake 4 (RingBuffer.contents rb)).
  assert (Hh : zlen hdr = 4) by (unfold hdr; rewrite zlen_ztake; lia).
  rewrite loadU32Be_spec, (ztake_ge 4 hdr) by lia. cbn [maxPayloadLen_ scratch_].
  pose proof (be_value_range hdr) as Hr. rewrite Hh in Hr. change (256 ^ 4) with U32 in Hr.
  set (len := be_value hdr) in *.
  destruct (Z.ltb_spec (maxPayloadLen_ f) len); [by eexists |].
  rewrite size_sub_small, size_add_small by lia. zb_eval.
  destruct (Z.ltb_spec (RingBuffer.capacity_ rb) (4 + len)); [by eexists |].
  destruct (Z.ltb_spec (RingBuffer.size_ rb) (4 + len)); [done |].
  by apply extract_spec.
Qed.

End Refinement.

(* ------------------------------------------------------------------ *)
(** ** Framing a whole stream *)

(** All frames of a stream: payloads, the bytes left, and whether the parse
    stopped at an invalid header.  [fuel] bounds the number of frames. *)
Fixpoint parse_all (fuel : nat) (maxLen cap : Z) (stream : list byte)
  : option (list (list byte) * list byte * bool) :=
  match fuel with
  | O => None
  | S fuel' =>
      match parse_one maxLen cap stream with
      | PNeedMore => Some ([], stream, false)
      | PInvalid => Some ([], stream, true)
      | PFrame payload rest =>
          '(ps, r, bad) ← parse_all fuel' maxLen cap rest;
          Some (payload :: ps, r, bad)
      end
  end.

(** Enough fuel: every frame consumes at least its four header bytes. *)
Definition frames_of (maxLen cap : Z) (stream : list byte)
  : option (list (list byte) * list byte * bool) :=
  parse_all (S (length stream)) maxLen cap stream.

(** The loop of [Session::processRecvFrames_] without its callbacks: take
    frames until [tryFrame] wants more bytes or refuses. *)
Fixpoint drain (fuel : nat) (f : t) (rb : RingBuffer.t)
  : option (list (list byte) * t * RingBuffer.t * bool) :=
  match fuel with
  | O => None
  | S fuel' =>
      match tryFrame f rb with
      | (f', rb', _, NeedMore) => Some ([], f', rb', false)
      | (f', rb', _, Invalid) => Some ([], f', rb', true)
      | (f', rb', v, Framed) =>
          '(ps, f2, rb2, bad) ← drain fuel' f' rb';
          Some (view_bytes v :: ps, f2, rb2, bad)
      end
  end.

(** Receiving the kernel's queue [kq] in pieces: at each step at most [k]
    bytes and at most the free space are stored, then the ring is drained. *)
Fixpoint pump (ks : list Z) (f : t) (rb : RingBuffer.t) (kq : list byte)
  : option (list (list byte) * RingBuffer.t * list byte * bool) :=
  match ks with
  | [] => Some ([], rb, kq, false)
  | k :: ks' =>
      let n := Z.min k (RingBuffer.freeSpace rb) in
      let rb1 := (RingBuffer.write rb (Some (ztake n kq)) (zlen (ztake n kq))).1 in
      '(ps, f2, rb2, bad) ← drain (S (Z.to_nat (RingBuffer.size_ rb1))) f rb1;
      if bad : bool then Some (ps, rb2, zdrop n kq, true) else
      '(qs, rb3, kq', bad') ← pump ks' f2 rb2 (zdrop n kq);
      Some (ps ++ qs, rb3, kq', bad')
  end.

Section Stream.
Variables maxLen cap : Z.

Lemma parse_one_frame s payload rest :
  parse_one maxLen cap s = PFrame payload rest ->
  exists len, 0 <= len /\ len <= maxLen /\ 4 + len <= cap /\ 4 + len <= zlen s /\
    len = be_value (ztake 4 s) /\ payload = slice 4 len s /\ rest = zdrop (4 + len) s.
Proof.
  unfold parse_one. intros H. if_cases; simplify_eq.
  pose proof (be_value_range (ztake 4 s)). exists (be_value (ztake 4 s)). split_and!; (done || lia).
Qed.

Lemma parse_one_shrinks s payload rest :
  parse_one maxLen cap s = PFrame payload rest -> (length rest + 4 <= length s)%nat.
Proof.
  intros H. destruct (parse_one_frame s payload rest H) as (len & ? & _ & _ & ? & _ & _ & ->).
  unfold zdrop. rewrite length_drop. unfold zlen in *. lia.
Qed.

(** More bytes behind a frame or a bad header do not change it. *)
Lemma parse_one_app s u :
  match parse_one maxLen cap s with
  | PNeedMore => True
  | PInvalid => parse_one maxLen cap (s ++ u) = PInvalid
  | PFrame p r => parse_one maxLen cap (s ++ u) = PFrame p (r ++ u)
  end.
Proof.
  unfold parse_one. pose proof (zlen_nonneg u). rewrite zlen_app.
  destruct (Z.ltb_spec (zlen s) 4); [done |]. zb_eval.
  rewrite (ztake_app_le 4) by lia. set (len := be_value (ztake 4 s)).
  destruct (maxLen <? len); [done |]. destruct (cap <? 4 + len); [done |].
  destruct (Z.ltb_spec (zlen s) (4 + len)); [done |]. zb_eval.
  pose proof (be_value_range (ztake 4 s)).
  unfold slice. rewrite !zdrop_app_le by lia. rewrite ztake_app_le; [done |].
  rewrite zlen_zdrop by lia. lia.
Qed.

Lemma parse_all_fuel n m s :
  (length s < n)%nat -> (n <= m)%nat -> parse_all m maxLen cap s = parse_all n maxLen cap s.
Proof.
  revert m s. induction n as [| n IH]; intros m s Hs Hm; [lia |].
  destruct m as [| m]; [lia |]. simpl. destruct (parse_one maxLen cap s) as [| | p r] eqn:E;
    [done.. |].
  pose proof (parse_one_shrinks s p r E). rewrite (IH m r) by lia. done.
Qed.

Lemma parse_all_total s : exists out, frames_of maxLen cap s = Some out.
Proof.
  unfold frames_of. generalize (Nat.lt_succ_diag_r (length s)).
  generalize (S (length s)) as n. intros n. revert s.
  induction n as [| n IH]; intros s Hs; [lia |]. simpl.
  destruct (parse_one maxLen cap s) as [| | p r] eqn:E; [by eexists.. |].
  pose proof (parse_one_shrinks s p r E).
  destruct (IH r ltac:(lia)) as [[[ps r'] b] ->]. by eexists.
Qed.

Lemma frames_of_frame s p r :
  parse_one maxLen cap s = PFrame p r ->
  frames_of maxLen cap s = '(ps, r', bad) ← frames_of maxLen cap r; Some (p :: ps, r', bad).
Proof.
  intros E. pose proof (parse_one_shrinks s p r E). unfold frames_of at 1. simpl. rewrite E.
  unfold frames_of. by rewrite (parse_all_fuel (S (length r)) (length s)) by lia.
Qed.

(** Parsing can stop anywhere and go on when more bytes have come. *)
Lemma frames_of_app s u ps r bad :
  frames_of maxLen cap s = Some (ps, r, bad) ->
  frames_of maxLen cap (s ++ u) =
  if bad : bool then Some (ps, r ++ u, true)
  else '(qs, r', bad') ← frames_of maxLen cap (r ++ u); Some (ps ++ qs, r', bad').
Proof.
  remember (length s) as n eqn:Hn. assert (Hlt : (length s < S n)%nat) by lia. clear Hn.
  revert Hlt. generalize (S n) as m. clear n. intros m. revert s ps.
  induction m as [| m IH]; intros s ps Hm H; [lia |].
  pose proof (parse_one_app s u) as Happ.
  destruct (parse_one maxLen cap s) as [| | p r1] eqn:E.
  - unfold frames_of in H; simpl in H. rewrite E in H. simplify_eq. simpl.
    destruct (parse_all_total (r ++ u)) as [[[qs r'] b] ->]. done.
  - unfold frames_of in H; simpl in H. rewrite E in H. simplify_eq.
    unfold frames_of; simpl. by rewrite Happ.
  - pose proof (parse_one_shrinks s p r1 E).
    rewrite (frames_of_frame s p r1 E) in H. rewrite (frames_of_frame (s ++ u) p (r1 ++ u) Happ).
    destruct (frames_of maxLen cap r1) as [[[ps1 r2] b1] |] eqn:E1; simplify_eq/=.
    rewrite (IH r1 ps1 ltac:(lia) E1). destruct bad; simpl; [done |].
    by destruct (frames_of maxLen cap (r ++ u)) as [[[qs r'] b] |].
Qed.

(** When the parse waits for more bytes a ring of at least four bytes is not
    full: the waiting frame fits. *)
Lemma frames_of_waits s ps r :
  frames_of maxLen cap s = Some (ps, r, false) -> parse_one maxLen cap r = PNeedMore.
Proof.
  unfold frames_of. generalize (S (length s)) as n. intros n. revert s ps.
  induction n as [| n IH]; intros s ps H; [done |]. simpl in H.
  destruct (parse_one maxLen cap s) as [| | p r1] eqn:E; simplify_eq; [done |].
  destruct (parse_all n maxLen cap r1) as [[[ps1 r2] b1] |] eqn:E1; simplify_eq/=. eauto.
Qed.

Lemma need_more_room r :
  4 <= cap -> parse_one maxLen cap r = PNeedMore -> zlen r < cap.
Proof. unfold parse_one. intros Hc H. if_cases; (done || lia). Qed.

(** A frame at the front of a stream. *)
Lemma parse_one_encoded payload rest :
  zlen payload <= maxLen -> 4 + zlen payload <= cap -> zlen payload < U32 ->
  parse_one maxLen cap (storeU32Be (zlen payload) ++ payload ++ rest) = PFrame payload rest.
Proof.
  intros H1 H2 H3. unfold parse_one. pose proof (zlen_nonneg payload). pose proof (zlen_nonneg rest).
  rewrite !zlen_app, zlen_storeU32. zb_eval.
  rewrite ztake_app_le by (rewrite zlen_storeU32; lia). rewrite ztake_ge by (rewrite zlen_storeU32; lia).
  rewrite storeU32Be_eq, be_value_bytes. change (256 ^ Z.of_nat 4) with U32.
  rewrite Z.mod_small by lia. zb_eval. unfold slice. rewrite <- storeU32Be_eq.
  set (h := storeU32Be (zlen payload)).
  assert (Hd : forall n, 0 <= n -> zdrop (4 + n) (h ++ payload ++ rest) = zdrop n (payload ++ rest)).
  { intros n Hn. by rewrite <- zdrop_zdrop by lia. }
  rewrite Hd, zdrop_app by lia.
  replace (zdrop 4 (h ++ payload ++ rest)) with (payload ++ rest) by (symmetry; apply (zdrop_app h)).
  by rewrite ztake_app.
Qed.

(** The wire images of packets are their payloads, framed. *)
Lemma frames_of_packets pkts :
  Forall (fun '(op, body) => 0 <= op < U16 /\ 2 + zlen body <= maxLen /\
                             6 + zlen body <= cap /\ 2 + zlen body < U32) pkts ->
  frames_of maxLen cap (concat ((fun '(op, body) => frame op body) <$> pkts))
  = Some ((fun '(op, body) => storeU16Be op ++ body) <$> pkts, [], false).
Proof.
  induction 1 as [| [op body] pkts (Hop & Hm & Hc & Hu) _ IH]; [done |].
  rewrite !fmap_cons. cbn [concat]. rewrite frame_eq by done.
  assert (Hl : zlen (storeU16Be op ++ body) = 2 + zlen body)
    by (by rewrite zlen_app, zlen_storeU16).
  rewrite <- Hl, <- app_assoc.
  rewrite (frames_of_frame _ (storeU16Be op ++ body)
    (concat ((fun '(op, body) => frame op body) <$> pkts))) by (apply parse_one_encoded; lia).
  by rewrite IH.
Qed.

End Stream.

(** The payload of a packet splits into its opcode and body. *)
Lemma split_view op body :
  0 <= op < U16 -> 2 + zlen body < U32 ->
  exists bv, splitOpcodeU16Be (mk_view (Some (storeU16Be op ++ body)) (zlen (storeU16Be op ++ body)))
             = Done (op, bv) tt /\ view_bytes bv = body.
Proof.
  intros Hop Hu. pose proof (zlen_nonneg body).
  set (p := storeU16Be op ++ body).
  assert (Hl : zlen p = 2 + zlen body) by (unfold p; by rewrite zlen_app, zlen_storeU16).
  pose proof (splitOpcode_spec (mk_view (Some p) (zlen p))) as Hs.
  unfold view_bytes at 1 in Hs; simpl in Hs. rewrite ztake_ge in Hs by lia.
  replace (split_payload p) with (Some (op, body)) in Hs by (symmetry; by apply split_frame).
  destruct Hs as (bv & ? & _ & ?); [unfold view_ok; simpl; lia | lia | eauto].
Qed.

(** [drain] computes the frames of the stored bytes. *)
Lemma drain_spec fuel f rb :
  RingBuffer.wf rb ->
  match parse_all fuel (maxPayloadLen_ f) (RingBuffer.capacity_ rb) (RingBuffer.contents rb) with
  | None => drain fuel f rb = None
  | Some (ps, r, bad) =>
      exists f' rb', drain fuel f rb = Some (ps, f', rb', bad) /\ RingBuffer.wf rb' /\
        RingBuffer.contents rb' = r /\ RingBuffer.capacity_ rb' = RingBuffer.capacity_ rb /\
        maxPayloadLen_ f' = maxPayloadLen_ f
  end.
Proof.
  revert f rb. induction fuel as [| fuel IH]; intros f rb H; [done |].
  pose proof (tryFrame_spec f rb H) as Ht. simpl.
  destruct (parse_one _ _ _) as [| | p r] eqn:E.
  - rewrite Ht. by do 2 eexists.
  - destruct Ht as [reason ->]. by do 2 eexists.
  - destruct Ht as [Hres Hw Hcap Hrest _ Hpay _ Hmax _].
    destruct (tryFrame f rb) as [[[f' rb'] v] res]; simpl in *. subst res.
    specialize (IH f' rb' Hw). rewrite Hmax, Hcap, Hrest in IH.
    destruct (parse_all fuel _ _ r) as [[[ps r'] bad] |]; simpl; [| by rewrite IH].
    destruct IH as (f2 & rb2 & -> & ? & ? & ? & ?). simpl. rewrite Hpay. eauto 10.
Qed.

(** One fuel unit per stored byte is enough for [drain]. *)
Lemma drain_all f rb ps r bad :
  RingBuffer.wf rb ->
  frames_of (maxPayloadLen_ f) (RingBuffer.capacity_ rb) (RingBuffer.contents rb) = Some (ps, r, bad) ->
  exists f' rb', drain (S (Z.to_nat (RingBuffer.size_ rb))) f rb = Some (ps, f', rb', bad) /\
    RingBuffer.wf rb' /\ RingBuffer.contents rb' = r /\
    RingBuffer.capacity_ rb' = RingBuffer.capacity_ rb /\ maxPayloadLen_ f' = maxPayloadLen_ f.
Proof.
  intros H Hp. pose proof (drain_spec (S (Z.to_nat (RingBuffer.size_ rb))) f rb H) as Hd.
  unfold frames_of in Hp.
  replace (Z.to_nat (RingBuffer.size_ rb)) with (length (RingBuffer.contents rb)) in *
    by (rewrite <- (RingBuffer.contents_len rb H); unfold zlen; lia).
  by rewrite Hp in Hd.
Qed.

(** [pump] over the bytes already stored and those still in the kernel. *)
Lemma pump_spec ks f rb kq :
  RingBuffer.wf rb -> Forall (fun k => 0 <= k) ks ->
  parse_one (maxPayloadLen_ f) (RingBuffer.capacity_ rb) (RingBuffer.contents rb) = PNeedMore ->
  exists ps rb' kq' bad, pump ks f rb kq = Some (ps, rb', kq', bad) /\
    RingBuffer.wf rb' /\ RingBuffer.capacity_ rb' = RingBuffer.capacity_ rb /\
    exists fed, kq = fed ++ kq' /\
      frames_of (maxPayloadLen_ f) (RingBuffer.capacity_ rb) (RingBuffer.contents rb ++ fed)
      = Some (ps, RingBuffer.contents rb', bad).
Proof.
  revert f rb kq. induction ks as [| k ks IH]; intros f rb kq H Hks Hnm.
  { simpl. exists [], rb, kq, false. split_and!; try done. exists []. split; [done |].
    rewrite app_nil_r. unfold frames_of; simpl. by rewrite Hnm. }
  inversion Hks as [| ? ? Hk Hks']; subst. cbn [pump].
  pose proof (RingBuffer.freeSpace_eq rb H). pose proof (RingBuffer.wf_size rb H).
  set (n := Z.min k (RingBuffer.freeSpace rb)). set (got := ztake n kq).
  assert (Hgot : zlen got <= RingBuffer.freeSpace rb) by (unfold got; rewrite zlen_ztake; lia).
  destruct (RingBuffer.write_spec rb got (zlen got) H) as (Hw & _ & Hc & Hcap); [zlen_lia |].
  rewrite Z.min_l, ztake_ge in Hc by lia.
  set (rb1 := (RingBuffer.write rb (Some got) (zlen got)).1) in *.
  destruct (parse_all_total (maxPayloadLen_ f) (RingBuffer.capacity_ rb) (RingBuffer.contents rb1))
    as [[[ps r] bad] Hp].
  destruct (drain_all f rb1 ps r bad Hw) as (f2 & rb2 & -> & Hw2 & Hc2 & Hcap2 & Hmax2).
  { by rewrite Hcap. }
  rewrite Hcap in Hcap2. cbn [mbind option_bind]. rewrite Hc in Hp. fold got.
  destruct bad.
  { exists ps, rb2, (zdrop n kq), true. split_and!; try done.
    exists got. split; [symmetry; apply ztake_zdrop |]. by rewrite Hc2. }
  destruct (IH f2 rb2 (zdrop n kq) Hw2 Hks') as (qs & rb3 & kq3 & bad3 & -> & Hw3 & Hcap3 & fed & Hf & Hfr).
  { rewrite Hmax2, Hcap2, Hc2. eapply frames_of_waits. exact Hp. }
  cbn [mbind option_bind]. do 4 eexists. split; [done |]. split; [done |]. split; [congruence |].
  exists (got ++ fed). split.
  { rewrite <- app_assoc, <- Hf. symmetry. apply ztake_zdrop. }
  rewrite app_assoc. rewrite (frames_of_app _ _ _ _ _ _ _ Hp). simpl.
  rewrite Hmax2, Hcap2, Hc2 in Hfr. by rewrite Hfr.
Qed.

(* ------------------------------------------------------------------ *)
(** ** Theorems *)

(** C8: [tryFrame] implements the wire format.  On a well-formed ring, at any
    wrap position: with less than a header or an incomplete frame it reports
    [NeedMore] and consumes nothing; with a length above the limit or above
    the ring's capacity it reports [Invalid] with a reason and consumes
    nothing; otherwise it consumes exactly the frame and its view shows
    exactly the payload.  The internal errors (short peek, short read) never
    happen. *)
Theorem tryFrame_refines_wire_format (f : t) (rb : RingBuffer.t) :
  RingBuffer.wf rb ->
  let '(f', rb', v, res) := tryFrame f rb in
  RingBuffer.wf rb' /\ maxPayloadLen_ f' = maxPayloadLen_ f /\
  match parse_one (maxPayloadLen_ f) (RingBuffer.capacity_ rb) (RingBuffer.contents rb) with
  | PNeedMore => res = NeedMore /\ rb' = rb /\ lastErrorReason_ f' = None
  | PInvalid => res = Invalid /\ rb' = rb /\ lastErrorReason_ f' <> None
  | PFrame payload rest =>
      res = Framed /\ RingBuffer.contents rb' = rest /\ view_ok v /\ view_bytes v = payload /\
      lastErrorReason_ f' = None
  end.
Proof.
  intros H. pose proof (tryFrame_spec f rb H) as Ht.
  destruct (parse_one _ _ _) as [| | p r].
  - by rewrite Ht.
  - by destruct Ht as [reason ->].
  - destruct Ht as [? ? ? ? ? ? ? ? ?].
    destruct (tryFrame f rb) as [[[f' rb'] v] res]; simpl in *. split_and!; done.
Qed.

(** A five-byte ring whose stored frame [00 00 00 01 2A] wraps around. *)
Definition wrapped_frame : RingBuffer.t :=
  RingBuffer.mk [z2b 0; z2b 0; z2b 1; z2b 42; z2b 0] 5 4 4 5.

Lemma tryFrame_refines_wire_format_witness :
  (tryFrame (create 16) wrapped_frame).2 = Framed /\
  view_bytes (tryFrame (create 16) wrapped_frame).1.2 = [z2b 42].
Proof.
  assert (H : RingBuffer.wf wrapped_frame) by (split; vm_compute; intuition congruence).
  pose proof (tryFrame_refines_wire_format (create 16) wrapped_frame H) as Ht.
  vm_compute in Ht. vm_compute. destruct Ht as (_ & _ & _ & _ & _ & Hv & _). split; done.
Defined.

(** C28: the frames delivered do not depend on how the stream was received.
    Bytes enter an empty ring of capacity at least 4 in pieces of any sizes,
    bounded only by the free space, and the ring is drained after each piece;
    the payloads delivered are those of the received part of the stream parsed
    in one go, the ring keeps exactly its unparsed tail, and the parse stops
    only at a header the wire format refuses. *)
Theorem framing_is_chunk_independent (f : t) (cap : Z) (rb : RingBuffer.t)
    (ks : list Z) (stream : list byte) :
  4 <= cap -> RingBuffer.create cap = inr rb -> Forall (fun k => 0 <= k) ks ->
  exists ps rb' unread bad, pump ks f rb stream = Some (ps, rb', unread, bad) /\
    exists received, stream = received ++ unread /\
      frames_of (maxPayloadLen_ f) cap received = Some (ps, RingBuffer.contents rb', bad).
Proof.
  intros Hc Hcr Hks. destruct (RingBuffer.create_wf cap rb Hcr ltac:(lia)) as (Hw & Hcon & Hcap).
  destruct (pump_spec ks f rb stream Hw Hks) as (ps & rb' & kq' & bad & Hp & _ & _ & fed & Hf & Hfr).
  - by rewrite Hcon.
  - exists ps, rb', kq', bad. split; [done |]. exists fed. by rewrite Hcon, Hcap in Hfr.
Qed.

Lemma framing_is_chunk_independent_witness :
  exists ps rb' unread bad,
    pump [3; 4; 9] (create 16) (RingBuffer.mk (replicate 8 (z2b 0)) 8 0 0 0)
      (storeU32Be 1 ++ [z2b 7] ++ storeU32Be 2 ++ [z2b 8; z2b 9]) = Some (ps, rb', unread, bad) /\
    exists received,
      storeU32Be 1 ++ [z2b 7] ++ storeU32Be 2 ++ [z2b 8; z2b 9] = received ++ unread /\
      frames_of 16 8 received = Some (ps, RingBuffer.contents rb', bad).
Proof.
  apply (framing_is_chunk_independent (create 16) 8).
  - lia.
  - vm_compute. reflexivity.
  - repeat constructor; lia.
Defined.

(** C33: sending and framing are inverse.  The concatenated wire images of any
    packets whose payload (opcode and body) respects the two limits, received
    in pieces of any sizes until the stream is used up, is framed into exactly
    as many payloads, each of which splits into the opcode and body that were
    sent, in order; the parse does not fail and the ring is empty after it. *)
Theorem wire_roundtrip (f : t) (cap : Z) (rb : RingBuffer.t) (pkts : list (Z * list byte))
    (ks : list Z) ps rb' bad :
  RingBuffer.create cap = inr rb -> Forall (fun k => 0 <= k) ks -> 4 <= cap ->
  Forall (fun '(op, body) => 0 <= op < U16 /\ 2 + zlen body <= maxPayloadLen_ f /\
                             6 + zlen body <= cap /\ 2 + zlen body < U32) pkts ->
  pump ks f rb (concat ((fun '(op, body) => frame op body) <$> pkts)) = Some (ps, rb', [], bad) ->
  bad = false /\ RingBuffer.contents rb' = [] /\
  Forall2 (fun p '(op, body) => exists bv,
             splitOpcodeU16Be (mk_view (Some p) (zlen p)) = Done (op, bv) tt /\
             view_bytes bv = body) ps pkts.
Proof.
  intros Hcr Hks Hc Hp Hpump.
  destruct (RingBuffer.create_wf cap rb Hcr ltac:(lia)) as (Hw & Hcon & Hcap).
  destruct (pump_spec ks f rb (concat ((fun '(op, body) => frame op body) <$> pkts)) Hw Hks)
    as (ps' & rb2 & kq' & bad' & Hpump' & _ & _ & fed & Hf & Hfr); [by rewrite Hcon |].
  rewrite Hpump in Hpump'. simplify_eq. rewrite app_nil_r in Hf. subst fed.
  rewrite Hcon in Hfr. cbn [app] in Hfr.
  rewrite frames_of_packets in Hfr by done. simplify_eq. split_and!; [done.. |].
  clear Hpump. induction Hp as [| [op body] pkts (Hop & _ & _ & Hu) Hp IH]; [by constructor |].
  rewrite fmap_cons. constructor; [| exact IH]. apply split_view; [done | lia].
Qed.

Lemma wire_roundtrip_witness :
  exists ps rb', pump [5; 3; 2; 9] (create 1024) (RingBuffer.mk (replicate 12 (z2b 0)) 12 0 0 0)
      (concat ((fun '(op, body) => frame op body) <$> [(20007, [z2b 1; z2b 2]); (65534, [])]))
    = Some (ps, rb', [], false) /\
  Forall2 (fun p '(op, body) => exists bv,
             splitOpcodeU16Be (mk_view (Some p) (zlen p)) = Done (op, bv) tt /\
             view_bytes bv = body) ps [(20007, [z2b 1; z2b 2]); (65534, [])].
Proof.
  do 2 eexists. split; [vm_compute; reflexivity |].
  eapply (wire_roundtrip (create 1024) 12 (RingBuffer.mk (replicate 12 (z2b 0)) 12 0 0 0)
            [(20007, [z2b 1; z2b 2]); (65534, [])] [5; 3; 2; 9]).
  - vm_compute. reflexivity.
  - repeat constructor; lia.
  - lia.
  - repeat constructor; vm_compute; congruence.
  - vm_compute. reflexivity.
Defined.

(** The receive ring never jams: after the frames have been taken, a ring
    of at least four bytes that waits for the rest of a frame has free space,
    so the [recv_overflow] close is unreachable from there. *)
Theorem waiting_ring_has_room (f : t) (rb : RingBuffer.t) :
  RingBuffer.wf rb -> 4 <= RingBuffer.capacity_ rb ->
  (tryFrame f rb).2 = NeedMore ->
  0 < RingBuffer.freeSpace rb /\
  forall out, (RingBuffer.writeIov rb (Some out) (RingBuffer.freeSpace rb)).1 <> 0.
Proof.
  intros H Hc Hn. pose proof (tryFrame_spec f rb H) as Ht.
  destruct (parse_one _ _ _) as [| | p r] eqn:E.
  - apply need_more_room in E; [| done]. rewrite RingBuffer.contents_len in E by done.
    rewrite RingBuffer.freeSpace_eq by done. split; [lia |]. intros out.
    unfold RingBuffer.writeIov. rewrite RingBuffer.freeSpace_eq by done.
    rewrite Z.min_id. zb_eval. by destruct (0 <? _).
  - destruct Ht as [reason Ht]. by rewrite Ht in Hn.
  - destruct Ht as [Hres _ _ _ _ _ _ _ _]. by rewrite Hres in Hn.
Qed.

Lemma waiting_ring_has_room_witness :
  0 < RingBuffer.freeSpace (RingBuffer.mk (replicate 6 (z2b 0)) 6 4 2 4).
Proof.
  apply (waiting_ring_has_room (create 16) (RingBuffer.mk
    [z2b 0; z2b 2; z2b 0; z2b 0; z2b 0; z2b 0] 6 4 2 4)).
  - split; vm_compute; intuition congruence.
  - vm_compute. congruence.
  - vm_compute. reflexivity.
Defined.

End Framer.
