(* ===== verification/PacketWriter.v ===== *)
(** * PacketWriter: [hyperapp::protocol::PacketWriter]

    Models [runtime/extensions/app/include/hyperapp/protocol/PacketWriter.hpp]:
    a writer is its buffer, [view] the message view over it. *)

From S2P Require Import Prelude Endian Message.
Import Endian Message.

Module PacketWriter.

Record t := mk { buf_ : list byte }.

Definition init : t := mk [].
Definition clear (w : t) : t := mk [].
Definition size (w : t) : Z := zlen (buf_ w).
Definition insert_end (w : t) (l : list byte) : t := mk (buf_ w ++ l).

Definition writeU8 (w : t) (v : Z) : t := insert_end w [z2b v].
Definition writeU16Be (w : t) (v : Z) : t := insert_end w (storeU16Be v).
Definition writeU32Be (w : t) (v : Z) : t := insert_end w (storeU32Be v).
Definition writeU64Be (w : t) (v : Z) : t := insert_end w (storeU64Be v).

Definition writeBytes (w : t) (p : list byte) (n : Z) : t :=
  if n =? 0 then w else insert_end w (slice 0 n p).

(** Strings longer than a 16-bit length are cut. *)
Definition writeStringU16 (w : t) (s : list byte) : t :=
  let s := if 65535 <? zlen s then slice 0 65535 s else s in
  writeBytes (writeU16Be w (u16 (zlen s))) s (zlen s).

Definition writeStringU16Checked (w : t) (s : list byte) (maxLen : Z) : t * bool :=
  if maxLen <? zlen s then (w, false) else
  if 65535 <? zlen s then (w, false) else
  (writeBytes (writeU16Be w (u16 (zlen s))) s (zlen s), true).

Definition view (w : t) : MessageView :=
  match buf_ w with
  | [] => mk_view None 0
  | _ => mk_view (Some (buf_ w)) (size w)
  end.

Lemma writeBytes_buf w p n :
  0 <= n <= zlen p -> buf_ (writeBytes w p n) = buf_ w ++ ztake n p.
Proof.
  intros H. unfold writeBytes. destruct (Z.eqb_spec n 0) as [-> |]; [| done].
  by rewrite ztake_0, app_nil_r.
Qed.

Lemma view_spec w : view_ok (view w) /\ view_bytes (view w) = buf_ w.
Proof.
  unfold view, view_ok, view_bytes. destruct (buf_ w) eqn:E; simpl; [done |].
  unfold size. rewrite E. split; [zlen_lia | by apply ztake_ge].
Qed.

End PacketWriter.
