(* ===== verification/PacketReader.v ===== *)
(** * PacketReader: [hyperapp::protocol::PacketReader]

    Models [runtime/extensions/app/include/hyperapp/protocol/PacketReader.hpp]:
    the bytes behind the pointer, the size and the read position. *)

From S2P Require Import Prelude Endian Message.
Import Endian Message.

Module PacketReader.

Record t := mk { data_ : list byte; size_ : Z; pos_ : Z }.

(** The static one-byte array [kEmpty]. *)
Definition kEmpty : list byte := [z2b 0].

Definition reset (v : MessageView) : t :=
  match mv_data v with
  | None => mk kEmpty 0 0
  | Some p => if mv_size v =? 0 then mk kEmpty 0 0 else mk p (mv_size v) 0
  end.

Definition remaining (r : t) : Z :=
  if pos_ r <=? size_ r then size_sub (size_ r) (pos_ r) else 0.

Definition eof (r : t) : bool := pos_ r =? size_ r.
Definition expectEnd (r : t) : bool := eof r.

Definition advance (r : t) (n : Z) : t := mk (data_ r) (size_ r) (size_add (pos_ r) n).

(** The pointer [data_ + pos_]. *)
Definition here (r : t) : list byte := zdrop (pos_ r) (data_ r).

Definition skip (r : t) (n : Z) : outcome unit t :=
  if remaining r <? n then Failed else Done tt (advance r n).

Definition readU8 (r : t) : outcome Z t :=
  if remaining r <? 1 then Failed else deref (at_ (here r) 0) (advance r 1).

Definition readU16Be (r : t) : outcome Z t :=
  if remaining r <? 2 then Failed else deref (loadU16Be (here r)) (advance r 2).

Definition readU32Be (r : t) : outcome Z t :=
  if remaining r <? 4 then Failed else deref (loadU32Be (here r)) (advance r 4).

Definition readU64Be (r : t) : outcome Z t :=
  if remaining r <? 8 then Failed else deref (loadU64Be (here r)) (advance r 8).

(** The string view's bytes; it must lie inside the data. *)
Definition readBytes (r : t) (n : Z) : outcome (list byte) t :=
  if remaining r <? n then Failed else
  if zlen (here r) <? n then Undefined else Done (ztake n (here r)) (advance r n).

Definition readStringU16 (r : t) : outcome (list byte) t :=
  let? (len, r) := readU16Be r in readBytes r len.

Record wf (r : t) : Prop := {
  wf_pos : 0 <= pos_ r <= size_ r;
  wf_data : size_ r <= zlen (data_ r);
  wf_max : size_ r <= VEC_MAX
}.

(** What is left to read. *)
Definition rest (r : t) : list byte := slice (pos_ r) (size_ r - pos_ r) (data_ r).

Section Lemmas.
Implicit Types r : t.

Lemma reset_spec v :
  view_ok v -> mv_size v <= VEC_MAX -> wf (reset v) /\ rest (reset v) = view_bytes v.
Proof.
  unfold view_ok, reset, view_bytes, rest. destruct v as [[p |] n]; simpl; intros Hok Hm.
  - destruct (Z.eqb_spec n 0) as [-> | Hn]; simpl; [done |]. split; [by split; simpl; lia |].
    unfold slice. by rewrite zdrop_0, Z.sub_0_r.
  - done.
Qed.

Lemma pr_rest_len r : wf r -> zlen (rest r) = size_ r - pos_ r.
Proof. intros [? ? ?]. unfold rest. apply zlen_slice; lia. Qed.

Lemma remaining_eq r : wf r -> remaining r = zlen (rest r).
Proof.
  intros H. rewrite pr_rest_len by done. destruct H. unfold remaining. zb_eval.
  by rewrite size_sub_small by lia.
Qed.

Lemma here_take r n : wf r -> 0 <= n <= zlen (rest r) -> ztake n (here r) = ztake n (rest r).
Proof.
  intros H Hn. rewrite pr_rest_len in Hn by done. unfold here, rest, slice.
  rewrite ztake_ztake by lia. by rewrite Z.min_l by lia.
Qed.

Lemma here_len r : wf r -> zlen (rest r) <= zlen (here r).
Proof. intros H. rewrite pr_rest_len by done. destruct H. unfold here. rewrite zlen_zdrop; lia. Qed.

Lemma pr_advance_spec r n :
  wf r -> 0 <= n <= zlen (rest r) -> wf (advance r n) /\ rest (advance r n) = zdrop n (rest r).
Proof.
  intros H Hn. rewrite pr_rest_len in Hn by done. destruct H.
  assert (Ha : size_add (pos_ r) n = pos_ r + n) by (apply size_add_small; lia).
  split; [split; simpl; lia |]. unfold rest, slice, advance; simpl. rewrite Ha.
  rewrite zdrop_ztake, zdrop_zdrop by lia. f_equal. lia.
Qed.

(** Each read: not enough bytes, or the value at the front and the rest. *)
Lemma readU8_spec r :
  wf r -> if zlen (rest r) <? 1 then readU8 r = Failed
          else readU8 r = Done (be_value (ztake 1 (rest r))) (advance r 1).
Proof.
  intros H. unfold readU8. rewrite remaining_eq by done.
  destruct (Z.ltb_spec (zlen (rest r)) 1); [done |].
  rewrite <- here_take by (done || lia). pose proof (here_len r H).
  destruct (here r) as [| x l] eqn:E; [zlen_lia |]. done.
Qed.

Lemma readU16Be_spec r :
  wf r -> if zlen (rest r) <? 2 then readU16Be r = Failed
          else readU16Be r = Done (be_value (ztake 2 (rest r))) (advance r 2).
Proof.
  intros H. unfold readU16Be. rewrite remaining_eq by done.
  destruct (Z.ltb_spec (zlen (rest r)) 2); [done |]. pose proof (here_len r H).
  rewrite loadU16Be_spec by lia. simpl. by rewrite here_take by (done || lia).
Qed.

Lemma readU32Be_spec r :
  wf r -> if zlen (rest r) <? 4 then readU32Be r = Failed
          else readU32Be r = Done (be_value (ztake 4 (rest r))) (advance r 4).
Proof.
  intros H. unfold readU32Be. rewrite remaining_eq by done.
  destruct (Z.ltb_spec (zlen (rest r)) 4); [done |]. pose proof (here_len r H).
  rewrite loadU32Be_spec by lia. simpl. by rewrite here_take by (done || lia).
Qed.

Lemma readU64Be_spec r :
  wf r -> if zlen (rest r) <? 8 then readU64Be r = Failed
          else readU64Be r = Done (be_value (ztake 8 (rest r))) (advance r 8).
Proof.
  intros H. unfold readU64Be. rewrite remaining_eq by done.
  destruct (Z.ltb_spec (zlen (rest r)) 8); [done |]. pose proof (here_len r H).
  rewrite loadU64Be_spec by lia. simpl. by rewrite here_take by (done || lia).
Qed.

Lemma pr_readBytes_spec r n :
  wf r -> 0 <= n ->
  if zlen (rest r) <? n then readBytes r n = Failed
  else readBytes r n = Done (ztake n (rest r)) (advance r n).
Proof.
  intros H Hn. unfold readBytes. rewrite remaining_eq by done.
  destruct (Z.ltb_spec (zlen (rest r)) n); [done |]. pose proof (here_len r H).
  zb_eval. by rewrite here_take by (done || lia).
Qed.

(** Reads of a value whose encoding is at the front. *)
Lemma read_front r (enc tail : list byte) :
  wf r -> rest r = enc ++ tail ->
  ztake (zlen enc) (rest r) = enc /\ zlen enc <= zlen (rest r) /\
  wf (advance r (zlen enc)) /\ rest (advance r (zlen enc)) = tail.
Proof.
  intros H Hr. pose proof (zlen_nonneg tail). pose proof (zlen_nonneg enc).
  destruct (pr_advance_spec r (zlen enc) H) as [Hw Hd].
  - rewrite Hr, zlen_app. lia.
  - rewrite Hd, Hr, ztake_app, zdrop_app, zlen_app. split_and!; (done || lia).
Qed.

Lemma readU8_front r v tail :
  wf r -> 0 <= v < 256 -> rest r = z2b v :: tail ->
  exists r', readU8 r = Done v r' /\ wf r' /\ rest r' = tail.
Proof.
  intros H Hv Hr. destruct (read_front r [z2b v] tail H Hr) as (Ht & Hl & Hw & Hd).
  change (zlen [z2b v]) with 1 in *. pose proof (readU8_spec r H) as Hs.
  destruct (Z.ltb_spec (zlen (rest r)) 1); [lia |]. rewrite Ht in Hs. rewrite Hs.
  eexists. split; [f_equal | by split]. unfold be_value; simpl. rewrite b2z_z2b.
  unfold u8. rewrite Z.mod_small; lia.
Qed.

Lemma readU16Be_front r v tail :
  wf r -> 0 <= v < U16 -> rest r = storeU16Be v ++ tail ->
  exists r', readU16Be r = Done v r' /\ wf r' /\ rest r' = tail.
Proof.
  intros H Hv Hr. destruct (read_front r (storeU16Be v) tail H Hr) as (Ht & Hl & Hw & Hd).
  rewrite zlen_storeU16 in *. pose proof (readU16Be_spec r H) as Hs.
  destruct (Z.ltb_spec (zlen (rest r)) 2); [lia |]. rewrite Ht in Hs. rewrite Hs.
  eexists. split; [f_equal | by split].
  rewrite storeU16Be_eq, be_value_bytes. by apply Z.mod_small.
Qed.

Lemma readU32Be_front r v tail :
  wf r -> 0 <= v < U32 -> rest r = storeU32Be v ++ tail ->
  exists r', readU32Be r = Done v r' /\ wf r' /\ rest r' = tail.
Proof.
  intros H Hv Hr. destruct (read_front r (storeU32Be v) tail H Hr) as (Ht & Hl & Hw & Hd).
  rewrite zlen_storeU32 in *. pose proof (readU32Be_spec r H) as Hs.
  destruct (Z.ltb_spec (zlen (rest r)) 4); [lia |]. rewrite Ht in Hs. rewrite Hs.
  eexists. split; [f_equal | by split].
  rewrite storeU32Be_eq, be_value_bytes. by apply Z.mod_small.
Qed.

Lemma readU64Be_front r v tail :
  wf r -> 0 <= v < U64 -> rest r = storeU64Be v ++ tail ->
  exists r', readU64Be r = Done v r' /\ wf r' /\ rest r' = tail.
Proof.
  intros H Hv Hr. destruct (read_front r (storeU64Be v) tail H Hr) as (Ht & Hl & Hw & Hd).
  rewrite zlen_storeU64 in *. pose proof (readU64Be_spec r H) as Hs.
  destruct (Z.ltb_spec (zlen (rest r)) 8); [lia |]. rewrite Ht in Hs. rewrite Hs.
  eexists. split; [f_equal | by split].
  rewrite storeU64Be_eq, be_value_bytes. by apply Z.mod_small.
Qed.

Lemma skip_front r (enc tail : list byte) :
  wf r -> rest r = enc ++ tail ->
  exists r', skip r (zlen enc) = Done tt r' /\ wf r' /\ rest r' = tail.
Proof.
  intros H Hr. destruct (read_front r enc tail H Hr) as (_ & Hl & Hw & Hd).
  unfold skip. rewrite remaining_eq by done. zb_eval. by eexists.
Qed.

Lemma readBytes_front r (enc tail : list byte) :
  wf r -> rest r = enc ++ tail ->
  exists r', readBytes r (zlen enc) = Done enc r' /\ wf r' /\ rest r' = tail.
Proof.
  intros H Hr. destruct (read_front r enc tail H Hr) as (Ht & Hl & Hw & Hd).
  pose proof (pr_readBytes_spec r (zlen enc) H (zlen_nonneg enc)) as Hs.
  destruct (Z.ltb_spec (zlen (rest r)) (zlen enc)); [lia |]. rewrite Ht in Hs. rewrite Hs. eauto.
Qed.

Lemma at_end r : wf r -> expectEnd r = bool_decide (rest r = []).
Proof.
  intros H. pose proof (pr_rest_len r H) as Hl. unfold expectEnd, eof.
  destruct (Z.eqb_spec (pos_ r) (size_ r)) as [He | He].
  - symmetry. apply bool_decide_eq_true. apply zlen_zero_nil. lia.
  - symmetry. apply bool_decide_eq_false. intros Hn. rewrite Hn, zlen_nil in Hl. lia.
Qed.

End Lemmas.
End PacketReader.
