(* ===== verification/PacketCodec.v ===== *)
(** * PacketCodec: packets of [hyperapp::protocol] and of the trading domain

    Models [Builders.hpp], [Parsers.hpp] and [FrameworkOpcodes.hpp] of
    [runtime/extensions/app/include/hyperapp/protocol] and the packets and
    opcode policy of [domains/trading/include/trading/protocol].

    The class [PacketType] is the interface the templates of the source demand
    of a packet ([kOpcode], [write], [read]); [PacketLaws] is what each packet
    type promises to the code that sends and receives it, and every packet
    type of the repository has an instance. *)

From S2P Require Import Prelude Endian Message PacketWriter PacketReader.
Import Endian Message.

Module PacketCodec.

(* ------------------------------------------------------------------ *)
(** ** What a packet type provides *)

Class PacketType (P : Type) := {
  kOpcode : Z;
  write : P -> PacketWriter.t -> PacketWriter.t;
  read : PacketReader.t -> outcome P PacketReader.t
}.

(** The promise of a packet type: [write] appends a fixed encoding of
    [wire_size] bytes, [read] gets it back and leaves what follows, fails
    exactly on shorter input, and never reads out of bounds. *)
Class PacketLaws (P : Type) `{PacketType P} := {
  packet_ok : P -> Prop;
  encoding : P -> list byte;
  wire_size : Z;
  wire_size_range : 0 <= wire_size < 256;
  encoding_size : forall p, zlen (encoding p) = wire_size;
  write_encodes : forall p w, PacketWriter.buf_ (write p w) = PacketWriter.buf_ w ++ encoding p;
  read_encoded : forall p r tail, packet_ok p -> PacketReader.wf r -> PacketReader.rest r = encoding p ++ tail ->
    exists r', read r = Done p r' /\ PacketReader.wf r' /\ PacketReader.rest r' = tail;
  read_short : forall r, PacketReader.wf r -> zlen (PacketReader.rest r) < wire_size -> read r = Failed;
  read_enough : forall r, PacketReader.wf r -> wire_size <= zlen (PacketReader.rest r) ->
    exists p r', read r = Done p r' /\ PacketReader.wf r' /\ PacketReader.rest r' = zdrop wire_size (PacketReader.rest r)
}.

(** The strict decoding of [registerPacketHandlerCtx] and of the parsers:
    read, then nothing may be left. *)
Definition parse_strict {P} `{PacketType P} (body : MessageView) : outcome P PacketReader.t :=
  let? (p, r) := read (PacketReader.reset body) in
  if PacketReader.expectEnd r then Done p r else Failed.

(** A call whose result is not looked at: on failure the field keeps its
    value. *)
Definition ignore_result (m : outcome Z PacketReader.t) (old : Z) (r : PacketReader.t) : outcome Z PacketReader.t :=
  match m with Failed => Done old r | _ => m end.

(* ------------------------------------------------------------------ *)
(** ** Framework packets *)

Definition kOpcodeEnterNotify : Z := 10001.
Definition kOpcodeLeaveNotify : Z := 10002.
Definition kOpcodeTopicMoveAck : Z := 10003.
Definition kFrameworkOpcodeBegin : Z := 10000.
Definition kFrameworkOpcodeEnd : Z := 11000.

Definition isFrameworkReserved (opcode : Z) : bool :=
  (kFrameworkOpcodeBegin <=? opcode) && (opcode <? kFrameworkOpcodeEnd).

Record LeaveNotifyPkt := mk_leave { leave_sid : Z }.
Record EnterNotifyPkt := mk_enter { enter_sid : Z }.
Record TopicMoveAckPkt := mk_move { world : Z; channel : Z }.

Definition buildLeaveNotify (sid : Z) : PacketWriter.t := PacketWriter.writeU64Be PacketWriter.init sid.
Definition buildEnterNotify (sid : Z) : PacketWriter.t := PacketWriter.writeU64Be PacketWriter.init sid.
Definition buildTopicMoveAck (w c : Z) : PacketWriter.t :=
  PacketWriter.writeU32Be (PacketWriter.writeU32Be PacketWriter.init w) c.

(** [r.readU64Be(out.sid) && r.expectEnd()]. *)
Definition parseEnterNotify (body : MessageView) : outcome EnterNotifyPkt PacketReader.t :=
  let? (sid, r) := PacketReader.readU64Be (PacketReader.reset body) in
  if PacketReader.expectEnd r then Done (mk_enter sid) r else Failed.

Definition parseLeaveNotify (body : MessageView) : outcome LeaveNotifyPkt PacketReader.t :=
  let? (sid, r) := PacketReader.readU64Be (PacketReader.reset body) in
  if PacketReader.expectEnd r then Done (mk_leave sid) r else Failed.

Definition parseTopicMoveAck (body : MessageView) : outcome TopicMoveAckPkt PacketReader.t :=
  let? (w, r) := PacketReader.readU32Be (PacketReader.reset body) in
  let? (c, r) := PacketReader.readU32Be r in
  if PacketReader.expectEnd r then Done (mk_move w c) r else Failed.

(* ------------------------------------------------------------------ *)
(** ** Trading packets *)

(** [enum class PeerRole : std::uint8_t] and [HelloResult]: a value read from
    the wire may be any octet. *)
Definition PeerRole_Client : Z := 1.
Definition PeerRole_Gateway : Z := 2.
Definition PeerRole_Exchange : Z := 3.
Definition HelloResult_Ok : Z := 0.
Definition HelloResult_Reject : Z := 1.

Definition kOpcodeRoleHelloReq : Z := 20007.
Definition kOpcodeRoleHelloAck : Z := 20008.
Definition kOpcodePerfPing : Z := 20050.
Definition kOpcodePerfPong : Z := 20051.

Record RoleHelloReqPkt := mk_hello { req_role : Z }.
Record RoleHelloAckPkt := mk_ack { ack_result : Z; ack_role : Z }.
Record PerfPkt := mk_perf { client_sid : Z; seq : Z; t1 : Z; t2 : Z; t3 : Z; t4 : Z }.

(** [PerfPingPkt] and [PerfPongPkt] have the same fields and code and differ
    in their opcode. *)
Record PerfPingPkt := mk_ping { ping : PerfPkt }.
Record PerfPongPkt := mk_pong { pong : PerfPkt }.

Definition hello_read (r : PacketReader.t) : outcome RoleHelloReqPkt PacketReader.t :=
  if PacketReader.remaining r <? 4 then Failed else
  let? (temp, r) := PacketReader.readU8 r in
  let? (_u, r) := PacketReader.skip r 3 in
  Done (mk_hello temp) r.

Definition hello_write (p : RoleHelloReqPkt) (w : PacketWriter.t) : PacketWriter.t :=
  PacketWriter.writeU16Be (PacketWriter.writeU8 (PacketWriter.writeU8 w (req_role p)) 0) 0.

Definition ack_read (r : PacketReader.t) : outcome RoleHelloAckPkt PacketReader.t :=
  if PacketReader.remaining r <? 4 then Failed else
  let? (res, r) := PacketReader.readU8 r in
  let? (role, r) := PacketReader.readU8 r in
  let? (_u, r) := PacketReader.skip r 2 in
  Done (mk_ack res role) r.

Definition ack_write (p : RoleHelloAckPkt) (w : PacketWriter.t) : PacketWriter.t :=
  PacketWriter.writeU16Be (PacketWriter.writeU8 (PacketWriter.writeU8 w (ack_result p)) (ack_role p)) 0.

Definition perf_write (p : PerfPkt) (w : PacketWriter.t) : PacketWriter.t :=
  let w := PacketWriter.writeU64Be w (client_sid p) in
  let w := PacketWriter.writeU64Be w (seq p) in
  let w := PacketWriter.writeU64Be w (t1 p) in
  let w := PacketWriter.writeU64Be w (t2 p) in
  let w := PacketWriter.writeU64Be w (t3 p) in
  PacketWriter.writeU64Be w (t4 p).

(** The six reads after the length check; their results are not looked at. *)
Definition perf_read (r : PacketReader.t) : outcome PerfPkt PacketReader.t :=
  if PacketReader.remaining r <? 48 then Failed else
  let? (a, r) := ignore_result (PacketReader.readU64Be r) 0 r in
  let? (b, r) := ignore_result (PacketReader.readU64Be r) 0 r in
  let? (c, r) := ignore_result (PacketReader.readU64Be r) 0 r in
  let? (d, r) := ignore_result (PacketReader.readU64Be r) 0 r in
  let? (e, r) := ignore_result (PacketReader.readU64Be r) 0 r in
  let? (f, r) := ignore_result (PacketReader.readU64Be r) 0 r in
  Done (mk_perf a b c d e f) r.

#[export] Instance RoleHelloReq_type : PacketType RoleHelloReqPkt :=
  {| kOpcode := kOpcodeRoleHelloReq; write := hello_write; read := hello_read |}.

#[export] Instance RoleHelloAck_type : PacketType RoleHelloAckPkt :=
  {| kOpcode := kOpcodeRoleHelloAck; write := ack_write; read := ack_read |}.

#[export] Instance PerfPing_type : PacketType PerfPingPkt :=
  {| kOpcode := kOpcodePerfPing; write := fun p => perf_write (ping p);
     read := fun r => let? (p, r) := perf_read r in Done (mk_ping p) r |}.

(** [PerfPongPkt] has the layout of [PerfPingPkt]. *)
Definition pong_write (p : PerfPongPkt) (w : PacketWriter.t) : PacketWriter.t := perf_write (pong p) w.
Definition pong_read (r : PacketReader.t) : outcome PerfPongPkt PacketReader.t :=
  let? (p, r) := perf_read r in Done (mk_pong p) r.

#[export] Instance PerfPong_type : PacketType PerfPongPkt :=
  {| kOpcode := kOpcodePerfPong; write := pong_write; read := pong_read |}.

(** ** Opcode policy of the trading domain *)

Definition kTradingOpcodeBegin : Z := 20000.
Definition kTradingOpcodeEnd : Z := 30000.

Definition isInTradingRange (opcode : Z) : bool :=
  (kTradingOpcodeBegin <=? opcode) && (opcode <? kTradingOpcodeEnd).

Definition isFrameworkReservedOpcode (opcode : Z) : bool := isFrameworkReserved opcode.

Definition isEngineBuiltinOpcode (opcode : Z) : bool :=
  (opcode =? kOpcodePing) || (opcode =? kOpcodePong).

Definition isValidTradingOpcode (opcode : Z) : bool :=
  isInTradingRange opcode && negb (isFrameworkReservedOpcode opcode) &&
  negb (isEngineBuiltinOpcode opcode).

(* ------------------------------------------------------------------ *)
(** ** The packet types keep their promises *)

Definition octet_ok (v : Z) : Prop := 0 <= v < 256.

Section Laws.

Lemma decode_octet (l : list byte) n :
  0 <= n < zlen l -> exists x tail, zdrop n l = x :: tail /\ zdrop (n + 1) l = tail /\ z2b (b2z x) = x.
Proof.
  intros H. destruct (zdrop n l) as [| x tail] eqn:E.
  - assert (zlen (zdrop n l) = 0) by (by rewrite E). rewrite zlen_zdrop in *; lia.
  - exists x, tail. split; [done |]. split; [| apply z2b_b2z].
    rewrite <- zdrop_zdrop by lia. by rewrite E.
Qed.

(** Any [n] bytes are the digits of a number of that width. *)
Lemma split_front (l : list byte) n :
  0 <= n <= zlen l -> exists v, 0 <= v < 256 ^ n /\ l = be_bytes (Z.to_nat n) v ++ zdrop n l.
Proof.
  intros H. exists (be_value (ztake n l)). pose proof (be_value_range (ztake n l)) as Hr.
  assert (Hl : zlen (ztake n l) = n) by (rewrite zlen_ztake; lia). rewrite Hl in Hr.
  split; [done |]. replace (Z.to_nat n) with (length (ztake n l)) by (unfold zlen in *; lia).
  rewrite be_bytes_value. symmetry. apply ztake_zdrop.
Qed.

Lemma hello_read_front p r tail :
  octet_ok (req_role p) -> PacketReader.wf r ->
  forall pad, zlen pad = 3 -> PacketReader.rest r = z2b (req_role p) :: pad ++ tail ->
  exists r', hello_read r = Done p r' /\ PacketReader.wf r' /\ PacketReader.rest r' = tail.
Proof.
  intros Hok Hw pad Hpad Hr. unfold hello_read. rewrite PacketReader.remaining_eq, Hr by done.
  rewrite zlen_cons, zlen_app. pose proof (zlen_nonneg tail). zb_eval.
  destruct (PacketReader.readU8_front r (req_role p) _ Hw Hok Hr) as (r1 & -> & Hw1 & Hr1).
  cbn [obind]. destruct (PacketReader.skip_front r1 pad tail Hw1 Hr1) as (r2 & E2 & Hw2 & Hr2).
  rewrite Hpad in E2. rewrite E2. cbn [obind]. exists r2. by destruct p.
Qed.

Lemma ack_read_front p r tail :
  octet_ok (ack_result p) -> octet_ok (ack_role p) -> PacketReader.wf r ->
  forall pad, zlen pad = 2 ->
  PacketReader.rest r = z2b (ack_result p) :: z2b (ack_role p) :: pad ++ tail ->
  exists r', ack_read r = Done p r' /\ PacketReader.wf r' /\ PacketReader.rest r' = tail.
Proof.
  intros Hok1 Hok2 Hw pad Hpad Hr. unfold ack_read. rewrite PacketReader.remaining_eq, Hr by done.
  rewrite !zlen_cons, zlen_app. pose proof (zlen_nonneg tail). zb_eval.
  destruct (PacketReader.readU8_front r _ _ Hw Hok1 Hr) as (r1 & -> & Hw1 & Hr1). cbn [obind].
  destruct (PacketReader.readU8_front r1 _ _ Hw1 Hok2 Hr1) as (r2 & -> & Hw2 & Hr2). cbn [obind].
  destruct (PacketReader.skip_front r2 pad tail Hw2 Hr2) as (r3 & E3 & Hw3 & Hr3).
  rewrite Hpad in E3. rewrite E3. cbn [obind]. exists r3. by destruct p.
Qed.

Definition perf_ok (p : PerfPkt) : Prop :=
  0 <= client_sid p < U64 /\ 0 <= seq p < U64 /\ 0 <= t1 p < U64 /\
  0 <= t2 p < U64 /\ 0 <= t3 p < U64 /\ 0 <= t4 p < U64.

Definition perf_encoding (p : PerfPkt) : list byte :=
  storeU64Be (client_sid p) ++ storeU64Be (seq p) ++ storeU64Be (t1 p) ++
  storeU64Be (t2 p) ++ storeU64Be (t3 p) ++ storeU64Be (t4 p).

Lemma perf_read_front p r tail :
  perf_ok p -> PacketReader.wf r -> PacketReader.rest r = perf_encoding p ++ tail ->
  exists r', perf_read r = Done p r' /\ PacketReader.wf r' /\ PacketReader.rest r' = tail.
Proof.
  intros (H1 & H2 & H3 & H4 & H5 & H6) Hw Hr. unfold perf_read.
  rewrite PacketReader.remaining_eq by done. rewrite Hr. unfold perf_encoding in *.
  repeat rewrite zlen_app. rewrite !zlen_storeU64. pose proof (zlen_nonneg tail). zb_eval.
  repeat rewrite <- app_assoc in Hr.
  destruct (PacketReader.readU64Be_front r _ _ Hw H1 Hr) as (r1 & -> & Hw1 & Hr1). cbn [obind ignore_result].
  destruct (PacketReader.readU64Be_front r1 _ _ Hw1 H2 Hr1) as (r2 & -> & Hw2 & Hr2). cbn [obind ignore_result].
  destruct (PacketReader.readU64Be_front r2 _ _ Hw2 H3 Hr2) as (r3 & -> & Hw3 & Hr3). cbn [obind ignore_result].
  destruct (PacketReader.readU64Be_front r3 _ _ Hw3 H4 Hr3) as (r4 & -> & Hw4 & Hr4). cbn [obind ignore_result].
  destruct (PacketReader.readU64Be_front r4 _ _ Hw4 H5 Hr4) as (r5 & -> & Hw5 & Hr5). cbn [obind ignore_result].
  destruct (PacketReader.readU64Be_front r5 _ _ Hw5 H6 Hr5) as (r6 & -> & Hw6 & Hr6). cbn [obind ignore_result].
  exists r6. by destruct p.
Qed.

Lemma perf_read_short r :
  PacketReader.wf r -> zlen (PacketReader.rest r) < 48 -> perf_read r = Failed.
Proof. intros Hw Hs. unfold perf_read. rewrite PacketReader.remaining_eq by done. by zb_eval. Qed.

(** Any 48 bytes are a packet. *)
Lemma perf_bytes (l : list byte) :
  48 <= zlen l -> exists p, perf_ok p /\ l = perf_encoding p ++ zdrop 48 l.
Proof.
  intros H.
  destruct (split_front l 8) as (a & ? & E1); [lia |].
  destruct (split_front (zdrop 8 l) 8) as (b & ? & E2); [rewrite zlen_zdrop; lia |].
  destruct (split_front (zdrop 16 l) 8) as (c & ? & E3); [rewrite zlen_zdrop; lia |].
  destruct (split_front (zdrop 24 l) 8) as (d & ? & E4); [rewrite zlen_zdrop; lia |].
  destruct (split_front (zdrop 32 l) 8) as (e & ? & E5); [rewrite zlen_zdrop; lia |].
  destruct (split_front (zdrop 40 l) 8) as (g & ? & E6); [rewrite zlen_zdrop; lia |].
  exists (mk_perf a b c d e g). split; [unfold perf_ok; simpl; lia |].
  unfold perf_encoding; cbn [client_sid seq t1 t2 t3 t4]. rewrite !storeU64Be_eq.
  rewrite zdrop_zdrop in E2, E3, E4, E5, E6 by lia. change (8 + 8) with 16 in E2.
  change (16 + 8) with 24 in E3. change (24 + 8) with 32 in E4. change (32 + 8) with 40 in E5.
  change (40 + 8) with 48 in E6. change (Z.to_nat 8) with 8%nat in *. rewrite <- !app_assoc.
  by rewrite <- E6, <- E5, <- E4, <- E3, <- E2, <- E1.
Qed.

Lemma perf_write_encodes p w : PacketWriter.buf_ (perf_write p w) = PacketWriter.buf_ w ++ perf_encoding p.
Proof. unfold perf_write, perf_encoding; simpl. by rewrite <- !app_assoc. Qed.

Lemma perf_encoding_size p : zlen (perf_encoding p) = 48.
Proof. done. Qed.

End Laws.

#[export] Program Instance RoleHelloReq_laws : PacketLaws RoleHelloReqPkt := {|
  packet_ok p := octet_ok (req_role p);
  encoding p := [z2b (req_role p); z2b 0; octet 0 8; octet 0 0];
  wire_size := 4
|}.
Next Obligation. done. Qed.
Next Obligation. done. Qed.
Next Obligation. intros p w. simpl. by rewrite <- !app_assoc. Qed.
Next Obligation.
  intros p r tail Hok Hw Hr.
  by apply (hello_read_front p r tail Hok Hw [z2b 0; octet 0 8; octet 0 0]).
Qed.
Next Obligation.
  intros r Hw Hs. simpl. unfold hello_read. rewrite PacketReader.remaining_eq by done. by zb_eval.
Qed.
Next Obligation.
  intros r Hw Hs. destruct (PacketReader.rest r) as [| x [| y [| z [| u l]]]] eqn:E; [by zlen_lia.. |].
  destruct (hello_read_front (mk_hello (b2z x)) r l) with (pad := [y; z; u]) as (r' & ? & ? & ?).
  - apply b2z_range.
  - done.
  - done.
  - simpl. by rewrite z2b_b2z.
  - eauto.
Qed.

#[export] Program Instance RoleHelloAck_laws : PacketLaws RoleHelloAckPkt := {|
  packet_ok p := octet_ok (ack_result p) /\ octet_ok (ack_role p);
  encoding p := [z2b (ack_result p); z2b (ack_role p); octet 0 8; octet 0 0];
  wire_size := 4
|}.
Next Obligation. done. Qed.
Next Obligation. done. Qed.
Next Obligation. intros p w. simpl. by rewrite <- !app_assoc. Qed.
Next Obligation.
  intros p r tail [Hok1 Hok2] Hw Hr.
  by apply (ack_read_front p r tail Hok1 Hok2 Hw [octet 0 8; octet 0 0]).
Qed.
Next Obligation.
  intros r Hw Hs. simpl. unfold ack_read. rewrite PacketReader.remaining_eq by done. by zb_eval.
Qed.
Next Obligation.
  intros r Hw Hs. destruct (PacketReader.rest r) as [| x [| y [| z [| u l]]]] eqn:E; [by zlen_lia.. |].
  destruct (ack_read_front (mk_ack (b2z x) (b2z y)) r l) with (pad := [z; u]) as (r' & ? & ? & ?).
  - apply b2z_range.
  - apply b2z_range.
  - done.
  - done.
  - simpl. by rewrite !z2b_b2z.
  - eauto.
Qed.

#[export] Program Instance PerfPing_laws : PacketLaws PerfPingPkt := {|
  packet_ok p := perf_ok (ping p);
  encoding p := perf_encoding (ping p);
  wire_size := 48
|}.
Next Obligation. done. Qed.
Next Obligation. done. Qed.
Next Obligation. intros p w. apply perf_write_encodes. Qed.
Next Obligation.
  intros [p] r tail Hok Hw Hr. simpl in *.
  destruct (perf_read_front p r tail Hok Hw Hr) as (r' & -> & ? & ?). by exists r'.
Qed.
Next Obligation. intros r Hw Hs. simpl. by rewrite perf_read_short. Qed.
Next Obligation.
  intros r Hw Hs. destruct (perf_bytes (PacketReader.rest r) Hs) as (p & Hok & Hr). simpl.
  destruct (perf_read_front p r _ Hok Hw Hr) as (r' & -> & ? & ?). by exists (mk_ping p), r'.
Qed.

#[export] Program Instance PerfPong_laws : PacketLaws PerfPongPkt := {|
  packet_ok p := perf_ok (pong p);
  encoding p := perf_encoding (pong p);
  wire_size := 48
|}.
Next Obligation. done. Qed.
Next Obligation. done. Qed.
Next Obligation. intros p w. apply perf_write_encodes. Qed.
Next Obligation.
  intros [p] r tail Hok Hw Hr. unfold read, PerfPong_type, pong_read. simpl in *.
  destruct (perf_read_front p r tail Hok Hw Hr) as (r' & -> & ? & ?). by exists r'.
Qed.
Next Obligation. intros r Hw Hs. unfold read, PerfPong_type, pong_read. by rewrite perf_read_short. Qed.
Next Obligation.
  intros r Hw Hs. destruct (perf_bytes (PacketReader.rest r) Hs) as (p & Hok & Hr). unfold read, PerfPong_type, pong_read.
  destruct (perf_read_front p r _ Hok Hw Hr) as (r' & -> & ? & ?). by exists (mk_pong p), r'.
Qed.

(* ------------------------------------------------------------------ *)
(** ** Consequences for every packet type *)

Section Clients.
Context {P : Type} `{PacketLaws P}.

Lemma parse_strict_encoded (p : P) (body : MessageView) :
  packet_ok p -> view_ok body -> mv_size body <= VEC_MAX -> view_bytes body = encoding p ->
  exists r, parse_strict body = Done p r.
Proof.
  intros Hok Hv Hm Hb. destruct (PacketReader.reset_spec body Hv Hm) as [Hw Hr].
  rewrite Hb, <- (app_nil_r (encoding p)) in Hr.
  destruct (read_encoded p _ _ Hok Hw Hr) as (r' & E & Hw' & Hr').
  exists r'. unfold parse_strict. rewrite E. cbn [obind].
  rewrite PacketReader.at_end by done. by rewrite Hr'.
Qed.

(** Strict decoding accepts exactly the bodies of the packet's size. *)
Lemma parse_strict_size (body : MessageView) :
  view_ok body -> mv_size body <= VEC_MAX ->
  parse_strict (P := P) body <> Undefined /\
  ((exists p r, parse_strict (P := P) body = Done p r) <-> zlen (view_bytes body) = wire_size).
Proof.
  intros Hv Hm. destruct (PacketReader.reset_spec body Hv Hm) as [Hw Hr].
  pose proof wire_size_range as Hws. unfold parse_strict.
  destruct (Z.lt_ge_cases (zlen (view_bytes body)) wire_size) as [Hl | Hl].
  - rewrite read_short by (done || by rewrite Hr). cbn [obind].
    split; [done |]. split; [intros (? & ? & ?); done | lia].
  - destruct (read_enough (PacketReader.reset body) Hw) as (p & r' & E & Hw' & Hr'); [by rewrite Hr |].
    rewrite E. cbn [obind]. rewrite PacketReader.at_end by done. rewrite Hr', Hr.
    case_bool_decide as Hd.
    + split; [done |]. split; [intros _ | intros _; eauto].
      assert (Hz : zlen (zdrop wire_size (view_bytes body)) = 0) by (by rewrite Hd).
      rewrite zlen_zdrop in Hz; lia.
    + split; [done |]. split; [intros (? & ? & ?); done |]. intros He.
      destruct Hd. apply zdrop_ge. lia.
Qed.

(** Sending and strict receiving are inverse. *)
Lemma send_receive (p : P) :
  packet_ok p -> exists r, parse_strict (PacketWriter.view (write p PacketWriter.init)) = Done p r.
Proof.
  intros Hok. destruct (PacketWriter.view_spec (write p PacketWriter.init)) as [Hv Hb].
  rewrite write_encodes in Hb. apply parse_strict_encoded; [done | done | | done].
  unfold PacketWriter.view. pose proof (encoding_size p). pose proof wire_size_range.
  destruct (PacketWriter.buf_ (write p PacketWriter.init)) eqn:E; simpl; [lia |].
  unfold PacketWriter.size. rewrite write_encodes in *. simpl. lia.
Qed.

End Clients.

(* ------------------------------------------------------------------ *)
(** ** Theorems *)

(** Every packet of the trading protocol survives the wire: the body its
    [write] produces, given to the strict decoding of the receiving side,
    yields the same packet; and strict decoding of an arbitrary body never
    reads out of bounds and succeeds exactly when the body has the packet's
    length (4 octets for the handshake, 48 for the benchmark packets). *)
Theorem trading_packets_roundtrip :
  (forall role, 0 <= role < 256 ->
     exists r, parse_strict (PacketWriter.view (write (mk_hello role) PacketWriter.init)) = Done (mk_hello role) r) /\
  (forall res role, 0 <= res < 256 -> 0 <= role < 256 ->
     exists r, parse_strict (PacketWriter.view (write (mk_ack res role) PacketWriter.init)) = Done (mk_ack res role) r) /\
  (forall p, perf_ok p ->
     (exists r, parse_strict (PacketWriter.view (write (mk_ping p) PacketWriter.init)) = Done (mk_ping p) r) /\
     (exists r, parse_strict (PacketWriter.view (write (mk_pong p) PacketWriter.init)) = Done (mk_pong p) r)) /\
  (forall body, view_ok body -> mv_size body <= VEC_MAX ->
     parse_strict (P := RoleHelloReqPkt) body <> Undefined /\
     parse_strict (P := RoleHelloAckPkt) body <> Undefined /\
     parse_strict (P := PerfPingPkt) body <> Undefined /\
     ((exists p r, parse_strict (P := RoleHelloReqPkt) body = Done p r) <-> zlen (view_bytes body) = 4) /\
     ((exists p r, parse_strict (P := RoleHelloAckPkt) body = Done p r) <-> zlen (view_bytes body) = 4) /\
     ((exists p r, parse_strict (P := PerfPingPkt) body = Done p r) <-> zlen (view_bytes body) = 48) /\
     ((exists p r, parse_strict (P := PerfPongPkt) body = Done p r) <-> zlen (view_bytes body) = 48)).
Proof.
  split; [| split; [| split]].
  - intros role Hr. by apply (send_receive (mk_hello role)).
  - intros res role H1 H2. by apply (send_receive (mk_ack res role)).
  - intros p Hp. split; [by apply (send_receive (mk_ping p)) | by apply (send_receive (mk_pong p))].
  - intros body Hv Hm.
    destruct (parse_strict_size (P := RoleHelloReqPkt) body Hv Hm).
    destruct (parse_strict_size (P := RoleHelloAckPkt) body Hv Hm).
    destruct (parse_strict_size (P := PerfPingPkt) body Hv Hm).
    destruct (parse_strict_size (P := PerfPongPkt) body Hv Hm). split_and!; done.
Qed.

(** Decoding of the framework packets. *)
Lemma parse_u64 (v : Z) (K : Type) (mkp : Z -> K) :
  0 <= v < U64 ->
  exists r, (let? (sid, r) := PacketReader.readU64Be (PacketReader.reset (PacketWriter.view (PacketWriter.writeU64Be PacketWriter.init v))) in
             if PacketReader.expectEnd r then Done (mkp sid) r else Failed) = Done (mkp v) r.
Proof.
  intros Hv. destruct (PacketWriter.view_spec (PacketWriter.writeU64Be PacketWriter.init v)) as [Ho Hb].
  destruct (PacketReader.reset_spec _ Ho) as [Hw Hr]; [done |]. rewrite Hb in Hr. cbn [PacketWriter.buf_ app] in Hr.
  destruct (PacketReader.readU64Be_front _ v [] Hw Hv) as (r & -> & Hw' & Hr').
  { rewrite Hr. by rewrite app_nil_r. }
  cbn [obind]. rewrite PacketReader.at_end by done. rewrite Hr'. by eexists.
Qed.

(** The framework messages built by [Builders.hpp] are parsed back by
    [Parsers.hpp], for every session id and every topic. *)
Theorem framework_packets_roundtrip :
  (forall sid, 0 <= sid < U64 ->
     (exists r, parseEnterNotify (PacketWriter.view (buildEnterNotify sid)) = Done (mk_enter sid) r) /\
     (exists r, parseLeaveNotify (PacketWriter.view (buildLeaveNotify sid)) = Done (mk_leave sid) r)) /\
  (forall w c, 0 <= w < U32 -> 0 <= c < U32 ->
     exists r, parseTopicMoveAck (PacketWriter.view (buildTopicMoveAck w c)) = Done (mk_move w c) r).
Proof.
  split.
  - intros sid Hs. split; by apply parse_u64.
  - intros w c Hwr Hcr. unfold parseTopicMoveAck.
    destruct (PacketWriter.view_spec (buildTopicMoveAck w c)) as [Ho Hb].
    destruct (PacketReader.reset_spec _ Ho) as [Hw Hr]; [done |]. rewrite Hb in Hr.
    destruct (PacketReader.readU32Be_front _ w (storeU32Be c) Hw Hwr Hr) as (r1 & -> & Hw1 & Hr1).
    cbn [obind]. rewrite <- (app_nil_r (storeU32Be c)) in Hr1.
    destruct (PacketReader.readU32Be_front _ c [] Hw1 Hcr Hr1) as (r2 & -> & Hw2 & Hr2).
    cbn [obind]. rewrite PacketReader.at_end by done. rewrite Hr2. by eexists.
Qed.

(** [writeStringU16] and [readStringU16] are inverse on strings of at most
    65535 octets, whatever follows; a longer string is cut to its first 65535
    octets, and [writeStringU16Checked] refuses it and any string above the
    caller's limit, writing nothing. *)
Theorem string_roundtrip (s tail : list byte) (w : PacketWriter.t) :
  zlen s + zlen tail <= VEC_MAX - 2 ->
  (exists r, PacketReader.readStringU16 (PacketReader.mk (PacketWriter.buf_ (PacketWriter.writeStringU16 PacketWriter.init s) ++ tail)
               (zlen (PacketWriter.buf_ (PacketWriter.writeStringU16 PacketWriter.init s) ++ tail)) 0)
             = Done (ztake 65535 s) r /\ PacketReader.rest r = tail) /\
  (forall maxLen, 0 <= maxLen < U16 ->
     PacketWriter.writeStringU16Checked w s maxLen =
     if zlen s <=? maxLen then (PacketWriter.writeStringU16 w s, true) else (w, false)).
Proof.
  intros Hlen. pose proof (zlen_nonneg s). pose proof (zlen_nonneg tail).
  assert (Hbuf : forall w s', zlen s' <= 65535 ->
    PacketWriter.buf_ (PacketWriter.writeBytes (PacketWriter.writeU16Be w (u16 (zlen s'))) s' (zlen s'))
    = PacketWriter.buf_ w ++ storeU16Be (zlen s') ++ s').
  { intros w0 s' Hs'. pose proof (zlen_nonneg s'). rewrite PacketWriter.writeBytes_buf by lia. simpl.
    rewrite ztake_ge by lia. unfold u16. rewrite Z.mod_small by lia. by rewrite <- app_assoc. }
  split.
  - unfold PacketWriter.writeStringU16.
    replace (if 65535 <? zlen s then slice 0 65535 s else s) with (ztake 65535 s).
    2: { destruct (Z.ltb_spec 65535 (zlen s)); [done |]. by rewrite ztake_ge by lia. }
    set (s' := ztake 65535 s).
    assert (Hs' : zlen s' <= 65535 /\ zlen s' <= zlen s) by (unfold s'; rewrite zlen_ztake; lia).
    rewrite Hbuf by lia. cbn [PacketWriter.buf_ PacketWriter.init app].
    set (bytes := (storeU16Be (zlen s') ++ s') ++ tail).
    assert (Hb : zlen bytes = 2 + zlen s' + zlen tail) by (unfold bytes; zlen_lia).
    pose proof (zlen_nonneg s').
    assert (Hw : PacketReader.wf (PacketReader.mk bytes (zlen bytes) 0)) by (split; simpl; lia).
    assert (Hr : PacketReader.rest (PacketReader.mk bytes (zlen bytes) 0) = storeU16Be (zlen s') ++ s' ++ tail).
    { unfold PacketReader.rest, slice; simpl. rewrite zdrop_0, ztake_ge by lia.
      unfold bytes. by rewrite <- app_assoc. }
    unfold PacketReader.readStringU16.
    destruct (PacketReader.readU16Be_front _ (zlen s') _ Hw ltac:(lia) Hr) as (r1 & -> & Hw1 & Hr1).
    cbn [obind]. destruct (PacketReader.readBytes_front r1 s' tail Hw1 Hr1) as (r2 & -> & _ & Hr2). eauto.
  - intros maxLen Hm. unfold PacketWriter.writeStringU16Checked, PacketWriter.writeStringU16.
    destruct (Z.ltb_spec maxLen (zlen s)); zb_eval; done.
Qed.

Lemma string_roundtrip_witness :
  exists r, PacketReader.readStringU16 (PacketReader.mk
      (PacketWriter.buf_ (PacketWriter.writeStringU16 PacketWriter.init [z2b 65; z2b 66]) ++ [z2b 9]) 5 0)
    = Done [z2b 65; z2b 66] r /\ PacketReader.rest r = [z2b 9].
Proof. apply (string_roundtrip [z2b 65; z2b 66] [z2b 9] PacketWriter.init). vm_compute. congruence. Defined.

(** The opcode policy keeps the three opcode spaces apart: a valid trading
    opcode is neither reserved for the framework nor one of the engine's
    Ping and Pong, and the trading packets' opcodes are valid and distinct,
    so registering their handlers never collides. *)
Theorem opcode_spaces_disjoint :
  (forall op, 0 <= op < U16 ->
     isValidTradingOpcode op = true <-> 20000 <= op < 30000) /\
  (forall op, isValidTradingOpcode op = true ->
     op <> kOpcodePing /\ op <> kOpcodePong /\ op <> kOpcodeEnterNotify /\
     op <> kOpcodeLeaveNotify /\ op <> kOpcodeTopicMoveAck) /\
  Forall (fun op => isValidTradingOpcode op = true)
    [kOpcode (P := RoleHelloReqPkt); kOpcode (P := RoleHelloAckPkt);
     kOpcode (P := PerfPingPkt); kOpcode (P := PerfPongPkt)] /\
  NoDup [kOpcode (P := RoleHelloReqPkt); kOpcode (P := RoleHelloAckPkt);
         kOpcode (P := PerfPingPkt); kOpcode (P := PerfPongPkt)].
Proof.
  split_and!.
  - intros op Hop. unfold isValidTradingOpcode, isInTradingRange, isFrameworkReservedOpcode,
      isFrameworkReserved, isEngineBuiltinOpcode, kTradingOpcodeBegin, kTradingOpcodeEnd,
      kFrameworkOpcodeBegin, kFrameworkOpcodeEnd, kOpcodePing, kOpcodePong.
    split; intros Hv.
    + b2p. lia.
    + by zb_eval.
  - intros op Hv. unfold isValidTradingOpcode, isInTradingRange, kTradingOpcodeBegin,
      kTradingOpcodeEnd in Hv. b2p.
    unfold kOpcodePing, kOpcodePong, kOpcodeEnterNotify, kOpcodeLeaveNotify, kOpcodeTopicMoveAck.
    lia.
  - repeat constructor.
  - apply (bool_decide_eq_true_1 _). vm_compute. reflexivity.
Qed.

End PacketCodec.
