(* ===== verification/TimerWheel.v ===== *)
(** * TimerWheel: the hashed timer wheel of a worker's event loop

    Models [engine/include/hypernet/core/TimerWheel.hpp] and
    [engine/src/hypernet/core/TimerWheel.cpp].  The record [t] has the class's
    members ([scratch_] lives only inside [processCurrentTick]); durations are
    milliseconds, time points nanoseconds, tick counters 64-bit.  A callback
    is a value of a type [C]; [exec c s] is what running it does: the new
    state of the world and the timers it adds, in order, so callbacks that
    call [addTimer] from inside a tick are covered.  A tick also returns the
    timers it fired and those its callbacks added, as a list of events the
    theorems talk about.

    [pending] abstracts the slots to the timers they hold. *)

From S2P Require Import Prelude.

Module TimerWheel.

Section Wheel.
Context {C W : Type} (exec : C -> W -> W * list (Z * C)).

(* ------------------------------------------------------------------ *)
(** ** State *)

Record Timer := mk_timer { id : Z; expirationTick : Z; callback : C }.

Record t := mk {
  tickResolution_ : Z;
  slotCount_ : Z;
  slots_ : list (list Timer);
  lastTickTime_ : Z;
  currentTick_ : Z;
  nextId_ : Z;
  activeTimers_ : Z
}.

Inductive error := InvalidArgument.

(** Nanoseconds per millisecond. *)
Definition ms : Z := 1000000.

(* ------------------------------------------------------------------ *)
(** ** Operations *)

Definition create (tickResolution slotCount now : Z) : error + t :=
  if tickResolution <=? 0 then inl InvalidArgument else
  if slotCount =? 0 then inl InvalidArgument else
  inr (mk tickResolution slotCount (replicate (Z.to_nat slotCount) []) now 0 1 0).

Definition pendingTimers (w : t) : Z := activeTimers_ w.

Definition durationToTicks (w : t) (delay : Z) : Z :=
  if delay <=? 0 then 0 else
  let delayMs := u64 delay in
  let tickMs := u64 (tickResolution_ w) in
  size_sub (size_add delayMs tickMs) 1 / tickMs.

Definition nextTimerId (w : t) : Z * Z :=
  let next := u64 (nextId_ w + 1) in
  (nextId_ w, if next =? 0 then 1 else next).

(** [slots_[slotIndex].push_back(timer)]. *)
Definition push_slot (slots : list (list Timer)) (i : Z) (tm : Timer) : list (list Timer) :=
  alter (fun b => b ++ [tm]) (Z.to_nat i) slots.

(** The timer an [addTimer] call stores. *)
Definition new_timer (w : t) (delay : Z) (c : C) : Timer :=
  let ticks := durationToTicks w delay in
  let delayTicks := if ticks =? 0 then 1 else ticks in
  mk_timer (nextTimerId w).1 (u64 (currentTick_ w + delayTicks)) c.

Definition addTimer (w : t) (delay : Z) (cb : option C) : error + (t * Z) :=
  match cb with
  | None => inl InvalidArgument
  | Some c =>
      let tm := new_timer w delay c in
      let slotIndex := expirationTick tm mod slotCount_ w in
      inr (mk (tickResolution_ w) (slotCount_ w) (push_slot (slots_ w) slotIndex tm)
              (lastTickTime_ w) (currentTick_ w) (nextTimerId w).2 (size_add (activeTimers_ w) 1),
           id tm)
  end.

(** What happened in a tick: timers fired and timers added by callbacks. *)
Inductive event := EFire (atTick : Z) (tm : Timer) | EAdd (tm : Timer).

(** The timers a callback adds; their callbacks are not empty. *)
Fixpoint add_all (w : t) (adds : list (Z * C)) : t * list event :=
  match adds with
  | [] => (w, [])
  | (delay, c) :: rest =>
      match addTimer w delay (Some c) with
      | inr (w1, _) =>
          let '(w2, ev) := add_all w1 rest in (w2, EAdd (new_timer w delay c) :: ev)
      | inl _ => (w, [])
      end
  end.

Definition dec_active (w : t) : t :=
  mk (tickResolution_ w) (slotCount_ w) (slots_ w) (lastTickTime_ w) (currentTick_ w) (nextId_ w)
     (if 0 <? activeTimers_ w then size_sub (activeTimers_ w) 1 else activeTimers_ w).

Definition set_slots (w : t) (s : list (list Timer)) : t :=
  mk (tickResolution_ w) (slotCount_ w) s (lastTickTime_ w) (currentTick_ w) (nextId_ w)
     (activeTimers_ w).

(** The loop over [scratch_]. *)
Fixpoint process (scratch : list Timer) (w : t) (s : W) : t * W * list event :=
  match scratch with
  | [] => (w, s, [])
  | tm :: rest =>
      if expirationTick tm <=? currentTick_ w then
        let '(s1, adds) := exec (callback tm) s in
        let '(w1, ev1) := add_all w adds in
        let '(w2, s2, ev2) := process rest (dec_active w1) s1 in
        (w2, s2, EFire (currentTick_ w) tm :: ev1 ++ ev2)
      else
        process rest (set_slots w (push_slot (slots_ w) (expirationTick tm mod slotCount_ w) tm)) s
  end.

Definition processCurrentTick (w : t) (s : W) : t * W * list event :=
  let slotIndex := Z.to_nat (currentTick_ w mod slotCount_ w) in
  match slots_ w !! slotIndex with
  | None | Some [] => (w, s, [])
  | Some bucket => process bucket (set_slots w (<[slotIndex := []]> (slots_ w))) s
  end.

Definition advance_tick (w : t) : t :=
  mk (tickResolution_ w) (slotCount_ w) (slots_ w) (lastTickTime_ w)
     (u64 (currentTick_ w + 1)) (nextId_ w) (activeTimers_ w).

Definition tick (w : t) (s : W) : t * W * list event := processCurrentTick (advance_tick w) s.

Fixpoint ticks (n : nat) (w : t) (s : W) : t * W * list event :=
  match n with
  | O => (w, s, [])
  | S m =>
      let '(w1, s1, f1) := tick w s in
      let '(w2, s2, f2) := ticks m w1 s1 in (w2, s2, f1 ++ f2)
  end.

(** [tick(now)]: as many logical ticks as whole resolutions have passed. *)
Definition tick_at (w : t) (now : Z) (s : W) : t * W * list event :=
  if now <=? lastTickTime_ w then (w, s, []) else
  let elapsedMs := (now - lastTickTime_ w) / ms in
  if elapsedMs <? tickResolution_ w then (w, s, []) else
  let ticksToAdvance := u64 elapsedMs / u64 (tickResolution_ w) in
  let '(w', s', fired) := ticks (Z.to_nat ticksToAdvance) w s in
  (mk (tickResolution_ w') (slotCount_ w') (slots_ w')
      (lastTickTime_ w' + tickResolution_ w' * ticksToAdvance * ms)
      (currentTick_ w') (nextId_ w') (activeTimers_ w'), s', fired).

(* ------------------------------------------------------------------ *)
(** ** Invariant *)

Definition pending (w : t) : list Timer := concat (slots_ w).

(** Each timer sits in the slot of its expiration. *)
Definition slotted (n : Z) (slots : list (list Timer)) : Prop :=
  Z.of_nat (length slots) = n /\
  forall i b, slots !! i = Some b -> Forall (fun tm => expirationTick tm mod n = Z.of_nat i) b.

(** Well formed up to [k] timers that are in [scratch_]. *)
Record wf_upto (k : Z) (w : t) : Prop := {
  wf_res : 0 < tickResolution_ w < 2 ^ 63;
  wf_count : 0 < slotCount_ w;
  wf_slots : slotted (slotCount_ w) (slots_ w);
  wf_tick : 0 <= currentTick_ w;
  wf_future : Forall (fun tm => currentTick_ w < expirationTick tm) (pending w);
  wf_active : activeTimers_ w = zlen (pending w) + k
}.

Definition wf (w : t) : Prop := wf_upto 0 w.

(** The ticks a delay is rounded up to, at least one. *)
Definition ceil_ticks (res delay : Z) : Z := Z.max 1 ((delay + res - 1) / res).

Definition fired (evs : list event) : list Timer :=
  omap (fun e => match e with EFire _ tm => Some tm | EAdd _ => None end) evs.

Definition added (evs : list event) : list Timer :=
  omap (fun e => match e with EAdd tm => Some tm | EFire _ _ => None end) evs.

End Wheel.

Arguments Timer : clear implicits.
Arguments t : clear implicits.
Arguments event : clear implicits.

(* ------------------------------------------------------------------ *)
(** ** Slots *)

Section Slots.
Context {C : Type}.
Implicit Types (slots : list (list (Timer C))) (tm : Timer C).

Lemma push_slot_pending slots i tm :
  0 <= i < Z.of_nat (length slots) -> concat (push_slot slots i tm) ≡ₚ tm :: concat slots.
Proof.
  unfold push_slot. intros Hi.
  assert (Hn : (Z.to_nat i < length slots)%nat) by lia. revert Hn. clear Hi.
  generalize (Z.to_nat i) as n. intros n. revert n.
  induction slots as [| b slots IH]; intros n Hn; simpl in *; [lia |].
  destruct n as [| n].
  - change (concat ((b ++ [tm]) :: slots) ≡ₚ tm :: b ++ concat slots).
    cbn [concat]. rewrite <- app_assoc. simpl. symmetry. apply Permutation_middle.
  - change (b ++ concat (alter (fun b0 => b0 ++ [tm]) n slots) ≡ₚ tm :: b ++ concat slots).
    rewrite IH by lia. symmetry. apply Permutation_middle.
Qed.

Lemma take_bucket slots n b :
  slots !! n = Some b -> concat slots ≡ₚ b ++ concat (<[n := []]> slots).
Proof.
  revert n. induction slots as [| c slots IH]; intros n Hn; [done |].
  destruct n as [| n]; simpl in *.
  - injection Hn as ->. done.
  - change (concat (c :: slots)) with (c ++ concat slots).
    change (concat (c :: <[n:=[]]> slots)) with (c ++ concat (<[n:=[]]> slots)).
    rewrite (IH n Hn). rewrite !app_assoc. by rewrite (Permutation_app_comm c b).
Qed.

Lemma push_slotted n slots tm :
  0 < n -> slotted n slots -> slotted n (push_slot slots (expirationTick tm mod n) tm).
Proof.
  intros Hn [Hl Hs]. unfold push_slot. split; [by rewrite length_alter |].
  pose proof (Z.mod_pos_bound (expirationTick tm) n Hn).
  intros i b Hb. destruct (decide (i = Z.to_nat (expirationTick tm mod n))) as [-> | Hne].
  - rewrite list_lookup_alter_eq in Hb. apply fmap_Some in Hb as (b0 & Hb0 & ->).
    apply Forall_app. split; [by apply Hs |]. repeat constructor. lia.
  - rewrite list_lookup_alter_ne in Hb by done. by apply Hs.
Qed.

Lemma clear_slotted n slots i : slotted n slots -> slotted n (<[i := []]> slots).
Proof.
  intros [Hl Hs]. split; [by rewrite length_insert |]. intros j b Hb.
  destruct (decide (i = j)) as [-> | Hne].
  - destruct (decide (j < length slots)%nat).
    + rewrite list_lookup_insert_eq in Hb by done. injection Hb as <-. constructor.
    + rewrite list_insert_ge in Hb by lia. by apply Hs.
  - rewrite list_lookup_insert_ne in Hb by done. by apply Hs.
Qed.

(** A timer that is due is in the slot of its tick. *)
Lemma due_in_bucket n slots tm k :
  0 < n -> slotted n slots -> tm ∈ concat slots -> expirationTick tm = k ->
  exists b, slots !! Z.to_nat (k mod n) = Some b /\ tm ∈ b.
Proof.
  intros Hn [Hl Hs] Hin He. apply list_elem_of_In, in_concat in Hin as (b & Hb & Htm).
  apply list_elem_of_In, list_elem_of_lookup_1 in Hb as (i & Hi).
  apply list_elem_of_In in Htm. pose proof (Hs i b Hi) as Hf.
  rewrite Forall_forall in Hf. specialize (Hf tm Htm) as Hm. simpl in Hm.
  exists b. split; [| done]. rewrite <- He, Hm, Nat2Z.id. done.
Qed.

(** Outside the slot of tick [k] no timer is due at [k]. *)
Lemma not_due_elsewhere n slots tm k :
  0 < n -> slotted n slots -> 0 <= k ->
  tm ∈ concat (<[Z.to_nat (k mod n) := []]> slots) -> expirationTick tm = k -> False.
Proof.
  intros Hn Hs Hk Hin He.
  destruct (due_in_bucket n _ tm k Hn (clear_slotted n slots (Z.to_nat (k mod n)) Hs) Hin He)
    as (b & Hb & Htm).
  destruct (decide (Z.to_nat (k mod n) < length slots)%nat) as [Hl | Hl].
  - rewrite list_lookup_insert_eq in Hb by done. injection Hb as <-. set_solver.
  - destruct Hs as [Hlen _]. pose proof (Z.mod_pos_bound k n Hn). lia.
Qed.

End Slots.

(* ------------------------------------------------------------------ *)
(** ** Operations keep the invariant *)

(** Projections of an explicit wheel, and its pending timers. *)
Ltac wheel_cbn :=
  unfold dec_active, set_slots, advance_tick, pending;
  cbn [tickResolution_ slotCount_ slots_ lastTickTime_ currentTick_ nextId_ activeTimers_ fst snd].

Section Lemmas.
Context {C W : Type} (exec : C -> W -> W * list (Z * C)).
Implicit Types (w : t C) (s : W) (tm : Timer C).

(** Delays are those a [std::chrono::milliseconds] can hold. *)
Hypothesis exec_delays : forall c s, Forall (fun '(d, _) => d < 2 ^ 63) (exec c s).2.

Lemma fired_app (e1 e2 : list (event C)) : fired (e1 ++ e2) = fired e1 ++ fired e2.
Proof. apply omap_app. Qed.

Lemma added_app (e1 e2 : list (event C)) : added (e1 ++ e2) = added e1 ++ added e2.
Proof. apply omap_app. Qed.

Lemma fired_EFire k tm (evs : list (event C)) : fired (EFire k tm :: evs) = tm :: fired evs.
Proof. done. Qed.

Lemma fired_EAdd tm (evs : list (event C)) : fired (EAdd tm :: evs) = fired evs.
Proof. done. Qed.

Lemma added_EFire k tm (evs : list (event C)) : added (EFire k tm :: evs) = added evs.
Proof. done. Qed.

Lemma added_EAdd tm (evs : list (event C)) : added (EAdd tm :: evs) = tm :: added evs.
Proof. done. Qed.

Lemma delay_ticks w delay :
  0 < tickResolution_ w < 2 ^ 63 -> delay < 2 ^ 63 ->
  (let ticks := durationToTicks w delay in if ticks =? 0 then 1 else ticks)
  = ceil_ticks (tickResolution_ w) delay.
Proof.
  intros Hr Hd. cbv zeta. unfold durationToTicks, ceil_ticks. set (res := tickResolution_ w) in *.
  destruct (Z.leb_spec delay 0) as [Hneg | Hpos].
  - assert ((delay + res - 1) / res < 1) by (apply Z.div_lt_upper_bound; lia). simpl. lia.
  - rewrite !u64_small by lia. rewrite size_add_small, size_sub_small by lia.
    assert (1 <= (delay + res - 1) / res) by (apply Z.div_le_lower_bound; lia).
    zb_eval. lia.
Qed.

Lemma ceil_ticks_bound res delay :
  0 < res -> delay < 2 ^ 63 -> 1 <= ceil_ticks res delay <= 2 ^ 63.
Proof.
  intros Hr Hd. unfold ceil_ticks. split; [lia |].
  apply Z.max_lub; [lia |]. apply Z.div_le_upper_bound; nia.
Qed.

Lemma new_timer_expiration k w delay c :
  wf_upto k w -> currentTick_ w < 2 ^ 63 -> delay < 2 ^ 63 ->
  expirationTick (new_timer w delay c) = currentTick_ w + ceil_ticks (tickResolution_ w) delay.
Proof.
  intros H Ht Hd. unfold new_timer. rewrite delay_ticks by (done || apply H). simpl.
  pose proof (ceil_ticks_bound (tickResolution_ w) delay ltac:(pose proof (wf_res _ _ H); lia) Hd).
  pose proof (wf_tick _ _ H). apply u64_small. lia.
Qed.

Lemma addTimer_spec k w delay c w' tid :
  wf_upto k w -> currentTick_ w < 2 ^ 63 -> delay < 2 ^ 63 -> 0 <= k ->
  zlen (pending w) + k + 1 < U64 ->
  addTimer w delay (Some c) = inr (w', tid) ->
  wf_upto k w' /\ pending w' ≡ₚ new_timer w delay c :: pending w /\
  currentTick_ w' = currentTick_ w /\ tickResolution_ w' = tickResolution_ w /\
  lastTickTime_ w' = lastTickTime_ w /\ tid = id (new_timer w delay c).
Proof.
  intros H Ht Hd Hk Hroom Ha. pose proof (new_timer_expiration k w delay c H Ht Hd) as He.
  pose proof (ceil_ticks_bound (tickResolution_ w) delay ltac:(pose proof (wf_res _ _ H); lia) Hd).
  unfold addTimer in Ha. cbv zeta in Ha.
  remember (new_timer w delay c) as tm eqn:Htm. clear Htm. injection Ha as <- <-.
  pose proof (wf_count _ _ H). pose proof (wf_slots _ _ H) as Hs.
  assert (Hp : concat (push_slot (slots_ w) (expirationTick tm mod slotCount_ w) tm)
               ≡ₚ tm :: pending w).
  { apply push_slot_pending. rewrite (proj1 Hs). apply Z.mod_pos_bound. lia. }
  split_and!; try done.
  split; wheel_cbn; try apply H.
  - apply push_slotted; done.
  - rewrite Hp. constructor; [lia | apply H].
  - rewrite (wf_active _ _ H). pose proof (zlen_nonneg (pending w)).
    rewrite size_add_small by lia. unfold zlen. rewrite (Permutation_length Hp). simpl. lia.
Qed.

Lemma add_all_spec adds k w :
  wf_upto k w -> currentTick_ w < 2 ^ 63 -> 0 <= k ->
  Forall (fun '(d, _) => d < 2 ^ 63) adds ->
  zlen (pending w) + k + zlen (added (add_all w adds).2) < U64 ->
  let '(w', evs) := add_all w adds in
  wf_upto k w' /\ pending w' ≡ₚ added evs ++ pending w /\ fired evs = [] /\
  currentTick_ w' = currentTick_ w /\ tickResolution_ w' = tickResolution_ w /\
  lastTickTime_ w' = lastTickTime_ w.
Proof.
  revert w. induction adds as [| [d c] adds IH]; intros w H Ht Hk Hd Hroom; [done |].
  inversion Hd as [| ? ? Hd1 Hd2]; subst. cbn [add_all] in *.
  destruct (addTimer w d (Some c)) as [| [w1 tid]] eqn:Ea; [done |].
  destruct (add_all w1 adds) as [w2 ev] eqn:E. cbn [snd] in Hroom.
  rewrite added_EAdd, ?zlen_cons in *. rewrite fired_EAdd. pose proof (zlen_nonneg (added ev)).
  destruct (addTimer_spec k w d c w1 tid) as (H1 & Hp & Hc & Hr & Hl & _); [done.. | lia | done |].
  specialize (IH w1 H1). rewrite E in IH. cbn [snd] in IH.
  assert (Hz : zlen (pending w1) = 1 + zlen (pending w)).
  { unfold zlen. rewrite (Permutation_length Hp). simpl. lia. }
  destruct IH as (H2 & Hp2 & Hf & Hc2 & Hr2 & Hl2); [lia | done | done | lia |].
  split_and!; try (done || congruence).
  rewrite Hp2, Hp. cbn [app]. symmetry. apply Permutation_middle.
Qed.

(** Serving one due timer of [scratch_]. *)
Lemma dec_active_spec k w : wf_upto (k + 1) w -> 0 <= k -> zlen (pending w) + k + 1 < U64 ->
  wf_upto k (dec_active w).
Proof.
  intros H Hk Hr. pose proof (zlen_nonneg (pending w)).
  split; wheel_cbn; try apply H. rewrite (wf_active _ _ H). zb_eval.
  rewrite size_sub_small by lia. fold (pending w). lia.
Qed.

(** The run of one tick over the timers moved to [scratch_]: what the final
    theorems need of it. *)
Record run_ok (k : Z) (w0 w' : t C) (todo : list (Timer C)) (evs : list (event C)) : Prop := {
  ro_wf : wf_upto 0 w';
  ro_conserve : pending w0 ++ todo ++ added evs ≡ₚ fired evs ++ pending w';
  ro_fire : forall j tm, EFire j tm ∈ evs -> j = k /\ expirationTick tm = k;
  ro_tick : currentTick_ w' = k;
  ro_res : tickResolution_ w' = tickResolution_ w0;
  ro_last : lastTickTime_ w' = lastTickTime_ w0
}.

Lemma add_all_no_fire w adds j tm : EFire j tm ∉ (add_all w adds).2.
Proof.
  revert w. induction adds as [| [d c] adds IH]; intros w; cbn [add_all]; [apply not_elem_of_nil |].
  destruct (addTimer w d (Some c)) as [| [w1 tid]]; [apply not_elem_of_nil |].
  specialize (IH w1). destruct (add_all w1 adds); simpl in *.
  intros [Heq | Hin]%elem_of_cons; [done | by apply IH].
Qed.

(** A timer of a later round goes back into its slot. *)
Lemma requeue_spec k w tm : wf_upto (1 + k) w -> currentTick_ w < expirationTick tm ->
  let w1 := set_slots w (push_slot (slots_ w) (expirationTick tm mod slotCount_ w) tm) in
  wf_upto k w1 /\ pending w1 ≡ₚ tm :: pending w /\ zlen (pending w1) = 1 + zlen (pending w).
Proof.
  intros H Hd w1. pose proof (wf_slots _ _ H) as Hs. pose proof (wf_count _ _ H).
  assert (Hp : pending w1 ≡ₚ tm :: pending w).
  { apply push_slot_pending. rewrite (proj1 Hs). apply Z.mod_pos_bound. lia. }
  assert (Hz : zlen (pending w1) = 1 + zlen (pending w)).
  { unfold zlen. rewrite (Permutation_length Hp). simpl. lia. }
  split; [| done]. split; try apply H.
  - by apply push_slotted.
  - rewrite Hp. constructor; [done | apply H].
  - rewrite Hz. change (activeTimers_ w1) with (activeTimers_ w). rewrite (wf_active _ _ H). lia.
Qed.

Lemma process_spec scratch w s :
  wf_upto (zlen scratch) w -> currentTick_ w < 2 ^ 63 ->
  Forall (fun tm => currentTick_ w <= expirationTick tm) scratch ->
  zlen (pending w) + zlen scratch + zlen (added (process exec scratch w s).2) < U64 ->
  run_ok (currentTick_ w) w (process exec scratch w s).1.1 scratch (process exec scratch w s).2.
Proof.
  revert w s. induction scratch as [| tm scratch IH]; intros w s H Ht Hdue Hroom.
  { cbn [process fst snd]. split; try done; [by rewrite app_nil_r |].
    intros j tm Hin. by apply not_elem_of_nil in Hin. }
  inversion Hdue as [| ? ? Hd1 Hd2]; subst. pose proof (zlen_nonneg scratch).
  rewrite zlen_cons in *. cbn [process] in *.
  destruct (Z.leb_spec (expirationTick tm) (currentTick_ w)) as [Hle | Hgt].
  - pose proof (exec_delays (callback tm) s) as Hdel.
    destruct (exec (callback tm) s) as [s1 adds]; cbn [snd] in Hdel.
    pose proof (add_all_no_fire w adds) as Hnf.
    pose proof (add_all_spec adds (1 + zlen scratch) w H Ht ltac:(lia) Hdel) as Ha.
    destruct (add_all w adds) as [w1 ev1] eqn:E1; cbn [snd] in *.
    specialize (IH (dec_active w1) s1).
    destruct (process exec scratch (dec_active w1) s1) as [[w2 s2] ev2]; cbn [fst snd] in *.
    rewrite added_EFire, added_app, zlen_app in Hroom.
    pose proof (zlen_nonneg (added ev1)). pose proof (zlen_nonneg (added ev2)).
    destruct Ha as (Hwf1 & Hp1 & Hf1 & Hc1 & Hr1 & Hl1); [lia |].
    assert (Hz : zlen (pending w1) = zlen (added ev1) + zlen (pending w)).
    { unfold zlen. rewrite (Permutation_length Hp1), length_app. lia. }
    destruct IH as [Rw Rc Rf Rt Rr Rl]; wheel_cbn; fold (pending w1).
    + apply dec_active_spec; [| lia | lia]. by rewrite Z.add_comm.
    + lia.
    + by rewrite Hc1.
    + lia.
    + change (currentTick_ (dec_active w1)) with (currentTick_ w1) in *.
      split; try done; try congruence.
      * rewrite fired_EFire, added_EFire, fired_app, added_app, Hf1. cbn [app].
        change (pending (dec_active w1)) with (pending w1) in Rc. rewrite <- Rc, Hp1.
        solve_Permutation.
      * intros j tm' Hin. apply elem_of_cons in Hin as [Heq | Hin].
        { simplify_eq. split; [done | lia]. }
        apply elem_of_app in Hin as [Hin | Hin]; [by destruct (Hnf j tm') |].
        rewrite <- Hc1. eauto.
      * exact (eq_trans Rr Hr1).
      * exact (eq_trans Rl Hl1).
  - set (w1 := set_slots w _) in *.
    destruct (requeue_spec (zlen scratch) w tm H Hgt) as (Hw1 & Hp & Hz). fold w1 in Hw1, Hp, Hz.
    destruct (IH w1 s Hw1) as [Rw Rc Rf Rt Rr Rl]; [done | done | lia |].
    split; try done. rewrite <- Rc, Hp. solve_Permutation.
Qed.

(** One tick: the due timers fire, everything else stays. *)
Lemma tick_spec w s :
  wf w -> currentTick_ w + 1 < 2 ^ 63 ->
  zlen (pending w) + zlen (added (tick exec w s).2) < U64 ->
  run_ok (currentTick_ w + 1) w (tick exec w s).1.1 [] (tick exec w s).2.
Proof.
  intros H Ht Hroom. unfold tick, processCurrentTick in *.
  pose proof (wf_tick _ _ H). pose proof (wf_count _ _ H) as Hn. pose proof (wf_slots _ _ H) as Hs.
  assert (Hc : currentTick_ (advance_tick w) = currentTick_ w + 1) by (apply u64_small; lia).
  change (slots_ (advance_tick w)) with (slots_ w) in *.
  change (slotCount_ (advance_tick w)) with (slotCount_ w) in *.
  rewrite Hc in *. set (k := currentTick_ w + 1) in *. set (i := Z.to_nat (k mod slotCount_ w)) in *.
  assert (Hfut : forall tm, tm ∈ pending w -> k <= expirationTick tm).
  { intros tm Hin. pose proof (wf_future _ _ H) as Hf. rewrite Forall_forall in Hf.
    specialize (Hf tm Hin). simpl in Hf. lia. }
  assert (Hdue : forall tm, tm ∈ pending w -> expirationTick tm = k ->
            exists b, slots_ w !! i = Some b /\ tm ∈ b).
  { intros tm Hin He. by eapply due_in_bucket. }
  assert (Hempty : default [] (slots_ w !! i) = [] ->
    run_ok k w (advance_tick w) [] (@nil (event C))).
  { intros He. split; try done; [| by rewrite app_nil_r | set_solver].
    split; try apply H; [rewrite Hc; lia |].
    rewrite Hc. apply Forall_forall. intros tm Hin. specialize (Hfut tm Hin).
    destruct (Z.eq_dec (expirationTick tm) k) as [Heq |]; [| lia].
    destruct (Hdue tm Hin Heq) as (b & Hb & Htm). rewrite Hb in He. simpl in He. subst. set_solver. }
  destruct (slots_ w !! i) as [bucket |] eqn:Eb; [| by apply Hempty].
  destruct bucket as [| tm0 bucket0] eqn:Ebk; [by apply Hempty |]. rewrite <- Ebk in *.
  clear Hempty. set (w1 := set_slots (advance_tick w) _) in *.
  pose proof (take_bucket (slots_ w) i bucket Eb) as Hp.
  change (concat (<[i:=[]]> (slots_ w))) with (pending w1) in Hp. fold (pending w) in Hp.
  assert (Hz : zlen (pending w) = zlen bucket + zlen (pending w1)).
  { unfold zlen. rewrite (Permutation_length Hp), length_app. lia. }
  assert (Hbk : forall tm, tm ∈ bucket -> tm ∈ pending w) by (intros; rewrite Hp; apply elem_of_app; by left).
  destruct (process_spec bucket w1 s) as [Rw Rc Rf Rt Rr Rl].
  - split; try apply H.
    + by apply clear_slotted.
    + change (currentTick_ w1) with (currentTick_ (advance_tick w)). rewrite Hc. lia.
    + change (currentTick_ w1) with (currentTick_ (advance_tick w)). rewrite Hc.
      apply Forall_forall. intros tm Hin.
      assert (Hin' : tm ∈ pending w) by (rewrite Hp; apply elem_of_app; by right).
      specialize (Hfut tm Hin'). destruct (Z.eq_dec (expirationTick tm) k) as [Heq |]; [| lia].
      exfalso. apply (not_due_elsewhere _ (slots_ w) tm k Hn Hs); [lia | done | done].
    + change (activeTimers_ w1) with (activeTimers_ w). rewrite (wf_active _ _ H). lia.
  - change (currentTick_ w1) with (currentTick_ (advance_tick w)). rewrite Hc. lia.
  - change (currentTick_ w1) with (currentTick_ (advance_tick w)). rewrite Hc.
    apply Forall_forall. intros tm Hin. auto.
  - lia.
  - change (currentTick_ w1) with (currentTick_ (advance_tick w)) in *. rewrite Hc in *.
    split; try done. rewrite <- Rc, Hp. simpl. solve_Permutation.
Qed.

(** What [n] ticks do. *)
Record ticks_ok (n : Z) (w w' : t C) (evs : list (event C)) : Prop := {
  to_wf : wf w';
  to_conserve : pending w ++ added evs ≡ₚ fired evs ++ pending w';
  to_fire : forall j tm, EFire j tm ∈ evs ->
    currentTick_ w < j <= currentTick_ w + n /\ expirationTick tm = j;
  to_tick : currentTick_ w' = currentTick_ w + n;
  to_res : tickResolution_ w' = tickResolution_ w;
  to_last : lastTickTime_ w' = lastTickTime_ w
}.

Lemma ticks_spec n w s :
  wf w -> currentTick_ w + Z.of_nat n < 2 ^ 63 ->
  zlen (pending w) + zlen (added (ticks exec n w s).2) < U64 ->
  ticks_ok (Z.of_nat n) w (ticks exec n w s).1.1 (ticks exec n w s).2.
Proof.
  revert w s. induction n as [| n IH]; intros w s H Ht Hroom.
  { split; try done; [cbn; by rewrite app_nil_r | | cbn; lia].
    intros j tm Hin. by apply not_elem_of_nil in Hin. }
  cbn [ticks] in *. pose proof (tick_spec w s H) as Hk.
  destruct (tick exec w s) as [[w1 s1] ev1]; cbn [fst snd] in *.
  specialize (IH w1 s1). destruct (ticks exec n w1 s1) as [[w2 s2] ev2]; cbn [fst snd] in *.
  rewrite added_app, zlen_app in Hroom.
  pose proof (zlen_nonneg (added ev1)). pose proof (zlen_nonneg (added ev2)).
  destruct Hk as [Kw Kc Kf Kt Kr Kl]; [lia | lia |]. simpl in Kc.
  assert (Hz : zlen (pending w) + zlen (added ev1) = zlen (fired ev1) + zlen (pending w1)).
  { apply Permutation_length in Kc. rewrite !length_app in Kc. unfold zlen. lia. }
  pose proof (zlen_nonneg (fired ev1)).
  destruct IH as [Iw Ic If It Ir Il]; [done | lia | lia |].
  split; [done | | | lia | congruence | congruence].
  - rewrite added_app, fired_app, <- app_assoc, <- Ic. rewrite (app_assoc (pending w)), Kc.
    by rewrite <- app_assoc.
  - intros j tm [Hin | Hin]%elem_of_app.
    + destruct (Kf j tm Hin) as [-> ?]. lia.
    + destruct (If j tm Hin). lia.
Qed.

Lemma elem_fired tm (evs : list (event C)) : tm ∈ fired evs -> exists j, EFire j tm ∈ evs.
Proof.
  unfold fired. rewrite list_elem_of_omap. intros (e & He & Htm).
  destruct e as [j tm' |]; simplify_eq. eauto.
Qed.

(** A pending timer fires within the run iff it expires within it. *)
Lemma fired_iff n w w' evs tm :
  ticks_ok n w w' evs -> tm ∈ pending w ->
  (tm ∈ fired evs <-> expirationTick tm <= currentTick_ w + n).
Proof.
  intros [Tw Tc Tf Tt _ _] Hin. split.
  - intros (j & Hj)%elem_fired. destruct (Tf j tm Hj). lia.
  - intros He. assert (Hm : tm ∈ fired evs ++ pending w') by (rewrite <- Tc; apply elem_of_app; by left).
    apply elem_of_app in Hm as [? | Hm]; [done |].
    pose proof (wf_future _ _ Tw) as Hf. rewrite Forall_forall in Hf.
    specialize (Hf tm Hm). simpl in Hf. lia.
Qed.

(** The number of ticks a call of [tick(now)] makes. *)
Lemma tick_at_count w now :
  0 < tickResolution_ w < 2 ^ 63 -> lastTickTime_ w < now -> now - lastTickTime_ w < 2 ^ 63 ->
  u64 ((now - lastTickTime_ w) / ms) / u64 (tickResolution_ w)
  = (now - lastTickTime_ w) / (tickResolution_ w * ms).
Proof.
  intros Hr Hn Hb. unfold ms.
  assert (0 <= (now - lastTickTime_ w) / 1000000 < 2 ^ 63).
  { split; [apply Z.div_pos; lia |]. apply Z.div_lt_upper_bound; lia. }
  rewrite !u64_small by lia. rewrite Z.div_div by lia. f_equal. lia.
Qed.

Lemma tick_at_spec w now s :
  wf w -> now - lastTickTime_ w < 2 ^ 63 -> lastTickTime_ w <= now ->
  let k := (now - lastTickTime_ w) / (tickResolution_ w * ms) in
  tick_at exec w now s =
  let '(w', s', evs) := ticks exec (Z.to_nat k) w s in
  (mk (tickResolution_ w') (slotCount_ w') (slots_ w')
      (lastTickTime_ w' + tickResolution_ w' * k * ms)
      (currentTick_ w') (nextId_ w') (activeTimers_ w'), s', evs).
Proof.
  intros H Hb Hle k. pose proof (wf_res _ _ H) as Hr. unfold tick_at.
  assert (Hm : 0 < ms) by done.
  assert (Hzero : k = 0 -> (let '(w', s', evs) := ticks exec (Z.to_nat k) w s in
    (mk (tickResolution_ w') (slotCount_ w') (slots_ w')
      (lastTickTime_ w' + tickResolution_ w' * k * ms)
      (currentTick_ w') (nextId_ w') (activeTimers_ w'), s', evs)) = (w, s, [])).
  { intros Hk0. rewrite Hk0. change (Z.to_nat 0) with 0%nat. cbn [ticks].
    replace (lastTickTime_ w + tickResolution_ w * 0 * ms) with (lastTickTime_ w) by lia.
    clear. by destruct w. }
  destruct (Z.leb_spec now (lastTickTime_ w)) as [Hn | Hn].
  { rewrite Hzero; [done |]. unfold k. replace (now - lastTickTime_ w) with 0 by lia. done. }
  assert (Hdiv : (now - lastTickTime_ w) / ms / tickResolution_ w = k).
  { unfold k. rewrite Z.div_div by lia. f_equal. lia. }
  destruct (Z.ltb_spec ((now - lastTickTime_ w) / ms) (tickResolution_ w)) as [Hl | Hl].
  { rewrite Hzero; [done |]. rewrite <- Hdiv. apply Z.div_small.
    split; [apply Z.div_pos; lia | done]. }
  rewrite tick_at_count by (done || lia). fold k. by destruct (ticks _ _ _ _) as [[? ?] ?].
Qed.

End Lemmas.

(* ------------------------------------------------------------------ *)
(** ** Theorems *)

Section Theorems.
Context {C W : Type} (exec : C -> W -> W * list (Z * C)).

(** C10: over any number of ticks every timer fires exactly once and exactly at
    its tick.  Whatever the callbacks do, timers they add in the middle of a
    tick included: the timers pending before together with those added are, as
    a multiset, those fired together with those still pending; each fired
    timer fires at its own expiration tick; every timer left expires later;
    and [pendingTimers] counts the timers left. *)
Theorem timers_fire_once_on_time (n : nat) (w w' : t C) (s s' : W) (evs : list (event C)) :
  (forall c s, Forall (fun '(d, _) => d < 2 ^ 63) (exec c s).2) ->
  wf w -> currentTick_ w + Z.of_nat n < 2 ^ 63 ->
  ticks exec n w s = (w', s', evs) ->
  zlen (pending w) + zlen (added evs) < U64 ->
  pending w ++ added evs ≡ₚ fired evs ++ pending w' /\
  (forall j tm, EFire j tm ∈ evs ->
     expirationTick tm = j /\ currentTick_ w < j <= currentTick_ w + Z.of_nat n) /\
  Forall (fun tm => currentTick_ w + Z.of_nat n < expirationTick tm) (pending w') /\
  pendingTimers w' = zlen (pending w') /\ wf w'.
Proof.
  intros Hdel Hwf Ht Hrun Hroom. pose proof (ticks_spec exec Hdel n w s Hwf Ht) as Hs.
  rewrite Hrun in Hs; cbn [fst snd] in Hs. destruct (Hs Hroom) as [Tw Tc Tf Tt _ _].
  split_and!; try done.
  - intros j tm Hin. destruct (Tf j tm Hin). done.
  - rewrite <- Tt. apply Tw.
  - unfold pendingTimers. rewrite (wf_active _ _ Tw). lia.
Qed.

(** A timer added with a delay fires after the delay rounded up to whole
    ticks, at least one, counted from the current tick: it is among the fired
    timers of the next [n] ticks exactly when [n] is at least that number. *)
Theorem timer_delay_in_ticks (n : nat) (w w1 w' : t C) (delay tid : Z) (c : C)
    (s s' : W) (evs : list (event C)) :
  (forall c s, Forall (fun '(d, _) => d < 2 ^ 63) (exec c s).2) ->
  wf w -> delay < 2 ^ 63 -> currentTick_ w + Z.of_nat n < 2 ^ 63 ->
  addTimer w delay (Some c) = inr (w1, tid) ->
  ticks exec n w1 s = (w', s', evs) ->
  zlen (pending w) + 1 + zlen (added evs) < U64 ->
  (new_timer w delay c ∈ fired evs <->
   Z.max 1 ((delay + tickResolution_ w - 1) / tickResolution_ w) <= Z.of_nat n).
Proof.
  intros Hdel Hwf Hd Ht Hadd Hrun Hroom. pose proof (zlen_nonneg (added evs)).
  destruct (addTimer_spec 0 w delay c w1 tid Hwf ltac:(lia) Hd ltac:(lia) ltac:(lia) Hadd)
    as (Hw1 & Hp & Hc & Hr & _ & _).
  assert (Hz : zlen (pending w1) = 1 + zlen (pending w)).
  { unfold zlen. rewrite (Permutation_length Hp). simpl. lia. }
  pose proof (ticks_spec exec Hdel n w1 s Hw1 ltac:(lia)) as Hs.
  rewrite Hrun in Hs; cbn [fst snd] in Hs. specialize (Hs ltac:(lia)).
  rewrite (fired_iff _ _ _ _ (new_timer w delay c) Hs) by (rewrite Hp; apply elem_of_cons; by left).
  rewrite (new_timer_expiration 0 w delay c Hwf ltac:(lia) Hd), Hc. unfold ceil_ticks. lia.
Qed.

(** The wheel does not drift: driven with wall-clock times it has, after
    each [tick(now)], made exactly as many ticks as whole resolutions have
    passed since its start, however irregular the calls were. *)
Theorem wheel_does_not_drift (w w' : t C) (start now : Z) (s s' : W) (evs : list (event C)) :
  (forall c s, Forall (fun '(d, _) => d < 2 ^ 63) (exec c s).2) ->
  wf w -> lastTickTime_ w <= now -> now - start < 2 ^ 63 ->
  lastTickTime_ w = start + currentTick_ w * (tickResolution_ w * ms) ->
  tick_at exec w now s = (w', s', evs) -> zlen (pending w) + zlen (added evs) < U64 ->
  currentTick_ w' = (now - start) / (tickResolution_ w * ms) /\
  lastTickTime_ w' = start + currentTick_ w' * (tickResolution_ w' * ms) /\
  lastTickTime_ w' <= now < lastTickTime_ w' + tickResolution_ w' * ms.
Proof.
  intros Hdel Hwf Hle Hb Hinv Hrun Hroom. pose proof (wf_tick _ _ Hwf). pose proof (wf_res _ _ Hwf).
  set (unit := tickResolution_ w * ms) in *. assert (Hu : 0 < unit) by (unfold unit, ms; lia).
  assert (Hlast : start <= lastTickTime_ w) by nia.
  rewrite (tick_at_spec exec w now s) in Hrun by (done || lia). fold unit in Hrun.
  set (k := (now - lastTickTime_ w) / unit) in *.
  assert (Hk : 0 <= k) by (apply Z.div_pos; lia).
  assert (Hkt : currentTick_ w + k = (now - start) / unit).
  { unfold k. rewrite Hinv. replace (now - (start + currentTick_ w * unit))
      with (now - start + - currentTick_ w * unit) by lia. rewrite Z.div_add by lia. lia. }
  assert (Hub : (now - start) / unit < 2 ^ 63) by (apply Z.div_lt_upper_bound; nia).
  pose proof (ticks_spec exec Hdel (Z.to_nat k) w s Hwf ltac:(lia)) as Hs.
  destruct (ticks exec (Z.to_nat k) w s) as [[w2 s2] ev2]; cbn [fst snd] in Hs. simplify_eq.
  destruct (Hs Hroom) as [_ _ _ Tt Tr Tl]. rewrite Z2Nat.id in Tt by lia.
  cbn [currentTick_ lastTickTime_ tickResolution_]. rewrite Tt, Tr, Tl. fold unit.
  split; [done |]. pose proof (Z.div_mod (now - lastTickTime_ w) unit ltac:(lia)) as Hdm.
  pose proof (Z.mod_pos_bound (now - lastTickTime_ w) unit Hu). fold k in Hdm.
  replace (tickResolution_ w * k * ms) with (k * unit) by (unfold unit; lia).
  split; lia.
Qed.

(** A timer can fire before its delay has passed.  [addTimer] counts ticks
    from the wheel's last tick and not from the time of the call, so a timer
    of one resolution added at any moment before the next tick fires at that
    tick, however soon it comes. *)
Theorem timer_can_fire_early (w w1 : t C) (c : C) (tid : Z) (s : W) :
  (forall c s, Forall (fun '(d, _) => d < 2 ^ 63) (exec c s).2) ->
  wf w -> currentTick_ w + 1 < 2 ^ 63 -> tickResolution_ w * ms < 2 ^ 63 ->
  addTimer w (tickResolution_ w) (Some c) = inr (w1, tid) ->
  zlen (pending w) + 1 + zlen (added (tick exec w1 s).2) < U64 ->
  new_timer w (tickResolution_ w) c
    ∈ fired (tick_at exec w1 (lastTickTime_ w + tickResolution_ w * ms) s).2.
Proof.
  intros Hdel Hwf Ht Hms Hadd Hroom. pose proof (wf_res _ _ Hwf).
  pose proof (zlen_nonneg (added (tick exec w1 s).2)).
  destruct (addTimer_spec 0 w (tickResolution_ w) c w1 tid Hwf ltac:(lia) ltac:(lia) ltac:(lia)
              ltac:(lia) Hadd) as (Hw1 & Hp & Hc & Hr & Hl & _).
  assert (Hz : zlen (pending w1) = 1 + zlen (pending w)).
  { unfold zlen. rewrite (Permutation_length Hp). simpl. lia. }
  assert (Hu : 0 < tickResolution_ w * ms) by (unfold ms; lia).
  rewrite tick_at_spec by (done || lia). rewrite Hr, Hl.
  replace (lastTickTime_ w + tickResolution_ w * ms - lastTickTime_ w)
    with (tickResolution_ w * ms) by lia.
  rewrite Z.div_same by lia. change (Z.to_nat 1) with 1%nat.
  pose proof (ticks_spec exec Hdel 1 w1 s Hw1 ltac:(lia)) as Hs.
  assert (Hone : (ticks exec 1 w1 s).2 = (tick exec w1 s).2).
  { cbn [ticks]. destruct (tick exec w1 s) as [[? ?] ?]. cbn. by rewrite app_nil_r. }
  rewrite Hone in Hs. specialize (Hs ltac:(lia)). rewrite <- Hone in Hs.
  destruct (ticks exec 1 w1 s) as [[w2 s2] ev2]; cbn [fst snd] in *.
  apply (fired_iff _ _ _ _ (new_timer w (tickResolution_ w) c) Hs); [rewrite Hp; apply elem_of_cons; by left |].
  rewrite (new_timer_expiration 0 w _ c Hwf) by lia. rewrite Hc.
  unfold ceil_ticks. replace (tickResolution_ w + tickResolution_ w - 1)
    with (tickResolution_ w - 1 + 1 * tickResolution_ w) by lia.
  rewrite Z.div_add, Z.div_small by lia. lia.
Qed.

End Theorems.

(* ------------------------------------------------------------------ *)
(** ** Witnesses: a wheel of 10 ms and 4 slots whose callback 0 adds a timer *)

Definition demo_exec (c : Z) (log : list Z) : list Z * list (Z * Z) :=
  (log ++ [c], if c =? 0 then [(40, 7)] else []).

Lemma demo_delays : forall c s, Forall (fun '(d, _) => d < 2 ^ 63) (demo_exec c s).2.
Proof. intros c s. unfold demo_exec. destruct (c =? 0); repeat constructor. Qed.

Definition demo_wheel : t Z :=
  mk 10 4 [[]; [mk_timer 1 1 0]; []; [mk_timer 2 3 5; mk_timer 3 7 6]] 0 0 4 3.

Lemma demo_wf : wf demo_wheel.
Proof.
  split; [by vm_compute | done | | done | by repeat constructor | done].
  split; [done |]. intros i b Hb.
  do 4 (destruct i as [| i]; [injection Hb as <-; by repeat constructor |]). done.
Qed.

Lemma timers_fire_once_on_time_witness :
  exists w' s' evs, ticks demo_exec 6 demo_wheel [] = (w', s', evs) /\ s' = [0; 5; 7] /\
    pending demo_wheel ++ added evs ≡ₚ fired evs ++ pending w'.
Proof.
  destruct (ticks demo_exec 6 demo_wheel []) as [[w' s'] evs] eqn:E. exists w', s', evs.
  split; [done |]. split; [vm_compute in E; by simplify_eq |].
  apply (timers_fire_once_on_time demo_exec 6 demo_wheel w' [] s' evs demo_delays demo_wf).
  - vm_compute. congruence.
  - done.
  - vm_compute in E. simplify_eq. vm_compute. congruence.
Defined.

Lemma timer_delay_in_ticks_witness :
  exists w1 tid w' s' evs,
    addTimer demo_wheel 25 (Some 9) = inr (w1, tid) /\ ticks demo_exec 3 w1 [] = (w', s', evs) /\
    new_timer demo_wheel 25 9 ∈ fired evs.
Proof.
  destruct (addTimer demo_wheel 25 (Some 9)) as [| [w1 tid]] eqn:Ea; [done |].
  destruct (ticks demo_exec 3 w1 []) as [[w' s'] evs] eqn:E.
  exists w1, tid, w', s', evs. split_and!; try done.
  apply (timer_delay_in_ticks demo_exec 3 demo_wheel w1 w' 25 tid 9 [] s' evs demo_delays demo_wf).
  - vm_compute. congruence.
  - vm_compute. congruence.
  - done.
  - done.
  - vm_compute in Ea. simplify_eq. vm_compute in E. simplify_eq. vm_compute. congruence.
  - vm_compute. congruence.
Defined.

Lemma wheel_does_not_drift_witness :
  exists w' s' evs, tick_at demo_exec demo_wheel 34567890 [] = (w', s', evs) /\
    currentTick_ w' = 34567890 / (10 * ms).
Proof.
  destruct (tick_at demo_exec demo_wheel 34567890 []) as [[w' s'] evs] eqn:E.
  exists w', s', evs. split; [done |].
  apply (wheel_does_not_drift demo_exec demo_wheel w' 0 34567890 [] s' evs demo_delays demo_wf).
  - vm_compute. congruence.
  - vm_compute. congruence.
  - vm_compute. reflexivity.
  - exact E.
  - vm_compute in E. simplify_eq. vm_compute. congruence.
Defined.

Lemma timer_can_fire_early_witness :
  exists w1 tid, addTimer demo_wheel 10 (Some 9) = inr (w1, tid) /\
    new_timer demo_wheel 10 9 ∈ fired (tick_at demo_exec w1 (0 + 10 * ms) []).2.
Proof.
  destruct (addTimer demo_wheel 10 (Some 9)) as [| [w1 tid]] eqn:Ea; [done |].
  exists w1, tid. split; [done |].
  apply (timer_can_fire_early demo_exec demo_wheel w1 9 tid [] demo_delays demo_wf).
  - vm_compute. congruence.
  - vm_compute. congruence.
  - exact Ea.
  - vm_compute in Ea. simplify_eq. vm_compute. congruence.
Defined.

End TimerWheel.
