(* ===== verification/Handle.v ===== *)
(** * Handle: session ids and handles

    Models [engine/include/hypernet/SessionHandle.hpp] and
    [SessionManager::nextSessionId_].  A handle's weak sender reference is the
    worker whose [SessionManager] owns it ([None] for a default handle); what
    sending through it does is modelled with the sessions. *)

From S2P Require Import Prelude.

Module Handle.

Record SessionHandle := mk_handle { id_ : Z; ownerWorkerId_ : Z; sender_ : option Z }.

(** [SessionHandle{}] and [SessionHandle(id)]. *)
Definition null_handle : SessionHandle := mk_handle 0 (-1) None.
Definition handle_of_id (id : Z) : SessionHandle := mk_handle id (-1) None.

Definition isValid (h : SessionHandle) : bool := negb (id_ h =? 0).

Definition ownerWorkerFromId (sid : Z) : Z :=
  i32_of_u32 (u32 (Z.land (Z.shiftr sid 32) 4294967295)).

(** [nextSessionId_]: the id and the new counter. *)
Definition nextSessionId (ownerWorkerId localCounter : Z) : Z * Z :=
  (Z.lor (u64 (Z.shiftl ownerWorkerId 32)) localCounter, u64 (localCounter + 1)).

#[export] Instance SessionHandle_eq_dec : EqDecision SessionHandle.
Proof. solve_decision. Defined.

#[export] Program Instance SessionHandle_countable : Countable SessionHandle :=
  inj_countable' (fun h => (id_ h, ownerWorkerId_ h, sender_ h))
                 (fun '(a, b, c) => mk_handle a b c) _.
Next Obligation. by intros []. Qed.

(** The [n] ids a worker hands out from counter value [k] on. *)
Fixpoint issue (n : nat) (owner k : Z) : list Z :=
  match n with
  | O => []
  | S m => let '(id, k') := nextSessionId owner k in id :: issue m owner k'
  end.

Lemma lor_disjoint_add a b k : 0 <= k -> 0 <= b < 2 ^ k -> Z.lor (Z.shiftl a k) b = a * 2 ^ k + b.
Proof. intros Hk Hb. rewrite Z.shiftl_mul_pow2 by done. by apply lor_low. Qed.

Lemma nextSessionId_small owner k :
  0 <= owner < U32 -> 0 <= k < U32 -> nextSessionId owner k = (owner * U32 + k, k + 1).
Proof.
  intros Ho Hk. unfold nextSessionId.
  assert (Hs : u64 (Z.shiftl owner 32) = Z.shiftl owner 32).
  { apply u64_small. rewrite Z.shiftl_mul_pow2 by lia. lia. }
  rewrite Hs, lor_disjoint_add by lia. f_equal; try lia. apply u64_small. lia.
Qed.

Lemma owner_of_id owner k :
  0 <= owner < 2 ^ 31 -> 0 <= k < U32 -> ownerWorkerFromId (owner * U32 + k) = owner.
Proof.
  intros Ho Hk. unfold ownerWorkerFromId. rewrite Z.shiftr_div_pow2 by lia.
  change (2 ^ 32) with U32. rewrite Z.div_add_l, (Z.div_small k), Z.add_0_r by lia.
  change 4294967295 with (Z.ones 32). rewrite Z.land_ones by lia. unfold u32.
  change (2 ^ 32) with U32. rewrite Z.mod_mod, Z.mod_small by lia. unfold i32_of_u32. by zb_eval.
Qed.

Lemma issue_elem n owner k id :
  0 <= owner < U32 -> 0 <= k -> k + Z.of_nat n <= U32 ->
  id ∈ issue n owner k -> exists j, k <= j < k + Z.of_nat n /\ id = owner * U32 + j.
Proof.
  intros Ho. revert k. induction n as [| n IH]; intros k Hk Hn Hin.
  { by apply not_elem_of_nil in Hin. }
  cbn [issue] in Hin. rewrite nextSessionId_small in Hin by lia.
  apply elem_of_cons in Hin as [-> | Hin]; [exists k; lia |].
  destruct (IH (k + 1)) as (j & ? & ?); [lia | lia | done |]. exists j. lia.
Qed.

Lemma issue_NoDup n owner k :
  0 <= owner < U32 -> 0 <= k -> k + Z.of_nat n <= U32 -> NoDup (issue n owner k).
Proof.
  intros Ho. revert k. induction n as [| n IH]; intros k Hk Hn; [constructor |].
  cbn [issue]. rewrite nextSessionId_small by lia. constructor.
  - intros (j & ? & ?)%issue_elem; lia.
  - apply IH; lia.
Qed.

(** C32: session ids are unique and name their worker.  For the first
    [2^32 - 1] sessions of each worker (the counter starts at 1) ids are
    pairwise distinct, never 0, differ between workers, and
    [ownerWorkerFromId] gives back the worker that issued them. *)
Theorem session_ids_unique (owner1 owner2 : Z) (n1 n2 : nat) :
  0 <= owner1 < 2 ^ 31 -> 0 <= owner2 < 2 ^ 31 ->
  1 + Z.of_nat n1 <= U32 -> 1 + Z.of_nat n2 <= U32 ->
  NoDup (issue n1 owner1 1) /\
  (forall id, id ∈ issue n1 owner1 1 ->
     isValid (handle_of_id id) = true /\ ownerWorkerFromId id = owner1 /\ 0 <= id < U64) /\
  (owner1 <> owner2 -> issue n1 owner1 1 ## issue n2 owner2 1).
Proof.
  intros H1 H2 Hn1 Hn2. split_and!.
  - apply issue_NoDup; lia.
  - intros id (j & ? & ->)%issue_elem; [| lia | lia | lia].
    split_and!; [| apply owner_of_id; lia | nia | nia].
    unfold isValid; simpl. rewrite (proj2 (Z.eqb_neq _ 0)); [done | nia].
  - intros Hne id Hin1 Hin2. destruct (issue_elem n1 owner1 1 id) as (j1 & ? & ->); [lia | lia | lia | done |].
    destruct (issue_elem n2 owner2 1 (owner1 * U32 + j1)) as (j2 & ? & ?); [lia | lia | lia | done |].
    nia.
Qed.

Lemma session_ids_unique_witness :
  NoDup (issue 3 1 1) /\ issue 3 1 1 = [4294967297; 4294967298; 4294967299].
Proof.
  split; [apply (session_ids_unique 1 2 3 3); vm_compute; intuition congruence | by vm_compute].
Defined.

(** After [2^32] sessions of one worker the ids repeat or pass into the
    next worker's range: worker 1's id for counter [2^32 + k] is the id of its
    counter [k], and worker 0's is worker 1's. *)
Theorem session_ids_collide (k : Z) :
  0 <= k < U32 ->
  (nextSessionId 1 (U32 + k)).1 = (nextSessionId 1 k).1 /\
  (nextSessionId 0 (U32 + k)).1 = (nextSessionId 1 k).1.
Proof.
  intros Hk. rewrite !(nextSessionId_small 1 k) by lia. unfold nextSessionId; cbn [fst].
  replace (U32 + k) with (Z.lor (Z.shiftl 1 32) k) by (rewrite lor_disjoint_add; lia).
  change (u64 (Z.shiftl 1 32)) with (Z.shiftl 1 32). change (u64 (Z.shiftl 0 32)) with 0.
  rewrite Z.lor_assoc, Z.lor_diag, Z.lor_0_l, lor_disjoint_add by lia. split; lia.
Qed.

Lemma session_ids_collide_witness : (nextSessionId 0 (U32 + 1)).1 = (nextSessionId 1 1).1.
Proof. apply (session_ids_collide 1). lia. Defined.

End Handle.
