(* ===== verification/SessionRegistry.v ===== *)
(** * SessionRegistry: the sessions and topics of one worker

    Models [hyperapp/core/SessionRegistry.{hpp,cpp}], [SessionContext.hpp] and
    [ConnState.hpp] of [runtime/extensions/app]: the store of sessions, the
    subscription state of each session with its per-scope reference counts,
    and the two inverted indexes (scope to sessions, topic to sessions).
    Hash maps and sets are [gmap] and [gset]; loops over them fold over their
    elements (the result does not depend on the order).  Every public call
    takes the calling worker's id, as [ensureOwnerThread_] reads it; this is
    the build without assertions, where a call from another thread has no
    effect.

    [spec] is the abstract registry, a map from session id to record and set
    of topics; the theorems show that the concrete registry is that map, that
    its indexes never disagree with the subscriptions, and that nothing is
    left behind when sessions end. *)

From S2P Require Import Prelude Handle.
Import Handle.

Module SessionRegistry.

(* ------------------------------------------------------------------ *)
(** ** Data *)

Inductive ConnState := Connected | Handshaked | Authed | Joined | Active | Closing.

#[export] Instance ConnState_eq_dec : EqDecision ConnState.
Proof. solve_decision. Defined.

Definition state_value (s : ConnState) : Z :=
  match s with
  | Connected => 0 | Handshaked => 1 | Authed => 2 | Joined => 3 | Active => 4 | Closing => 5
  end.

Definition stateBit (s : ConnState) : Z := Z.shiftl 1 (state_value s).

Record SessionContext := mk_ctx {
  state : ConnState;
  accountId : Z;
  playerId : Z;
  scope : Z;
  topic : Z
}.

(** [TopicKey{scope, topic}]. *)
Definition TopicKey : Type := Z * Z.

Record StoredSession := mk_stored { handle : SessionHandle; ctx : SessionContext }.

Record SubscriptionState := mk_sub {
  subscriptions : gset TopicKey;
  scopeRefCount : gmap Z Z
}.

Record SubscriptionIndex := mk_index {
  states_ : gmap Z SubscriptionState;
  scopeIndex_ : gmap Z (gset Z);
  topicIndex_ : gmap TopicKey (gset Z)
}.

Record t := mk {
  ownerWorkerId_ : Z;
  store_ : gmap Z StoredSession;
  subs_ : SubscriptionIndex
}.

Definition empty_index : SubscriptionIndex := mk_index ∅ ∅ ∅.
Definition create (ownerWorkerId : Z) : t := mk ownerWorkerId ∅ empty_index.

(* ------------------------------------------------------------------ *)
(** ** Indexes *)

Section Index.
Context `{Countable K}.

Definition eraseFromIndex_ (idx : gmap K (gset Z)) (k : K) (sid : Z) : gmap K (gset Z) :=
  match idx !! k with
  | None => idx
  | Some members =>
      let members' := members ∖ {[sid]} in
      if decide (members' = ∅) then delete k idx else <[k := members']> idx
  end.

(** [idx[k].insert(sid)]. *)
Definition insertInIndex (idx : gmap K (gset Z)) (k : K) (sid : Z) : gmap K (gset Z) :=
  <[k := {[sid]} ∪ default ∅ (idx !! k)]> idx.

End Index.

Definition addToTopic_ (x : SubscriptionIndex) (sid : Z) (key : TopicKey) : SubscriptionIndex :=
  mk_index (states_ x) (scopeIndex_ x) (insertInIndex (topicIndex_ x) key sid).
Definition removeFromTopic_ (x : SubscriptionIndex) (sid : Z) (key : TopicKey) : SubscriptionIndex :=
  mk_index (states_ x) (scopeIndex_ x) (eraseFromIndex_ (topicIndex_ x) key sid).
Definition addToScope_ (x : SubscriptionIndex) (sid w : Z) : SubscriptionIndex :=
  mk_index (states_ x) (insertInIndex (scopeIndex_ x) w sid) (topicIndex_ x).
Definition removeFromScope_ (x : SubscriptionIndex) (sid w : Z) : SubscriptionIndex :=
  mk_index (states_ x) (eraseFromIndex_ (scopeIndex_ x) w sid) (topicIndex_ x).

Definition set_state (x : SubscriptionIndex) (sid : Z) (st : SubscriptionState) : SubscriptionIndex :=
  mk_index (<[sid := st]> (states_ x)) (scopeIndex_ x) (topicIndex_ x).
Definition erase_state (x : SubscriptionIndex) (sid : Z) : SubscriptionIndex :=
  mk_index (delete sid (states_ x)) (scopeIndex_ x) (topicIndex_ x).

(** [SubscriptionIndex::subscribe]. *)
Definition index_subscribe (x : SubscriptionIndex) (sid w c : Z) : SubscriptionIndex * bool :=
  let key := (w, c) in
  let st := default (mk_sub ∅ ∅) (states_ x !! sid) in
  if decide (key ∈ subscriptions st) then (set_state x sid st, false) else
  let x1 := addToTopic_ x sid key in
  let cnt := default 0 (scopeRefCount st !! w) in
  let x2 := if cnt =? 0 then addToScope_ x1 sid w else x1 in
  let st' := mk_sub ({[key]} ∪ subscriptions st) (<[w := size_add cnt 1]> (scopeRefCount st)) in
  (set_state x2 sid st', true).

(** [SubscriptionIndex::unsubscribe]. *)
Definition index_unsubscribe (x : SubscriptionIndex) (sid w c : Z) : SubscriptionIndex * bool :=
  match states_ x !! sid with
  | None => (x, false)
  | Some st =>
      let key := (w, c) in
      if decide (key ∈ subscriptions st) then
        let subs' := subscriptions st ∖ {[key]} in
        let x1 := removeFromTopic_ x sid key in
        let '(x2, rc') :=
          match scopeRefCount st !! w with
          | None => (x1, scopeRefCount st)
          | Some n =>
              let n' := if 0 <? n then size_sub n 1 else n in
              if n' =? 0
              then (removeFromScope_ x1 sid w, delete w (scopeRefCount st))
              else (x1, <[w := n']> (scopeRefCount st))
          end in
        if decide (subs' = ∅)
        then (erase_state (fold_right (fun sw y => removeFromScope_ y sid sw) x2
                             (map_to_list rc').*1) sid, true)
        else (set_state x2 sid (mk_sub subs' rc'), true)
      else (x, false)
  end.

(** [SubscriptionIndex::clearAll]. *)
Definition clearAll (x : SubscriptionIndex) (sid : Z) : SubscriptionIndex :=
  match states_ x !! sid with
  | None => x
  | Some st =>
      let x1 := fold_right (fun key y => removeFromTopic_ y sid key) x (elements (subscriptions st)) in
      let x2 := fold_right (fun w y => removeFromScope_ y sid w) x1 (map_to_list (scopeRefCount st)).*1 in
      erase_state x2 sid
  end.

Definition contains (x : SubscriptionIndex) (sid : Z) (key : TopicKey) : bool :=
  match states_ x !! sid with
  | None => false
  | Some st => bool_decide (key ∈ subscriptions st)
  end.

Definition index_empty (x : SubscriptionIndex) (sid : Z) : bool :=
  match states_ x !! sid with
  | None => true
  | Some st => bool_decide (subscriptions st = ∅)
  end.

Definition tryGetScopeMembers (x : SubscriptionIndex) (w : Z) : option (gset Z) := scopeIndex_ x !! w.
Definition tryGetTopicMembers (x : SubscriptionIndex) (key : TopicKey) : option (gset Z) :=
  topicIndex_ x !! key.

(* ------------------------------------------------------------------ *)
(** ** The registry *)

Definition set_store (r : t) (s : gmap Z StoredSession) : t := mk (ownerWorkerId_ r) s (subs_ r).
Definition set_subs (r : t) (x : SubscriptionIndex) : t := mk (ownerWorkerId_ r) (store_ r) x.

(** [rec->ctx = ...] through the pointer [store_.find] returned. *)
Definition set_ctx (r : t) (sid : Z) (rec : StoredSession) (c : SessionContext) : t :=
  set_store r (<[sid := mk_stored (handle rec) c]> (store_ r)).

Definition with_topic (c : SessionContext) (w tp : Z) : SessionContext :=
  mk_ctx (state c) (accountId c) (playerId c) w tp.

Definition ensureOwnerThread_ (cw : Z) (r : t) : bool :=
  (ownerWorkerId_ r <? 0) || (cw =? ownerWorkerId_ r).

Definition subscribe (cw : Z) (r : t) (sid w c : Z) : t * bool :=
  if negb (ensureOwnerThread_ cw r) then (r, false) else
  match store_ r !! sid with
  | None => (r, false)
  | Some _ => let '(x, b) := index_subscribe (subs_ r) sid w c in (set_subs r x, b)
  end.

Definition add (cw : Z) (r : t) (session : SessionHandle) (w c : Z) : t :=
  if negb (ensureOwnerThread_ cw r) then r else
  let sid := id_ session in
  let r1 := set_store r (<[sid := mk_stored session (mk_ctx Connected 0 0 w c)]> (store_ r)) in
  if negb (w =? 0) && negb (c =? 0) then (subscribe cw r1 sid w c).1 else r1.

Definition remove (cw : Z) (r : t) (sid : Z) : t :=
  if negb (ensureOwnerThread_ cw r) then r else
  match store_ r !! sid with
  | None => r
  | Some _ => mk (ownerWorkerId_ r) (delete sid (store_ r)) (clearAll (subs_ r) sid)
  end.

Definition tryGetHandle (cw : Z) (r : t) (sid : Z) : option SessionHandle :=
  if negb (ensureOwnerThread_ cw r) then None else
  match store_ r !! sid with
  | None => None
  | Some rec => if isValid (handle rec) then Some (handle rec) else None
  end.

Definition tryGetContext (cw : Z) (r : t) (sid : Z) : option SessionContext :=
  if negb (ensureOwnerThread_ cw r) then None else ctx <$> store_ r !! sid.

Definition setState (cw : Z) (r : t) (sid : Z) (st : ConnState) : t :=
  if negb (ensureOwnerThread_ cw r) then r else
  match store_ r !! sid with
  | None => r
  | Some rec =>
      let c := ctx rec in
      set_ctx r sid rec (mk_ctx st (accountId c) (playerId c) (scope c) (topic c))
  end.

Definition setAuth (cw : Z) (r : t) (sid aid pid : Z) : t :=
  if negb (ensureOwnerThread_ cw r) then r else
  match store_ r !! sid with
  | None => r
  | Some rec =>
      let c := ctx rec in set_ctx r sid rec (mk_ctx (state c) aid pid (scope c) (topic c))
  end.

Definition unsubscribe (cw : Z) (r : t) (sid w c : Z) : t * bool :=
  if negb (ensureOwnerThread_ cw r) then (r, false) else
  match store_ r !! sid with
  | None => (r, false)
  | Some rec =>
      let '(x, b) := index_unsubscribe (subs_ r) sid w c in
      if negb b then (set_subs r x, false) else
      let c1 := if (scope (ctx rec) =? w) && (topic (ctx rec) =? c)
                then with_topic (ctx rec) 0 0 else ctx rec in
      let c2 := if index_empty x sid then with_topic c1 0 0 else c1 in
      (set_ctx (set_subs r x) sid rec c2, true)
  end.

Definition unsubscribeAll (cw : Z) (r : t) (sid : Z) : t * bool :=
  if negb (ensureOwnerThread_ cw r) then (r, false) else
  match store_ r !! sid with
  | None => (r, false)
  | Some rec =>
      (set_ctx (set_subs r (clearAll (subs_ r) sid)) sid rec (with_topic (ctx rec) 0 0), true)
  end.

Definition setPrimaryTopic (cw : Z) (r : t) (sid w c : Z) : t * bool :=
  if negb (ensureOwnerThread_ cw r) then (r, false) else
  match store_ r !! sid with
  | None => (r, false)
  | Some rec =>
      if (w =? 0) && (c =? 0) then (set_ctx r sid rec (with_topic (ctx rec) 0 0), true) else
      if negb (contains (subs_ r) sid (w, c)) then (r, false) else
      (set_ctx r sid rec (with_topic (ctx rec) w c), true)
  end.

(** The result also carries the old scope and topic. *)
Definition moveToTopic (cw : Z) (r : t) (sid newW newC : Z) : t * bool * (Z * Z) :=
  if negb (ensureOwnerThread_ cw r) then (r, false, (0, 0)) else
  match store_ r !! sid with
  | None => (r, false, (0, 0))
  | Some rec =>
      let old := (scope (ctx rec), topic (ctx rec)) in
      let r1 := set_ctx (set_subs r (clearAll (subs_ r) sid)) sid rec (with_topic (ctx rec) 0 0) in
      let r2 := if negb (newW =? 0) && negb (newC =? 0)
                then (setPrimaryTopic cw (subscribe cw r1 sid newW newC).1 sid newW newC).1
                else r1 in
      (r2, true, old)
  end.

(** The handles of some ids, without [exceptSid] and without dead entries. *)
Definition collect (r : t) (ids : list Z) (exceptSid : Z) : list SessionHandle :=
  omap (fun sid =>
    if sid =? exceptSid then None else
    match store_ r !! sid with
    | None => None
    | Some rec => if isValid (handle rec) then Some (handle rec) else None
    end) ids.

Definition snapshotAll (cw : Z) (r : t) (exceptSid : Z) : list SessionHandle :=
  if negb (ensureOwnerThread_ cw r) then [] else
  collect r (map_to_list (store_ r)).*1 exceptSid.

Definition snapshotScope (cw : Z) (r : t) (w exceptSid : Z) : list SessionHandle :=
  if negb (ensureOwnerThread_ cw r) then [] else
  match tryGetScopeMembers (subs_ r) w with
  | None => []
  | Some members => collect r (elements members) exceptSid
  end.

Definition snapshotTopic (cw : Z) (r : t) (w c exceptSid : Z) : list SessionHandle :=
  if negb (ensureOwnerThread_ cw r) then [] else
  match tryGetTopicMembers (subs_ r) (w, c) with
  | None => []
  | Some members => collect r (elements members) exceptSid
  end.

(* ------------------------------------------------------------------ *)
(** ** Index invariant *)

Definition members `{Countable K} (idx : gmap K (gset Z)) (k : K) : gset Z := default ∅ (idx !! k).

Definition subs_of (x : SubscriptionIndex) (sid : Z) : gset TopicKey :=
  default ∅ (subscriptions <$> states_ x !! sid).

(** Subscriptions of a session in one scope. *)
Definition in_scope (w : Z) (S : gset TopicKey) : gset TopicKey := filter (fun k => k.1 = w) S.
Definition scope_count (w : Z) (S : gset TopicKey) : Z := Z.of_nat (size (in_scope w S)).

Definition no_empty `{Countable K} (idx : gmap K (gset Z)) : Prop :=
  forall k m, idx !! k = Some m -> m <> ∅.

Record state_ok (st : SubscriptionState) : Prop := {
  so_nonempty : subscriptions st <> ∅;
  so_count : forall w, default 0 (scopeRefCount st !! w) = scope_count w (subscriptions st);
  so_pos : forall w n, scopeRefCount st !! w = Some n -> 0 < n
}.

Record index_ok (x : SubscriptionIndex) : Prop := {
  io_topic : forall key sid, sid ∈ members (topicIndex_ x) key <-> key ∈ subs_of x sid;
  io_scope : forall w sid, sid ∈ members (scopeIndex_ x) w <-> exists c, (w, c) ∈ subs_of x sid;
  io_topic_ne : no_empty (topicIndex_ x);
  io_scope_ne : no_empty (scopeIndex_ x);
  io_state : forall sid st, states_ x !! sid = Some st -> state_ok st;
  io_range : forall sid key, key ∈ subs_of x sid -> 0 <= key.2 < U32
}.

Section IndexLemmas.
Context `{Countable K}.
Implicit Types idx : gmap K (gset Z).

Lemma members_erase idx k k' sid :
  members (eraseFromIndex_ idx k sid) k' =
  if decide (k' = k) then members idx k' ∖ {[sid]} else members idx k'.
Proof.
  unfold members, eraseFromIndex_. destruct (idx !! k) as [m |] eqn:E.
  - destruct (decide (m ∖ {[sid]} = ∅)) as [He | He], (decide (k' = k)) as [-> | Hne];
      rewrite ?lookup_delete_eq, ?lookup_insert_eq, ?E; simpl; try done.
    + by rewrite lookup_delete_ne.
    + by rewrite lookup_insert_ne.
  - destruct (decide (k' = k)) as [-> |]; [| done]. rewrite E. simpl. set_solver.
Qed.

Lemma members_insert idx k k' sid :
  members (insertInIndex idx k sid) k' =
  if decide (k' = k) then {[sid]} ∪ members idx k' else members idx k'.
Proof.
  unfold members, insertInIndex. destruct (decide (k' = k)) as [-> | Hne].
  - by rewrite lookup_insert_eq.
  - by rewrite lookup_insert_ne.
Qed.

Lemma no_empty_erase idx k sid : no_empty idx -> no_empty (eraseFromIndex_ idx k sid).
Proof.
  intros Hn k' m'. unfold eraseFromIndex_. destruct (idx !! k) as [m |] eqn:E; [| apply Hn].
  destruct (decide (m ∖ {[sid]} = ∅)) as [He | He].
  - rewrite lookup_delete_Some. intros [_ Hm]. by eapply Hn.
  - rewrite lookup_insert_Some. intros [[<- <-] | [_ Hm]]; [done |]. by eapply Hn.
Qed.

Lemma no_empty_insert idx k sid : no_empty idx -> no_empty (insertInIndex idx k sid).
Proof.
  intros Hn k' m'. unfold insertInIndex. rewrite lookup_insert_Some.
  intros [[<- <-] | [_ Hm]]; [set_solver |]. by eapply Hn.
Qed.

(** Removing a session from several entries. *)
Lemma members_erase_all (ks : list K) idx k' sid :
  members (fold_right (fun k y => eraseFromIndex_ y k sid) idx ks) k' =
  if decide (k' ∈ ks) then members idx k' ∖ {[sid]} else members idx k'.
Proof.
  induction ks as [| k ks IH]; cbn [fold_right].
  - destruct (decide (k' ∈ [])) as [Hin | _]; [by apply not_elem_of_nil in Hin | done].
  - rewrite members_erase, IH. pose proof (elem_of_cons ks k' k) as Hc.
    destruct (decide (k' = k)), (decide (k' ∈ ks)), (decide (k' ∈ k :: ks)); try tauto.
    set_solver.
Qed.

Lemma no_empty_erase_all (ks : list K) idx sid :
  no_empty idx -> no_empty (fold_right (fun k y => eraseFromIndex_ y k sid) idx ks).
Proof. intros Hn. induction ks; [done |]. by apply no_empty_erase. Qed.

End IndexLemmas.

Section Counts.
Implicit Types S : gset TopicKey.

Lemma in_scope_add w w' c S :
  in_scope w' ({[(w, c)]} ∪ S) = if decide (w' = w) then {[(w, c)]} ∪ in_scope w' S else in_scope w' S.
Proof. unfold in_scope. destruct (decide (w' = w)) as [-> |]; set_solver. Qed.

Lemma scope_count_add w w' c S :
  (w, c) ∉ S ->
  scope_count w' ({[(w, c)]} ∪ S) = if decide (w' = w) then scope_count w' S + 1 else scope_count w' S.
Proof.
  intros Hn. unfold scope_count. rewrite in_scope_add. destruct (decide (w' = w)) as [-> |]; [| done].
  rewrite size_union by (unfold in_scope; set_solver). rewrite size_singleton. lia.
Qed.

Lemma scope_count_remove w w' c S :
  (w, c) ∈ S ->
  scope_count w' (S ∖ {[(w, c)]}) = if decide (w' = w) then scope_count w' S - 1 else scope_count w' S.
Proof.
  intros Hin. assert (HS : S = {[(w, c)]} ∪ (S ∖ {[(w, c)]})) by (apply union_difference_L; set_solver).
  pose proof (scope_count_add w w' c (S ∖ {[(w, c)]})) as Hc. rewrite <- HS in Hc.
  rewrite Hc by set_solver. destruct (decide (w' = w)); lia.
Qed.

Lemma in_scope_nonempty w S : in_scope w S <> ∅ <-> exists c, (w, c) ∈ S.
Proof.
  split.
  - intros Hne. apply set_choose_L in Hne as [[w' c] Hc]. apply elem_of_filter in Hc as [Hw Hc].
    exists c. by simpl in Hw; subst.
  - intros [c Hc] He. assert (Hin : (w, c) ∈ in_scope w S) by (by apply elem_of_filter).
    rewrite He in Hin. by apply elem_of_empty in Hin.
Qed.

Lemma scope_count_pos w S : 0 < scope_count w S <-> exists c, (w, c) ∈ S.
Proof.
  rewrite <- in_scope_nonempty. unfold scope_count. split.
  - intros Hp He. rewrite He, size_empty in Hp. lia.
  - intros Hne. assert (size (in_scope w S) <> 0%nat); [| lia].
    intros Hz. apply size_empty_inv in Hz. by apply leibniz_equiv in Hz.
Qed.

(** A scope has at most [2^32] topics, so the reference counts cannot
    overflow. *)
Lemma scope_count_bound w S :
  (forall key, key ∈ S -> 0 <= key.2 < U32) -> 0 <= scope_count w S <= U32.
Proof.
  intros Hr. split; [unfold scope_count; lia |].
  assert (Hsub : in_scope w S ⊆ list_to_set (pair w <$> seqZ 0 U32)).
  { intros [w' c] Hin. unfold in_scope in Hin. apply elem_of_filter in Hin as [Hw HS]. simpl in Hw. subst.
    apply elem_of_list_to_set, list_elem_of_fmap. exists c. split; [done |].
    apply elem_of_seqZ. specialize (Hr _ HS). simpl in Hr. lia. }
  apply subseteq_size in Hsub. unfold scope_count.
  rewrite size_list_to_set in Hsub.
  - rewrite length_fmap, length_seqZ in Hsub. lia.
  - apply NoDup_fmap_2; [intros ? ? [=]; done | apply NoDup_seqZ].
Qed.

End Counts.

Section IndexOps.
Implicit Types (x : SubscriptionIndex) (sid w c : Z).

Lemma subs_of_insert (m : gmap Z SubscriptionState) a b sid st s :
  subs_of (mk_index (<[sid := st]> m) a b) s =
  if decide (s = sid) then subscriptions st else default ∅ (subscriptions <$> m !! s).
Proof.
  unfold subs_of; simpl. destruct (decide (s = sid)) as [-> |].
  - by rewrite lookup_insert_eq.
  - by rewrite lookup_insert_ne.
Qed.

Lemma subs_of_delete (m : gmap Z SubscriptionState) a b sid s :
  subs_of (mk_index (delete sid m) a b) s =
  if decide (s = sid) then ∅ else default ∅ (subscriptions <$> m !! s).
Proof.
  unfold subs_of; simpl. destruct (decide (s = sid)) as [-> |].
  - by rewrite lookup_delete_eq.
  - by rewrite lookup_delete_ne.
Qed.

Lemma subs_of_Some x sid st : states_ x !! sid = Some st -> subs_of x sid = subscriptions st.
Proof. intros E. unfold subs_of. by rewrite E. Qed.

Lemma set_state_id x sid st : states_ x !! sid = Some st -> set_state x sid st = x.
Proof. intros E. unfold set_state. rewrite insert_id by done. by destruct x. Qed.

(** The subscription state [subscribe] works on. *)
Lemma lazy_state x sid :
  index_ok x ->
  let st := default (mk_sub ∅ ∅) (states_ x !! sid) in
  subs_of x sid = subscriptions st /\
  (forall w, default 0 (scopeRefCount st !! w) = scope_count w (subscriptions st)) /\
  (forall w n, scopeRefCount st !! w = Some n -> 0 < n).
Proof.
  intros H st. unfold subs_of, st. destruct (states_ x !! sid) as [st0 |] eqn:E; simpl.
  - destruct (io_state x H sid st0 E). split_and!; auto.
  - split_and!; [done | |]; intros w.
    + rewrite lookup_empty. simpl. unfold scope_count.
      replace (in_scope w ∅) with (∅ : gset TopicKey) by (unfold in_scope; set_solver). done.
    + by rewrite lookup_empty.
Qed.

(** The removal loops, index by index. *)
Lemma fold_topic x sid keys :
  fold_right (fun key y => removeFromTopic_ y sid key) x keys =
  mk_index (states_ x) (scopeIndex_ x)
    (fold_right (fun k y => eraseFromIndex_ y k sid) (topicIndex_ x) keys).
Proof. induction keys as [| k keys IH]; simpl; [by destruct x | by rewrite IH]. Qed.

Lemma fold_scope x sid ws :
  fold_right (fun w y => removeFromScope_ y sid w) x ws =
  mk_index (states_ x)
    (fold_right (fun k y => eraseFromIndex_ y k sid) (scopeIndex_ x) ws) (topicIndex_ x).
Proof. induction ws as [| w ws IH]; simpl; [by destruct x | by rewrite IH]. Qed.

(** The reference counts have exactly the scopes of the subscriptions. *)
Lemma scope_keys st w :
  state_ok st ->
  w ∈ (map_to_list (scopeRefCount st)).*1 <-> exists c, (w, c) ∈ subscriptions st.
Proof.
  intros [_ Hcnt Hpos]. rewrite <- scope_count_pos, <- Hcnt, list_elem_of_fmap. split.
  - intros ([w' n] & -> & Hin%elem_of_map_to_list). simpl. rewrite Hin. simpl. by eapply Hpos.
  - intros Hp. destruct (scopeRefCount st !! w) as [n |] eqn:E; [| simpl in Hp; lia].
    exists (w, n). split; [done |]. by apply elem_of_map_to_list.
Qed.

(** A change of one session's subscriptions to [S'] keeps the invariant when
    both indexes follow it. *)
Lemma index_ok_update x x' (sid : Z) (S' : gset TopicKey) :
  index_ok x ->
  (forall s, subs_of x' s = if decide (s = sid) then S' else subs_of x s) ->
  (forall key s, s ∈ members (topicIndex_ x') key <->
     if decide (s = sid) then key ∈ S' else s ∈ members (topicIndex_ x) key) ->
  (forall w s, s ∈ members (scopeIndex_ x') w <->
     if decide (s = sid) then exists c, (w, c) ∈ S' else s ∈ members (scopeIndex_ x) w) ->
  no_empty (topicIndex_ x') -> no_empty (scopeIndex_ x') ->
  (forall s st, states_ x' !! s = Some st -> s <> sid -> states_ x !! s = Some st) ->
  (forall st, states_ x' !! sid = Some st -> state_ok st) ->
  (forall key, key ∈ S' -> 0 <= key.2 < U32) ->
  index_ok x'.
Proof.
  intros H Hsub Htop Hsc Htn Hsn Hst Hsid Hr. split; try done.
  - intros key s. rewrite Htop, Hsub. destruct (decide (s = sid)); [done | apply (io_topic x H)].
  - intros w s. rewrite Hsc, Hsub. destruct (decide (s = sid)); [done | apply (io_scope x H)].
  - intros s st E. destruct (decide (s = sid)) as [-> | Hne]; [by apply Hsid |].
    by eapply (io_state x H), Hst.
  - intros s key. rewrite Hsub. destruct (decide (s = sid)); [apply Hr | apply (io_range x H)].
Qed.

(** The counts after one more subscription. *)
Lemma state_ok_add st w c :
  ~ (w, c) ∈ subscriptions st ->
  (forall w', default 0 (scopeRefCount st !! w') = scope_count w' (subscriptions st)) ->
  (forall w' n, scopeRefCount st !! w' = Some n -> 0 < n) ->
  0 <= default 0 (scopeRefCount st !! w) <= U32 ->
  state_ok (mk_sub ({[(w, c)]} ∪ subscriptions st)
                   (<[w := size_add (default 0 (scopeRefCount st !! w)) 1]> (scopeRefCount st))).
Proof.
  intros Hin Hcnt Hpos Hr. rewrite size_add_small by lia.
  split; cbn [subscriptions scopeRefCount]; [set_solver | |].
  - intros w'. rewrite scope_count_add by done. destruct (decide (w' = w)) as [-> | Hne].
    + rewrite lookup_insert_eq. simpl. by rewrite Hcnt.
    + by rewrite lookup_insert_ne, Hcnt by done.
  - intros w' n. rewrite lookup_insert_Some. intros [[<- <-] | [_ E]]; [lia |]. by eapply Hpos.
Qed.

(** [addToScope_] is skipped only for a session that is a member already. *)
Lemma scope_members_add x sid w (cnt : Z) :
  index_ok x -> cnt = scope_count w (subs_of x sid) ->
  forall w' s, s ∈ members (if cnt =? 0 then insertInIndex (scopeIndex_ x) w sid else scopeIndex_ x) w'
    <-> (s = sid /\ w' = w) \/ s ∈ members (scopeIndex_ x) w'.
Proof.
  intros H Hc w' s. destruct (Z.eqb_spec cnt 0) as [Hz | Hz].
  - rewrite members_insert. destruct (decide (w' = w)); set_solver.
  - split; [tauto |]. intros [[-> ->] | ?]; [| done].
    apply (io_scope x H), scope_count_pos. unfold scope_count in *. lia.
Qed.

Lemma index_subscribe_spec x sid w c :
  index_ok x -> 0 <= c < U32 ->
  let '(x', b) := index_subscribe x sid w c in
  index_ok x' /\ b = bool_decide (~ (w, c) ∈ subs_of x sid) /\
  forall s, subs_of x' s = if decide (s = sid) then {[(w, c)]} ∪ subs_of x s else subs_of x s.
Proof.
  intros H Hc. unfold index_subscribe. pose proof (lazy_state x sid H) as (Hsub & Hcnt & Hpos).
  set (st := default (mk_sub ∅ ∅) (states_ x !! sid)) in *.
  destruct (decide ((w, c) ∈ subscriptions st)) as [Hin | Hin].
  - assert (Hst : states_ x !! sid = Some st).
    { unfold st in *. destruct (states_ x !! sid); [done |]. simpl in Hin. set_solver. }
    rewrite set_state_id by done. split; [done |]. split.
    + symmetry. apply bool_decide_eq_false. by rewrite Hsub; intros Hf; apply Hf.
    + intros s. destruct (decide (s = sid)) as [-> |]; [| done]. rewrite Hsub. set_solver.
  - set (cnt := default 0 (scopeRefCount st !! w)).
    assert (Hrange : 0 <= cnt <= U32).
    { unfold cnt. rewrite Hcnt. apply scope_count_bound. rewrite <- Hsub. apply (io_range x H). }
    set (x2 := if cnt =? 0 then _ else _). set (st' := mk_sub _ _). set (x' := set_state x2 sid st').
    assert (Hx' : x' = mk_index (<[sid := st']> (states_ x))
      (if cnt =? 0 then insertInIndex (scopeIndex_ x) w sid else scopeIndex_ x)
      (insertInIndex (topicIndex_ x) (w, c) sid)).
    { unfold x', x2. by destruct (cnt =? 0). }
    assert (Hsubs : forall s, subs_of x' s =
              if decide (s = sid) then {[(w, c)]} ∪ subs_of x sid else subs_of x s).
    { intros s. rewrite Hx', subs_of_insert, Hsub. done. }
    split_and!.
    + apply (index_ok_update x x' sid _ H Hsubs); rewrite ?Hx'; cbn [topicIndex_ scopeIndex_ states_].
      * intros key s. rewrite members_insert. pose proof (io_topic x H key s).
        destruct (decide (key = (w, c))), (decide (s = sid)); set_solver.
      * intros w' s. rewrite (scope_members_add x sid w cnt H) by (unfold cnt; by rewrite Hcnt, Hsub).
        pose proof (io_scope x H w' s). destruct (decide (s = sid)); set_solver.
      * apply no_empty_insert, H.
      * destruct (cnt =? 0); [apply no_empty_insert |]; apply H.
      * intros s st0 E Hne. by rewrite lookup_insert_ne in E.
      * intros st0. rewrite lookup_insert_eq. intros [= <-]. by apply state_ok_add.
      * intros key. rewrite elem_of_union, elem_of_singleton. intros [-> | Hk]; [done |].
        by apply (io_range x H sid).
    + symmetry. apply bool_decide_eq_true. by rewrite Hsub.
    + intros s. rewrite Hsubs. by destruct (decide (s = sid)) as [-> |].
Qed.

(** [clearAll] forgets a session completely. *)
Lemma clearAll_spec x sid :
  index_ok x ->
  index_ok (clearAll x sid) /\ states_ (clearAll x sid) !! sid = None /\
  forall s, subs_of (clearAll x sid) s = if decide (s = sid) then ∅ else subs_of x s.
Proof.
  intros H. unfold clearAll. destruct (states_ x !! sid) as [st |] eqn:E.
  2: { split_and!; [done | done |]. intros s. destruct (decide (s = sid)) as [-> |]; [| done].
       unfold subs_of. by rewrite E. }
  set (x' := erase_state _ sid).
  assert (Hx' : x' = mk_index (delete sid (states_ x))
    (fold_right (fun k y => eraseFromIndex_ y k sid) (scopeIndex_ x) (map_to_list (scopeRefCount st)).*1)
    (fold_right (fun k y => eraseFromIndex_ y k sid) (topicIndex_ x) (elements (subscriptions st)))).
  { unfold x'. rewrite fold_scope, fold_topic. done. }
  assert (Hsubs : forall s, subs_of x' s = if decide (s = sid) then ∅ else subs_of x s).
  { intros s. by rewrite Hx', subs_of_delete. }
  split_and!; [| by rewrite Hx'; apply lookup_delete_eq | done].
  apply (index_ok_update x x' sid ∅ H); [done | ..]; rewrite ?Hx'; cbn [topicIndex_ scopeIndex_ states_].
  - intros key s. rewrite members_erase_all. pose proof (io_topic x H key s) as Ht.
    pose proof (subs_of_Some x sid st E).
    destruct (decide (s = sid)) as [-> |], (decide (key ∈ elements (subscriptions st))) as [Hk | Hk];
      rewrite elem_of_elements in Hk; set_solver.
  - intros w s. rewrite members_erase_all. pose proof (io_scope x H w s) as Hs.
    assert (Hw : w ∈ (map_to_list (scopeRefCount st)).*1 <-> exists c, (w, c) ∈ subs_of x sid)
      by (rewrite (subs_of_Some x sid st E); by apply scope_keys, (io_state x H sid)).
    destruct (decide (s = sid)) as [-> |], (decide (w ∈ (map_to_list (scopeRefCount st)).*1)); set_solver.
  - apply no_empty_erase_all, H.
  - apply no_empty_erase_all, H.
  - intros s st0 Hs Hne. by rewrite lookup_delete_ne in Hs.
  - intros st0. by rewrite lookup_delete_eq.
  - set_solver.
Qed.

(** The counts after one subscription less. *)
Lemma state_ok_remove st w c (rc' : gmap Z Z) :
  state_ok st -> (w, c) ∈ subscriptions st ->
  (forall w', rc' !! w' = if decide (w' = w)
     then (if scope_count w (subscriptions st) - 1 =? 0 then None
           else Some (scope_count w (subscriptions st) - 1))
     else scopeRefCount st !! w') ->
  subscriptions st ∖ {[(w, c)]} <> ∅ ->
  state_ok (mk_sub (subscriptions st ∖ {[(w, c)]}) rc').
Proof.
  intros [_ Hcnt Hpos] Hin Hrc Hne. split; cbn [subscriptions scopeRefCount]; [done | |].
  - intros w'. rewrite Hrc, scope_count_remove by done. destruct (decide (w' = w)) as [-> |]; [| done].
    destruct (Z.eqb_spec (scope_count w (subscriptions st) - 1) 0); simpl; lia.
  - intros w' n. rewrite Hrc. destruct (decide (w' = w)) as [-> |]; [| apply Hpos].
    assert (0 < scope_count w (subscriptions st)) by (apply scope_count_pos; eauto).
    destruct (Z.eqb_spec (scope_count w (subscriptions st) - 1) 0); intros [= <-]. lia.
Qed.

(** The scope bookkeeping of [unsubscribe]: the entry is dropped exactly when
    the last topic of the scope is. *)
Lemma unsubscribe_scope st w c :
  state_ok st -> (w, c) ∈ subscriptions st ->
  (forall key, key ∈ subscriptions st -> 0 <= key.2 < U32) ->
  exists n, scopeRefCount st !! w = Some n /\ n = scope_count w (subscriptions st) /\ 0 < n <= U32.
Proof.
  intros [_ Hcnt Hpos] Hin Hr. assert (Hp : 0 < scope_count w (subscriptions st))
    by (apply scope_count_pos; eauto).
  pose proof (scope_count_bound w (subscriptions st) Hr). rewrite <- Hcnt in *.
  destruct (scopeRefCount st !! w) as [n |]; simpl in *; [| lia].
  exists n. split_and!; (done || lia).
Qed.

(** Scope membership follows when a scope is left with its last topic. *)
Lemma unsubscribe_members x sid w c (S : gset TopicKey) n w' s :
  index_ok x -> subs_of x sid = S -> (w, c) ∈ S -> n = scope_count w S ->
  s ∈ members (if n - 1 =? 0 then eraseFromIndex_ (scopeIndex_ x) w sid else scopeIndex_ x) w' <->
  if decide (s = sid) then exists c', (w', c') ∈ S ∖ {[(w, c)]} else s ∈ members (scopeIndex_ x) w'.
Proof.
  intros H HS Hin Hn. pose proof (io_scope x H w' s) as Hs.
  pose proof (scope_count_remove w w' c S Hin) as Hrem.
  pose proof (scope_count_pos w' (S ∖ {[(w, c)]})) as Hp1. pose proof (scope_count_pos w' S) as Hp2.
  destruct (decide (s = sid)) as [-> | Hne].
  - rewrite <- Hp1, Hrem. rewrite HS, <- Hp2 in Hs.
    destruct (Z.eqb_spec (n - 1) 0), (decide (w' = w)) as [-> |]; rewrite ?members_erase, ?decide_True, ?decide_False by done.
    + rewrite elem_of_difference, elem_of_singleton. lia.
    + done.
    + rewrite Hs. lia.
    + done.
  - destruct (n - 1 =? 0); [| done]. rewrite members_erase. destruct (decide (w' = w)); [| done]. set_solver.
Qed.

(** A session that is not subscribed: nothing to do. *)
Lemma unsubscribe_absent x sid w c : index_ok x -> (w, c) ∉ subs_of x sid ->
  index_ok x /\ false = bool_decide ((w, c) ∈ subs_of x sid) /\
  forall s, subs_of x s = if decide (s = sid) then subs_of x s ∖ {[(w, c)]} else subs_of x s.
Proof.
  intros H N. split; [done |]. split; [symmetry; by apply bool_decide_eq_false |].
  intros s. destruct (decide (s = sid)) as [-> |]; [set_solver | done].
Qed.

(** The last subscription leaves no reference count behind. *)
Lemma last_refcount st w c n (rc : gmap Z Z) : state_ok st -> (w, c) ∈ subscriptions st -> n = scope_count w (subscriptions st) ->
  subscriptions st ∖ {[(w, c)]} = ∅ ->
  (forall w', rc !! w' = if decide (w' = w) then (if n - 1 =? 0 then None else Some (n - 1)) else scopeRefCount st !! w') ->
  rc = ∅.
Proof.
  intros Hst Hin Hn He Hrc. apply map_empty. intros w'. rewrite Hrc. destruct (decide (w' = w)) as [-> | Hne].
  - replace (n - 1) with (scope_count w (subscriptions st ∖ {[(w, c)]}));
      [by rewrite He | rewrite scope_count_remove by done; destruct (decide (w = w)); [lia | done]].
  - destruct (scopeRefCount st !! w') as [k |] eqn:Ek; [| done].
    assert (Hw : w' ∈ (map_to_list (scopeRefCount st)).*1).
    { apply list_elem_of_fmap. exists (w', k). split; [done |]. by apply elem_of_map_to_list. }
    apply scope_keys in Hw as [c' Hc']; [| done]. assert ((w', c') ∈ subscriptions st ∖ {[(w, c)]}) by set_solver. set_solver.
Qed.

(** The indices without the subscription. *)
Lemma unsubscribed_ok x x' sid w c (S : gset TopicKey) n : index_ok x -> subs_of x sid = S -> (w, c) ∈ S -> n = scope_count w S ->
  topicIndex_ x' = eraseFromIndex_ (topicIndex_ x) (w, c) sid ->
  scopeIndex_ x' = (if n - 1 =? 0 then eraseFromIndex_ (scopeIndex_ x) w sid else scopeIndex_ x) ->
  (forall s, subs_of x' s = if decide (s = sid) then S ∖ {[(w, c)]} else subs_of x s) ->
  (forall s st, states_ x' !! s = Some st -> s <> sid -> states_ x !! s = Some st) ->
  (forall st, states_ x' !! sid = Some st -> state_ok st) ->
  index_ok x' /\ true = bool_decide ((w, c) ∈ S) /\
  forall s, subs_of x' s = if decide (s = sid) then subs_of x s ∖ {[(w, c)]} else subs_of x s.
Proof.
  intros H HS Hin Hn Ht Hs Hsub O1 O2. split; [| split].
  - apply (index_ok_update x x' sid (S ∖ {[(w, c)]}) H); try done.
    + intros key s. rewrite Ht, members_erase. pose proof (io_topic x H key s) as Hk. subst S.
      destruct (decide (key = (w, c))) as [-> |], (decide (s = sid)) as [-> |]; set_solver.
    + intros w' s. rewrite Hs. by apply unsubscribe_members.
    + rewrite Ht. apply no_empty_erase, H.
    + rewrite Hs. destruct (n - 1 =? 0); [apply no_empty_erase |]; apply H.
    + intros key Hk. apply (io_range x H sid). set_solver.
  - symmetry. by apply bool_decide_eq_true.
  - intros s. rewrite Hsub. destruct (decide (s = sid)) as [-> |]; [by rewrite HS | done].
Qed.

Lemma index_unsubscribe_spec x sid w c :
  index_ok x ->
  let '(x', b) := index_unsubscribe x sid w c in
  index_ok x' /\ b = bool_decide ((w, c) ∈ subs_of x sid) /\
  forall s, subs_of x' s = if decide (s = sid) then subs_of x s ∖ {[(w, c)]} else subs_of x s.
Proof.
  intros H. unfold index_unsubscribe. destruct (states_ x !! sid) as [st |] eqn:E.
  2: { apply unsubscribe_absent; [done |]. unfold subs_of. rewrite E. set_solver. }
  pose proof (subs_of_Some x sid st E) as Hsub. pose proof (io_state x H sid st E) as Hst.
  destruct (decide ((w, c) ∈ subscriptions st)) as [Hin | Hin]; [| apply unsubscribe_absent; [done | by rewrite Hsub]].
  destruct (unsubscribe_scope st w c Hst Hin) as (n & En & Hn & Hr).
  { rewrite <- Hsub. apply (io_range x H). }
  rewrite En. rewrite (proj2 (Z.ltb_lt 0 n)) by lia. rewrite size_sub_small by lia. rewrite Hsub.
  set (sc' := if n - 1 =? 0 then eraseFromIndex_ (scopeIndex_ x) w sid else scopeIndex_ x).
  set (rc' := if n - 1 =? 0 then delete w (scopeRefCount st) else <[w := n - 1]> (scopeRefCount st)).
  assert (Hpair : (if n - 1 =? 0
                   then (removeFromScope_ (removeFromTopic_ x sid (w, c)) sid w, delete w (scopeRefCount st))
                   else (removeFromTopic_ x sid (w, c), <[w:=n - 1]> (scopeRefCount st)))
                  = (mk_index (states_ x) sc' (eraseFromIndex_ (topicIndex_ x) (w, c) sid), rc'))
    by (unfold sc', rc'; by destruct (n - 1 =? 0)).
  rewrite Hpair. cbv zeta.
  assert (Hrc : forall w', rc' !! w' = if decide (w' = w) then (if n - 1 =? 0 then None else Some (n - 1))
                                       else scopeRefCount st !! w').
  { intros w'. unfold rc'. destruct (n - 1 =? 0), (decide (w' = w)) as [-> |];
      by rewrite ?lookup_delete_eq, ?lookup_insert_eq, ?lookup_delete_ne, ?lookup_insert_ne by done. }
  destruct (decide (subscriptions st ∖ {[(w, c)]} = ∅)) as [He | He].
  - rewrite (last_refcount st w c n rc'), map_to_list_empty by done. cbn [fmap list_fmap fold_right].
    apply (unsubscribed_ok x _ sid w c (subscriptions st) n); try done.
    + intros s. unfold erase_state. by rewrite subs_of_delete, He.
    + intros s st0 Hs Hne. cbn [states_ erase_state] in Hs. by rewrite lookup_delete_ne in Hs.
    + intros st0. cbn [states_ erase_state]. by rewrite lookup_delete_eq.
  - apply (unsubscribed_ok x _ sid w c (subscriptions st) n); try done.
    + intros s. unfold set_state. by rewrite subs_of_insert.
    + intros s st0 Hs Hne. cbn [states_ set_state] in Hs. by rewrite lookup_insert_ne in Hs.
    + intros st0. cbn [states_ set_state]. rewrite lookup_insert_eq. intros [= <-].
      apply state_ok_remove; try done. intros w'. rewrite <- Hn. apply Hrc.
Qed.

End IndexOps.

(* ------------------------------------------------------------------ *)
(** ** The abstract registry *)

(** Session id to its record and its topics. *)
Record spec := mk_spec {
  sp_owner : Z;
  sp_map : gmap Z (StoredSession * gset TopicKey)
}.

(** Calls of the public interface, from worker [cw]. *)
Inductive op :=
| OAdd (h : SessionHandle) (w c : Z)
| ORemove (sid : Z)
| OSetState (sid : Z) (st : ConnState)
| OSetAuth (sid aid pid : Z)
| OSubscribe (sid w c : Z)
| OUnsubscribe (sid w c : Z)
| OUnsubscribeAll (sid : Z)
| OSetPrimary (sid w c : Z)
| OMove (sid w c : Z)
| OAll (exceptSid : Z)
| OScope (w exceptSid : Z)
| OTopic (w c exceptSid : Z)
| OContext (sid : Z)
| OHandle (sid : Z).

(** Topic ids are 32-bit. *)
Definition op_ok (o : Z * op) : Prop :=
  match o.2 with
  | OAdd _ _ c | OSubscribe _ _ c | OMove _ _ c => 0 <= c < U32
  | _ => True
  end.

Inductive result :=
| RNone
| RBool (b : bool)
| RMoved (b : bool) (old : Z * Z)
| RHandles (hs : gset SessionHandle) (n : Z)
| RContext (c : option SessionContext)
| RHandle (h : option SessionHandle).

(** A snapshot as the set of its handles and its length. *)
Definition as_set (l : list SessionHandle) : result := RHandles (list_to_set l) (zlen l).

Definition registry_step (r : t) (o : Z * op) : t * result :=
  let cw := o.1 in
  match o.2 with
  | OAdd h w c => (add cw r h w c, RNone)
  | ORemove sid => (remove cw r sid, RNone)
  | OSetState sid st => (setState cw r sid st, RNone)
  | OSetAuth sid aid pid => (setAuth cw r sid aid pid, RNone)
  | OSubscribe sid w c => let '(r', b) := subscribe cw r sid w c in (r', RBool b)
  | OUnsubscribe sid w c => let '(r', b) := unsubscribe cw r sid w c in (r', RBool b)
  | OUnsubscribeAll sid => let '(r', b) := unsubscribeAll cw r sid in (r', RBool b)
  | OSetPrimary sid w c => let '(r', b) := setPrimaryTopic cw r sid w c in (r', RBool b)
  | OMove sid w c => let '(r', b, old) := moveToTopic cw r sid w c in (r', RMoved b old)
  | OAll ex => (r, as_set (snapshotAll cw r ex))
  | OScope w ex => (r, as_set (snapshotScope cw r w ex))
  | OTopic w c ex => (r, as_set (snapshotTopic cw r w c ex))
  | OContext sid => (r, RContext (tryGetContext cw r sid))
  | OHandle sid => (r, RHandle (tryGetHandle cw r sid))
  end.

(** The valid handles of the sessions whose topics satisfy [P]. *)
Definition select (P : gset TopicKey -> bool) (ex : Z) (m : gmap Z (StoredSession * gset TopicKey))
  : gset SessionHandle :=
  list_to_set (omap (fun '(sid, (rec, T)) =>
    if negb (sid =? ex) && P T && isValid (handle rec) then Some (handle rec) else None)
    (map_to_list m)).

Definition selected P ex m : result := RHandles (select P ex m) (Z.of_nat (size (select P ex m))).

Definition set_rec (m : gmap Z (StoredSession * gset TopicKey)) (sid : Z) (rec : StoredSession)
    (c : SessionContext) (T : gset TopicKey) : gmap Z (StoredSession * gset TopicKey) :=
  <[sid := (mk_stored (handle rec) c, T)]> m.

(** What each call means on the abstract map, for a session that exists. *)
Definition spec_update (m : gmap Z (StoredSession * gset TopicKey)) (sid : Z) (rec : StoredSession)
    (T : gset TopicKey) (o : op) : gmap Z (StoredSession * gset TopicKey) * result :=
  let c0 := ctx rec in
  match o with
  | ORemove _ => (delete sid m, RNone)
  | OSetState _ st =>
      (set_rec m sid rec (mk_ctx st (accountId c0) (playerId c0) (scope c0) (topic c0)) T, RNone)
  | OSetAuth _ aid pid => (set_rec m sid rec (mk_ctx (state c0) aid pid (scope c0) (topic c0)) T, RNone)
  | OSubscribe _ w c =>
      (<[sid := (rec, {[(w, c)]} ∪ T)]> m, RBool (bool_decide (~ (w, c) ∈ T)))
  | OUnsubscribe _ w c =>
      if decide ((w, c) ∈ T) then
        let T' := T ∖ {[(w, c)]} in
        let c1 := if decide ((scope c0, topic c0) = (w, c) \/ T' = ∅) then with_topic c0 0 0 else c0 in
        (set_rec m sid rec c1 T', RBool true)
      else (m, RBool false)
  | OUnsubscribeAll _ => (set_rec m sid rec (with_topic c0 0 0) ∅, RBool true)
  | OSetPrimary _ w c =>
      if decide ((w, c) = (0, 0) \/ (w, c) ∈ T)
      then (set_rec m sid rec (with_topic c0 w c) T, RBool true) else (m, RBool false)
  | OMove _ w c =>
      (if decide (w <> 0 /\ c <> 0) then set_rec m sid rec (with_topic c0 w c) {[(w, c)]}
       else set_rec m sid rec (with_topic c0 0 0) ∅, RMoved true (scope c0, topic c0))
  | _ => (m, RNone)
  end.

(** The answer when there is no such session, or the caller is not the owner. *)
Definition refused (o : op) : result :=
  match o with
  | OSubscribe _ _ _ | OUnsubscribe _ _ _ | OUnsubscribeAll _ | OSetPrimary _ _ _ => RBool false
  | OMove _ _ _ => RMoved false (0, 0)
  | OAll _ | OScope _ _ | OTopic _ _ _ => RHandles ∅ 0
  | OContext _ => RContext None
  | OHandle _ => RHandle None
  | _ => RNone
  end.

Definition target (o : op) : Z :=
  match o with
  | OAdd h _ _ => id_ h
  | ORemove sid | OSetState sid _ | OSetAuth sid _ _ | OSubscribe sid _ _ | OUnsubscribe sid _ _
  | OUnsubscribeAll sid | OSetPrimary sid _ _ | OMove sid _ _ | OContext sid | OHandle sid => sid
  | OAll _ | OScope _ _ | OTopic _ _ _ => 0
  end.

Definition spec_map_step (m : gmap Z (StoredSession * gset TopicKey)) (o : op)
  : gmap Z (StoredSession * gset TopicKey) * result :=
  match o with
  | OAdd h w c =>
      let T := default ∅ (snd <$> m !! id_ h) in
      let T' := if decide (w <> 0 /\ c <> 0) then {[(w, c)]} ∪ T else T in
      (<[id_ h := (mk_stored h (mk_ctx Connected 0 0 w c), T')]> m, RNone)
  | OAll ex => (m, selected (fun _ => true) ex m)
  | OScope w ex => (m, selected (fun T => bool_decide (in_scope w T <> ∅)) ex m)
  | OTopic w c ex => (m, selected (fun T => bool_decide ((w, c) ∈ T)) ex m)
  | OContext sid => (m, RContext (ctx ∘ fst <$> m !! sid))
  | OHandle sid =>
      (m, RHandle (match m !! sid with
                   | Some (rec, _) => if isValid (handle rec) then Some (handle rec) else None
                   | None => None
                   end))
  | _ => match m !! target o with
         | Some (rec, T) => spec_update m (target o) rec T o
         | None => (m, refused o)
         end
  end.

Definition spec_step (s : spec) (o : Z * op) : spec * result :=
  if (sp_owner s <? 0) || (o.1 =? sp_owner s)
  then let '(m, res) := spec_map_step (sp_map s) o.2 in (mk_spec (sp_owner s) m, res)
  else (s, refused o.2).

(** The abstraction of a registry. *)
Definition abs_map (r : t) : gmap Z (StoredSession * gset TopicKey) :=
  map_imap (fun sid rec => Some (rec, subs_of (subs_ r) sid)) (store_ r).

Record reg_ok (r : t) : Prop := {
  ro_index : index_ok (subs_ r);
  ro_live : forall sid, store_ r !! sid = None -> states_ (subs_ r) !! sid = None;
  ro_id : forall sid rec, store_ r !! sid = Some rec -> id_ (handle rec) = sid
}.

Definition represents (r : t) (s : spec) : Prop :=
  reg_ok r /\ ownerWorkerId_ r = sp_owner s /\ abs_map r = sp_map s.

Section Abstraction.
Implicit Types (r : t) (sid w c : Z).

Lemma abs_lookup r sid :
  abs_map r !! sid = (fun rec => (rec, subs_of (subs_ r) sid)) <$> store_ r !! sid.
Proof. unfold abs_map. rewrite map_lookup_imap. by destruct (store_ r !! sid). Qed.

(** A session without topics has no subscription state. *)
Lemma no_state x sid : index_ok x -> states_ x !! sid = None <-> subs_of x sid = ∅.
Proof.
  intros H. unfold subs_of. destruct (states_ x !! sid) as [st |] eqn:E; simpl; [| done].
  destruct (io_state x H sid st E). done.
Qed.

(** A call that keeps the store's other records and the other sessions'
    topics changes one entry of the abstraction. *)
Lemma abs_update r r' sid rec' T' :
  reg_ok r -> index_ok (subs_ r') -> ownerWorkerId_ r' = ownerWorkerId_ r ->
  store_ r' = <[sid := rec']> (store_ r) -> id_ (handle rec') = sid ->
  (forall s, subs_of (subs_ r') s = if decide (s = sid) then T' else subs_of (subs_ r) s) ->
  reg_ok r' /\ abs_map r' = <[sid := (rec', T')]> (abs_map r).
Proof.
  intros [Hi Hl Hid] Hi' _ Hst Hrec Hsub. split.
  - split; [done | |].
    + intros s. rewrite Hst, lookup_insert_None. intros [Hs Hne]. apply no_state; [done |].
      rewrite Hsub. destruct (decide (s = sid)) as [-> |]; [done |]. by apply no_state, Hl.
    + intros s rc. rewrite Hst, lookup_insert_Some. intros [[<- <-] | [_ E]]; eauto.
  - apply map_eq. intros s. rewrite abs_lookup, Hst, Hsub.
    destruct (decide (s = sid)) as [-> | Hne].
    + by rewrite !lookup_insert_eq.
    + by rewrite !lookup_insert_ne, abs_lookup by done.
Qed.

(** A call that changes the record of a session and not its topics. *)
Lemma abs_set_ctx r sid rec (c0 : SessionContext) :
  reg_ok r -> store_ r !! sid = Some rec ->
  reg_ok (set_ctx r sid rec c0) /\
  abs_map (set_ctx r sid rec c0) = set_rec (abs_map r) sid rec c0 (subs_of (subs_ r) sid).
Proof.
  intros H E. apply (abs_update r); try done.
  - apply H.
  - simpl. by apply (ro_id r H).
  - intros s. simpl. by destruct (decide (s = sid)) as [-> |].
Qed.

Lemma collect_elem r ids ex h :
  h ∈ collect r ids ex <->
  exists sid rec, sid ∈ ids /\ sid <> ex /\ store_ r !! sid = Some rec /\
    isValid (handle rec) = true /\ h = handle rec.
Proof.
  unfold collect. rewrite list_elem_of_omap. split.
  - intros (sid & Hin & Hs). destruct (Z.eqb_spec sid ex); [done |].
    destruct (store_ r !! sid) as [rec |] eqn:E; [| done].
    destruct (isValid (handle rec)) eqn:Ev; simplify_eq. exists sid, rec. done.
  - intros (sid & rec & Hin & Hne & E & Ev & ->). exists sid. split; [done |].
    rewrite E, Ev. by zb_eval.
Qed.

Lemma collect_NoDup r ids ex : reg_ok r -> NoDup ids -> NoDup (collect r ids ex).
Proof.
  intros H Hn. unfold collect. induction Hn as [| sid ids Hni Hn IH]; [constructor |].
  cbn [omap list_omap]. destruct (Z.eqb_spec sid ex); [done |].
  destruct (store_ r !! sid) as [rec |] eqn:E; [| done].
  destruct (isValid (handle rec)) eqn:Ev; [| done]. constructor; [| done].
  intros Hin. apply (collect_elem r ids ex) in Hin as (sid' & rec' & Hin' & _ & E' & _ & Hh).
  apply (ro_id r H) in E, E'. rewrite Hh in E. congruence.
Qed.

Lemma select_elem P ex m h :
  h ∈ select P ex m <->
  exists sid rec T, m !! sid = Some (rec, T) /\ sid <> ex /\ P T = true /\
    isValid (handle rec) = true /\ h = handle rec.
Proof.
  unfold select. rewrite elem_of_list_to_set, list_elem_of_omap. split.
  - intros ([sid [rec T]] & Hin%elem_of_map_to_list & Hs).
    destruct (Z.eqb_spec sid ex), (P T) eqn:EP, (isValid (handle rec)) eqn:Ev; simplify_eq/=.
    exists sid, rec, T. done.
  - intros (sid & rec & T & E & Hne & EP & Ev & ->). exists (sid, (rec, T)).
    split; [by apply elem_of_map_to_list |]. rewrite EP, Ev. by zb_eval.
Qed.

(** A snapshot over the right ids is the abstract selection. *)
Lemma collect_selected r ids ex P :
  reg_ok r -> NoDup ids ->
  (forall sid rec, store_ r !! sid = Some rec -> sid ∈ ids <-> P (subs_of (subs_ r) sid) = true) ->
  as_set (collect r ids ex) = selected P ex (abs_map r).
Proof.
  intros H Hn Hids. unfold as_set, selected.
  assert (Hs : list_to_set (collect r ids ex) = select P ex (abs_map r)).
  { apply set_eq. intros h. rewrite elem_of_list_to_set, collect_elem, select_elem. split.
    - intros (sid & rec & Hin & Hne & E & Ev & ->). exists sid, rec, (subs_of (subs_ r) sid).
      rewrite abs_lookup, E. split_and!; try done. by eapply Hids.
    - intros (sid & rec & T & E & Hne & EP & Ev & ->). rewrite abs_lookup in E.
      destruct (store_ r !! sid) as [rec' |] eqn:E'; simplify_eq/=. exists sid, rec.
      split_and!; try done. by eapply Hids. }
  rewrite <- Hs. f_equal. unfold zlen. f_equal. symmetry.
  apply size_list_to_set, collect_NoDup; done.
Qed.

Lemma subscribe_refines cw r sid w c rec :
  reg_ok r -> ensureOwnerThread_ cw r = true -> 0 <= c < U32 -> store_ r !! sid = Some rec ->
  let '(r', b) := subscribe cw r sid w c in
  reg_ok r' /\ ownerWorkerId_ r' = ownerWorkerId_ r /\ store_ r' = store_ r /\
  subs_of (subs_ r') sid = {[(w, c)]} ∪ subs_of (subs_ r) sid /\
  abs_map r' = <[sid := (rec, {[(w, c)]} ∪ subs_of (subs_ r) sid)]> (abs_map r) /\
  b = bool_decide (~ (w, c) ∈ subs_of (subs_ r) sid).
Proof.
  intros H Ho Hc E. unfold subscribe. rewrite Ho, E. cbn [negb].
  pose proof (index_subscribe_spec (subs_ r) sid w c (ro_index r H) Hc) as Hs.
  destruct (index_subscribe (subs_ r) sid w c) as [x' b]. destruct Hs as (Hi & Hb & Hsub).
  assert (Hsub' : forall s, subs_of (subs_ (set_subs r x')) s =
     if decide (s = sid) then {[(w, c)]} ∪ subs_of (subs_ r) sid else subs_of (subs_ r) s).
  { intros s. simpl. rewrite Hsub. by destruct (decide (s = sid)) as [-> |]. }
  destruct (abs_update r (set_subs r x') sid rec ({[(w, c)]} ∪ subs_of (subs_ r) sid)) as [Hr Ha];
    try done; [simpl; by rewrite insert_id | by apply (ro_id r H) |].
  split_and!; try done. rewrite Hsub', decide_True by done. done.
Qed.

Lemma clear_refines r sid rec (c0 : SessionContext) :
  reg_ok r -> store_ r !! sid = Some rec ->
  let r' := set_ctx (set_subs r (clearAll (subs_ r) sid)) sid rec c0 in
  reg_ok r' /\ store_ r' !! sid = Some (mk_stored (handle rec) c0) /\
  subs_of (subs_ r') sid = ∅ /\ abs_map r' = set_rec (abs_map r) sid rec c0 ∅.
Proof.
  intros H E r'. destruct (clearAll_spec (subs_ r) sid (ro_index r H)) as (Hi & _ & Hsub).
  destruct (abs_update r r' sid (mk_stored (handle rec) c0) ∅ H Hi eq_refl eq_refl) as [Hr Ha].
  - exact (ro_id r H sid rec E).
  - done.
  - split_and!; [done | by apply lookup_insert_eq | | done].
    simpl. rewrite Hsub, decide_True by done. done.
Qed.

Lemma primary_refines cw r sid w c rec :
  reg_ok r -> ensureOwnerThread_ cw r = true -> store_ r !! sid = Some rec ->
  let '(r', b) := setPrimaryTopic cw r sid w c in
  reg_ok r' /\ ownerWorkerId_ r' = ownerWorkerId_ r /\
  (abs_map r', RBool b) =
  spec_update (abs_map r) sid rec (subs_of (subs_ r) sid) (OSetPrimary sid w c).
Proof.
  intros H Ho E. unfold setPrimaryTopic. rewrite Ho, E. cbn [negb spec_update].
  assert (Hc : contains (subs_ r) sid (w, c) = bool_decide ((w, c) ∈ subs_of (subs_ r) sid)).
  { unfold contains, subs_of. by destruct (states_ (subs_ r) !! sid). }
  rewrite Hc. assert (Hz : (w =? 0) && (c =? 0) = bool_decide ((w, c) = (0, 0))).
  { destruct (Z.eqb_spec w 0), (Z.eqb_spec c 0); symmetry;
      first [apply bool_decide_eq_true | apply bool_decide_eq_false]; cbn; congruence. }
  rewrite Hz. case_bool_decide as H0.
  - injection H0 as -> ->. rewrite decide_True by (by left).
    destruct (abs_set_ctx r sid rec (with_topic (ctx rec) 0 0) H E) as [? ->]. done.
  - case_bool_decide as Hb; cbn [negb].
    + rewrite decide_True by (by right).
      destruct (abs_set_ctx r sid rec (with_topic (ctx rec) w c) H E) as [? ->]. done.
    + rewrite decide_False by tauto. done.
Qed.

Lemma add_refines cw r h w c :
  reg_ok r -> ensureOwnerThread_ cw r = true -> 0 <= c < U32 ->
  reg_ok (add cw r h w c) /\ ownerWorkerId_ (add cw r h w c) = ownerWorkerId_ r /\
  abs_map (add cw r h w c) = (spec_map_step (abs_map r) (OAdd h w c)).1.
Proof.
  intros H Ho Hc. unfold add. rewrite Ho. cbn [negb spec_map_step fst].
  set (sid := id_ h). set (rec := mk_stored h (mk_ctx Connected 0 0 w c)).
  set (r1 := set_store r (<[sid := rec]> (store_ r))).
  assert (HT : default ∅ (snd <$> abs_map r !! sid) = subs_of (subs_ r) sid).
  { rewrite abs_lookup. destruct (store_ r !! sid) eqn:E; simpl; [done |].
    symmetry. apply no_state; [apply H |]. by apply (ro_live r H). }
  rewrite HT.
  destruct (abs_update r r1 sid rec (subs_of (subs_ r) sid) H (ro_index r H) eq_refl eq_refl eq_refl)
    as [H1 Ha1].
  { intros s. simpl. by destruct (decide (s = sid)) as [-> |]. }
  destruct (Z.eqb_spec w 0) as [Hw | Hw], (Z.eqb_spec c 0) as [Hz | Hz]; cbn [andb negb];
    [by rewrite decide_False by tauto.. |].
  rewrite decide_True by done.
  pose proof (subscribe_refines cw r1 sid w c rec H1 Ho Hc (lookup_insert_eq _ _ _)) as Hs.
  destruct (subscribe cw r1 sid w c) as [r2 b]. destruct Hs as (Hr2 & Hown & _ & _ & Ha2 & _).
  cbn [fst]. split_and!; [done | done |]. rewrite Ha2, Ha1, insert_insert_eq. done.
Qed.

Lemma remove_refines cw r sid rec :
  reg_ok r -> ensureOwnerThread_ cw r = true -> store_ r !! sid = Some rec ->
  reg_ok (remove cw r sid) /\ ownerWorkerId_ (remove cw r sid) = ownerWorkerId_ r /\
  abs_map (remove cw r sid) = delete sid (abs_map r).
Proof.
  intros H Ho E. unfold remove. rewrite Ho, E. cbn [negb].
  destruct (clearAll_spec (subs_ r) sid (ro_index r H)) as (Hi & Hn & Hsub).
  split_and!; [| done |].
  - split; cbn [store_ subs_]; [done | |].
    + intros s. rewrite lookup_delete_None. intros [<- | Hs]; [done |].
      apply no_state; [done |]. rewrite Hsub. destruct (decide (s = sid)); [done |].
      apply no_state; [apply H |]. by apply (ro_live r H).
    + intros s rec'. rewrite lookup_delete_Some. intros [_ Hs]. by apply (ro_id r H).
  - apply map_eq. intros s. rewrite abs_lookup. cbn [store_ subs_]. rewrite Hsub.
    destruct (decide (s = sid)) as [-> | Hne].
    + by rewrite !lookup_delete_eq.
    + by rewrite !lookup_delete_ne, abs_lookup by done.
Qed.

Lemma unsubscribe_refines cw r sid w c rec :
  reg_ok r -> ensureOwnerThread_ cw r = true -> store_ r !! sid = Some rec ->
  let '(r', b) := unsubscribe cw r sid w c in
  reg_ok r' /\ ownerWorkerId_ r' = ownerWorkerId_ r /\
  (abs_map r', RBool b) =
  spec_update (abs_map r) sid rec (subs_of (subs_ r) sid) (OUnsubscribe sid w c).
Proof.
  intros H Ho E. unfold unsubscribe. rewrite Ho, E. cbn [negb spec_update].
  pose proof (index_unsubscribe_spec (subs_ r) sid w c (ro_index r H)) as Hs.
  destruct (index_unsubscribe (subs_ r) sid w c) as [x' b]. destruct Hs as (Hi & Hb & Hsub).
  set (T := subs_of (subs_ r) sid) in *.
  assert (Hempty : index_empty x' sid = bool_decide (T ∖ {[(w, c)]} = ∅)).
  { specialize (Hsub sid). rewrite decide_True in Hsub by done. fold T in Hsub. rewrite <- Hsub.
    unfold index_empty, subs_of. by destruct (states_ x' !! sid). }
  rewrite Hb. destruct (decide ((w, c) ∈ T)) as [Hin | Hin].
  - rewrite bool_decide_eq_true_2 by done. cbn [negb]. rewrite Hempty. set (T' := T ∖ {[(w, c)]}) in *.
    assert (Hctx : (let c1 := if (scope (ctx rec) =? w) && (topic (ctx rec) =? c)
                              then with_topic (ctx rec) 0 0 else ctx rec in
                    if bool_decide (T' = ∅) then with_topic c1 0 0 else c1) =
                   if decide ((scope (ctx rec), topic (ctx rec)) = (w, c) \/ T' = ∅)
                   then with_topic (ctx rec) 0 0 else ctx rec).
    { cbv zeta. destruct (Z.eqb_spec (scope (ctx rec)) w), (Z.eqb_spec (topic (ctx rec)) c);
        case_bool_decide; destruct (decide _) as [Hd | Hd]; cbn [andb]; try done;
        exfalso; naive_solver congruence. }
    cbv zeta in Hctx. rewrite Hctx. set (c1 := if decide _ then _ else _).
    destruct (abs_update r (set_ctx (set_subs r x') sid rec c1) sid (mk_stored (handle rec) c1) T'
                H Hi eq_refl eq_refl (ro_id r H sid rec E)) as [Hr Ha].
    { intros s. simpl. rewrite Hsub. by destruct (decide (s = sid)) as [-> |]. }
    split_and!; [done | done |]. by rewrite Ha.
  - rewrite bool_decide_eq_false_2 by done. cbn [negb].
    destruct (abs_update r (set_subs r x') sid rec T H Hi eq_refl) as [Hr Ha].
    + simpl. by rewrite insert_id.
    + by apply (ro_id r H).
    + intros s. simpl. rewrite Hsub. destruct (decide (s = sid)) as [-> |]; [| done].
      fold T. set_solver.
    + split_and!; [done | done |]. rewrite Ha, insert_id; [done |]. by rewrite abs_lookup, E.
Qed.

Lemma move_refines cw r sid w c rec :
  reg_ok r -> ensureOwnerThread_ cw r = true -> 0 <= c < U32 -> store_ r !! sid = Some rec ->
  let '(r', b, old) := moveToTopic cw r sid w c in
  reg_ok r' /\ ownerWorkerId_ r' = ownerWorkerId_ r /\
  (abs_map r', RMoved b old) =
  spec_update (abs_map r) sid rec (subs_of (subs_ r) sid) (OMove sid w c).
Proof.
  intros H Ho Hc E. unfold moveToTopic. rewrite Ho, E. cbn [negb spec_update].
  destruct (clear_refines r sid rec (with_topic (ctx rec) 0 0) H E) as (H1 & E1 & Hs1 & Ha1).
  set (r1 := set_ctx _ sid rec _) in *.
  destruct (Z.eqb_spec w 0) as [Hw | Hw], (Z.eqb_spec c 0) as [Hz | Hz]; cbn [andb negb];
    [rewrite decide_False by tauto; split_and!; [done | done | by rewrite Ha1] .. |].
  rewrite decide_True by done.
  pose proof (subscribe_refines cw r1 sid w c _ H1 Ho Hc E1) as Hs.
  destruct (subscribe cw r1 sid w c) as [r2 b2].
  destruct Hs as (H2 & Hown2 & Est2 & Hsub2 & Ha2 & _). cbn [fst].
  assert (Ho2 : ensureOwnerThread_ cw r2 = true) by (unfold ensureOwnerThread_ in *; by rewrite Hown2).
  assert (E2 : store_ r2 !! sid = Some (mk_stored (handle rec) (with_topic (ctx rec) 0 0)))
    by (by rewrite Est2).
  pose proof (primary_refines cw r2 sid w c _ H2 Ho2 E2) as Hp.
  destruct (setPrimaryTopic cw r2 sid w c) as [r3 b3]. destruct Hp as (H3 & Hown3 & Ha3). cbn [fst].
  split_and!; [done | by rewrite Hown3, Hown2 |].
  cbn [spec_update] in Ha3. rewrite Hsub2, Hs1, decide_True in Ha3 by (right; set_solver).
  injection Ha3 as -> _. f_equal. rewrite Ha2, Ha1. unfold set_rec. cbn [handle ctx].
  rewrite !insert_insert_eq. unfold with_topic; simpl. f_equal. f_equal. set_solver.
Qed.

(** A call from another worker is refused and changes nothing. *)
Lemma wrong_thread_refines r cw o :
  ensureOwnerThread_ cw r = false -> registry_step r (cw, o) = (r, refused o).
Proof.
  intros Ho. destruct o; cbn [registry_step fst snd refused];
    unfold add, remove, setState, setAuth, subscribe, unsubscribe, unsubscribeAll, setPrimaryTopic,
      moveToTopic, snapshotAll, snapshotScope, snapshotTopic, tryGetContext, tryGetHandle;
    by rewrite Ho.
Qed.

(** A call about a session that is not there. *)
Lemma missing_refines r cw o :
  ensureOwnerThread_ cw r = true -> store_ r !! target o = None ->
  match o with
  | OAdd _ _ _ | OAll _ | OScope _ _ | OTopic _ _ _ | OContext _ | OHandle _ => True
  | _ => registry_step r (cw, o) = (r, refused o)
  end.
Proof.
  intros Ho E. destruct o; try done; cbn [registry_step fst snd refused target] in *;
    unfold remove, setState, setAuth, subscribe, unsubscribe, unsubscribeAll, setPrimaryTopic, moveToTopic;
    by rewrite Ho, E.
Qed.

Lemma collect_members `{Countable K} r (idx : gmap K (gset Z)) k ex :
  collect r (elements (members idx k)) ex =
  match idx !! k with None => [] | Some m => collect r (elements m) ex end.
Proof. unfold members. destruct (idx !! k); cbn [default from_option]; by rewrite ?elements_empty. Qed.

Lemma snapshots_refine r cw o :
  reg_ok r -> ensureOwnerThread_ cw r = true ->
  match o with
  | OAll _ | OScope _ _ | OTopic _ _ _ | OContext _ | OHandle _ =>
      (registry_step r (cw, o)).2 = (spec_map_step (abs_map r) o).2
  | _ => True
  end.
Proof.
  intros H Ho. destruct o as [| | | | | | | | | ex | w ex | w c ex | sid | sid]; try done;
    cbn [registry_step spec_map_step fst snd].
  - unfold snapshotAll. rewrite Ho. cbn [negb]. apply collect_selected; [done | |].
    + apply NoDup_fst_map_to_list.
    + intros sid rec E. split; [done |]. intros _. apply list_elem_of_fmap.
      exists (sid, rec). split; [done |]. by apply elem_of_map_to_list.
  - unfold snapshotScope, tryGetScopeMembers. rewrite Ho. cbn [negb].
    rewrite <- collect_members.
    apply collect_selected; [done | apply NoDup_elements |]. intros sid rec E.
    by rewrite elem_of_elements, (io_scope _ (ro_index r H)), bool_decide_eq_true, in_scope_nonempty.
  - unfold snapshotTopic, tryGetTopicMembers. rewrite Ho. cbn [negb].
    rewrite <- collect_members.
    apply collect_selected; [done | apply NoDup_elements |]. intros sid rec E.
    by rewrite elem_of_elements, (io_topic _ (ro_index r H)), bool_decide_eq_true.
  - unfold tryGetContext. rewrite Ho, abs_lookup. cbn [negb]. by destruct (store_ r !! sid).
  - unfold tryGetHandle. rewrite Ho, abs_lookup. cbn [negb]. by destruct (store_ r !! sid).
Qed.

(** The two cases of a call about session [sid]: absent, or present with its
    abstract entry. *)
Ltac existing r sid E :=
  let rc := fresh "rec" in
  destruct (store_ r !! sid) as [rc |] eqn:E;
  [ match goal with
    | Hl : abs_map r !! sid = _ |- context [spec_map_step (abs_map r) ?o] =>
        let Hspec := fresh "Hspec" in
        assert (Hspec : spec_map_step (abs_map r) o =
                        spec_update (abs_map r) sid rc (subs_of (subs_ r) sid) o)
          by (cbn [spec_map_step target]; by rewrite Hl)
    end
  | match goal with
    | Hl : abs_map r !! sid = _, Hm : _ -> registry_step _ _ = _,
      Hd : forall r' m' res res', _ |- _ =>
        eapply Hd; [by apply Hm | cbn [spec_map_step target]; by rewrite Hl | done..]
    end ].

Lemma registry_step_refines r s o :
  op_ok o -> represents r s ->
  represents (registry_step r o).1 (spec_step s o).1 /\ (registry_step r o).2 = (spec_step s o).2.
Proof.
  destruct o as [cw o]. intros Hok (H & Ho & Ha). unfold spec_step. cbn [fst snd].
  replace ((sp_owner s <? 0) || (cw =? sp_owner s)) with (ensureOwnerThread_ cw r)
    by (unfold ensureOwnerThread_; by rewrite Ho).
  destruct (ensureOwnerThread_ cw r) eqn:En.
  2: { rewrite wrong_thread_refines by done. by split; [| done]. }
  rewrite <- Ha. pose proof (snapshots_refine r cw o H En) as Hq.
  pose proof (missing_refines r cw o En) as Hmiss. pose proof (abs_lookup r (target o)) as Hl.
  assert (Hdone : forall r' m' res res', registry_step r (cw, o) = (r', res) ->
    spec_map_step (abs_map r) o = (m', res') -> reg_ok r' -> ownerWorkerId_ r' = ownerWorkerId_ r ->
    abs_map r' = m' -> res = res' ->
    represents (registry_step r (cw, o)).1
      (let '(m, rs) := spec_map_step (abs_map r) o in (mk_spec (sp_owner s) m, rs)).1 /\
    (registry_step r (cw, o)).2 = (let '(m, rs) := spec_map_step (abs_map r) o in (mk_spec (sp_owner s) m, rs)).2).
  { intros r' m' res res' -> -> ? ? ? ?. split; [| done]. split; [done |]. split; [cbn; congruence | done]. }
  destruct o as [h w c | sid | sid st | sid aid pid | sid w c | sid w c | sid | sid w c | sid w c
                | ex | w ex | w c ex | sid | sid]; cbn [target] in *.
  - destruct (add_refines cw r h w c H En Hok) as (? & ? & ?). by eapply Hdone.
  - existing r sid E. destruct (remove_refines cw r sid rec H En E) as (? & ? & ?). by eapply Hdone.
  - existing r sid E.
    destruct (abs_set_ctx r sid rec (mk_ctx st (accountId (ctx rec)) (playerId (ctx rec))
      (scope (ctx rec)) (topic (ctx rec))) H E) as [? ?].
    eapply Hdone; cbn [registry_step fst snd]; unfold setState; rewrite ?En, ?E; done.
  - existing r sid E.
    destruct (abs_set_ctx r sid rec (mk_ctx (state (ctx rec)) aid pid
      (scope (ctx rec)) (topic (ctx rec))) H E) as [? ?].
    eapply Hdone; cbn [registry_step fst snd]; unfold setAuth; rewrite ?En, ?E; done.
  - existing r sid E. pose proof (subscribe_refines cw r sid w c rec H En Hok E) as Hs.
    cbn [registry_step fst snd] in *. destruct (subscribe cw r sid w c) as [r' b].
    destruct Hs as (? & ? & _ & _ & ? & ->). by eapply Hdone.
  - existing r sid E. pose proof (unsubscribe_refines cw r sid w c rec H En E) as Hs.
    cbn [registry_step fst snd] in *. destruct (unsubscribe cw r sid w c) as [r' b].
    destruct Hs as (? & ? & Hu). rewrite Hspec, <- Hu in *. by eapply Hdone.
  - existing r sid E. destruct (clear_refines r sid rec (with_topic (ctx rec) 0 0) H E) as (? & _ & _ & ?).
    eapply Hdone; cbn [registry_step fst snd]; unfold unsubscribeAll; rewrite ?En, ?E; done.
  - existing r sid E. pose proof (primary_refines cw r sid w c rec H En E) as Hs.
    cbn [registry_step fst snd] in *. destruct (setPrimaryTopic cw r sid w c) as [r' b].
    destruct Hs as (? & ? & Hu). rewrite Hspec, <- Hu in *. by eapply Hdone.
  - existing r sid E. pose proof (move_refines cw r sid w c rec H En Hok E) as Hs.
    cbn [registry_step fst snd] in *. destruct (moveToTopic cw r sid w c) as [[r' b] old].
    destruct Hs as (? & ? & Hu). rewrite Hspec, <- Hu in *. by apply (Hdone r' (abs_map r') (RMoved b old) (RMoved b old)).
  - by eapply Hdone.
  - by eapply Hdone.
  - by eapply Hdone.
  - by eapply Hdone.
  - by eapply Hdone.
Qed.

End Abstraction.

(* ------------------------------------------------------------------ *)
(** ** Theorems *)

Lemma create_represents owner : represents (create owner) (mk_spec owner ∅).
Proof.
  split_and!; [| done | done]. split; [| done | done].
  split; unfold members, subs_of, no_empty; cbn [create empty_index subs_ states_ scopeIndex_ topicIndex_];
    intros *; rewrite ?lookup_empty; cbn; set_solver.
Qed.

Lemma run_represents owner ops :
  Forall op_ok ops ->
  represents (run registry_step (create owner) ops).1 (run spec_step (mk_spec owner ∅) ops).1 /\
  (run registry_step (create owner) ops).2 = (run spec_step (mk_spec owner ∅) ops).2.
Proof.
  intros Hok. apply (run_simulation registry_step spec_step op_ok represents).
  - intros r s o Ho Hr. by apply registry_step_refines.
  - done.
  - apply create_represents.
Qed.

Lemma gmap_all_none `{Countable K} {A} (m : gmap K A) : (forall k, m !! k = None) -> m = ∅.
Proof. intros Hn. apply map_eq. intros k. by rewrite Hn, lookup_empty. Qed.

(** An index none of whose keys has members holds no entry. *)
Lemma index_all_empty `{Countable K} (idx : gmap K (gset Z)) :
  no_empty idx -> (forall k, members idx k = ∅) -> idx = ∅.
Proof.
  intros Hn Hm. apply gmap_all_none. intros k. destruct (idx !! k) as [m |] eqn:E; [| done].
  specialize (Hm k). unfold members in Hm. rewrite E in Hm. by apply Hn in E.
Qed.

Lemma empty_store_empty_index r : reg_ok r -> store_ r = ∅ -> subs_ r = empty_index.
Proof.
  intros [[Ht Hs Hnt Hns _ _] Hl _] Hst.
  assert (Hstates : forall sid, states_ (subs_ r) !! sid = None) by (intros sid; apply Hl; by rewrite Hst).
  assert (Hsub : forall sid, subs_of (subs_ r) sid = ∅) by (intros sid; unfold subs_of; by rewrite Hstates).
  destruct (subs_ r) as [st sc tp]; cbn [states_ scopeIndex_ topicIndex_] in *. unfold empty_index. f_equal.
  - by apply gmap_all_none.
  - apply index_all_empty; [done |]. intros w. apply set_eq. intros sid. rewrite Hs.
    setoid_rewrite Hsub. set_solver.
  - apply index_all_empty; [done |]. intros key. apply set_eq. intros sid. rewrite Ht, Hsub. set_solver.
Qed.

(** C4: the registry is the map it stands for.  Any sequence of calls, from
    any workers, gives the answers of the abstract map from session id to
    record and topic set (snapshots included: who is in a scope or a topic,
    without duplicates), the state reached represents the abstract one, and
    once every session is removed both inverted indexes are empty. *)
Theorem registry_refines_spec (owner : Z) (ops : list (Z * op)) :
  Forall op_ok ops ->
  let '(r, answers) := run registry_step (create owner) ops in
  let '(s, expected) := run spec_step (mk_spec owner ∅) ops in
  answers = expected /\ abs_map r = sp_map s /\ (sp_map s = ∅ -> subs_ r = empty_index).
Proof.
  intros Hok. destruct (run_represents owner ops Hok) as [(Hr & _ & Ha) He].
  destruct (run registry_step (create owner) ops) as [r a], (run spec_step (mk_spec owner ∅) ops) as [s e].
  cbn [fst snd] in *. split_and!; [done | done |]. intros Hm. apply empty_store_empty_index; [done |].
  apply gmap_all_none. intros sid. pose proof (abs_lookup r sid) as Hl.
  rewrite Ha, Hm, lookup_empty in Hl. by destruct (store_ r !! sid).
Qed.

Definition registry_example : list (Z * op) :=
  [(0, OAdd (handle_of_id 7) 1 2); (0, OSubscribe 7 1 3); (1, ORemove 7); (0, OScope 1 0);
   (0, OUnsubscribe 7 1 2); (0, OContext 7); (0, ORemove 7)].

Lemma registry_refines_spec_witness :
  (run registry_step (create 0) registry_example).2 =
    [RNone; RBool true; RNone; RHandles {[handle_of_id 7]} 1; RBool true;
     RContext (Some (mk_ctx Connected 0 0 0 0)); RNone] /\
  subs_ (run registry_step (create 0) registry_example).1 = empty_index.
Proof.
  split; [by vm_compute |].
  assert (Hok : Forall op_ok registry_example) by (repeat constructor; vm_compute; congruence).
  pose proof (registry_refines_spec 0 registry_example Hok) as H.
  destruct (run registry_step (create 0) registry_example) as [r a] eqn:Er.
  destruct (run spec_step (mk_spec 0 ∅) registry_example) as [s e] eqn:Es.
  destruct H as (_ & _ & H). apply H. vm_compute in Es. by injection Es as <- _.
Defined.

(** The primary topic of a session is unset or one it is subscribed to. *)
Definition primary_ok (m : gmap Z (StoredSession * gset TopicKey)) : Prop :=
  forall sid rec T, m !! sid = Some (rec, T) ->
    (scope (ctx rec), topic (ctx rec)) = (0, 0) \/ (scope (ctx rec), topic (ctx rec)) ∈ T.

(** Calls that register a session with a whole topic or with none. *)
Definition whole_topic (o : Z * op) : Prop :=
  match o.2 with
  | OAdd _ w c => (w = 0 /\ c = 0) \/ (w <> 0 /\ c <> 0)
  | _ => True
  end.

Lemma primary_ok_insert m sid rec T :
  primary_ok m ->
  (scope (ctx rec), topic (ctx rec)) = (0, 0) \/ (scope (ctx rec), topic (ctx rec)) ∈ T ->
  primary_ok (<[sid := (rec, T)]> m).
Proof.
  intros Hm Hn s rc S. rewrite lookup_insert_Some. intros [[_ [= <- <-]] | [_ E]]; eauto.
Qed.

Lemma spec_update_primary m sid rec T o :
  primary_ok m -> m !! sid = Some (rec, T) -> primary_ok (spec_update m sid rec T o).1.
Proof.
  intros Hm E. pose proof (Hm _ _ _ E) as Hp.
  destruct o; cbn [spec_update fst]; unfold set_rec; try done;
    try (destruct (decide _) as [Hd | Hd]; cbn [fst]; [| try done]);
    try (apply primary_ok_insert; [done |]; cbn [ctx scope topic with_topic]; try (by left); try done).
  - intros s rc S. rewrite lookup_delete_Some. intros [_ Es]. by eapply Hm.
  - destruct Hp as [Hp | Hp]; [by left |]. right. apply elem_of_union. by right.
  - destruct (decide _) as [Hc | Hc]; [by left |].
    destruct Hp as [Hp | Hp]; [by left |]. right. apply elem_of_difference. split; [done |].
    rewrite elem_of_singleton. tauto.
  - right. set_solver.
Qed.

Lemma spec_step_primary s o : whole_topic o -> primary_ok (sp_map s) -> primary_ok (sp_map (spec_step s o).1).
Proof.
  destruct o as [cw o]. intros Hw Hm. unfold spec_step; cbn [fst snd].
  destruct (_ || _); [| done].
  assert (primary_ok (spec_map_step (sp_map s) o).1).
  { destruct o as [h w c | sid | sid st | sid aid pid | sid w c | sid w c | sid | sid w c | sid w c
                | ex | w ex | w c ex | sid | sid]; cbn [spec_map_step target fst]; try done;
      try (destruct (sp_map s !! sid) as [[rec T] |] eqn:E; [by apply spec_update_primary | done]).
    apply primary_ok_insert; [done |]. cbn [ctx scope topic].
    destruct Hw as [[-> ->] | Hw]; [by left |]. rewrite decide_True by done. right. set_solver. }
  destruct (spec_map_step (sp_map s) o); done.
Qed.

Lemma run_primary s ops :
  Forall whole_topic ops -> primary_ok (sp_map s) -> primary_ok (sp_map (run spec_step s ops).1).
Proof.
  revert s. induction ops as [| o ops IH]; intros s Hw Hs; [done |].
  inversion Hw; subst. cbn [run]. pose proof (spec_step_primary s o) as Hp.
  destruct (spec_step s o) as [s1 r1]. specialize (IH s1).
  destruct (run spec_step s1 ops). cbn [fst] in *. auto.
Qed.

(** A session's primary topic is always unset or one of its
    subscriptions, when sessions are registered with a whole topic or with
    none; unsubscribing, moving and clearing keep it so.  Registering with a
    scope and topic 0 breaks it: the context then names a topic the session
    does not receive. *)
Theorem primary_topic_is_subscribed (owner sid : Z) (ops : list (Z * op)) (rec : StoredSession) :
  Forall op_ok ops -> Forall whole_topic ops ->
  store_ (run registry_step (create owner) ops).1 !! sid = Some rec ->
  (scope (ctx rec), topic (ctx rec)) = (0, 0) \/
  (scope (ctx rec), topic (ctx rec)) ∈ subs_of (subs_ (run registry_step (create owner) ops).1) sid.
Proof.
  intros Hok Hw E. destruct (run_represents owner ops Hok) as [(Hr & _ & Ha) _].
  pose proof (run_primary (mk_spec owner ∅) ops Hw) as Hp. rewrite <- Ha in Hp.
  eapply Hp; [by intros ? ? ? ? |]. by rewrite abs_lookup, E.
Qed.

Lemma primary_topic_is_subscribed_witness :
  (1, 2) ∈ subs_of (subs_ (run registry_step (create 0) [(0, OAdd (handle_of_id 7) 1 2)]).1) 7 /\
  (store_ (add 0 (create 0) (handle_of_id 8) 1 0) !! 8 = Some (mk_stored (handle_of_id 8) (mk_ctx Connected 0 0 1 0)) /\
   subs_ (add 0 (create 0) (handle_of_id 8) 1 0) = empty_index).
Proof.
  split.
  - destruct (primary_topic_is_subscribed 0 7 [(0, OAdd (handle_of_id 7) 1 2)]
      (mk_stored (handle_of_id 7) (mk_ctx Connected 0 0 1 2))) as [H | H].
    + repeat constructor; vm_compute; congruence.
    + apply Forall_singleton. right. split; congruence.
    + by vm_compute.
    + discriminate H.
    + exact H.
  - by vm_compute.
Defined.

(* ------------------------------------------------------------------ *)
(** ** The store behind the calls

    [SessionStore] by itself, with the lookups that copy a record. *)

Definition store_add (s : gmap Z StoredSession) (session : SessionHandle) (w c : Z) : gmap Z StoredSession :=
  <[id_ session := mk_stored session (mk_ctx Connected 0 0 w c)]> s.

Definition store_remove (s : gmap Z StoredSession) (sid : Z) : gmap Z StoredSession := delete sid s.

Definition find (s : gmap Z StoredSession) (sid : Z) : option StoredSession := s !! sid.

Definition store_tryGetSession (s : gmap Z StoredSession) (sid : Z) : option SessionHandle :=
  match find s sid with None => None | Some rec => Some (handle rec) end.

Definition store_tryGetContext (s : gmap Z StoredSession) (sid : Z) : option SessionContext :=
  match find s sid with None => None | Some rec => Some (ctx rec) end.

Definition tryGetSession (cw : Z) (r : t) (sid : Z) : option SessionHandle :=
  if negb (ensureOwnerThread_ cw r) then None else store_tryGetSession (store_ r) sid.

(** The overload that returns an [std::optional]. *)
Definition tryGetContext_optional (cw : Z) (r : t) (sid : Z) : option SessionContext :=
  if negb (ensureOwnerThread_ cw r) then None else store_tryGetContext (store_ r) sid.

(** The registry's calls are these on its store, and its four lookups agree:
    off the owner's thread none answers; on it they find the same record
    (session id 0, which no handle in use has, is not given out as a handle),
    and a record found has the id it was asked for. *)
Theorem registry_lookups_agree (owner cw sid : Z) (ops : list (Z * op)) :
  Forall op_ok ops ->
  let r := (run registry_step (create owner) ops).1 in
  tryGetContext_optional cw r sid = tryGetContext cw r sid /\
  tryGetHandle cw r sid = (if sid =? 0 then None else tryGetSession cw r sid) /\
  (is_Some (tryGetSession cw r sid) <-> is_Some (tryGetContext cw r sid)) /\
  (forall h, tryGetSession cw r sid = Some h -> ensureOwnerThread_ cw r = true /\ id_ h = sid) /\
  (ensureOwnerThread_ cw r = true -> forall h w c,
     store_ (add cw r h w c) = store_add (store_ r) h w c /\ store_ (remove cw r sid) = store_remove (store_ r) sid).
Proof.
  intros Hok r. destruct (run_represents owner ops Hok) as [(Hr & _) _]. fold r in Hr.
  assert (forall rec, store_ r !! sid = Some rec -> id_ (handle rec) = sid) as Hid by (intros rec E; by apply (ro_id _ Hr)).
  unfold tryGetContext_optional, tryGetContext, tryGetSession, tryGetHandle, store_tryGetSession, store_tryGetContext, find, isValid, add, remove.
  destruct (ensureOwnerThread_ cw r) eqn:O; cbn [negb];
    [| split; [done |]; split; [by destruct (_ =? _) |]; split; [done |]; split; [by intros ? [=] | done]].
  destruct (store_ r !! sid) as [rec |] eqn:E; cbn.
  - rewrite (Hid rec eq_refl). split_and!; [done | by destruct (_ =? _) | by split; eauto | by intros h [= <-]; rewrite (Hid rec eq_refl) |].
    intros _ h w c. split; [| done]. unfold subscribe. destruct (_ && _); [| done]. destruct (negb _); [done |]. cbn.
    rewrite lookup_insert_eq. by destruct (index_subscribe _ _ _ _).
  - split_and!; [done | by destruct (_ =? _) | by split; intros [? [=]] | by intros ? [=] |].
    intros _ h w c. split; [| unfold store_remove; by rewrite delete_id]. unfold subscribe. destruct (_ && _); [| done]. destruct (negb _); [done |]. cbn.
    rewrite lookup_insert_eq. by destruct (index_subscribe _ _ _ _).
Qed.

End SessionRegistry.
