(* ===== verification/World.v ===== *)
(** * World: what a worker thread acts on

    The state of one worker of the engine as its session code sees it, the
    effects of that code and the system calls it makes:

    - [Session] objects ([net/Session.hpp]) in a heap, by session id (ids are
      unique, see [Handle]); the worker's [SessionManager] with its table;
    - the descriptor registry of [net/EventLoop.cpp] ([addFd], [updateFd],
      [removeFd], [addTimer]) over [net/EpollReactor.cpp];
    - the counters of [monitoring/Metrics.hpp];
    - the kernel: per descriptor the bytes that wait to be received and the
      bytes handed over for sending.  What each system call answers is read
      from lists ([o_recv], [o_send], [o_ctl], [o_clock]) that stand for any
      behaviour of the kernel; when a list ends, sockets answer [EAGAIN],
      [epoll_ctl] succeeds and the clock stands still.  A read or send moves
      at most the bytes there are, in order;
    - the application: callbacks are programs ([prog]) over the engine's
      interface with their own state.

    [trace] is the record of the session log and of the calls at the boundary
    to the application, in order. *)

From S2P Require Import Prelude RingBuffer Message Framer Handle.
Import Message Handle.

Module World.

(* ------------------------------------------------------------------ *)
(** ** Sessions *)

Inductive SessionState := Connected | Closing | Closed.

#[export] Instance SessionState_eq_dec : EqDecision SessionState.
Proof. solve_decision. Defined.

Record Session := mk_session {
  handle_ : SessionHandle;
  fd_ : Z;                          (* [socket_], -1 once closed *)
  state_ : SessionState;
  recvRing_ : option RingBuffer.t;
  sendRing_ : option RingBuffer.t;
  currentEpollMask_ : Z;
  s_idleTimeoutMs_ : Z;
  s_heartbeatIntervalMs_ : Z;
  lastRxAt_ : Z;                    (* nanoseconds of the steady clock *)
  idleTimerArmed_ : bool;
  heartbeatTimerArmed_ : bool
}.

Definition set_state_ (s : Session) (st : SessionState) : Session :=
  mk_session (handle_ s) (fd_ s) st (recvRing_ s) (sendRing_ s) (currentEpollMask_ s)
    (s_idleTimeoutMs_ s) (s_heartbeatIntervalMs_ s) (lastRxAt_ s) (idleTimerArmed_ s) (heartbeatTimerArmed_ s).
Definition set_fd_ (s : Session) (fd : Z) : Session :=
  mk_session (handle_ s) fd (state_ s) (recvRing_ s) (sendRing_ s) (currentEpollMask_ s)
    (s_idleTimeoutMs_ s) (s_heartbeatIntervalMs_ s) (lastRxAt_ s) (idleTimerArmed_ s) (heartbeatTimerArmed_ s).
Definition set_recvRing_ (s : Session) (rb : RingBuffer.t) : Session :=
  mk_session (handle_ s) (fd_ s) (state_ s) (Some rb) (sendRing_ s) (currentEpollMask_ s)
    (s_idleTimeoutMs_ s) (s_heartbeatIntervalMs_ s) (lastRxAt_ s) (idleTimerArmed_ s) (heartbeatTimerArmed_ s).
Definition set_sendRing_ (s : Session) (rb : RingBuffer.t) : Session :=
  mk_session (handle_ s) (fd_ s) (state_ s) (recvRing_ s) (Some rb) (currentEpollMask_ s)
    (s_idleTimeoutMs_ s) (s_heartbeatIntervalMs_ s) (lastRxAt_ s) (idleTimerArmed_ s) (heartbeatTimerArmed_ s).
Definition set_mask_ (s : Session) (mask : Z) : Session :=
  mk_session (handle_ s) (fd_ s) (state_ s) (recvRing_ s) (sendRing_ s) mask
    (s_idleTimeoutMs_ s) (s_heartbeatIntervalMs_ s) (lastRxAt_ s) (idleTimerArmed_ s) (heartbeatTimerArmed_ s).
Definition set_timeouts_ (s : Session) (idle heartbeat : Z) : Session :=
  mk_session (handle_ s) (fd_ s) (state_ s) (recvRing_ s) (sendRing_ s) (currentEpollMask_ s)
    idle heartbeat (lastRxAt_ s) (idleTimerArmed_ s) (heartbeatTimerArmed_ s).
Definition set_lastRx_ (s : Session) (now : Z) : Session :=
  mk_session (handle_ s) (fd_ s) (state_ s) (recvRing_ s) (sendRing_ s) (currentEpollMask_ s)
    (s_idleTimeoutMs_ s) (s_heartbeatIntervalMs_ s) now (idleTimerArmed_ s) (heartbeatTimerArmed_ s).
Definition set_idleArmed_ (s : Session) (b : bool) : Session :=
  mk_session (handle_ s) (fd_ s) (state_ s) (recvRing_ s) (sendRing_ s) (currentEpollMask_ s)
    (s_idleTimeoutMs_ s) (s_heartbeatIntervalMs_ s) (lastRxAt_ s) b (heartbeatTimerArmed_ s).
Definition set_heartbeatArmed_ (s : Session) (b : bool) : Session :=
  mk_session (handle_ s) (fd_ s) (state_ s) (recvRing_ s) (sendRing_ s) (currentEpollMask_ s)
    (s_idleTimeoutMs_ s) (s_heartbeatIntervalMs_ s) (lastRxAt_ s) (idleTimerArmed_ s) b.

(* ------------------------------------------------------------------ *)
(** ** Event masks *)

Definition EPOLLIN : Z := 1.
Definition EPOLLOUT : Z := 4.
Definition EPOLLERR : Z := 8.
Definition EPOLLHUP : Z := 16.
Definition EPOLLRDHUP : Z := 8192.
Definition EPOLLET : Z := 2147483648.

Definition makeEventMask (events : list Z) : Z := fold_left Z.lor events 0.

(** [Session::baseEpollMask_]. *)
Definition baseEpollMask_ : Z := makeEventMask [EPOLLIN; EPOLLET; EPOLLERR; EPOLLHUP; EPOLLRDHUP].

Definition ENOENT : Z := 2.
Definition EINTR : Z := 4.
Definition EBADF : Z := 9.
Definition EAGAIN : Z := 11.
Definition EINVAL : Z := 22.

(* ------------------------------------------------------------------ *)
(** ** Applications *)

(** What a callback does: it reads and writes its own state, sends packets,
    closes sessions and may end by throwing. *)
Inductive prog (St : Type) : Type :=
| PRet
| PThrow
| PGet (k : St -> prog St)
| PPut (s : St) (k : prog St)
| PSend (id op : Z) (body : list byte) (k : bool -> prog St)
| PClose (id : Z) (reason : string) (err : Z) (k : prog St).

Arguments PRet {_}.
Arguments PThrow {_}.
Arguments PGet {_} _.
Arguments PPut {_} _ _.
Arguments PSend {_} _ _ _ _.
Arguments PClose {_} _ _ _ _.

(** A registered handler's effect is the program it runs. *)
Definition dispatcher (St : Type) : Type := Dispatcher (Session := SessionHandle) (W := prog St).

(** [hypernet::IApplication]. *)
Record Application (St : Type) := mk_app {
  registerHandlers : dispatcher St -> dispatcher St;
  onSessionStart : SessionHandle -> prog St;
  onSessionEnd : SessionHandle -> prog St
}.

Arguments registerHandlers {_} _ _.
Arguments onSessionStart {_} _ _.
Arguments onSessionEnd {_} _ _.

(* ------------------------------------------------------------------ *)
(** ** The worker *)

Inductive FdHandler := HSession (sid : Z) | HOther (n : Z).

(** [FdContext]. *)
Record FdContext := mk_fdctx { fc_handler : FdHandler; fc_events : Z }.

Inductive timer_cb := IdleTimer (sid : Z) | HeartbeatTimer (sid : Z).

(** [SessionManager]; [sessions_] holds the ids whose object the manager owns. *)
Record Manager (St : Type) := mk_mgr {
  ownerWorkerId_ : Z;
  recvRingCapacity_ : Z;
  sendRingCapacity_ : Z;
  localCounter_ : Z;
  idleTimeoutMs_ : Z;
  heartbeatIntervalMs_ : Z;
  app_ : option (Application St);
  framer_ : Framer.t;
  dispatcher_ : dispatcher St;
  sessions_ : gset Z
}.

Arguments mk_mgr {_}.
Arguments ownerWorkerId_ {_} _.
Arguments recvRingCapacity_ {_} _.
Arguments sendRingCapacity_ {_} _.
Arguments localCounter_ {_} _.
Arguments idleTimeoutMs_ {_} _.
Arguments heartbeatIntervalMs_ {_} _.
Arguments app_ {_} _.
Arguments framer_ {_} _.
Arguments dispatcher_ {_} _.
Arguments sessions_ {_} _.

Record Metrics := mk_metrics {
  currentConnections_ : Z;
  rxMessagesTotal_ : Z;
  errorsTotal_ : Z
}.

(** The kernel's side of a connection: bytes to be received, bytes sent. *)
Record conn := mk_conn { rx_queue : list byte; tx_wire : list byte }.

Inductive recv_res := RecvSome (k : Z) | RecvFin | RecvErr (e : Z).
Inductive send_res := SendSome (k : Z) | SendErr (e : Z).

Inductive event :=
| EvStart (h : SessionHandle)
| EvEnd (h : SessionHandle)
| EvMessage (sid : Z) (payload : list byte)
| EvSend (sid op : Z) (body : list byte) (ok : bool).

Record world (St : Type) := mk_world {
  cw : Z;
  mgr : Manager St;
  heap : gmap Z Session;
  fdContexts_ : gmap Z FdContext;
  kern : gmap Z conn;
  metrics : Metrics;
  timers : list (Z * timer_cb);
  app_state : St;
  o_recv : list recv_res;
  o_send : list send_res;
  o_ctl : list (option Z);
  o_clock : list Z;
  now_ : Z;
  trace : list event
}.

Arguments mk_world {_}.
Arguments cw {_} _.
Arguments mgr {_} _.
Arguments heap {_} _.
Arguments fdContexts_ {_} _.
Arguments kern {_} _.
Arguments metrics {_} _.
Arguments timers {_} _.
Arguments app_state {_} _.
Arguments o_recv {_} _.
Arguments o_send {_} _.
Arguments o_ctl {_} _.
Arguments o_clock {_} _.
Arguments now_ {_} _.
Arguments trace {_} _.

(* ------------------------------------------------------------------ *)
(** ** Effects *)

(** [Ok]: returned.  [Abort]: the process ended ([std::abort], an exception
    out of a [noexcept] function) or a dead object was used.  [NoFuel]: the
    bound on loops and nested calls was too small. *)
Inductive result (St A : Type) : Type :=
| Ok (a : A) (w : world St)
| Abort
| NoFuel.

Arguments Ok {_ _} _ _.
Arguments Abort {_ _}.
Arguments NoFuel {_ _}.

Definition M (St A : Type) : Type := world St -> result St A.

Definition ret {St A} (a : A) : M St A := fun w => Ok a w.
Definition bind {St A B} (m : M St A) (f : A -> M St B) : M St B := fun w =>
  match m w with
  | Ok a w' => f a w'
  | Abort => Abort
  | NoFuel => NoFuel
  end.
Definition abort {St A} : M St A := fun _ => Abort.
Definition no_fuel {St A} : M St A := fun _ => NoFuel.
Definition gets {St A} (f : world St -> A) : M St A := fun w => Ok (f w) w.
Definition modify {St} (f : world St -> world St) : M St unit := fun w => Ok tt (f w).

Declare Scope eff_scope.
Delimit Scope eff_scope with eff.
Notation "x <-- m ;; f" := (bind m (fun x => f))
  (at level 90, m at level 89, f at level 200, right associativity) : eff_scope.
Notation "m ;;; f" := (bind m (fun _ => f))
  (at level 90, f at level 200, right associativity) : eff_scope.
Open Scope eff_scope.

Section Effects.
Context {St : Type}.
Implicit Types (w : world St).

Definition set_mgr w (m : Manager St) : world St :=
  mk_world (cw w) m (heap w) (fdContexts_ w) (kern w) (metrics w) (timers w) (app_state w)
    (o_recv w) (o_send w) (o_ctl w) (o_clock w) (now_ w) (trace w).
Definition set_heap w (h : gmap Z Session) : world St :=
  mk_world (cw w) (mgr w) h (fdContexts_ w) (kern w) (metrics w) (timers w) (app_state w)
    (o_recv w) (o_send w) (o_ctl w) (o_clock w) (now_ w) (trace w).
Definition set_fds w (m : gmap Z FdContext) : world St :=
  mk_world (cw w) (mgr w) (heap w) m (kern w) (metrics w) (timers w) (app_state w)
    (o_recv w) (o_send w) (o_ctl w) (o_clock w) (now_ w) (trace w).
Definition set_kern w (k : gmap Z conn) : world St :=
  mk_world (cw w) (mgr w) (heap w) (fdContexts_ w) k (metrics w) (timers w) (app_state w)
    (o_recv w) (o_send w) (o_ctl w) (o_clock w) (now_ w) (trace w).
Definition set_metrics w (m : Metrics) : world St :=
  mk_world (cw w) (mgr w) (heap w) (fdContexts_ w) (kern w) m (timers w) (app_state w)
    (o_recv w) (o_send w) (o_ctl w) (o_clock w) (now_ w) (trace w).
Definition set_timers w (l : list (Z * timer_cb)) : world St :=
  mk_world (cw w) (mgr w) (heap w) (fdContexts_ w) (kern w) (metrics w) l (app_state w)
    (o_recv w) (o_send w) (o_ctl w) (o_clock w) (now_ w) (trace w).
Definition set_app w (s : St) : world St :=
  mk_world (cw w) (mgr w) (heap w) (fdContexts_ w) (kern w) (metrics w) (timers w) s
    (o_recv w) (o_send w) (o_ctl w) (o_clock w) (now_ w) (trace w).
Definition set_recv w (l : list recv_res) : world St :=
  mk_world (cw w) (mgr w) (heap w) (fdContexts_ w) (kern w) (metrics w) (timers w) (app_state w)
    l (o_send w) (o_ctl w) (o_clock w) (now_ w) (trace w).
Definition set_send w (l : list send_res) : world St :=
  mk_world (cw w) (mgr w) (heap w) (fdContexts_ w) (kern w) (metrics w) (timers w) (app_state w)
    (o_recv w) l (o_ctl w) (o_clock w) (now_ w) (trace w).
Definition set_ctl w (l : list (option Z)) : world St :=
  mk_world (cw w) (mgr w) (heap w) (fdContexts_ w) (kern w) (metrics w) (timers w) (app_state w)
    (o_recv w) (o_send w) l (o_clock w) (now_ w) (trace w).
Definition set_clock w (l : list Z) (now : Z) : world St :=
  mk_world (cw w) (mgr w) (heap w) (fdContexts_ w) (kern w) (metrics w) (timers w) (app_state w)
    (o_recv w) (o_send w) (o_ctl w) l now (trace w).
Definition add_trace w (e : event) : world St :=
  mk_world (cw w) (mgr w) (heap w) (fdContexts_ w) (kern w) (metrics w) (timers w) (app_state w)
    (o_recv w) (o_send w) (o_ctl w) (o_clock w) (now_ w) (trace w ++ [e]).

Definition set_sessions (m : Manager St) (t : gset Z) : Manager St :=
  mk_mgr (ownerWorkerId_ m) (recvRingCapacity_ m) (sendRingCapacity_ m) (localCounter_ m)
    (idleTimeoutMs_ m) (heartbeatIntervalMs_ m) (app_ m) (framer_ m) (dispatcher_ m) t.
Definition set_framer (m : Manager St) (f : Framer.t) : Manager St :=
  mk_mgr (ownerWorkerId_ m) (recvRingCapacity_ m) (sendRingCapacity_ m) (localCounter_ m)
    (idleTimeoutMs_ m) (heartbeatIntervalMs_ m) (app_ m) f (dispatcher_ m) (sessions_ m).
Definition set_counter (m : Manager St) (k : Z) : Manager St :=
  mk_mgr (ownerWorkerId_ m) (recvRingCapacity_ m) (sendRingCapacity_ m) k
    (idleTimeoutMs_ m) (heartbeatIntervalMs_ m) (app_ m) (framer_ m) (dispatcher_ m) (sessions_ m).

Definition emit (e : event) : M St unit := modify (fun w => add_trace w e).

(** Access to a session object through its pointer. *)
Definition obj (sid : Z) : M St Session := fun w =>
  match heap w !! sid with Some s => Ok s w | None => Abort end.
Definition update (sid : Z) (f : Session -> Session) : M St unit := fun w =>
  match heap w !! sid with
  | Some s => Ok tt (set_heap w (<[sid := f s]> (heap w)))
  | None => Abort
  end.

(* ------------------------------------------------------------------ *)
(** ** Metrics *)

Definition onConnectionOpened : M St unit :=
  modify (fun w => let m := metrics w in
    set_metrics w (mk_metrics (currentConnections_ m + 1) (rxMessagesTotal_ m) (errorsTotal_ m))).
Definition onConnectionClosed : M St unit :=
  modify (fun w => let m := metrics w in
    set_metrics w (mk_metrics (currentConnections_ m - 1) (rxMessagesTotal_ m) (errorsTotal_ m))).
Definition onRxMessage : M St unit :=
  modify (fun w => let m := metrics w in
    set_metrics w (mk_metrics (currentConnections_ m) (u64 (rxMessagesTotal_ m + 1)) (errorsTotal_ m))).
Definition onError : M St unit :=
  modify (fun w => let m := metrics w in
    set_metrics w (mk_metrics (currentConnections_ m) (rxMessagesTotal_ m) (u64 (errorsTotal_ m + 1)))).

(* ------------------------------------------------------------------ *)
(** ** System calls *)

(** [steady_clock::now()]. *)
Definition clock_now : M St Z := fun w =>
  match o_clock w with
  | [] => Ok (now_ w) w
  | d :: rest => let t := now_ w + Z.max 0 d in Ok t (set_clock w rest t)
  end.

(** [epoll_ctl]: [None] is success, [Some e] a failure with [errno = e]. *)
Definition epoll_ctl : M St (option Z) := fun w =>
  match o_ctl w with
  | [] => Ok None w
  | r :: rest => Ok r (set_ctl w rest)
  end.

(** [recvmsg] into areas of [space] bytes: [inl bytes], or [inr errno]. *)
Definition recvmsg (fd space : Z) : M St (list byte + Z) := fun w =>
  match o_recv w with
  | [] => Ok (inr EAGAIN) w
  | r :: rest =>
      let w1 := set_recv w rest in
      match r, kern w !! fd with
      | _, None => Ok (inr EBADF) w1
      | RecvErr e, _ => Ok (inr e) w1
      | RecvFin, _ => Ok (inl []) w1
      | RecvSome k, Some c =>
          let n := Z.min k (Z.min space (zlen (rx_queue c))) in
          if n <=? 0 then Ok (inr EAGAIN) w1 else
          Ok (inl (ztake n (rx_queue c)))
             (set_kern w1 (<[fd := mk_conn (zdrop n (rx_queue c)) (tx_wire c)]> (kern w)))
      end
  end.

(** [sendmsg] / [writev] of [bytes]: [inl n], or [inr errno]. *)
Definition sendmsg (fd : Z) (bytes : list byte) : M St (Z + Z) := fun w =>
  match o_send w with
  | [] => Ok (inr EAGAIN) w
  | r :: rest =>
      let w1 := set_send w rest in
      match r, kern w !! fd with
      | _, None => Ok (inr EBADF) w1
      | SendErr e, _ => Ok (inr e) w1
      | SendSome k, Some c =>
          let n := Z.max 0 (Z.min k (zlen bytes)) in
          Ok (inl n)
             (set_kern w1 (<[fd := mk_conn (rx_queue c) (tx_wire c ++ ztake n bytes)]> (kern w)))
      end
  end.

(* ------------------------------------------------------------------ *)
(** ** EventLoop *)

(** The loop is bound to the thread of the worker that owns the manager. *)
Definition isInOwnerThread w : bool := cw w =? ownerWorkerId_ (mgr w).

Definition assertInOwnerThread_ : M St unit :=
  own <-- gets isInOwnerThread ;; if own then ret tt else abort.

(** [EpollReactor]: [None] for [true], [Some errno] for [false]. *)
Definition registerFd (fd : Z) : M St (option Z) := if fd <? 0 then ret (Some EBADF) else epoll_ctl.
Definition modifyFd (fd : Z) : M St (option Z) := if fd <? 0 then ret (Some EBADF) else epoll_ctl.
Definition unregisterFd (fd : Z) : M St (option Z) := if fd <? 0 then ret (Some EBADF) else epoll_ctl.

(** [EventLoop::addFd] over [EpollReactor::registerFd]; the result is [None]
    for [true] and [Some errno] for [false]. *)
Definition addFd (fd events : Z) (handler : FdHandler) : M St (option Z) :=
  assertInOwnerThread_ ;;;
  if fd <? 0 then ret (Some EBADF) else
  r <-- registerFd fd ;;
  match r with
  | Some e => ret (Some e)
  | None =>
      modify (fun w => set_fds w (<[fd := mk_fdctx handler events]> (fdContexts_ w))) ;;;
      ret None
  end.

(** [EventLoop::updateFd] over [EpollReactor::modifyFd]. *)
Definition updateFd (fd events : Z) : M St (option Z) :=
  assertInOwnerThread_ ;;;
  if fd <? 0 then ret (Some EBADF) else
  m <-- gets fdContexts_ ;;
  match m !! fd with
  | None => ret (Some ENOENT)
  | Some ctx =>
      r <-- modifyFd fd ;;
      match r with
      | Some e => ret (Some e)
      | None =>
          modify (fun w => set_fds w (<[fd := mk_fdctx (fc_handler ctx) events]> (fdContexts_ w))) ;;;
          ret None
      end
  end.

(** [EventLoop::removeFd] over [EpollReactor::unregisterFd]. *)
Definition removeFd (fd : Z) : M St bool :=
  assertInOwnerThread_ ;;;
  if fd <? 0 then ret false else
  r <-- unregisterFd fd ;;
  modify (fun w => set_fds w (delete fd (fdContexts_ w))) ;;;
  ret (match r with None => true | Some _ => false end).

(** [EventLoop::addTimer], the delay in milliseconds. *)
Definition addTimer (delay : Z) (cb : timer_cb) : M St unit :=
  assertInOwnerThread_ ;;;
  modify (fun w => set_timers w (timers w ++ [(delay, cb)])).

End Effects.

End World.
