(* ===== verification/EventLoop.v ===== *)
(** * EventLoop: one iteration after the other, and waking the worker up

    Models the run loop of [EventLoop]: draining the tasks, ticking, waiting in
    [epoll_wait], dispatching the ready events, and the wake-up descriptor by
    which another thread's [post] ends the wait.

    The loop's thread, the threads that post, the kernel and the code the loop
    calls (tasks, timer callbacks, handlers) take turns in any order; the
    state says where the loop's thread is.  [post] is two steps for another
    thread, the push and the write to the eventfd, and anything may happen
    between them. *)

From S2P Require Import Prelude World.
Import World.

Module EventLoop.

(* ------------------------------------------------------------------ *)
(** ** State *)

(** Who handles a descriptor: the loop itself, for the eventfd, or a handler
    known by a name. *)
Inductive handler := Wakeup | Handler (h : Z).

#[export] Instance handler_eq_dec : EqDecision handler.
Proof. solve_decision. Defined.

Record ReadyEvent := mk_event { ev_fd : Z; ev_events : Z }.

(** A queued task: its name, whether its [std::function] is empty, and whether
    the loop's own thread posted it. *)
Record task := mk_task { t_name : Z; t_null : bool; t_own : bool }.

(** Where the loop's thread is. *)
Inductive phase :=
| Unbound
| Test
| Drain1
| Tick1
| Polling
| Dispatch (evs : list ReadyEvent)
| Tick2
| Drain2
| Stopped.

(** What the loop did, newest first. *)
Inductive entry :=
| LRun (t : task)
| LDispatch (h : Z) (ev : ReadyEvent)
| LDropped (ev : ReadyEvent)
| LWait (evs : list (ReadyEvent * option handler)).

Record state := mk_state {
  taskQueue_ : list task;
  fdContexts_ : gmap Z handler;
  wakeupFd_ : Z;
  counter : Z;            (** value of the eventfd *)
  ready : bool;           (** the eventfd is in the ready list of epoll *)
  inflight : Z;           (** posts pushed and not yet signalled *)
  pc : phase;
  busy : bool;            (** called code is running *)
  running : bool;         (** the flag [run] tests *)
  readySize : Z;          (** [readyEvents_.size()] *)
  tickRes : Z;
  posted : list task;     (** every task ever pushed, oldest first *)
  log : list entry
}.

Definition EVENTFD_MAX : Z := 18446744073709551614.

(** The constructor, with the eventfd the kernel gave. *)
Definition create (tickResolution maxEpollEvents fd : Z) : option state :=
  if fd <? 0 then None
  else Some (mk_state [] ∅ fd 0 false 0 Unbound false true
               (if maxEpollEvents <=? 0 then 64 else maxEpollEvents) tickResolution [] []).

Section Setters.
Variable s : state.

Definition set_queue (x : list task) : state :=
  mk_state x (fdContexts_ s) (wakeupFd_ s) (counter s) (ready s) (inflight s) (pc s) (busy s) (running s) (readySize s) (tickRes s) (posted s) (log s).
Definition set_fds (x : gmap Z handler) : state :=
  mk_state (taskQueue_ s) x (wakeupFd_ s) (counter s) (ready s) (inflight s) (pc s) (busy s) (running s) (readySize s) (tickRes s) (posted s) (log s).
Definition set_wake (c : Z) (r : bool) : state :=
  mk_state (taskQueue_ s) (fdContexts_ s) (wakeupFd_ s) c r (inflight s) (pc s) (busy s) (running s) (readySize s) (tickRes s) (posted s) (log s).
Definition set_inflight (x : Z) : state :=
  mk_state (taskQueue_ s) (fdContexts_ s) (wakeupFd_ s) (counter s) (ready s) x (pc s) (busy s) (running s) (readySize s) (tickRes s) (posted s) (log s).
Definition goto (x : phase) : state :=
  mk_state (taskQueue_ s) (fdContexts_ s) (wakeupFd_ s) (counter s) (ready s) (inflight s) x (busy s) (running s) (readySize s) (tickRes s) (posted s) (log s).
Definition set_busy (x : bool) : state :=
  mk_state (taskQueue_ s) (fdContexts_ s) (wakeupFd_ s) (counter s) (ready s) (inflight s) (pc s) x (running s) (readySize s) (tickRes s) (posted s) (log s).
Definition set_running (x : bool) : state :=
  mk_state (taskQueue_ s) (fdContexts_ s) (wakeupFd_ s) (counter s) (ready s) (inflight s) (pc s) (busy s) x (readySize s) (tickRes s) (posted s) (log s).
Definition add_posted (t : task) : state :=
  mk_state (taskQueue_ s) (fdContexts_ s) (wakeupFd_ s) (counter s) (ready s) (inflight s) (pc s) (busy s) (running s) (readySize s) (tickRes s) (posted s ++ [t]) (log s).
Definition emit (e : entry) : state :=
  mk_state (taskQueue_ s) (fdContexts_ s) (wakeupFd_ s) (counter s) (ready s) (inflight s) (pc s) (busy s) (running s) (readySize s) (tickRes s) (posted s) (e :: log s).

End Setters.

(* ------------------------------------------------------------------ *)
(** ** Posting and waking up *)

(** [taskQueue_.push]. *)
Definition push (s : state) (t : task) : state := add_posted (set_queue s (taskQueue_ s ++ [t])) t.

(** [post]: the loop's own thread only pushes; another thread has yet to
    signal. *)
Definition post (s : state) (t : task) : state :=
  if t_own t then push s t else set_inflight (push s t) (inflight s + 1).

Inductive write_res := WOk | WIntr | WAgain | WError.

(** The eventfd takes a one when its value allows; a write makes it ready. *)
Definition eventfd_write (s : state) : state := set_wake s (counter s + 1) true.

(** [signalWakeup_] under the answers of [write]; [None] when they end before
    the loop does. *)
Fixpoint signalWakeup_ (s : state) (answers : list write_res) : option state :=
  if wakeupFd_ s <? 0 then Some s
  else
    match answers with
    | [] => None
    | WOk :: _ => Some (eventfd_write s)
    | WIntr :: rest => signalWakeup_ s rest
    | WAgain :: _ => Some s
    | WError :: _ => Some s
    end.

(** What the kernel answers to a write of one to an eventfd: interruptions,
    then success, or [EAGAIN] when the value would exceed its maximum. *)
Definition write_ok (s : state) (answers : list write_res) : bool :=
  match List.filter (fun a => match a with WIntr => false | _ => true end) answers with
  | WOk :: _ => counter s <? EVENTFD_MAX
  | WAgain :: _ => EVENTFD_MAX <=? counter s
  | _ => false
  end.

(** [drainWakeupFd_] reads until [EAGAIN]: the value is zero afterwards. *)
Definition drainWakeupFd_ (s : state) : state := if wakeupFd_ s <? 0 then s else set_wake s 0 (ready s).

Definition handleWakeupEvent_ (s : state) (ev : ReadyEvent) : state :=
  if has_flag (ev_events ev) EPOLLIN then drainWakeupFd_ s else s.

(** [bindToCurrentThread] and [installWakeupFd_]; [None] is [std::abort]. *)
Definition installWakeupFd_ (s : state) (addOk : bool) : option state :=
  if bool_decide (fdContexts_ s !! wakeupFd_ s = Some Wakeup) then Some s
  else if wakeupFd_ s <? 0 then None
  else if addOk then Some (set_fds s (<[wakeupFd_ s := Wakeup]> (fdContexts_ s))) else None.

(* ------------------------------------------------------------------ *)
(** ** The loop *)

Definition INT_MAX : Z := 2147483647.

Definition computePollTimeoutMs (s : state) : Z :=
  if tickRes s <=? 0 then 1 else if INT_MAX <? tickRes s then INT_MAX else tickRes s.

(** One turn of [drainTasks]; [next] is where the loop goes when it is done. *)
Definition drain_step (s : state) (next : phase) : state :=
  match taskQueue_ s with
  | [] => goto s next
  | t :: rest =>
      let s := set_queue s rest in
      if t_null t then emit s (LRun t) else set_busy (emit s (LRun t)) true
  end.

(** One turn of the dispatch loop of [runOnce]. *)
Definition dispatch_step (s : state) (evs : list ReadyEvent) : state :=
  match evs with
  | [] => goto s Tick2
  | ev :: rest =>
      let s := goto s (Dispatch rest) in
      match fdContexts_ s !! ev_fd ev with
      | None => emit s (LDropped ev)
      | Some Wakeup => handleWakeupEvent_ s ev
      | Some (Handler h) => set_busy (emit s (LDispatch h ev)) true
      end
  end.

(** What [epoll_wait] may answer: at most as many events as fit, of registered
    descriptors; the eventfd is reported as readable, and only when it is in the
    ready list with a value to read; the answer is not empty while it is. *)
Definition wait_ok (s : state) (evs : list ReadyEvent) : bool :=
  (zlen evs <=? readySize s) &&
  forallb (fun ev => bool_decide (is_Some (fdContexts_ s !! ev_fd ev)) &&
                     (negb (ev_fd ev =? wakeupFd_ s) || (ready s && (0 <? counter s) && has_flag (ev_events ev) EPOLLIN))) evs &&
  bool_decide (NoDup (map ev_fd evs)) &&
  (negb (ready s && (0 <? counter s)) || negb (match evs with [] => true | _ => false end)).

Definition reports_wakeup (s : state) (evs : list ReadyEvent) : bool :=
  existsb (fun ev => ev_fd ev =? wakeupFd_ s) evs.

(** [reactor_.wait] returned [evs]. *)
Definition wait_returns (s : state) (evs : list ReadyEvent) : state :=
  let s := set_wake s (counter s) (ready s && (0 <? counter s) && negb (reports_wakeup s evs)) in
  emit (goto s (Dispatch evs)) (LWait (map (fun ev => (ev, fdContexts_ s !! ev_fd ev)) evs)).

Inductive action :=
| ABind (addOk : bool)
| ALoop                                (** the loop's thread goes on *)
| AWait (evs : list ReadyEvent)        (** [epoll_wait] returns *)
| AWaitFails                           (** [epoll_wait] fails *)
| ATimerCb                             (** a timer's callback starts *)
| AReturn                              (** called code returns *)
| APost (name : Z) (null own : bool)
| ASignal (answers : list write_res)
| AAddFd (fd h : Z)
| ARemoveFd (fd : Z)
| AStop.

(** The next state, [None] when the action is not possible. *)
Definition step (s : state) (x : action) : option state :=
  match x with
  | ABind addOk =>
      match pc s with Unbound => (fun s => goto s Test) <$> installWakeupFd_ s addOk | _ => None end
  | ALoop =>
      if busy s then None
      else
        match pc s with
        | Test => Some (goto s (if running s then Drain1 else Stopped))
        | Drain1 => Some (drain_step s Tick1)
        | Tick1 => Some (goto s Polling)
        | Dispatch evs => Some (dispatch_step s evs)
        | Tick2 => Some (goto s Drain2)
        | Drain2 => Some (drain_step s Test)
        | _ => None
        end
  | AWait evs => match pc s with Polling => if wait_ok s evs then Some (wait_returns s evs) else None | _ => None end
  | AWaitFails => match pc s with Polling => Some (goto s Tick2) | _ => None end
  | ATimerCb => if busy s then None else match pc s with Tick1 | Tick2 => Some (set_busy s true) | _ => None end
  | AReturn => if busy s then Some (set_busy s false) else None
  | APost name null own =>
      if own && negb (busy s) then None else Some (post s (mk_task name null own))
  | ASignal answers =>
      if (0 <? inflight s) && write_ok s answers
      then (fun s => set_inflight s (inflight s - 1)) <$> signalWakeup_ s answers else None
  | AAddFd fd h => if busy s && negb (fd =? wakeupFd_ s) then Some (set_fds s (<[fd := Handler h]> (fdContexts_ s))) else None
  | ARemoveFd fd => if busy s && negb (fd =? wakeupFd_ s) then Some (set_fds s (delete fd (fdContexts_ s))) else None
  | AStop => Some (set_running s false)
  end.

Fixpoint run (s : state) (xs : list action) : option state :=
  match xs with
  | [] => Some s
  | x :: xs => match step s x with Some s' => run s' xs | None => None end
  end.

(* ------------------------------------------------------------------ *)
(** ** Invariant *)

Definition ran (e : entry) : option task := match e with LRun t => Some t | _ => None end.
(** The tasks run so far, oldest first. *)
Definition executed (s : state) : list task := rev (omap ran (log s)).

(** The loop will not drain again before it waits. *)
Definition before_wait (p : phase) : bool := match p with Tick1 | Polling => true | _ => false end.

Definition wake_queued (s : state) : Prop :=
  match pc s with Dispatch evs => exists ev, ev ∈ evs /\ ev_fd ev = wakeupFd_ s | _ => False end.

Record inv (s : state) : Prop := {
  i_fifo : executed s ++ taskQueue_ s = posted s;
  i_wake : pc s <> Unbound -> fdContexts_ s !! wakeupFd_ s = Some Wakeup;
  i_only : forall fd, fdContexts_ s !! fd = Some Wakeup -> fd = wakeupFd_ s;
  i_fd : 0 <= wakeupFd_ s;
  i_value : 0 <= counter s;
  i_counter : 0 < counter s -> ready s = true \/ wake_queued s;
  i_inflight : 0 <= inflight s;
  i_pending : before_wait (pc s) = true -> forall t, t ∈ taskQueue_ s -> t_own t = false -> 0 < inflight s \/ ready s = true /\ 0 < counter s;
  i_dispatch : match pc s with Dispatch evs => Forall (fun ev => ev_fd ev = wakeupFd_ s -> has_flag (ev_events ev) EPOLLIN = true) evs | _ => True end;
  i_busy : busy s = true -> match pc s with Drain1 | Tick1 | Dispatch _ | Tick2 | Drain2 => True | _ => False end
}.

Lemma create_inv tick maxEvents fd s : create tick maxEvents fd = Some s -> inv s.
Proof.
  unfold create. destruct (fd <? 0) eqn:E; [done |]. intros [= <-]. b2p. split; cbn; try done; try lia.
Qed.

Lemma drain_inv s next :
  inv s -> busy s = false -> (pc s = Drain1 /\ next = Tick1) \/ (pc s = Drain2 /\ next = Test) -> inv (drain_step s next).
Proof.
  intros [F W O Fd V C N P D B] Hb Hp. unfold drain_step. destruct (taskQueue_ s) as [| t rest] eqn:E.
  - unfold wake_queued in C. destruct Hp as [[E1 ->] | [E1 ->]]; rewrite E1 in *; split; cbn; rewrite ?E, ?Hb; auto; try done;
      try (by intros _; apply W); try (intros _ t; set_solver).
  - assert (before_wait (pc s) = false) as Hw by (destruct Hp as [[-> _] | [-> _]]; done).
    assert (inv (emit (set_queue s rest) (LRun t))) as I.
    { split; auto; [unfold executed in *; cbn; rewrite <- F, <- app_assoc; done |]. cbn. by rewrite Hw. }
    destruct (t_null t); [done |]. destruct I. split; auto. cbn. intros _. destruct Hp as [[-> _] | [-> _]]; done.
Qed.

Lemma dispatch_inv s evs : inv s -> busy s = false -> pc s = Dispatch evs -> inv (dispatch_step s evs).
Proof.
  intros [F W O Fd V C N P D B] Hb Hp. rewrite Hp in *. unfold wake_queued in C. rewrite Hp in C. unfold dispatch_step.
  specialize (W ltac:(done)). destruct evs as [| ev rest].
  - split; cbn; rewrite ?Hb; auto; try done. unfold wake_queued. cbn. intros H. destruct (C H) as [? | (e & I & _)]; [by left | set_solver].
  - apply Forall_cons in D as [D1 D]. cbn.
    assert (fdContexts_ s !! ev_fd ev <> Some Wakeup -> inv (goto s (Dispatch rest))) as I.
    { intros Hne. split; cbn; rewrite ?Hb; auto; try done. intros H. unfold wake_queued. cbn. destruct (C H) as [? | (e & Ie & Ee)]; [by left |].
      right. exists e. apply elem_of_cons in Ie as [-> | Ie]; [congruence | done]. }
    destruct (fdContexts_ s !! ev_fd ev) as [[| h] |] eqn:E.
    + apply O in E. unfold handleWakeupEvent_, drainWakeupFd_. rewrite D1 by done. cbn. rewrite (proj2 (Z.ltb_ge _ _) Fd).
      split; cbn; rewrite ?Hb; auto; try done; try lia.
    + destruct (I ltac:(done)). by split.
    + destruct (I ltac:(done)). by split.
Qed.

Lemma wait_inv s evs : inv s -> pc s = Polling -> wait_ok s evs = true -> inv (wait_returns s evs).
Proof.
  intros [F W O Fd V C N P D B] Hp Hw. rewrite Hp in *. specialize (W ltac:(done)).
  unfold wait_ok in Hw. b2p. unfold wait_returns. split; cbn; auto; try done.
  - unfold wake_queued in *. rewrite Hp in C. cbn. intros Hc. destruct (C Hc) as [Hr | ?]; [| done]. rewrite Hr, (proj2 (Z.ltb_lt _ _) Hc). cbn.
    destruct (reports_wakeup s evs) eqn:Er; [right | by left].
    unfold reports_wakeup in Er. apply existsb_exists in Er as (ev & I & E). exists ev. b2p. by rewrite list_elem_of_In.
  - apply Forall_forall. intros ev I Ew. match goal with H : forallb _ _ = true |- _ => rewrite forallb_forall in H; specialize (H ev); rename H into Ha end.
    rewrite list_elem_of_In in I. specialize (Ha I). b2p. destruct_or?; b2p; done.
Qed.

Lemma signal_spec s answers s' :
  signalWakeup_ s answers = Some s' -> write_ok s answers = true -> 0 <= wakeupFd_ s ->
  s' = eventfd_write s \/ s' = s /\ EVENTFD_MAX <= counter s.
Proof.
  intros E K P. induction answers as [| a rest IH]; [done |]. cbn in E. rewrite (proj2 (Z.ltb_ge _ _) P) in E.
  unfold write_ok in K. destruct a; cbn in K; try done; b2p.
  - injection E as <-. by left.
  - by apply IH.
  - injection E as <-. by right.
Qed.

Lemma signal_inv s answers s' :
  inv s -> 0 < inflight s -> write_ok s answers = true -> signalWakeup_ s answers = Some s' ->
  inv (set_inflight s' (inflight s' - 1)).
Proof.
  intros I Hi K E. destruct (signal_spec _ _ _ E K (i_fd _ I)) as [-> | [-> Hm]]; destruct I as [F W O Fd V C N P D B];
    assert (wake_queued s -> before_wait (pc s) = false) as Hq by (unfold wake_queued; by destruct (pc s)); split; cbn; auto with lia.
  - intros Hw t Ht Ho. right. unfold EVENTFD_MAX in Hm. split; [| lia]. destruct (C ltac:(lia)) as [? | Q]; [done |]. rewrite (Hq Q) in Hw. done.
Qed.

Lemma loop_step_inv s x s' : inv s -> step s x = Some s' -> inv s'.
Proof.
  intros I. destruct x; cbn.
  - destruct (pc s) eqn:Hp; try done. intros (s1 & E & ->)%fmap_Some. unfold installWakeupFd_ in E.
    destruct I as [F W O Fd V C N P D B]. unfold wake_queued in C. rewrite Hp in *.
    destruct (bool_decide _) eqn:Eb; [| destruct (_ <? 0); [done |]; destruct addOk; [| done]]; b2p; injection E as <-; split; cbn; auto; try done.
    + intros _. by rewrite lookup_insert_eq.
    + intros fd L. apply lookup_insert_Some in L as [[<- _] | [_ L]]; auto.
  - destruct (busy s) eqn:Hb; [done |]. destruct (pc s) eqn:Hp; try done; intros [= <-].
    + destruct I as [F W O Fd V C N P D B]. unfold wake_queued in C. rewrite Hp in *. destruct (running s); split; cbn; rewrite ?Hb; auto; try done.
    + apply drain_inv; auto.
    + destruct I as [F W O Fd V C N P D B]. unfold wake_queued in C. rewrite Hp in *. split; cbn; rewrite ?Hb; auto; done.
    + by apply dispatch_inv.
    + destruct I as [F W O Fd V C N P D B]. unfold wake_queued in C. rewrite Hp in *. split; cbn; rewrite ?Hb; auto; done.
    + apply drain_inv; auto.
  - destruct (pc s) eqn:Hp; try done. destruct (wait_ok s evs) eqn:Hw; [| done]. intros [= <-]. by apply wait_inv.
  - destruct (pc s) eqn:Hp; try done. intros [= <-].
    destruct I as [F W O Fd V C N P D B]. unfold wake_queued in C. rewrite Hp in *. split; cbn; auto; try done.
  - destruct (busy s); [done |]. destruct (pc s) eqn:Hp; try done; intros [= <-]; destruct I; split; cbn; rewrite ?Hp in *; auto.
  - destruct (busy s); [| done]. intros [= <-]. by destruct I; split.
  - destruct (own && negb (busy s)) eqn:Eo; [done |]. intros [= <-]. destruct I as [F W O Fd V C N P D B]. unfold post. cbn.
    destruct own; split; cbn; auto; try lia; try (rewrite <- F; unfold executed; cbn; by rewrite app_assoc).
    intros Hw t. rewrite elem_of_app, list_elem_of_singleton. intros [Ht | ->] Ho; [by eapply P | done].
  - destruct ((0 <? inflight s) && write_ok s answers) eqn:E; [| done]. b2p. intros (s1 & E & ->)%fmap_Some. by eapply signal_inv.
  - destruct (busy s && _) eqn:E; [| done]. intros [= <-]. b2p. destruct I as [F W O Fd V C N P D B]. split; cbn; auto.
    + intros Hu. rewrite lookup_insert_ne by done. auto.
    + intros g L. apply lookup_insert_Some in L as [[_ ?] | [_ L]]; [done | auto].
  - destruct (busy s && _) eqn:E; [| done]. intros [= <-]. b2p. destruct I as [F W O Fd V C N P D B]. split; cbn; auto.
    + intros Hu. rewrite lookup_delete_ne by done. auto.
    + intros g L. apply lookup_delete_Some in L as [_ L]. auto.
  - intros [= <-]. by destruct I; split.
Qed.

Lemma loop_run_inv xs : forall s s', inv s -> run s xs = Some s' -> inv s'.
Proof.
  induction xs as [| x xs IH]; intros s s' I; cbn; [by intros [= <-] |].
  destruct (step s x) as [s1 |] eqn:E; [| done]. apply IH. by eapply loop_step_inv.
Qed.

(* ------------------------------------------------------------------ *)
(** ** Theorems *)

Lemma loop_run_app xs ys s : run s (xs ++ ys) = match run s xs with Some s' => run s' ys | None => None end.
Proof. revert s. induction xs as [| x xs IH]; intros s; [done |]. cbn. destruct (step s x); [apply IH | done]. Qed.

Lemma signal_queue s answers s' :
  signalWakeup_ s answers = Some s' -> posted s' = posted s /\ log s' = log s /\ pc s' = pc s /\ taskQueue_ s' = taskQueue_ s.
Proof.
  induction answers as [| a rest IH]; cbn; [destruct (_ <? _); [by intros [= <-] | done] |].
  destruct (_ <? _); [by intros [= <-] |]. destruct a; [by intros [= <-] | exact IH | by intros [= <-] | by intros [= <-]].
Qed.

(** The history only grows, and the loop is about to wait only with the tasks
    posted before [l] done. *)
Record drained (l : list task) (s : state) : Prop := {
  dr_posted : l `prefix_of` posted s;
  dr_done : before_wait (pc s) = true -> l `prefix_of` executed s
}.

Lemma drained_grow l s s' :
  drained l s -> posted s `prefix_of` posted s' -> executed s `prefix_of` executed s' ->
  (before_wait (pc s') = true -> before_wait (pc s) = true) -> drained l s'.
Proof.
  intros [A B] P E W. split; [by transitivity (posted s) |]. intros H. transitivity (executed s); auto.
Qed.

Lemma drained_idle l s s' : drained l s -> posted s' = posted s -> executed s' = executed s ->
  (before_wait (pc s') = true -> before_wait (pc s) = true) -> drained l s'.
Proof. intros D P E W. eapply drained_grow; eauto; rewrite ?P, ?E; done. Qed.

Lemma step_drained l s x s' : inv s -> drained l s -> step s x = Some s' -> drained l s'.
Proof.
  intros I D. destruct x; cbn.
  - destruct (pc s) eqn:Hp; try done. intros (s1 & E & ->)%fmap_Some. unfold installWakeupFd_ in E.
    destruct (bool_decide _); [| destruct (_ <? 0); [done |]; destruct addOk; [| done]]; injection E as <-; by eapply drained_idle.
  - destruct (busy s) eqn:Hb; [done |]. destruct (pc s) eqn:Hp; try done; intros [= <-].
    + eapply drained_idle; eauto. cbn. by destruct (running s).
    + unfold drain_step. destruct (taskQueue_ s) as [| t rest] eqn:Eq.
      * pose proof (i_fifo _ I) as F. rewrite Eq, app_nil_r in F. split; [apply D |]. intros _.
        unfold executed in *. cbn. rewrite F. apply D.
      * assert (executed s `prefix_of` executed s ++ [t]) as Hp' by (by apply prefix_app_r).
        destruct (t_null t); (eapply drained_grow; eauto; cbn; rewrite Hp; done).
    + eapply drained_idle; eauto. by rewrite Hp.
    + unfold dispatch_step, handleWakeupEvent_, drainWakeupFd_. destruct evs as [| ev rest]; [by eapply drained_idle |].
      cbn. destruct (fdContexts_ s !! ev_fd ev) as [[| h] |]; [| by eapply drained_idle | by eapply drained_idle].
      destruct (has_flag _ _); [cbn; destruct (_ <? _) |]; by eapply drained_idle.
    + by eapply drained_idle.
    + unfold drain_step. destruct (taskQueue_ s) as [| t rest] eqn:Eq; [by eapply drained_idle |].
      assert (executed s `prefix_of` executed s ++ [t]) as Hp' by (by apply prefix_app_r).
      destruct (t_null t); (eapply drained_grow; eauto; cbn; rewrite Hp; done).
  - destruct (pc s) eqn:Hp; try done. destruct (wait_ok s evs); [| done]. intros [= <-]. by eapply drained_idle.
  - destruct (pc s) eqn:Hp; try done. intros [= <-]. by eapply drained_idle.
  - destruct (busy s); [done |]. destruct (pc s) eqn:Hp; try done; intros [= <-]; by eapply drained_idle.
  - destruct (busy s); [| done]. intros [= <-]. by eapply drained_idle.
  - destruct (own && negb (busy s)); [done |]. intros [= <-]. unfold post, push. cbn.
    destruct own; (eapply drained_grow; eauto; cbn; by apply prefix_app_r).
  - destruct ((0 <? inflight s) && write_ok s answers); [| done]. intros (s1 & E & ->)%fmap_Some.
    apply signal_queue in E as (E1 & E2 & E3 & _). eapply drained_idle; eauto; unfold executed; cbn; rewrite ?E2, ?E3; done.
  - destruct (busy s && _); [| done]. intros [= <-]. by eapply drained_idle.
  - destruct (busy s && _); [| done]. intros [= <-]. by eapply drained_idle.
  - intros [= <-]. by eapply drained_idle.
Qed.

Lemma run_drained l xs : forall s s', inv s -> drained l s -> run s xs = Some s' -> drained l s'.
Proof.
  induction xs as [| x xs IH]; intros s s' I D; cbn; [by intros [= <-] |].
  destruct (step s x) as [s1 |] eqn:E; [| done]. apply IH; [by eapply loop_step_inv | by eapply step_drained].
Qed.

(** C14: under any interleaving of the loop, the posting threads and the kernel,
    posted tasks run exactly once, in the order posted; while a task of another
    thread is queued, the loop waits in [epoll_wait] only as long as its poster
    has not signalled yet: after that the wait cannot end empty, as by its
    timeout; and between one wait and the next, however the first ends, every
    task posted before it returned is run. *)
Theorem posted_tasks_run tick maxEvents fd s0 xs s :
  create tick maxEvents fd = Some s0 -> run s0 xs = Some s ->
  executed s ++ taskQueue_ s = posted s /\
  (pc s = Polling -> inflight s = 0 -> forall t, t ∈ taskQueue_ s -> t_own t = false ->
     ready s = true /\ 0 < counter s /\ forall evs, wait_ok s evs = true -> evs <> []) /\
  (forall x s1 ys s2, pc s = Polling -> step s x = Some s1 -> pc s1 <> Polling -> run s1 ys = Some s2 -> pc s2 = Polling ->
     posted s `prefix_of` executed s2).
Proof.
  intros Hc Hr. pose proof (loop_run_inv xs s0 s (create_inv _ _ _ _ Hc) Hr) as I. split_and!.
  - apply I.
  - intros Hp Hi t Ht Ho. destruct (i_pending _ I) with (t := t) as [| [Er Ec]]; [by rewrite Hp | done | done | lia |].
    split_and!; [done | done |]. intros evs Hw ->. unfold wait_ok in Hw. b2p. rewrite Er in *.
    rewrite (proj2 (Z.ltb_lt _ _) Ec) in *. cbn in *. destruct_or?; done.
  - intros x s1 ys s2 Hp E Hn Hr2 Hp2. assert (before_wait (pc s1) = false /\ posted s1 = posted s) as [Hb Hpo].
    { destruct x; cbn in E; rewrite ?Hp in E; try done; try (by destruct (busy s)); try (destruct (busy s && _); simplify_eq; cbn in *; congruence).
      - destruct (wait_ok s evs); [| done]. by simplify_eq.
      - by simplify_eq.
      - destruct (busy s); simplify_eq; cbn in *; congruence.
      - destruct (own && _); [done |]. simplify_eq. unfold post in Hn. cbn in Hn. destruct own; cbn in Hn; congruence.
      - destruct (_ && _); [| done]. apply fmap_Some in E as (s3 & E & ->). apply signal_queue in E as (_ & _ & E3 & _). cbn in Hn. congruence.
      - by simplify_eq. }
    pose proof (loop_step_inv _ _ _ I E) as I1. rewrite <- Hpo.
    eapply (dr_done _ _ (run_drained (posted s1) ys s1 s2 I1 _ Hr2)). by rewrite Hp2.
    Unshelve. split; [done |]. by rewrite Hb.
Qed.

(** The loop waits; two threads post; one has signalled. *)
Definition woken_run : list action :=
  [ABind true; ALoop; ALoop; ALoop; APost 1 false false; APost 2 false false; ASignal [WIntr; WOk]; ASignal [WOk]].

Definition loop0 : state := mk_state [] ∅ 4 0 false 0 Unbound false true 64 10 [] [].

Definition woken : state := match run loop0 woken_run with Some s => s | None => loop0 end.

(** From the wait to the next one. *)
Definition woken_again : list action :=
  [ALoop; ALoop; ALoop; ALoop; AReturn; ALoop; AReturn; ALoop; ALoop; ALoop; ALoop].

Definition woken1 : state := match step woken (AWait [mk_event 4 1]) with Some s => s | None => loop0 end.
Definition woken2 : state := match run woken1 woken_again with Some s => s | None => loop0 end.

Lemma posted_tasks_run_witness :
  executed woken ++ taskQueue_ woken = posted woken /\
  (forall evs, wait_ok woken evs = true -> evs <> []) /\
  posted woken `prefix_of` executed woken2.
Proof.
  destruct (posted_tasks_run 10 64 4 loop0 woken_run woken) as (A & B & C); [reflexivity | vm_compute; reflexivity |].
  split_and!.
  - exact A.
  - destruct (B ltac:(vm_compute; reflexivity) ltac:(vm_compute; reflexivity) (mk_task 1 false false)) as (_ & _ & H);
      [vm_compute; left | reflexivity | exact H].
  - apply (C (AWait [mk_event 4 1]) woken1 woken_again woken2);
      [vm_compute; reflexivity | vm_compute; reflexivity | vm_compute; discriminate | vm_compute; reflexivity | vm_compute; reflexivity].
Defined.

(** Descriptor 7 belongs to handler 70; both 5 and 7 become ready; the handler
    of 5 closes 7 and the number is used again for handler 71. *)
Definition stale_run : list action :=
  [ABind true; ALoop; APost 1 false false; ALoop; AAddFd 5 50; AAddFd 7 70; AReturn; ALoop; ALoop;
   AWait [mk_event 5 1; mk_event 7 16]; ALoop; ARemoveFd 7; AAddFd 7 71; AReturn; ALoop].

(** An event is dispatched by the number of its descriptor alone: one that
    was reported for a descriptor that is closed, and its number used again,
    while the batch is dispatched, reaches the new handler. *)
Theorem stale_event_reaches_new_handler :
  exists s, run loop0 stale_run = Some s /\
    In (LWait [(mk_event 5 1, Some (Handler 50)); (mk_event 7 16, Some (Handler 70))]) (log s) /\
    In (LDispatch 71 (mk_event 7 16)) (log s).
Proof. eexists. split; [vm_compute; reflexivity |]. split; cbn; tauto. Qed.

End EventLoop.
