(* ===== verification/Acceptor.v ===== *)
(** * Acceptor: taking connections off the listening socket

    Models the event handler of [Acceptor]: the accept loop over a
    non-blocking, edge-triggered listening socket and the removal of the
    listener on an error event.  The kernel's queue of completed connections
    is a list; a connection may have been aborted by its peer while queued. *)

From stdpp Require Import strings.
From S2P Require Import Prelude World.
Import World.

Module Acceptor.

(* ------------------------------------------------------------------ *)
(** ** The kernel's side *)

Definition ECONNABORTED : Z := 103.
Definition EMFILE : Z := 24.

Record PeerEndpoint := mk_peer { ip : string; port : Z }.

(** A queued connection: the descriptor it will get and its peer, or aborted. *)
Inductive queued := Good (fd : Z) (p : PeerEndpoint) | Aborted.

(** What may go wrong with one call of [accept]: a signal, or no descriptor
    left; neither takes a connection from the queue. *)
Inductive fault := Intr | NoFile.

(** One [accept4]: the connection or an errno, and the queue left. *)
Definition accept (backlog : list queued) (f : option fault) : (Z * PeerEndpoint + Z) * list queued :=
  match f with
  | Some Intr => (inr EINTR, backlog)
  | Some NoFile => (inr EMFILE, backlog)
  | None =>
      match backlog with
      | [] => (inr EAGAIN, [])
      | Good fd p :: rest => (inl (fd, p), rest)
      | Aborted :: rest => (inr ECONNABORTED, rest)
      end
  end.

(* ------------------------------------------------------------------ *)
(** ** The handler *)

(** The listener: its socket (-1 when closed), whether it is registered with
    the loop, the kernel's queue, and the connections handed to [onAccept_]
    with the non-blocking flag set, newest last. *)
Record state := mk_state {
  listenSocket_ : Z;
  registered : bool;
  backlog : list queued;
  accepted : list (Z * PeerEndpoint)
}.

Definition set_backlog (s : state) (b : list queued) : state := mk_state (listenSocket_ s) (registered s) b (accepted s).
Definition onAccept_ (s : state) (c : Z * PeerEndpoint) : state := mk_state (listenSocket_ s) (registered s) (backlog s) (accepted s ++ [c]).

(** [acceptOne]: with the socket closed it fails with [EBADF]. *)
Definition acceptOne (s : state) (f : option fault) : (Z * PeerEndpoint + Z) * state :=
  if listenSocket_ s <? 0 then (inr EBADF, s)
  else let '(r, b) := accept (backlog s) f in (r, set_backlog s b).

(** Why the loop of [onReadable_] ended. *)
Inductive stop := Empty | Failed (errno : Z) | OutOfFuel.

(** [onReadable_]; [faults] gives what goes wrong with each call in turn, and
    nothing after its end. *)
Fixpoint onReadable_ (fuel : nat) (s : state) (faults : list (option fault)) : stop * state :=
  match fuel with
  | O => (OutOfFuel, s)
  | S fuel =>
      match acceptOne s (default None (head faults)) with
      | (inl c, s) => onReadable_ fuel (onAccept_ s c) (tail faults)
      | (inr errno, s) =>
          if errno =? EAGAIN then (Empty, s)
          else if errno =? EINTR then onReadable_ fuel s (tail faults)
          else (Failed errno, s)
      end
  end.

(** [onError_]: the listener is removed from the loop and closed. *)
Definition onError_ (s : state) : state := mk_state (-1) false (backlog s) (accepted s).

Definition handleEvent (fuel : nat) (s : state) (events : Z) (faults : list (option fault)) : stop * state :=
  if has_flag events (Z.lor EPOLLERR (Z.lor EPOLLHUP EPOLLRDHUP)) then (Empty, onError_ s)
  else if has_flag events EPOLLIN then onReadable_ fuel s faults
  else (Empty, s).

(* ------------------------------------------------------------------ *)
(** ** Theorems *)

Definition good (q : queued) : option (Z * PeerEndpoint) := match q with Good fd p => Some (fd, p) | Aborted => None end.

(** Calls the loop can make: one per queued connection and per fault, and the
    last. *)
Definition enough (s : state) (faults : list (option fault)) : nat := S (length (backlog s) + length faults).

Lemma onReadable_step fuel s faults : 0 <= listenSocket_ s ->
  onReadable_ (S fuel) s faults =
  match default None (head faults) with
  | Some Intr => onReadable_ fuel s (tail faults)
  | Some NoFile => (Failed EMFILE, s)
  | None =>
      match backlog s with
      | [] => (Empty, s)
      | Good fd p :: rest => onReadable_ fuel (onAccept_ (set_backlog s rest) (fd, p)) (tail faults)
      | Aborted :: rest => (Failed ECONNABORTED, set_backlog s rest)
      end
  end.
Proof.
  intros P. cbn [onReadable_]. unfold acceptOne. rewrite (proj2 (Z.ltb_ge _ _) P).
  destruct s as [l r b a]; cbn. destruct (default None (head faults)) as [[|] |]; cbn; try done.
  by destruct b as [| [fd p |] rest].
Qed.

(** The loop accepts a prefix of the queue, in order, and says why it ended. *)
Lemma accept_loop_spec fuel : forall s faults,
  0 <= listenSocket_ s -> (enough s faults <= fuel)%nat ->
  exists taken st s', onReadable_ fuel s faults = (st, s') /\ st <> OutOfFuel /\
    accepted s' = accepted s ++ taken /\ listenSocket_ s' = listenSocket_ s /\ registered s' = registered s /\
    match st with
    | Empty => backlog s' = [] /\ map Some taken = map good (backlog s)
    | Failed errno => (exists rest, map good (backlog s) = map Some taken ++ map good rest /\
        (backlog s' = rest \/ rest = Aborted :: backlog s')) /\
        (errno = EMFILE /\ Some NoFile ∈ faults \/ errno = ECONNABORTED /\ Aborted ∈ backlog s)
    | OutOfFuel => False
    end.
Proof.
  induction fuel as [| fuel IH]; intros s faults P F; [unfold enough in F; lia |].
  rewrite onReadable_step by done. unfold enough in F.
  assert (length (tail faults) <= length faults)%nat as Ht by (destruct faults; cbn; lia).
  assert (forall x, x ∈ tail faults -> x ∈ faults) as Hin by (destruct faults; [done | cbn; intros; by right]).
  destruct (default None (head faults)) as [[|] |] eqn:Ef.
  - assert (length (tail faults) < length faults)%nat as Hl by (destruct faults; [done | cbn; lia]).
    destruct (IH s (tail faults) P) as (taken & st & s' & E & Hn & Ha & Hl' & Hr & Hs); [unfold enough; lia |].
    exists taken, st, s'. split_and!; auto. destruct st; [done | | done]. destruct Hs as [Hs [[? ?] | ?]]; auto 6.
  - exists [], (Failed EMFILE), s. rewrite app_nil_r. split_and!; try done; [exists (backlog s); by split; [| left] |].
    left. split; [done |]. destruct faults as [| [[|] |] l]; cbn in Ef; try done. by left.
  - destruct (backlog s) as [| [fd p |] rest] eqn:Eb.
    + exists [], Empty, s. rewrite app_nil_r. by split_and!.
    + destruct (IH (onAccept_ (set_backlog s rest) (fd, p)) (tail faults)) as (taken & st & s' & E & Hn & Ha & Hl & Hr & Hs);
        [done | unfold enough; cbn in *; lia |].
      exists ((fd, p) :: taken), st, s'. split_and!; auto; [by rewrite Ha; cbn; rewrite <- app_assoc |].
      cbn in Hs. destruct st; [| | done].
      * destruct Hs as [-> Hs]. split; [done |]. cbn. by rewrite Hs.
      * destruct Hs as [(r & Hs & Hb) Hf]. split; [exists r; cbn; by rewrite Hs |].
        destruct Hf as [[? ?] | [? ?]]; [auto | right; split; [done | by right]].
    + exists [], (Failed ECONNABORTED), (set_backlog s rest). rewrite app_nil_r. split_and!; try done.
      * exists (Aborted :: rest). split; [done | by right].
      * right. split; [done | by left].
Qed.

(** The accept loop ends, and whatever calls are interrupted, when no
    queued connection was aborted and descriptors do not run out, it hands
    every queued connection to the callback, once and in order, and leaves the
    queue empty; in any case the connections handed over are the first of the
    queue; an error event unregisters and closes the listener. *)
Theorem accept_drains_backlog s events faults :
  0 <= listenSocket_ s -> has_flag events (Z.lor EPOLLERR (Z.lor EPOLLHUP EPOLLRDHUP)) = false -> has_flag events EPOLLIN = true ->
  let '(st, s') := handleEvent (enough s faults) s events faults in
  st <> OutOfFuel /\
  (exists taken rest, accepted s' = accepted s ++ taken /\ map good (backlog s) = map Some taken ++ map good rest) /\
  (Aborted ∉ backlog s -> Some NoFile ∉ faults ->
     st = Empty /\ backlog s' = [] /\ map Some (accepted s') = map Some (accepted s) ++ map good (backlog s)) /\
  (forall ev, has_flag ev (Z.lor EPOLLERR (Z.lor EPOLLHUP EPOLLRDHUP)) = true ->
     handleEvent (enough s faults) s ev faults = (Empty, onError_ s) /\ registered (onError_ s) = false).
Proof.
  intros P He Hi. unfold handleEvent at 1. rewrite He, Hi.
  destruct (accept_loop_spec (enough s faults) s faults P ltac:(done)) as (taken & st & s' & E & Hn & Ha & _ & _ & Hs).
  rewrite E. split_and!.
  - done.
  - exists taken. destruct st; [exists []; destruct Hs as [_ Hs]; rewrite Hs, app_nil_r; done | | done].
    destruct Hs as [(rest & Hs & _) _]. by exists rest.
  - intros Na Nf. destruct st; [| destruct Hs as [_ [[_ ?] | [_ ?]]]; done | done].
    destruct Hs as [Hb Hs]. split_and!; [done | done |]. by rewrite Ha, map_app, Hs.
  - intros ev Hev. unfold handleEvent. by rewrite Hev.
Qed.

Definition peer0 : PeerEndpoint := mk_peer "10.0.0.9" 41000.

Definition two_waiting : state := mk_state 6 true [Good 11 peer0; Good 12 peer0] [].

Lemma accept_drains_backlog_witness :
  let '(st, s') := handleEvent (enough two_waiting [Some Intr]) two_waiting EPOLLIN [Some Intr] in
  st = Empty /\ backlog s' = [] /\ map Some (accepted s') = [Some (11, peer0); Some (12, peer0)].
Proof.
  pose proof (accept_drains_backlog two_waiting EPOLLIN [Some Intr]) as H.
  destruct (handleEvent (enough two_waiting [Some Intr]) two_waiting EPOLLIN [Some Intr]) as [st s'].
  destruct H as (_ & _ & H & _); [vm_compute; congruence | vm_compute; reflexivity | vm_compute; reflexivity |].
  apply H; cbn; rewrite !elem_of_cons, elem_of_nil; naive_solver.
Defined.

(** A queued connection that was aborted ends the loop with the ones behind
    it still queued; the listening socket is edge-triggered, so nothing reports
    them until another connection arrives. *)
Theorem aborted_connection_stalls_accept rest :
  let s := mk_state 6 true (Aborted :: rest) [] in
  handleEvent (enough s []) s EPOLLIN [] = (Failed ECONNABORTED, mk_state 6 true rest []).
Proof. reflexivity. Qed.

End Acceptor.
