(* ===== verification/Listener.v ===== *)
(** * Listener: setting up and taking down a worker's listening socket

    Models the constructor of [Acceptor] with [refreshBoundPort] and
    [fillPeerEndpoint], and the listener part of [WorkerContext]:
    [configureListener], [installListenerInWorkerThread_] and
    [cleanupListenerInWorkerThread_], over the sockets of [Socket] and the
    descriptors registered with the worker's loop. *)

From stdpp Require Import strings.
From S2P Require Import Prelude Socket World.
Import Socket.

Module Listener.

Section Listener.
Context (inet_pton : string -> option Z).

(* ------------------------------------------------------------------ *)
(** ** Acceptor *)

Record acceptor := mk_acceptor {
  listenAddress_ : string;
  listenPort_ : Z;
  backlog_ : Z
}.

(** The member [listenSocket_], and the temporary of an assignment. *)
Definition listenSocket_ : nat := 0.
Definition temporary : nat := 1.

(** The port the kernel reports for a bound descriptor: the one asked for, or
    one of the kernel's choice ([n]) when that was 0. *)
Definition bound_port (d : descr) (n : Z) : option Z :=
  match d_family d, d_bound d with
  | AF_INET, Some a => Some (if sin_port a =? 0 then u16 n else sin_port a)
  | _, _ => None
  end.

(** [refreshBoundPort]: the new value of [listenPort_]. *)
Definition refreshBoundPort (port : Z) : M Z :=
  fd <-- fd_ listenSocket_;
  if fd <? 0 then ret port
  else
    n <-- sys_on fd (fun d => d);
    if n =? -1 then ret port
    else
      p <-- gets (fun w => d ← fds w !! fd; bound_port d n);
      ret (match p with Some sin_port => ntohs sin_port | None => port end).

(** An exception from the constructor: the member's destructor runs, the
    exception carries [errno]. *)
Definition throwSysError : M (acceptor + Z) :=
  e <-- gets errno; destroy listenSocket_;;; ret (inr e).

(** [if (!call) throw]. *)
Definition or_throw (c : M bool) (k : M (acceptor + Z)) : M (acceptor + Z) :=
  ok <-- c; if ok then k else throwSysError.

(** [listenSocket_ = Socket::createTcpIPv4()], after the member's own
    constructor. *)
Definition open_socket : M unit :=
  construct listenSocket_ (-1);;;
  createTcp AF_INET temporary;;; move_assign listenSocket_ temporary;;; destroy temporary.

Definition Acceptor (address : string) (port backlog : Z) (reusePort : bool) : M (acceptor + Z) :=
  open_socket;;;
  or_throw (isValid listenSocket_) (
  or_throw (setReuseAddr listenSocket_ true) (
  or_throw (if reusePort then setReusePort listenSocket_ true else ret true) (
  or_throw (bind inet_pton listenSocket_ address port) (
  port <-- refreshBoundPort port;
  or_throw (listen listenSocket_ backlog) (
  ret (inl (mk_acceptor address port backlog))))))).

(** The peer's address as the kernel gives it. *)
Inductive peer_addr := Peer4 (addr port : Z) | Peer6 (addr port : Z) | PeerOther.

(** [fillPeerEndpoint], with the two forms of [inet_ntop]. *)
Definition fillPeerEndpoint (ntop4 ntop6 : Z -> option string) (sa : option peer_addr) : string * Z :=
  match sa with
  | Some (Peer4 a p) => (default "unknown"%string (ntop4 a), ntohs p)
  | Some (Peer6 a p) => (default "unknown"%string (ntop6 a), ntohs p)
  | Some PeerOther | None => ("unknown"%string, 0)
  end.

(* ------------------------------------------------------------------ *)
(** ** The worker *)

Record ListenerConfig := mk_config { address : string; port : Z; backlog : Z; reusePort : bool }.

Record context := mk_context {
  sockets : world;
  registered : gmap Z Z;             (** descriptor and event mask *)
  acceptor_ : option acceptor;
  listenerConfig_ : ListenerConfig;
  busy : bool                        (** [running_] or a joinable thread *)
}.

Definition set_sockets c w := mk_context w (registered c) (acceptor_ c) (listenerConfig_ c) (busy c).
Definition set_registered c r := mk_context (sockets c) r (acceptor_ c) (listenerConfig_ c) (busy c).
Definition set_acceptor c a := mk_context (sockets c) (registered c) a (listenerConfig_ c) (busy c).

(** Runs an effect on the worker's sockets. *)
Definition on_sockets {A} (m : M A) (c : context) : A * context :=
  let '(a, w) := m (sockets c) in (a, set_sockets c w).

Definition configureListener (c : context) (cfg : ListenerConfig) : context :=
  if busy c then c else mk_context (sockets c) (registered c) (acceptor_ c) cfg (busy c).

Definition acceptMask : Z := World.baseEpollMask_.

(** [EventLoop::addFd] and [removeFd]. *)
Definition addFd (fd : Z) (c : context) : bool * context :=
  let '(r, c) := on_sockets ask c in
  match r with
  | None => (false, c)
  | Some _ => (true, set_registered c (<[fd := acceptMask]> (registered c)))
  end.
Definition removeFd (fd : Z) (c : context) : context := set_registered c (delete fd (registered c)).

(** [acceptor_.reset()] runs the destructor of the socket. *)
Definition reset_acceptor (c : context) : context :=
  match acceptor_ c with
  | None => c
  | Some _ => set_acceptor (snd (on_sockets (destroy listenSocket_) c)) None
  end.

Definition installListenerInWorkerThread_ (c : context) : bool * context :=
  let cfg := listenerConfig_ c in
  if port cfg =? 0 then (true, c) else
  match on_sockets (Acceptor (address cfg) (port cfg) (backlog cfg) (reusePort cfg)) c with
  | (inr _, c) => (false, set_acceptor c None)
  | (inl a, c) =>
      let c := set_acceptor c (Some a) in
      let c := snd (on_sockets (setNonBlocking listenSocket_ true) c) in
      let '(listenFd, c) := on_sockets (fd_ listenSocket_) c in
      let '(ok, c) := addFd listenFd c in
      if ok then (true, c)
      else (false, reset_acceptor (snd (on_sockets (close listenSocket_) c)))
  end.

Definition cleanupListenerInWorkerThread_ (c : context) : context :=
  match acceptor_ c with
  | None => c
  | Some _ =>
      let '(fd, c) := on_sockets (fd_ listenSocket_) c in
      let c := if 0 <=? fd then removeFd fd c else c in
      reset_acceptor (snd (on_sockets (close listenSocket_) c))
  end.

(* ------------------------------------------------------------------ *)
(** ** Executing the constructor *)

(** A kernel that lets every call succeed. *)
Definition healthy (l : list answer) : Prop := Forall (fun a => match a with Fine _ => True | Fails _ => False end) l.

Lemma healthy_first n : forall l, healthy l -> fst (first_error n l) = None /\ healthy (snd (first_error n l)).
Proof. induction n as [| n IH]; intros [| [m | e] l] H; cbn; try done. all: inversion H; subst; try done; by apply IH. Qed.

(** The worlds while the listener is being set up: those of [w0] with one more
    descriptor, which the member holds. *)
Record setup (w0 w : world) (fd : Z) (d : descr) : Prop := {
  setup_fds : fds w = <[fd := d]> (fds w0);
  setup_objs : objs w = <[listenSocket_ := fd]> (objs w0);
  setup_foreign : foreign w = foreign w0;
  setup_misuse : misuse w = misuse w0;
  setup_script : healthy (script w0) -> healthy (script w)
}.

(** Nothing is left of it. *)
Definition restored (w0 w : world) : Prop :=
  fds w = fds w0 /\ objs w = objs w0 /\ foreign w = foreign w0 /\ misuse w = misuse w0.

(** A descriptor and names that are free. *)
Record ready (w0 : world) (fd : Z) : Prop := {
  ready_fd : fds w0 !! fd = None;
  ready_pos : 0 <= fd;
  ready_foreign : fd ∉ foreign w0;
  ready_names : objs w0 !! listenSocket_ = None /\ objs w0 !! temporary = None
}.

Lemma setup_open w0 w fd d : setup w0 w fd d -> objs w !! listenSocket_ = Some fd /\ fds w !! fd = Some d.
Proof. intros [F O _ _ _]. rewrite F, O. by rewrite !lookup_insert_eq. Qed.

Lemma setup_call w0 w fd d c f : ready w0 fd -> setup w0 w fd d -> effect inet_pton c = Some f ->
  let '(ok, w') := do_call inet_pton c listenSocket_ w in
  setup w0 w' fd (if ok then f d else d) /\ (healthy (script w0) -> ok = true).
Proof.
  intros Rd S E. destruct (setup_open _ _ _ _ S) as [L D]. rewrite (calls_reference inet_pton c listenSocket_ fd w L) by by rewrite D.
  unfold reference. pose proof (ready_pos _ _ Rd). zb_eval. rewrite E. destruct S as [F O G U Sc].
  pose proof (healthy_first (syscalls c) (script w)) as Hf.
  destruct (first_error _ _) as [[e |] rest]; (split; [split |]); cbn in *; try done; try (by intros []%Sc%Hf).
  by rewrite (alter_insert f fd d), F, insert_insert_eq.
Qed.

Lemma setup_malformed w0 w fd d ip p : ready w0 fd -> setup w0 w fd d -> inet_pton ip = None ->
  bind inet_pton listenSocket_ ip p w = (false, set_errno w EINVAL).
Proof.
  intros Rd S E. destruct (setup_open _ _ _ _ S) as [L D].
  change (bind inet_pton listenSocket_ ip p) with (do_call inet_pton (CBind ip p) listenSocket_).
  rewrite (calls_reference inet_pton _ listenSocket_ fd w L) by by rewrite D.
  unfold reference. pose proof (ready_pos _ _ Rd). zb_eval. cbn. by rewrite E.
Qed.

(** Closing or destroying the member. *)
Lemma setup_close w0 w fd d : ready w0 fd -> setup w0 w fd d ->
  let w' := snd (close listenSocket_ w) in
  fds w' = fds w0 /\ objs w' = <[listenSocket_ := -1]> (objs w0) /\ foreign w' = foreign w0 /\ misuse w' = misuse w0.
Proof.
  intros [Rf Rp Ro _] [F O G U _]. unfold close, after, fd_, gets. rewrite O, lookup_insert_eq. cbn. zb_eval.
  unfold sys_close. rewrite F, lookup_insert_eq. rewrite decide_False by by rewrite G. cbn.
  rewrite F, O, G, insert_insert_eq, delete_insert_id by done. split_and!; auto. set_solver.
Qed.

Lemma destroy_closed w0 w : objs w0 !! listenSocket_ = None ->
  fds w = fds w0 -> objs w = <[listenSocket_ := -1]> (objs w0) -> foreign w = foreign w0 -> misuse w = misuse w0 ->
  restored w0 (snd (destroy listenSocket_ w)).
Proof.
  intros N F O G U. unfold destroy, close, after, fd_, gets. rewrite O, lookup_insert_eq. cbn.
  rewrite O, delete_insert_id by done. done.
Qed.

Lemma setup_destroy w0 w fd d : ready w0 fd -> setup w0 w fd d -> restored w0 (snd (destroy listenSocket_ w)).
Proof.
  intros Rd S. destruct (setup_close _ _ _ _ Rd S) as (F & O & G & U). unfold destroy, after.
  destruct (close listenSocket_ w) as [[] w1]. cbn in *. destruct (ready_names _ _ Rd) as [N _].
  split_and!; cbn; try done. by rewrite O, delete_insert_id.
Qed.

Lemma ready_world w0 : inv w0 -> objs w0 !! listenSocket_ = None -> objs w0 !! temporary = None -> ready w0 (lowest (fds w0)).
Proof.
  intros I N0 N1. destruct (lowest_spec (fds w0)) as [N P]. split; auto.
  intros [d D]%(inv_out _ I). congruence.
Qed.

(** The temporary hands its descriptor, if any, to the member. *)
Lemma hand_over w0 w fd : objs w0 !! temporary = None -> fd = -1 \/ 0 <= fd ->
  objs w = <[temporary := fd]> (<[listenSocket_ := -1]> (objs w0)) ->
  snd ((move_assign listenSocket_ temporary;;; destroy temporary) w) = set_objs w (<[listenSocket_ := fd]> (objs w0)).
Proof.
  intros N P O. unfold move_assign. rewrite decide_False by done.
  unfold destroy, close, after, fd_, gets. rewrite O.
  rewrite lookup_insert_ne, lookup_insert_eq by done. cbn. rewrite O, lookup_insert_eq. cbn.
  rewrite lookup_insert_eq. cbn. unfold set_objs; cbn. f_equal. rewrite delete_insert_eq. apply map_eq. intros x. destruct (decide (x = listenSocket_)) as [-> |].
  - rewrite lookup_delete_ne, !lookup_insert_eq by done. done.
  - destruct (decide (x = temporary)) as [-> |].
    + by rewrite lookup_delete_eq, lookup_insert_ne.
    + by rewrite lookup_delete_ne, !lookup_insert_ne by done.
Qed.

Lemma createTcp_spec f x w : exists fd w', createTcp f x w = (tt, w') /\ objs w' = <[x := fd]> (objs w) /\
  foreign w' = foreign w /\ misuse w' = misuse w /\
  ((fd = -1 /\ fds w' = fds w /\ ~ healthy (script w)) \/
   (fd = lowest (fds w) /\ fds w' = <[fd := fresh_descr f 0]> (fds w) /\ (healthy (script w) -> healthy (script w')))).
Proof.
  destruct (lowest_spec (fds w)) as [_ P]. apply Z.ltb_ge in P.
  unfold createTcp, sys_new, after, ask. destruct (script w) as [| [n | e] rest] eqn:Es; cbn; rewrite ?P.
  1,2: do 2 eexists; split; [reflexivity |]; cbn; split_and!; auto; right; split_and!; auto; (by rewrite Es || by inversion 1).
  do 2 eexists. split; [reflexivity |]. cbn. split_and!; auto. left. split_and!; auto. by inversion 1.
Qed.

Lemma open_socket_spec w0 : ready w0 (lowest (fds w0)) ->
  let w := snd (open_socket w0) in
  setup w0 w (lowest (fds w0)) (fresh_descr AF_INET 0) \/
  (fds w = fds w0 /\ objs w = <[listenSocket_ := -1]> (objs w0) /\ foreign w = foreign w0 /\ misuse w = misuse w0 /\ ~ healthy (script w0)).
Proof.
  intros [_ Rp _ [N0 N1]]. cbv zeta.
  destruct (createTcp_spec AF_INET temporary (set_objs w0 (<[listenSocket_ := -1]> (objs w0)))) as (fd & w2 & E & O & G & U & Hfd).
  assert (snd (open_socket w0) = set_objs w2 (<[listenSocket_ := fd]> (objs w0))) as ->.
  { rewrite <- (hand_over w0 w2 fd N1) by first [exact O | destruct Hfd as [(-> & _) | (-> & _)]; auto].
    unfold open_socket, construct, set_fd_, modify, after. by rewrite E. }
  destruct Hfd as [(-> & F & N) | (-> & F & Sc)]; [right | left; split]; done.
Qed.

(** How the constructor ends: with the descriptor set up, or with nothing. *)
Definition constructed (w0 : world) (cfg : ListenerConfig) (r : (acceptor + Z) * world) : Prop :=
  match r with
  | (inr _, w) => restored w0 w /\ (healthy (script w0) -> inet_pton (address cfg) = None)
  | (inl a, w) =>
      exists d addr, setup w0 w (lowest (fds w0)) d /\ inet_pton (address cfg) = Some addr /\
        d_family d = AF_INET /\ d_flags d = 0 /\ d_opts d = (if reusePort cfg then [SO_REUSEPORT; SO_REUSEADDR] else [SO_REUSEADDR]) /\
        d_bound d = Some (mk_addr addr (htons (port cfg))) /\ d_backlog d = Some (backlog cfg) /\
        a = mk_acceptor (address cfg) (port cfg) (backlog cfg)
  end.

Lemma thrown cfg w0 w d : ready w0 (lowest (fds w0)) -> setup w0 w (lowest (fds w0)) d ->
  (healthy (script w0) -> inet_pton (address cfg) = None) -> constructed w0 cfg (throwSysError w).
Proof. intros Rd S Hh. unfold throwSysError, after, gets. pose proof (setup_destroy _ _ _ _ Rd S) as H. by destruct (destroy listenSocket_ w). Qed.

(** A call of the constructor and what follows it. *)
Lemma call_or_throw cfg w0 w d c f k : ready w0 (lowest (fds w0)) -> setup w0 w (lowest (fds w0)) d ->
  effect inet_pton c = Some f ->
  (forall w', setup w0 w' (lowest (fds w0)) (f d) -> constructed w0 cfg (k w')) ->
  constructed w0 cfg (or_throw (do_call inet_pton c listenSocket_) k w).
Proof.
  intros Rd S E K. unfold or_throw, after. pose proof (setup_call _ _ _ _ c f Rd S E) as H.
  destruct (do_call inet_pton c listenSocket_ w) as [[] w'], H as [S' Hh]; [by apply K |].
  eapply thrown; [done | done |]. by intros Hk%Hh.
Qed.

Lemma swap16_swap p : 0 <= p < 65536 -> swap16 (swap16 p) = p.
Proof.
  intros P. unfold swap16. rewrite !Z.shiftl_mul_pow2, !Z.shiftr_div_pow2 by lia. change (2 ^ 8) with 256.
  assert (forall q, 0 <= q < 65536 -> Z.lor (u16 (q * 256)) (q / 256) = (q mod 256) * 256 + q / 256) as H.
  { intros q Q. replace (u16 (q * 256)) with (q mod 256 * 2 ^ 8).
    - rewrite lor_low; [lia | lia |]. split; [apply Z.div_pos; lia | apply Z.div_lt_upper_bound; lia].
    - unfold u16. change (2 ^ 8) with 256. rewrite (Z.div_mod q 256) at 2 by lia.
      replace ((256 * (q / 256) + q mod 256) * 256) with (q mod 256 * 256 + (q / 256) * 65536) by lia.
      rewrite Z.mod_add by lia. symmetry. apply Z.mod_small. pose proof (Z.mod_pos_bound q 256). lia. }
  rewrite (H p P). pose proof (Z.mod_pos_bound p 256 ltac:(lia)).
  assert (0 <= p / 256 < 256) by (split; [apply Z.div_pos; lia | apply Z.div_lt_upper_bound; lia]).
  rewrite H by lia. rewrite (Z.add_comm _ (p / 256)), Z.mod_add, Z.mod_small, Z.div_add, (Z.div_small (p / 256)) by lia.
  pose proof (Z.div_mod p 256). lia.
Qed.

Lemma refreshed w0 w fd d addr p : ready w0 fd -> setup w0 w fd d -> d_family d = AF_INET -> 0 < p < 65536 ->
  d_bound d = Some (mk_addr addr (htons p)) ->
  exists w', refreshBoundPort p w = (p, w') /\ setup w0 w' fd d.
Proof.
  intros Rd S Fa P B. destruct (setup_open _ _ _ _ S) as [L D]. unfold refreshBoundPort, after, fd_, gets. rewrite L.
  change (default (-1) (Some fd)) with fd. pose proof (ready_pos _ _ Rd). zb_eval. rewrite (sys_on_open fd _ d w D), insert_id by done.
  destruct S as [F O G U Sc].
  assert (bound_port d = fun _ => Some (htons p)) as Hb.
  { unfold bound_port. rewrite Fa, B. cbn. replace (htons p =? 0) with false; [done |]. symmetry. apply Z.eqb_neq. intros E.
    pose proof (swap16_swap p ltac:(lia)) as H'. unfold htons in E. rewrite E in H'. change (swap16 0) with 0 in H'. lia. }
  assert (forall n w', n <> -1 -> fds w' = fds w -> setup w0 w' fd d -> exists w'',
    (if n =? -1 then ret p else (fun w => ret (match (d ← fds w !! fd; bound_port d n) with Some s => ntohs s | None => p end) w)) w' = (p, w'') /\ setup w0 w'' fd d) as K.
  { intros n w' N E S'. zb_eval. exists w'. unfold ret. rewrite E, D. cbn. rewrite Hb. cbn. split; [f_equal; apply swap16_swap; lia | done]. }
  destruct (script w) as [| [n | e] rest] eqn:E.
  - apply K; [done | done |]. split; try done. cbn. by rewrite E.
  - apply K; [lia | done |]. split; try done. intros H1%Sc. by inversion H1.
  - eexists. split; [reflexivity |]. split; try done. intros H1%Sc. by inversion H1.
Qed.

Lemma acceptor_spec w0 cfg : ready w0 (lowest (fds w0)) -> 0 < port cfg < 65536 ->
  constructed w0 cfg (Acceptor (address cfg) (port cfg) (backlog cfg) (reusePort cfg) w0).
Proof.
  intros Rd P. unfold Acceptor. unfold after at 1. pose proof (open_socket_spec w0 Rd) as H.
  destruct (open_socket w0) as [[] w]; cbn [snd] in H. cbn [fst snd].
  unfold or_throw at 1, after at 1, isValid, after at 1, fd_, gets.
  destruct H as [S | (F & O & G & U & N)].
  2:{ rewrite O, lookup_insert_eq. cbn. unfold throwSysError, after, gets.
      pose proof (destroy_closed w0 w (proj1 (ready_names _ _ Rd)) F O G U). by destruct (destroy listenSocket_ w). }
  rewrite (proj1 (setup_open _ _ _ _ S)). cbn [default from_option ret]. pose proof (ready_pos _ _ Rd). cbn. zb_eval.
  apply (call_or_throw cfg w0 w _ (COption SO_REUSEADDR true) _ _ Rd S eq_refl). clear w S. intros w S.
  set (opts := if reusePort cfg then [SO_REUSEPORT; SO_REUSEADDR] else [SO_REUSEADDR]).
  enough (forall w, setup w0 w (lowest (fds w0)) (mk_descr AF_INET 0 opts None None None) -> constructed w0 cfg
    (or_throw (bind inet_pton listenSocket_ (address cfg) (port cfg))
      (port <-- refreshBoundPort (port cfg); or_throw (listen listenSocket_ (backlog cfg)) (ret (inl (mk_acceptor (address cfg) port (backlog cfg))))) w)) as K.
  { destruct (reusePort cfg).
    - apply (call_or_throw cfg w0 w _ (COption SO_REUSEPORT true) _ _ Rd S eq_refl). intros w' S'. by apply K.
    - by apply K. }
  clear w S. intros w S. destruct (inet_pton (address cfg)) as [addr |] eqn:Ea.
  - eapply (call_or_throw cfg w0 w _ (CBind (address cfg) (port cfg)) _ _ Rd S); [cbn; by rewrite Ea |]. clear w S. intros w S.
    unfold after. edestruct (refreshed w0 w) as (w' & -> & S'); [exact Rd | exact S | done | exact P | done |].
    apply (call_or_throw cfg w0 w' _ (CListen (backlog cfg)) _ _ Rd S' eq_refl). clear w w' S S'. intros w S.
    do 2 eexists. split_and!; [exact S | done..].
  - unfold or_throw, after. rewrite (setup_malformed w0 w _ _ _ _ Rd S Ea).
    eapply thrown; [done | | done]. by destruct S.
Qed.

(** ** Installing and removing *)

(** The worker's listener is closed and its acceptor destroyed. *)
Lemma taken_down w0 c fd d : ready w0 fd -> setup w0 (sockets c) fd d -> is_Some (acceptor_ c) ->
  let c' := reset_acceptor (snd (on_sockets (close listenSocket_) c)) in
  restored w0 (sockets c') /\ registered c' = registered c /\ acceptor_ c' = None.
Proof.
  intros Rd S [a A]. destruct (setup_close _ _ _ _ Rd S) as (F & O & G & U). unfold on_sockets.
  destruct (close listenSocket_ (sockets c)) as [[] w1]. unfold reset_acceptor. cbn in *. rewrite A. unfold on_sockets; cbn.
  pose proof (destroy_closed w0 w1 (proj1 (ready_names _ _ Rd)) F O G U) as H. by destruct (destroy listenSocket_ w1).
Qed.

(** What a listener that runs looks like. *)
Definition listening (c0 c : context) : Prop :=
  let cfg := listenerConfig_ c0 in
  exists fd d addr,
    fds (sockets c0) !! fd = None /\
    fds (sockets c) = <[fd := d]> (fds (sockets c0)) /\ objs (sockets c) = <[listenSocket_ := fd]> (objs (sockets c0)) /\
    registered c = <[fd := acceptMask]> (registered c0) /\
    inet_pton (address cfg) = Some addr /\ d_family d = AF_INET /\
    d_opts d = (if reusePort cfg then [SO_REUSEPORT; SO_REUSEADDR] else [SO_REUSEADDR]) /\
    d_bound d = Some (mk_addr addr (htons (port cfg))) /\ d_backlog d = Some (backlog cfg) /\
    (healthy (script (sockets c0)) -> Z.testbit (d_flags d) 11 = true) /\
    acceptor_ c = Some (mk_acceptor (address cfg) (port cfg) (backlog cfg)).

Lemma setup_ask w0 w fd d : setup w0 w fd d ->
  let '(r, w') := ask w in setup w0 w' fd d /\ (healthy (script w0) -> is_Some r).
Proof.
  intros [F O G U Sc]. unfold ask. destruct (script w) as [| [n | e] rest] eqn:E.
  - split; [split; try done; by rewrite E | by eexists].
  - split; [split; try done; cbn; intros H%Sc; by inversion H | by eexists].
  - split; [split; try done; cbn |]; intros H%Sc; by inversion H.
Qed.

(** The steps after the constructor. *)
Lemma installed c0 c d addr : ready (sockets c0) (lowest (fds (sockets c0))) ->
  setup (sockets c0) (sockets c) (lowest (fds (sockets c0))) d -> registered c = registered c0 ->
  let cfg := listenerConfig_ c0 in
  inet_pton (address cfg) = Some addr -> d_family d = AF_INET -> d_flags d = 0 ->
  d_opts d = (if reusePort cfg then [SO_REUSEPORT; SO_REUSEADDR] else [SO_REUSEADDR]) ->
  d_bound d = Some (mk_addr addr (htons (port cfg))) -> d_backlog d = Some (backlog cfg) ->
  acceptor_ c = Some (mk_acceptor (address cfg) (port cfg) (backlog cfg)) ->
  let '(ok, c') :=
    (let c := snd (on_sockets (setNonBlocking listenSocket_ true) c) in
     let '(listenFd, c) := on_sockets (fd_ listenSocket_) c in
     let '(ok, c) := addFd listenFd c in
     if ok then (true, c) else (false, reset_acceptor (snd (on_sockets (close listenSocket_) c)))) in
  (healthy (script (sockets c0)) -> ok = true) /\
  if ok then listening c0 c' /\ exists d', setup (sockets c0) (sockets c') (lowest (fds (sockets c0))) d'
  else restored (sockets c0) (sockets c') /\ registered c' = registered c0 /\ acceptor_ c' = None.
Proof.
  intros Rd S R cfg Ea Fa Fl Op Bd Bk A. set (w0 := sockets c0) in *. set (fd := lowest (fds w0)) in *.
  pose proof (setup_call w0 (sockets c) fd d (CNonBlocking true) _ Rd S eq_refl) as H. cbn [do_call] in H.
  unfold on_sockets at 1. destruct (setNonBlocking listenSocket_ true (sockets c)) as [on w1]. cbn [snd].
  destruct H as [S1 On]. set (d1 := if on then _ else _) in S1.
  unfold on_sockets at 1, fd_, gets. cbn [sockets set_sockets]. rewrite (proj1 (setup_open _ _ _ _ S1)). cbn [default from_option].
  unfold addFd, on_sockets at 1. cbn [sockets set_sockets].
  pose proof (setup_ask w0 w1 fd d1 S1) as H. destruct (ask w1) as [[n |] w2], H as [S2 Ok]; cbn -[on_sockets reset_acceptor].
  - split; [done |]. split; [| by exists d1]. destruct S2 as [F O G U Sc].
    assert (d_family d1 = AF_INET /\ d_opts d1 = d_opts d /\ d_bound d1 = d_bound d /\ d_backlog d1 = d_backlog d) as (E1 & E2 & E3 & E4)
      by (unfold d1; by destruct on).
    exists fd, d1, addr. cbn. rewrite E2, E3, E4, R. split_and!; try done; [apply Rd |].
    intros Hh. unfold d1. rewrite (On Hh). cbn. by rewrite Fl.
  - split; [by intros [? ?]%Ok |]. rewrite <- R.
    exact (taken_down w0 (set_sockets (set_sockets (set_sockets c w1) w1) w2) fd d1 Rd S2 ltac:(by exists (mk_acceptor (address cfg) (port cfg) (backlog cfg)))).
Qed.

Lemma cleaned c0 c d : ready (sockets c0) (lowest (fds (sockets c0))) -> listening c0 c ->
  setup (sockets c0) (sockets c) (lowest (fds (sockets c0))) d ->
  (forall fd, is_Some (registered c0 !! fd) -> is_Some (fds (sockets c0) !! fd)) ->
  let c' := cleanupListenerInWorkerThread_ c in
  restored (sockets c0) (sockets c') /\ registered c' = registered c0 /\ acceptor_ c' = None.
Proof.
  intros Rd L S Rg. destruct L as (fd & d1 & addr & _ & _ & O & R & _ & _ & _ & _ & _ & _ & A).
  pose proof (ready_pos _ _ Rd) as Pf. set (c1 := removeFd (lowest (fds (sockets c0))) c).
  assert (cleanupListenerInWorkerThread_ c = reset_acceptor (snd (on_sockets (close listenSocket_) c1))) as ->.
  { unfold cleanupListenerInWorkerThread_. rewrite A. unfold on_sockets at 1, fd_, gets. rewrite (proj1 (setup_open _ _ _ _ S)).
    cbn [default from_option]. cbn -[on_sockets reset_acceptor]. zb_eval. by destruct c. }
  cbv zeta.
  destruct (taken_down (sockets c0) c1 (lowest (fds (sockets c0))) d Rd S) as (T1 & T2 & T3); [cbn; by rewrite A |].
  split; [exact T1 |]. split; [| exact T3]. rewrite T2. cbn.
  assert (fd = lowest (fds (sockets c0))) as ->.
  { pose proof (setup_objs _ _ _ _ S) as O'. rewrite O in O'. apply (f_equal (lookup listenSocket_)) in O'. rewrite !lookup_insert_eq in O'. by simplify_eq. }
  rewrite R, delete_insert_id; [done |]. destruct (registered c0 !! lowest _) eqn:Er; [| done].
  destruct (Rg _ ltac:(by rewrite Er)) as [? ?]. pose proof (ready_fd _ _ Rd). congruence.
Qed.

(** C30: whatever the kernel answers, [installListenerInWorkerThread_] either
    succeeds with a listening socket, non-blocking unless a call failed, bound to the configured
    address and port with the options asked for and registered with the
    loop, or fails and leaves no descriptor, no registration and no acceptor
    behind; it succeeds when no system call fails and the address is one; with
    port 0 it does nothing; and [cleanupListenerInWorkerThread_] afterwards
    restores everything as it was. *)
Theorem listener_all_or_nothing c :
  inv (sockets c) -> objs (sockets c) !! listenSocket_ = None -> objs (sockets c) !! temporary = None ->
  acceptor_ c = None -> 0 <= port (listenerConfig_ c) < 65536 ->
  (forall fd, is_Some (registered c !! fd) -> is_Some (fds (sockets c) !! fd)) ->
  let '(ok, c') := installListenerInWorkerThread_ c in
  (if ok then (port (listenerConfig_ c) = 0 /\ c' = c) \/ listening c c'
   else restored (sockets c) (sockets c') /\ registered c' = registered c /\ acceptor_ c' = None) /\
  (healthy (script (sockets c)) -> is_Some (inet_pton (address (listenerConfig_ c))) -> ok = true) /\
  (let c'' := cleanupListenerInWorkerThread_ c' in
   restored (sockets c) (sockets c'') /\ registered c'' = registered c /\ acceptor_ c'' = None).
Proof.
  intros I N0 N1 A P Rg. pose proof (ready_world (sockets c) I N0 N1) as Rd.
  unfold installListenerInWorkerThread_. destruct (Z.eqb_spec (port (listenerConfig_ c)) 0) as [Z0 | Z0].
  { split_and!; auto; unfold cleanupListenerInWorkerThread_; by rewrite A. }
  pose proof (acceptor_spec (sockets c) (listenerConfig_ c) Rd ltac:(lia)) as H. unfold on_sockets at 1.
  destruct (Acceptor _ _ _ _ _) as [[a | e] w]; cbn [fst snd].
  - destruct H as (d & addr & S & Ea & Fa & Fl & Op & Bd & Bk & ->).
    pose proof (installed c (set_acceptor (set_sockets c w) (Some (mk_acceptor (address (listenerConfig_ c)) (port (listenerConfig_ c)) (backlog (listenerConfig_ c)))))
      d addr Rd S eq_refl Ea Fa Fl Op Bd Bk eq_refl) as H.
    match type of H with let '(_, _) := ?e in _ => destruct e as [[] c'] end; destruct H as [Hh H].
    + destruct H as [L [d' S']]. split; [auto |]. split; [done |]. by eapply cleaned.
    + destruct H as (H1 & H2 & H3). split_and!; auto. all: unfold cleanupListenerInWorkerThread_; by rewrite H3.
  - destruct H as [H1 H2]. split_and!; try done. intros Hh [? ?]. rewrite (H2 Hh) in *. done.
Qed.

End Listener.

(** The port of a peer is reported in host order. *)
Lemma peer_port_reported ntop4 ntop6 a p : 0 <= p < 65536 ->
  snd (fillPeerEndpoint ntop4 ntop6 (Some (Peer4 a (htons p)))) = p /\
  snd (fillPeerEndpoint ntop4 ntop6 (Some (Peer6 a (htons p)))) = p.
Proof. intros P. split; by apply swap16_swap. Qed.

(** Descriptors 0 and 1 are in use; the loop refuses the registration, or all
    goes well. *)
Definition demo_context (answers : list answer) : context :=
  mk_context (snd (perform demo_pton (Elsewhere (fresh_descr AF_INET 0)) (snd (perform demo_pton (Elsewhere (fresh_descr AF_INET 0)) (start ([Fine 0; Fine 0] ++ answers))))))
    ∅ None (mk_config "127.0.0.1" 9000 128 true) false.

Lemma demo_inv answers : inv (sockets (demo_context answers)).
Proof.
  apply (socket_run_inv demo_pton [Elsewhere (fresh_descr AF_INET 0); Elsewhere (fresh_descr AF_INET 0)] (start ([Fine 0; Fine 0] ++ answers))); [apply start_owned | done].
Qed.

Lemma listener_all_or_nothing_witness :
  fst (installListenerInWorkerThread_ demo_pton (demo_context [])) = true /\
  let '(ok, c') := installListenerInWorkerThread_ demo_pton (demo_context (replicate 8 (Fine 0) ++ [Fails 12])) in
  ok = false /\ restored (sockets (demo_context [])) (sockets c') /\ registered c' = ∅ /\ acceptor_ c' = None.
Proof.
  split; [vm_compute; reflexivity |].
  pose proof (listener_all_or_nothing demo_pton (demo_context (replicate 8 (Fine 0) ++ [Fails 12])) (demo_inv _)
    ltac:(vm_compute; reflexivity) ltac:(vm_compute; reflexivity) eq_refl ltac:(vm_compute; split; congruence)
    ltac:(intros fd [? H]; done)) as H.
  assert (fst (installListenerInWorkerThread_ demo_pton (demo_context (replicate 8 (Fine 0) ++ [Fails 12]))) = false) as E by (vm_compute; reflexivity).
  destruct (installListenerInWorkerThread_ demo_pton (demo_context (replicate 8 (Fine 0) ++ [Fails 12]))) as [ok c'].
  cbn [fst] in E. subst ok. split; [done |]. destruct H as [H _]. exact H.
Defined.

End Listener.
