(* ===== verification/Connector.v ===== *)
(** * Connector: requests to connectors and outbound dials

    Models [ConnectorManager] of one worker: the table of requests in flight
    with their timeout and single retry, and the table of outbound TCP dials
    with their sockets, retry timers and completion callback.

    The application, the connectors and the kernel are the environment.  It
    moves by actions: it calls the public operations, at any time and from
    inside callbacks too, a connector calls the completion hook whenever it
    likes, and, when no callback is running, the event loop fires an armed
    timer, reports an event of a registered descriptor or runs a posted task.
    The answers of the system calls are part of the action.  A callback in
    progress is a frame on a stack, with what the code does after it returns. *)

From stdpp Require Import strings.
From S2P Require Import Prelude Handle World.
Import Handle World.

Module Connector.

(* ------------------------------------------------------------------ *)
(** ** Data *)

Record SendOptions := mk_sendopt { so_timeoutMs : Z; so_retryOnce : bool }.

Record Response := mk_response { ok : bool; payload : list byte }.

Definition fail (reason : string) : Response := mk_response false [].

(** A completion callback: one of the application, by a name for it, or the
    closure of [sendAsyncToDispatcher]. *)
Inductive Callback :=
| CbApp (tok : Z)
| CbResume (session : SessionHandle) (resumeOpcode : Z).

Record Pending := mk_pending {
  connectorName : string;
  p_opt : SendOptions;
  p_request : list byte;
  p_cb : option Callback;
  attempt : Z;
  timeoutResolved : Z
}.

Record DialTcpOptions := mk_dialopt {
  host : string;
  port : Z;
  do_timeoutMs : Z;
  retryDelayMs : Z;
  do_retryOnce : bool;
  tcpNoDelay : bool
}.

(** The descriptor of [sock] is -1 when the socket is not valid. *)
Record DialState := mk_dial {
  d_opt : DialTcpOptions;
  d_cb : Z;
  attemptIndex : Z;
  connectedEventRegistered : bool;
  completed : bool;
  sock : Z;
  peer : string * Z
}.

Definition set_attempt (p : Pending) (a : Z) : Pending :=
  mk_pending (connectorName p) (p_opt p) (p_request p) (p_cb p) a (timeoutResolved p).
Definition set_attemptIndex (d : DialState) (a : Z) : DialState :=
  mk_dial (d_opt d) (d_cb d) a (connectedEventRegistered d) (completed d) (sock d) (peer d).
Definition set_registered (d : DialState) (b : bool) : DialState :=
  mk_dial (d_opt d) (d_cb d) (attemptIndex d) b (completed d) (sock d) (peer d).
Definition set_completed (d : DialState) : DialState :=
  mk_dial (d_opt d) (d_cb d) (attemptIndex d) (connectedEventRegistered d) true (sock d) (peer d).
Definition set_sock (d : DialState) (fd : Z) : DialState :=
  mk_dial (d_opt d) (d_cb d) (attemptIndex d) (connectedEventRegistered d) (completed d) fd (peer d).

(** The closures handed to [addTimer]. *)
Inductive timer :=
| TReqTimeout (id attempt : Z)
| TDialStart (id attempt : Z)
| TDialTimeout (id attempt : Z).

#[export] Instance timer_eq_dec : EqDecision timer.
Proof. solve_decision. Defined.

(** The closures posted to the loop from another thread. *)
Inductive task :=
| KSend (name : string) (opt : SendOptions) (request : list byte) (cb : option Callback)
| KSendToDispatcher (name : string) (opt : SendOptions) (session : SessionHandle) (resumeOpcode : Z) (request : list byte)
| KDial (opt : DialTcpOptions) (cb : option Z)
| KShutdown.

(** What is running on the worker, innermost first: a completion callback of a
    request; [sm_.onAccepted] or the callback of a dial, which the code goes on
    after; a local [Socket] whose destructor closes it. *)
Inductive frame :=
| FReqCb
| FAccept (id : Z)
| FDialCb (id : Z)
| FClose (fd : Z).

(** Calls that leave the component, oldest last. *)
Inductive out :=
| OSend (name : string) (id attempt : Z) (opt : SendOptions) (request : list byte)
| OReqCb (id : Z) (cb : Callback) (r : Response)
| OReqReject (cb : Callback) (r : Response)
| OConnect (id attempt fd : Z) (host : string) (port : Z)
| OAccepted (id fd : Z) (peer : string * Z)
| ODialCb (id cb : Z) (ok : bool) (h : SessionHandle) (err : string)
| ODialReject (cb : Z) (err : string)
| OCloseAllByPolicy (reason : string)
| ODispatchInjected (session : SessionHandle) (opcode : Z) (body : list byte).

(** The manager and what it acts on: descriptors registered with the loop and
    the dial that handles each, the sockets it holds open, the armed timers
    with their delays, the tasks posted to the loop. *)
Record state := mk_state {
  connectors_ : gset string;
  pending_ : gmap Z Pending;
  nextRequestId_ : Z;
  dials_ : gmap Z DialState;
  nextDialId_ : Z;
  fds : gmap Z Z;
  open : gset Z;
  timers : list (Z * timer);
  posted : list task;
  stack : list frame;
  trace : list out
}.

Definition defaultTimeout_ : Z := 3000.

Definition init : state := mk_state ∅ ∅ 1 ∅ 1 ∅ ∅ [] [] [] [].

Section Setters.
Variable s : state.

Definition set_connectors (x : gset string) : state :=
  mk_state x (pending_ s) (nextRequestId_ s) (dials_ s) (nextDialId_ s) (fds s) (open s) (timers s) (posted s) (stack s) (trace s).
Definition set_pending (x : gmap Z Pending) : state :=
  mk_state (connectors_ s) x (nextRequestId_ s) (dials_ s) (nextDialId_ s) (fds s) (open s) (timers s) (posted s) (stack s) (trace s).
Definition set_nextRequestId (x : Z) : state :=
  mk_state (connectors_ s) (pending_ s) x (dials_ s) (nextDialId_ s) (fds s) (open s) (timers s) (posted s) (stack s) (trace s).
Definition set_dials (x : gmap Z DialState) : state :=
  mk_state (connectors_ s) (pending_ s) (nextRequestId_ s) x (nextDialId_ s) (fds s) (open s) (timers s) (posted s) (stack s) (trace s).
Definition set_nextDialId (x : Z) : state :=
  mk_state (connectors_ s) (pending_ s) (nextRequestId_ s) (dials_ s) x (fds s) (open s) (timers s) (posted s) (stack s) (trace s).
Definition set_fds (x : gmap Z Z) : state :=
  mk_state (connectors_ s) (pending_ s) (nextRequestId_ s) (dials_ s) (nextDialId_ s) x (open s) (timers s) (posted s) (stack s) (trace s).
Definition set_open (x : gset Z) : state :=
  mk_state (connectors_ s) (pending_ s) (nextRequestId_ s) (dials_ s) (nextDialId_ s) (fds s) x (timers s) (posted s) (stack s) (trace s).
Definition set_timers (x : list (Z * timer)) : state :=
  mk_state (connectors_ s) (pending_ s) (nextRequestId_ s) (dials_ s) (nextDialId_ s) (fds s) (open s) x (posted s) (stack s) (trace s).
Definition set_posted (x : list task) : state :=
  mk_state (connectors_ s) (pending_ s) (nextRequestId_ s) (dials_ s) (nextDialId_ s) (fds s) (open s) (timers s) x (stack s) (trace s).
Definition push_frame (f : frame) : state :=
  mk_state (connectors_ s) (pending_ s) (nextRequestId_ s) (dials_ s) (nextDialId_ s) (fds s) (open s) (timers s) (posted s) (f :: stack s) (trace s).
Definition set_stack (x : list frame) : state :=
  mk_state (connectors_ s) (pending_ s) (nextRequestId_ s) (dials_ s) (nextDialId_ s) (fds s) (open s) (timers s) (posted s) x (trace s).
Definition emit (o : out) : state :=
  mk_state (connectors_ s) (pending_ s) (nextRequestId_ s) (dials_ s) (nextDialId_ s) (fds s) (open s) (timers s) (posted s) (stack s) (o :: trace s).

(** [EventLoop::addTimer], [post] and [removeFd]; [Socket::close]. *)
Definition addTimer (delay : Z) (t : timer) : state := set_timers (timers s ++ [(delay, t)]).
Definition post (t : task) : state := set_posted (posted s ++ [t]).
Definition removeFd (fd : Z) : state := set_fds (delete fd (fds s)).
Definition close_fd (fd : Z) : state := set_open (open s ∖ {[fd]}).
Definition put_dial (id : Z) (d : DialState) : state := set_dials (<[id := d]> (dials_ s)).

End Setters.

(* ------------------------------------------------------------------ *)
(** ** Connectors and requests *)

(** [add]; the connector is given by its name, [None] for a null pointer. *)
Definition add (s : state) (c : option string) : bool * state :=
  match c with
  | None => (false, s)
  | Some name =>
      if bool_decide (name = "") then (false, s)
      else if bool_decide (name ∈ connectors_ s) then (false, s)
      else (true, set_connectors s ({[name]} ∪ connectors_ s))
  end.

Definition find_ (s : state) (name : string) : bool := bool_decide (name ∈ connectors_ s).

Definition resolveTimeout_ (opt : SendOptions) : Z :=
  if so_timeoutMs opt <=? 0 then defaultTimeout_ else so_timeoutMs opt.

(** The body of a callback: an application's callback runs as a frame; the
    closure of [sendAsyncToDispatcher] calls the session manager, which runs
    application code in turn. *)
Definition call_body (s : state) (cb : Callback) (r : Response) : state :=
  match cb with
  | CbApp _ => push_frame s FReqCb
  | CbResume session resumeOpcode =>
      if negb (ok r) then push_frame (emit s (OCloseAllByPolicy "connector_failed")) FReqCb
      else push_frame (emit s (ODispatchInjected session resumeOpcode (payload r))) FReqCb
  end.

Definition onComplete_ (s : state) (id att : Z) (r : Response) : state :=
  match pending_ s !! id with
  | None => s
  | Some p =>
      let s := set_pending s (delete id (pending_ s)) in
      if negb (att =? attempt p) then s
      else match p_cb p with
           | None => s
           | Some cb => call_body (emit s (OReqCb id cb r)) cb r
           end
  end.

Definition startAttempt_ (s : state) (id : Z) : state :=
  match pending_ s !! id with
  | None => s
  | Some p =>
      if negb (find_ s (connectorName p)) then onComplete_ s id (attempt p) (fail "unknown_connector")
      else
        let s := addTimer s (timeoutResolved p) (TReqTimeout id (attempt p)) in
        emit s (OSend (connectorName p) id (attempt p) (p_opt p) (p_request p))
  end.

Definition onTimeout_ (s : state) (id expectedAttempt : Z) : state :=
  match pending_ s !! id with
  | None => s
  | Some p =>
      if negb (attempt p =? expectedAttempt) then s
      else if so_retryOnce (p_opt p) && (attempt p =? 0) then
        startAttempt_ (set_pending s (<[id := set_attempt p 1]> (pending_ s))) id
      else onComplete_ s id (attempt p) (fail "timeout")
  end.

(** [inOwner]: the calling thread is the worker's. *)
Definition sendAsync (s : state) (inOwner : bool) (name : string) (opt : SendOptions) (request : list byte)
    (cb : option Callback) : state :=
  if negb inOwner then post s (KSend name opt request cb)
  else if negb (find_ s name) then
    match cb with
    | Some cb => call_body (emit s (OReqReject cb (fail "unknown_connector"))) cb (fail "unknown_connector")
    | None => s
    end
  else
    let id := nextRequestId_ s in
    let s := set_nextRequestId s (u64 (id + 1)) in
    let p := mk_pending name opt request cb 0 (resolveTimeout_ opt) in
    let s := match pending_ s !! id with
             | Some _ => s
             | None => set_pending s (<[id := p]> (pending_ s))
             end in
    startAttempt_ s id.

Definition sendAsyncToDispatcher (s : state) (inOwner : bool) (name : string) (opt : SendOptions)
    (session : SessionHandle) (resumeOpcode : Z) (request : list byte) : state :=
  if negb inOwner then post s (KSendToDispatcher name opt session resumeOpcode request)
  else sendAsync s true name opt request (Some (CbResume session resumeOpcode)).

(* ------------------------------------------------------------------ *)
(** ** Dials *)

(** The answers to the system calls of one connect attempt: [socket], then
    [connect], then the registration with epoll. *)
Inductive connect_res := ConnOk | ConnInProgress | ConnErr (err : string).
Record answers := mk_answers { a_socket : option Z; a_connect : connect_res; a_addFd : bool }.

Definition finishDialOk_ (s : state) (id att : Z) : state :=
  match dials_ s !! id with
  | None => s
  | Some st =>
      if completed st || negb (attemptIndex st =? att) then s
      else
        let registered := (0 <=? sock st) && connectedEventRegistered st in
        let s := if registered then removeFd s (sock st) else s in
        let st1 := if registered then set_registered st false else st in
        let s := set_open s (open s ∖ {[sock st]}) in
        let s := put_dial s id (set_completed (set_sock st1 (-1))) in
        push_frame (emit s (OAccepted id (sock st) (peer st))) (FAccept id)
  end.

(** The code after [sm_.onAccepted] returned [h]. *)
Definition accepted (s : state) (id : Z) (h : SessionHandle) : state :=
  match dials_ s !! id with
  | None => s
  | Some st =>
      if negb (isValid h) then
        push_frame (emit s (ODialCb id (d_cb st) false null_handle "dial connected but failed to create session")) (FDialCb id)
      else push_frame (emit s (ODialCb id (d_cb st) true h "")) (FDialCb id)
  end.

Definition finishDialFail_ (s : state) (id att : Z) (err : string) (isTimeout : bool) : state :=
  match dials_ s !! id with
  | None => s
  | Some st =>
      if completed st || negb (attemptIndex st =? att) then s
      else
        let registered := (0 <=? sock st) && connectedEventRegistered st in
        let s := if registered then removeFd s (sock st) else s in
        let st1 := if registered then set_registered st false else st in
        let s := close_fd s (sock st) in
        let s := put_dial s id (set_completed (set_sock st1 (-1))) in
        push_frame (emit s (ODialCb id (d_cb st) false null_handle err)) (FDialCb id)
  end.

(** The head of [dialStartAttempt_]: the socket of the attempt before goes. *)
Definition drop_attempt (s : state) (id att : Z) (st : DialState) : state :=
  let valid := 0 <=? sock st in
  let s := if valid && connectedEventRegistered st then removeFd s (sock st) else s in
  let s := if valid then close_fd s (sock st) else s in
  let st := if valid then set_sock st (-1) else st in
  put_dial s id (set_attemptIndex (set_registered st false) att).

(** The end of [dialStartAttempt_], with the connect under way. *)
Definition await_connect (s : state) (id att fd : Z) (st : DialState) (addOk : bool) : state :=
  let st := set_sock st fd in
  if negb addOk || bool_decide (is_Some (fds s !! fd)) then
    finishDialFail_ (put_dial (close_fd s fd) id (set_sock st (-1))) id att "addFd failed" false
  else
    let s := set_fds s (<[fd := id]> (fds s)) in
    let s := put_dial s id (set_registered st true) in
    if 0 <? do_timeoutMs (d_opt st) then addTimer s (do_timeoutMs (d_opt st)) (TDialTimeout id att) else s.

Definition dialStartAttempt_ (s : state) (id att : Z) (a : answers) : state :=
  match dials_ s !! id with
  | None => s
  | Some st =>
      if completed st then s
      else
        let s := drop_attempt s id att st in
        let st := set_attemptIndex (set_registered (set_sock st (-1)) false) att in
        match a_socket a with
        | None => finishDialFail_ s id att "socket() failed" false
        | Some fd =>
            let s := set_open s ({[fd]} ∪ open s) in
            let s := emit s (OConnect id att fd (host (d_opt st)) (port (d_opt st))) in
            match a_connect a with
            | ConnOk => finishDialOk_ (put_dial s id (set_sock st fd)) id att
            | ConnErr err =>
                if do_retryOnce (d_opt st) && (att =? 0) then
                  close_fd (addTimer s (retryDelayMs (d_opt st)) (TDialStart id 1)) fd
                else finishDialFail_ (push_frame s (FClose fd)) id att err false
            | ConnInProgress => await_connect s id att fd st (a_addFd a)
            end
        end
  end.

Definition dialTimeout_ (s : state) (id expectedAttempt : Z) : state :=
  match dials_ s !! id with
  | None => s
  | Some st =>
      if completed st || negb (attemptIndex st =? expectedAttempt) then s
      else if do_retryOnce (d_opt st) && (expectedAttempt =? 0) then
        addTimer s (retryDelayMs (d_opt st)) (TDialStart id 1)
      else finishDialFail_ s id expectedAttempt "dial timeout" true
  end.

(** [DialState::handleEvent] of dial [id]; [soErr] is what [getsockopt] gave:
    [None] when it failed, else the pending error, if there is one. *)
Definition handleEvent (s : state) (id : Z) (soErr : option (option string)) : state :=
  match dials_ s !! id with
  | None => s
  | Some st =>
      if completed st then s
      else
        match soErr with
        | None => finishDialFail_ s id (attemptIndex st) "getsockopt(SO_ERROR) failed" false
        | Some (Some err) =>
            if do_retryOnce (d_opt st) && (attemptIndex st =? 0) then
              addTimer s (retryDelayMs (d_opt st)) (TDialStart id (u32 (attemptIndex st + 1)))
            else finishDialFail_ s id (attemptIndex st) err false
        | Some None => finishDialOk_ s id (attemptIndex st)
        end
  end.

Definition dialTcpSession (s : state) (inOwner : bool) (opt : DialTcpOptions) (cb : option Z) (a : answers) : state :=
  if negb inOwner then post s (KDial opt cb)
  else
    match cb with
    | None => s
    | Some cb =>
        if bool_decide (host opt = "") || (port opt =? 0) then
          push_frame (emit s (ODialReject cb "dialTcpSession: invalid host/port")) FReqCb
        else
          let id := nextDialId_ s in
          let s := set_nextDialId s (u64 (id + 1)) in
          let st := mk_dial opt cb 0 false false (-1) (host opt, port opt) in
          let s := match dials_ s !! id with Some _ => s | None => put_dial s id st end in
          dialStartAttempt_ s id 0 a
    end.

Definition shutdown_dial (st : DialState) (s : state) : state :=
  if 0 <=? sock st then
    let s := if connectedEventRegistered st then removeFd s (sock st) else s in
    close_fd s (sock st)
  else s.

Definition shutdownDialsInOwnerThread (s : state) (inOwner : bool) : state :=
  if negb inOwner then post s KShutdown
  else set_dials (foldr (fun (kv : Z * DialState) s => shutdown_dial (snd kv) s) s (map_to_list (dials_ s))) ∅.

(* ------------------------------------------------------------------ *)
(** ** The machine *)

(** Local sockets on top of the stack go out of scope. *)
Fixpoint settle_frames (s : state) (st : list frame) : state :=
  match st with
  | FClose fd :: rest => settle_frames (close_fd s fd) rest
  | _ => set_stack s st
  end.

Definition settle (s : state) : state := settle_frames s (stack s).

Inductive action :=
| AAdd (c : option string)
| ASend (inOwner : bool) (name : string) (opt : SendOptions) (request : list byte) (cb : option Callback)
| ASendToDispatcher (inOwner : bool) (name : string) (opt : SendOptions) (session : SessionHandle) (resumeOpcode : Z) (request : list byte)
| ADial (inOwner : bool) (opt : DialTcpOptions) (cb : option Z) (a : answers)
| AShutdown (inOwner : bool)
| AHook (id attempt : Z) (r : Response)
| AReturn (h : SessionHandle)
| ATimer (n : nat) (a : answers)
| AEvent (fd : Z) (soErr : option (option string))
| ATask (a : answers).

Inductive result := Step (s : state) | Disabled | Crash.

(** [socket] answers with a descriptor that is not in use. *)
Definition fresh_answers (s : state) (a : answers) : bool :=
  match a_socket a with
  | None => true
  | Some fd => (0 <=? fd) && negb (bool_decide (fd ∈ open s))
  end.

Definition fire (s : state) (t : timer) (a : answers) : state :=
  match t with
  | TReqTimeout id att => onTimeout_ s id att
  | TDialStart id att => dialStartAttempt_ s id att a
  | TDialTimeout id att => dialTimeout_ s id att
  end.

Definition run_task (s : state) (t : task) (a : answers) : state :=
  match t with
  | KSend name opt request cb => sendAsync s true name opt request cb
  | KSendToDispatcher name opt session op request => sendAsyncToDispatcher s true name opt session op request
  | KDial opt cb => dialTcpSession s true opt cb a
  | KShutdown => shutdownDialsInOwnerThread s true
  end.

(** A callback returns.  Erasing a dial that is no longer in the table would
    be an access through a dead iterator. *)
Definition return_ (s : state) (h : SessionHandle) : result :=
  match stack s with
  | [] | FClose _ :: _ => Disabled
  | FReqCb :: rest => Step (set_stack s rest)
  | FAccept id :: rest =>
      match dials_ s !! id with
      | None => Crash
      | Some _ => Step (accepted (set_stack s rest) id h)
      end
  | FDialCb id :: rest =>
      match dials_ s !! id with
      | None => Crash
      | Some _ => Step (set_dials (set_stack s rest) (delete id (dials_ s)))
      end
  end.

Definition idle (s : state) : bool := match stack s with [] => true | _ => false end.

Definition raw_step (s : state) (x : action) : result :=
  match x with
  | AAdd c => Step (snd (add s c))
  | ASend inOwner name opt request cb => Step (sendAsync s inOwner name opt request cb)
  | ASendToDispatcher inOwner name opt session op request =>
      Step (sendAsyncToDispatcher s inOwner name opt session op request)
  | ADial inOwner opt cb a => if fresh_answers s a then Step (dialTcpSession s inOwner opt cb a) else Disabled
  | AShutdown inOwner => if negb inOwner || idle s then Step (shutdownDialsInOwnerThread s inOwner) else Disabled
  | AHook id att r => Step (onComplete_ s id att r)
  | AReturn h => return_ s h
  | ATimer n a =>
      match timers s !! n with
      | Some (_, t) =>
          if idle s && fresh_answers s a
          then Step (fire (set_timers s (take n (timers s) ++ drop (S n) (timers s))) t a) else Disabled
      | None => Disabled
      end
  | AEvent fd soErr =>
      match fds s !! fd with
      | Some id => if idle s then Step (handleEvent s id soErr) else Disabled
      | None => Disabled
      end
  | ATask a =>
      match posted s with
      | t :: rest => if idle s && fresh_answers s a then Step (run_task (set_posted s rest) t a) else Disabled
      | [] => Disabled
      end
  end.

Definition step (s : state) (x : action) : result :=
  match raw_step s x with
  | Step s' => Step (settle s')
  | r => r
  end.

Fixpoint run (s : state) (xs : list action) : result :=
  match xs with
  | [] => Step s
  | x :: xs => match step s x with Step s' => run s' xs | r => r end
  end.

End Connector.
