(* ===== verification/ConnectorInv.v ===== *)
(** * ConnectorInv: what holds of the connector manager at every moment

    The invariants of the two tables of [Connector] (requests in flight,
    dials), that every action keeps them, and from them that no action reaches
    a dead iterator. *)

From stdpp Require Import strings.
From S2P Require Import Prelude Handle World Connector.
Import Handle World Connector.

Module ConnectorInv.

(* ------------------------------------------------------------------ *)
(** ** Counting calls and frames *)

Definition is_req_call (id : Z) (o : out) : bool :=
  match o with OReqCb i _ _ => i =? id | _ => false end.
Definition is_dial_call (id : Z) (o : out) : bool :=
  match o with ODialCb i _ _ _ _ => i =? id | _ => false end.
Definition is_frame (id : Z) (f : frame) : bool :=
  match f with FAccept i | FDialCb i => i =? id | _ => false end.
Definition is_cb_frame (id : Z) (f : frame) : bool :=
  match f with FDialCb i => i =? id | _ => false end.
Definition is_close (fd : Z) (f : frame) : bool :=
  match f with FClose i => i =? fd | _ => false end.

Definition count {A} (f : A -> bool) (l : list A) : nat := length (List.filter f l).
Arguments count : simpl never.

(** How often the callback of request, of dial, [id] was called. *)
Definition req_calls (id : Z) (s : state) : nat := count (is_req_call id) (trace s).
Definition dial_calls (id : Z) (s : state) : nat := count (is_dial_call id) (trace s).

Lemma count_cons {A} (f : A -> bool) x l : count f (x :: l) = (if f x then S (count f l) else count f l).
Proof. unfold count. cbn [List.filter]. by destruct (f x). Qed.

Lemma count_app {A} (f : A -> bool) l k : count f (l ++ k) = (count f l + count f k)%nat.
Proof. unfold count. by rewrite List.filter_app, length_app. Qed.

Lemma count_nil {A} (f : A -> bool) : count f [] = 0%nat.
Proof. done. Qed.

Lemma cb_le_frames id l : (count (is_cb_frame id) l <= count (is_frame id) l)%nat.
Proof. induction l as [| f l IH]; [done |]. rewrite !count_cons. destruct f; cbn; auto; destruct (_ =? _); lia. Qed.

(* ------------------------------------------------------------------ *)
(** ** The table of requests *)

Record req_ok (s : state) (id : Z) (p : Pending) : Prop := {
  ro_range : 1 <= id < nextRequestId_ s;
  ro_attempt : attempt p = 0 \/ attempt p = 1 /\ so_retryOnce (p_opt p) = true;
  ro_name : connectorName p ∈ connectors_ s;
  ro_calls : req_calls id s = 0%nat
}.

(** The timer that guards the attempt of a request. *)
Definition req_armed (s : state) (id : Z) (p : Pending) : Prop :=
  (timeoutResolved p, TReqTimeout id (attempt p)) ∈ timers s.

(** [ex] is a request whose timer has just fired; [n] bounds the ids. *)
Record req_inv (ex n : Z) (s : state) : Prop := {
  ri_next : 1 <= nextRequestId_ s <= n;
  ri_ok : forall id p, pending_ s !! id = Some p -> req_ok s id p;
  ri_armed : forall id p, pending_ s !! id = Some p -> id <> ex -> req_armed s id p;
  ri_once : forall id, (req_calls id s <= 1)%nat;
  ri_future : forall id, nextRequestId_ s <= id -> req_calls id s = 0%nat
}.

(* ------------------------------------------------------------------ *)
(** ** The table of dials *)

(** A dial that waits has its next move prepared: a retry timer when it has no
    socket; with one, the socket is registered and, if connects are timed, a
    timeout of the current attempt or a retry is armed. *)
Definition waiting (s : state) (id : Z) (d : DialState) : Prop :=
  (sock d = -1 /\ connectedEventRegistered d = false -> (retryDelayMs (d_opt d), TDialStart id 1) ∈ timers s) /\
  (0 <= sock d -> 0 < do_timeoutMs (d_opt d) ->
     (do_timeoutMs (d_opt d), TDialTimeout id (attemptIndex d)) ∈ timers s \/
     (retryDelayMs (d_opt d), TDialStart id 1) ∈ timers s).

Record dial_ok (s : state) (id : Z) (d : DialState) : Prop := {
  do_range : 1 <= id < nextDialId_ s;
  do_attempt : attemptIndex d = 0 \/ attemptIndex d = 1 /\ do_retryOnce (d_opt d) = true;
  do_sock : (sock d = -1 /\ connectedEventRegistered d = false) \/
            (0 <= sock d /\ sock d ∈ open s /\ connectedEventRegistered d = true /\ fds s !! sock d = Some id);
  do_close : count (is_close (sock d)) (stack s) = 0%nat;
  do_done : completed d = true ->
    sock d = -1 /\ count (is_frame id) (stack s) = 1%nat /\ dial_calls id s = count (is_cb_frame id) (stack s);
  do_live : completed d = false -> count (is_frame id) (stack s) = 0%nat /\ dial_calls id s = 0%nat
}.

(** [ex] is a dial whose timer has just fired, [n] bounds the ids, [down]
    tells whether a shutdown dropped dials. *)
Record dial_inv (ex n : Z) (down : bool) (s : state) : Prop := {
  di_next : 1 <= nextDialId_ s <= n;
  di_ok : forall id d, dials_ s !! id = Some d -> dial_ok s id d;
  di_waiting : forall id d, dials_ s !! id = Some d -> completed d = false -> id <> ex -> waiting s id d;
  di_socks : forall i j d e, dials_ s !! i = Some d -> dials_ s !! j = Some e -> sock d = sock e -> 0 <= sock d -> i = j;
  di_fds : forall fd id, fds s !! fd = Some id -> exists d, dials_ s !! id = Some d /\ sock d = fd /\ 0 <= fd;
  di_open : forall fd, fd ∈ open s -> 0 <= fd /\
    ((exists id d, dials_ s !! id = Some d /\ sock d = fd) \/ count (is_close fd) (stack s) = 1%nat);
  di_close : forall fd, (count (is_close fd) (stack s) <= 1)%nat /\
    (count (is_close fd) (stack s) = 1%nat -> fd ∈ open s);
  di_frames : forall id, (0 < count (is_frame id) (stack s))%nat -> exists d, dials_ s !! id = Some d /\ completed d = true;
  di_gone : forall id, dials_ s !! id = None ->
    (dial_calls id s <= 1)%nat /\ (nextDialId_ s <= id -> dial_calls id s = 0%nat) /\
    (1 <= id < nextDialId_ s -> down = false -> dial_calls id s = 1%nat);
  di_timers : forall id a w, (w, TDialStart id a) ∈ timers s -> a = 1 /\ id < nextDialId_ s /\
    forall d, dials_ s !! id = Some d -> do_retryOnce (d_opt d) = true
}.

Lemma req_inv_init n : 1 <= n -> req_inv 0 n init.
Proof. intros. split; unfold init, req_calls; cbn; intros; try lia; try (rewrite lookup_empty in *; done); rewrite count_nil; lia. Qed.

Lemma dial_inv_init n : 1 <= n -> dial_inv 0 n false init.
Proof.
  intros. split; unfold init, dial_calls; cbn; intros; rewrite ?lookup_empty, ?count_nil in *; try done; try lia; try set_solver.
Qed.

(* ------------------------------------------------------------------ *)
(** ** Frame conditions *)

(** The requests see no difference between [s] and [s']. *)
Record req_same (s s' : state) : Prop := {
  rs_connectors : connectors_ s ⊆ connectors_ s';
  rs_pending : pending_ s' = pending_ s;
  rs_next : nextRequestId_ s' = nextRequestId_ s;
  rs_timers : forall w i a, (w, TReqTimeout i a) ∈ timers s -> (w, TReqTimeout i a) ∈ timers s';
  rs_calls : forall id, req_calls id s' = req_calls id s;
  rs_posted : KShutdown ∈ posted s' -> KShutdown ∈ posted s;
  rs_sends : forall name opt req, KSend name opt req None ∈ posted s' -> KSend name opt req None ∈ posted s
}.

(** The dials see no difference between [s] and [s']. *)
Record dial_same (s s' : state) : Prop := {
  ds_dials : dials_ s' = dials_ s;
  ds_next : nextDialId_ s' = nextDialId_ s;
  ds_fds : fds s' = fds s;
  ds_open : open s' = open s;
  ds_frames : forall id, count (is_frame id) (stack s') = count (is_frame id) (stack s);
  ds_cbs : forall id, count (is_cb_frame id) (stack s') = count (is_cb_frame id) (stack s);
  ds_close : forall fd, count (is_close fd) (stack s') = count (is_close fd) (stack s);
  ds_start : forall w i a, (w, TDialStart i a) ∈ timers s' <-> (w, TDialStart i a) ∈ timers s;
  ds_timeout : forall w i a, (w, TDialTimeout i a) ∈ timers s' <-> (w, TDialTimeout i a) ∈ timers s;
  ds_calls : forall id, dial_calls id s' = dial_calls id s;
  ds_posted : KShutdown ∈ posted s' -> KShutdown ∈ posted s
}.

Lemma req_inv_same ex n s s' : req_same s s' -> req_inv ex n s -> req_inv ex n s'.
Proof.
  intros [Hc Hp Hi Ht Hr _ _] [Hn Hok Harm Ho Hf]. split; rewrite ?Hp, ?Hi; auto.
  - intros id p E. destruct (Hok _ _ E). split; rewrite ?Hi, ?Hr; auto.
  - intros id p E N. by apply Ht, Harm.
  - intros. rewrite Hr. auto.
  - intros. rewrite Hr. auto.
Qed.

Lemma dial_inv_same ex n down s s' : dial_same s s' -> dial_inv ex n down s -> dial_inv ex n down s'.
Proof.
  intros [Ed En Ef Eo E1 E2 E3 T1 T2 Ec _] [Hn Hok Hw Hs Hf Ho Hc Hfr Hg Ht].
  split; rewrite ?Ed, ?En, ?Ef, ?Eo; auto.
  - intros id d E. destruct (Hok _ _ E). split; rewrite ?En, ?Ef, ?Eo, ?E1, ?E2, ?E3, ?Ec; auto.
  - intros id d E C N. destruct (Hw _ _ E C N) as [A B]. split; rewrite ?T1, ?T2; auto.
  - intros fd I. rewrite E3. auto.
  - intros fd. rewrite E3. auto.
  - intros id. rewrite E1. auto.
  - intros id E. rewrite Ec. auto.
  - intros id a w. rewrite T1. apply Ht.
Qed.

#[export] Instance req_same_pre : PreOrder req_same.
Proof.
  split; [by split |]. intros a b c [A1 A2 A3 A4 A5 A6 A7] [B1 B2 B3 B4 B5 B6 B7].
  split; [set_solver | congruence | congruence | auto | intros; rewrite B5; auto | auto | auto].
Qed.

#[export] Instance dial_same_pre : PreOrder dial_same.
Proof.
  split; [by split |]. intros a b c [] [].
  split; try congruence; try (intros; auto; fail); intros;
    repeat match goal with H : forall _, _ |- _ => rewrite H end; done.
Qed.

(** Solves [req_same] and [dial_same] of a state and one built by setters. *)
Ltac same_solver :=
  split; cbn; intros; unfold req_calls, dial_calls; cbn; rewrite ?count_cons; cbn;
  rewrite ?elem_of_app, ?list_elem_of_singleton; solve [done | set_solver | naive_solver].

Lemma weaken_ex ex n s id : req_inv ex n s -> pending_ s !! ex = None -> req_inv id n s.
Proof. intros [A B C D E] N. split; auto. intros i p Hi _. apply C; [done | congruence]. Qed.

Lemma req_bound ex n m s : req_inv ex n s -> n <= m -> req_inv ex m s.
Proof. intros [A B C D E] L. split; auto. lia. Qed.

Lemma dial_bound ex n m down s : dial_inv ex n down s -> n <= m -> dial_inv ex m down s.
Proof. intros [] L. split; auto. lia. Qed.

(** What is posted does not matter to the requests. *)
Lemma req_inv_posted ex n s l : req_inv ex n s -> req_inv ex n (set_posted s l).
Proof. intros [A B C D E]. split; auto. intros i p L. by destruct (B _ _ L). Qed.

Lemma all_timed s n : req_inv 0 n s -> forall id p, pending_ s !! id = Some p -> req_armed s id p.
Proof. intros I id p E. apply (ri_armed _ _ _ I _ _ E). destruct (ri_ok _ _ _ I _ _ E). lia. Qed.

(* ------------------------------------------------------------------ *)
(** ** Requests keep both invariants *)

Lemma call_body_req s cb r : req_same s (call_body s cb r).
Proof. destruct cb; cbn; [| destruct (ok r); cbn]; same_solver. Qed.

Lemma call_body_dial s cb r : dial_same s (call_body s cb r).
Proof. destruct cb; cbn; [| destruct (ok r); cbn]; same_solver. Qed.

Lemma onComplete_dial s id att r : dial_same s (onComplete_ s id att r).
Proof.
  unfold onComplete_. destruct (pending_ s !! id) as [p |]; [| done].
  destruct (negb _); [same_solver |]. destruct (p_cb p); [| same_solver].
  etransitivity; [| apply call_body_dial]. same_solver.
Qed.

Lemma startAttempt_dial s id : dial_same s (startAttempt_ s id).
Proof.
  unfold startAttempt_. destruct (pending_ s !! id); [| done].
  destruct (negb _); [apply onComplete_dial | same_solver].
Qed.

Lemma onTimeout_dial s id att : dial_same s (onTimeout_ s id att).
Proof.
  unfold onTimeout_. destruct (pending_ s !! id); [| done]. destruct (negb _); [done |].
  destruct (_ && _); [| apply onComplete_dial].
  etransitivity; [| apply startAttempt_dial]. same_solver.
Qed.

Lemma sendAsync_dial s o name opt req cb : dial_same s (sendAsync s o name opt req cb).
Proof.
  unfold sendAsync. destruct (negb o); [same_solver |]. destruct (negb _).
  - destruct cb; [| done]. etransitivity; [| apply call_body_dial]. same_solver.
  - etransitivity; [| apply startAttempt_dial].
    destruct (pending_ _ !! _); same_solver.
Qed.

Lemma sendAsyncToDispatcher_dial s o name opt h op req :
  dial_same s (sendAsyncToDispatcher s o name opt h op req).
Proof. unfold sendAsyncToDispatcher. destruct (negb o); [same_solver | apply sendAsync_dial]. Qed.

(** A request leaves the table, with its callback called or not. *)
Lemma req_remove ex n s s' id p :
  req_inv ex n s -> pending_ s !! id = Some p -> (ex = 0 \/ ex = id) ->
  connectors_ s' = connectors_ s -> pending_ s' = delete id (pending_ s) ->
  nextRequestId_ s' = nextRequestId_ s -> timers s' = timers s ->
  (forall i, i <> id -> req_calls i s' = req_calls i s) -> (req_calls id s' <= 1)%nat ->
  req_inv 0 n s'.
Proof.
  intros [Hn Hok Harm Ho Hf] E Hex Hc Hp Hi Ht Hr H1.
  assert (R := ro_range _ _ _ (Hok _ _ E)).
  split; rewrite ?Hp, ?Hi; auto.
  - intros i q L. apply lookup_delete_Some in L as [N L]. destruct (Hok _ _ L).
    split; rewrite ?Hi, ?Hc, ?Hr by done; auto.
  - intros i q L _. apply lookup_delete_Some in L as [N L].
    unfold req_armed. rewrite Ht. apply Harm; [done |].
    destruct Hex as [-> | ->]; [| done]. destruct (Hok _ _ L). lia.
  - intros i. destruct (decide (i = id)) as [-> |]; [done | by rewrite Hr].
  - intros i L. rewrite Hr by lia. auto.
Qed.

Lemma onComplete_req ex n s id att r :
  req_inv ex n s -> (ex = 0 \/ ex = id) -> req_inv 0 n (onComplete_ s id att r).
Proof.
  intros I Hex. unfold onComplete_. destruct (pending_ s !! id) as [p |] eqn:E.
  2: { destruct Hex as [-> | ->]; [done | by eapply weaken_ex]. }
  assert (Hz := ro_calls _ _ _ (ri_ok _ _ _ I _ _ E)).
  assert (D : req_inv 0 n (set_pending s (delete id (pending_ s)))).
  { eapply req_remove; eauto. change (req_calls id s <= 1)%nat. lia. }
  destruct (negb _); [done |]. destruct (p_cb p) as [cb |]; [| done].
  eapply req_inv_same; [apply call_body_req |]. eapply (req_remove _ _ s _ id p); try done.
  - intros i N. unfold req_calls. cbn. rewrite count_cons. cbn. by zb_eval.
  - unfold req_calls in *. cbn. rewrite count_cons. cbn. rewrite Z.eqb_refl. lia.
Qed.

(** A request starts an attempt: its timer is armed again. *)
Lemma req_arm n s s' id p :
  req_inv id n s -> req_ok s id p ->
  connectors_ s' = connectors_ s -> pending_ s' = <[id := p]> (pending_ s) ->
  nextRequestId_ s' = nextRequestId_ s ->
  timers s' = timers s ++ [(timeoutResolved p, TReqTimeout id (attempt p))] ->
  (forall i, req_calls i s' = req_calls i s) ->
  req_inv 0 n s'.
Proof.
  intros [Hn Hok Harm Ho Hf] [] Hc Hp Hi Ht Hr.
  split; rewrite ?Hp, ?Hi; auto.
  - intros i q L. apply lookup_insert_Some in L as [[<- <-] | [N L]]; [| destruct (Hok _ _ L)];
      split; rewrite ?Hi, ?Hc, ?Hr; done.
  - intros i q L _. unfold req_armed. rewrite Ht. apply elem_of_app.
    apply lookup_insert_Some in L as [[<- <-] | [N L]]; [right; by left | left; by apply Harm].
  - intros i. by rewrite Hr.
  - intros i L. rewrite Hr. auto.
Qed.

Lemma startAttempt_req n s s0 id p :
  s = set_pending s0 (<[id := p]> (pending_ s0)) ->
  req_inv id n s0 -> req_ok s0 id p -> req_inv 0 n (startAttempt_ s id).
Proof.
  intros -> I K. unfold startAttempt_. cbn. rewrite lookup_insert_eq.
  assert (bool_decide (connectorName p ∈ connectors_ s0) = true) as E.
  { apply bool_decide_eq_true, K. }
  unfold find_. cbn. rewrite E. cbn.
  by eapply req_arm.
Qed.

Lemma onTimeout_req n s id att :
  req_inv id n s -> (forall p, pending_ s !! id = Some p -> attempt p <> att -> req_armed s id p) ->
  req_inv 0 n (onTimeout_ s id att).
Proof.
  intros I Hst. unfold onTimeout_. destruct (pending_ s !! id) as [p |] eqn:E.
  2: by eapply weaken_ex.
  pose proof (ri_ok _ _ _ I _ _ E) as K.
  destruct (attempt p =? att) eqn:Ea; b2p; cbn.
  2: { destruct I as [A B C D F]. split; auto. intros i q L _.
       destruct (decide (i = id)) as [-> |]; [| by apply C]. simplify_eq. by apply Hst. }
  destruct (so_retryOnce _ && _) eqn:R; b2p.
  - eapply startAttempt_req; [done | done |]. destruct K. split; auto.
  - eapply onComplete_req; [done | by right].
Qed.

Lemma sendAsync_req n s o name opt req cb :
  req_inv 0 n s -> n + 1 < U64 -> req_inv 0 (n + 1) (sendAsync s o name opt req cb).
Proof.
  intros I L. unfold sendAsync. destruct (negb o).
  { eapply req_bound; [by apply req_inv_posted | lia]. }
  unfold find_. destruct (bool_decide (name ∈ connectors_ s)) eqn:F; cbn.
  2: { eapply req_bound; [| instantiate (1 := n); lia]. destruct cb; [| done].
       eapply req_inv_same; [| done]. etransitivity; [| apply call_body_req]. same_solver. }
  b2p. pose proof (ri_next _ _ _ I) as Hn.
  assert (u64 (nextRequestId_ s + 1) = nextRequestId_ s + 1) as Eu by (apply u64_small; lia).
  rewrite Eu. destruct (pending_ s !! nextRequestId_ s) eqn:E.
  { destruct (ri_ok _ _ _ I _ _ E). lia. }
  eapply (startAttempt_req _ _ (set_nextRequestId s (nextRequestId_ s + 1))); [done | |].
  - destruct I as [A B C D G]. split; cbn; auto; try lia.
    + intros i p L'. destruct (B _ _ L'). split; cbn; auto. lia.
    + intros i p L' N. apply C; [done |]. destruct (B _ _ L'). lia.
    + intros i Li. apply G. lia.
  - split; cbn; auto; [lia |]. apply (ri_future _ _ _ I). lia.
Qed.

(* ------------------------------------------------------------------ *)
(** ** One dial changes *)

(** From [s] to [s'] only the dial [id], live with record [d], changes: its
    record becomes [d'], the old socket is given up, frames [fr] are pushed. *)
Record dial_change (s s' : state) (id : Z) (d d' : DialState) (fr : list frame) : Prop := {
  dc_dials : dials_ s' = <[id := d']> (dials_ s);
  dc_next : nextDialId_ s' = nextDialId_ s;
  dc_fds : fds s' = (if connectedEventRegistered d' then <[sock d' := id]> (delete (sock d) (fds s)) else delete (sock d) (fds s));
  dc_open : forall fd, fd ∈ open s' <-> (fd ∈ open s /\ fd <> sock d) \/ (fd = sock d' /\ 0 <= fd) \/ count (is_close fd) fr = 1%nat;
  dc_stack : stack s' = fr ++ stack s;
  dc_opt : d_opt d' = d_opt d;
  dc_attempt : attemptIndex d' = 0 \/ attemptIndex d' = 1 /\ do_retryOnce (d_opt d') = true;
  dc_sock : (sock d' = -1 /\ connectedEventRegistered d' = false) \/
            (0 <= sock d' /\ connectedEventRegistered d' = true /\ (sock d' ∉ open s \/ sock d' = sock d));
  dc_frames : forall i, count (is_frame i) fr = (if (i =? id) && completed d' then 1%nat else 0%nat);
  dc_cbs : dial_calls id s' = count (is_cb_frame id) fr;
  dc_close : forall fd, (count (is_close fd) fr <= 1)%nat /\
    (count (is_close fd) fr = 1%nat -> 0 <= fd /\ (fd ∉ open s \/ fd = sock d) /\ fd <> sock d');
  dc_calls : forall i, i <> id -> dial_calls i s' = dial_calls i s;
  dc_done : completed d' = true -> sock d' = -1;
  dc_live : completed d' = false -> waiting s' id d' /\ dial_calls id s' = 0%nat;
  dc_timers : forall x, x ∈ timers s -> x ∈ timers s';
  dc_starts : forall w i a, (w, TDialStart i a) ∈ timers s' ->
    (w, TDialStart i a) ∈ timers s \/ i = id /\ a = 1 /\ do_retryOnce (d_opt d) = true
}.

Section Change.
Context {ex n : Z} {down : bool} {s s' : state} {id : Z} {d d' : DialState} {fr : list frame}.
Context (I : dial_inv ex n down s) (E : dials_ s !! id = Some d) (Hlive : completed d = false).
Context (C : dial_change s s' id d d' fr).

Lemma other_sock i e : i <> id -> dials_ s !! i = Some e -> 0 <= sock e -> sock e <> sock d /\ sock e <> sock d'.
Proof.
  intros N L P. destruct (di_ok _ _ _ _ I _ _ L) as [_ _ S _ _ _].
  assert (sock e <> sock d) as Ne. { intros Eq. apply N. by eapply (di_socks _ _ _ _ I i id e d). }
  split; [done |]. intros Eq. destruct (dc_sock _ _ _ _ _ _ C) as [[? ?] | (? & ? & [? | ?])]; try lia.
  destruct S as [[? ?] | (? & ? & ?)]; [lia | congruence].
Qed.

Lemma change_fds i e : i <> id -> dials_ s !! i = Some e -> 0 <= sock e -> fds s !! sock e = Some i -> fds s' !! sock e = Some i.
Proof.
  intros N L P F. destruct (other_sock i e N L P). rewrite (dc_fds _ _ _ _ _ _ C).
  destruct (connectedEventRegistered d'); rewrite ?lookup_insert_ne, ?lookup_delete_ne by done; done.
Qed.

Lemma close_absent : count (is_close (sock d)) (stack s) = 0%nat.
Proof. by destruct (di_ok _ _ _ _ I _ _ E). Qed.

Lemma negative_close fd : fd < 0 -> count (is_close fd) (stack s') = 0%nat.
Proof.
  intros N. rewrite (dc_stack _ _ _ _ _ _ C), count_app.
  destruct (dc_close _ _ _ _ _ _ C fd) as [A B]. destruct (di_close _ _ _ _ I fd) as [A' B'].
  destruct (count (is_close fd) fr) as [| [|]] eqn:E1; [| destruct (B eq_refl); lia | lia].
  destruct (count (is_close fd) (stack s)) as [| [|]] eqn:E2; [done | | lia].
  destruct (di_open _ _ _ _ I fd (B' eq_refl)). lia.
Qed.

Lemma other_ok i e : i <> id -> dials_ s !! i = Some e -> dial_ok s' i e.
Proof.
  intros N L. destruct (di_ok _ _ _ _ I _ _ L) as [R A S K D V].
  assert (count (is_frame i) (stack s') = count (is_frame i) (stack s)) as Ef.
  { rewrite (dc_stack _ _ _ _ _ _ C), count_app, (dc_frames _ _ _ _ _ _ C).
    by rewrite (proj2 (Z.eqb_neq i id)). }
  assert (count (is_cb_frame i) (stack s') = count (is_cb_frame i) (stack s)) as Ec.
  { rewrite (dc_stack _ _ _ _ _ _ C), count_app.
    assert (H : count (is_frame i) fr = 0%nat) by (rewrite (dc_frames _ _ _ _ _ _ C); by rewrite (proj2 (Z.eqb_neq i id))).
    pose proof (cb_le_frames i fr). lia. }
  split; rewrite ?(dc_next _ _ _ _ _ _ C), ?Ef, ?Ec, ?(dc_calls _ _ _ _ _ _ C) by done; auto.
  - destruct S as [? | (P & O & G & F)]; [by left |]. right. destruct (other_sock i e N L P).
    split_and!; auto; [| by apply change_fds]. rewrite (dc_open _ _ _ _ _ _ C). auto.
  - destruct S as [[-> _] | (P & O & G & F)]; [apply negative_close; lia |].
    rewrite (dc_stack _ _ _ _ _ _ C), count_app, K.
    destruct (dc_close _ _ _ _ _ _ C (sock e)) as [A1 B1].
    destruct (count (is_close (sock e)) fr) as [| [|]] eqn:E1; [done | | lia].
    destruct (B1 eq_refl) as (_ & [? | ?] & _); [done |]. destruct (other_sock i e N L P). done.
Qed.

Lemma changed_ok : dial_ok s' id d'.
Proof.
  destruct (di_ok _ _ _ _ I _ _ E) as [R _ _ K _ V]. destruct (V Hlive) as [Vf _].
  assert (count (is_cb_frame id) (stack s) = 0%nat) as Vc.
  { pose proof (cb_le_frames id (stack s)). lia. }
  split; rewrite ?(dc_next _ _ _ _ _ _ C); auto.
  - apply C.
  - destruct (dc_sock _ _ _ _ _ _ C) as [? | (P & G & O)]; [by left | right].
    split_and!; auto; [rewrite (dc_open _ _ _ _ _ _ C); auto |].
    rewrite (dc_fds _ _ _ _ _ _ C), G. by rewrite lookup_insert_eq.
  - destruct (dc_sock _ _ _ _ _ _ C) as [[-> _] | (P & G & O)]; [apply negative_close; lia |].
    rewrite (dc_stack _ _ _ _ _ _ C), count_app.
    destruct (dc_close _ _ _ _ _ _ C (sock d')) as [A1 B1].
    destruct (count (is_close (sock d')) fr) as [| [|]] eqn:E1; [| destruct (B1 eq_refl); naive_solver | lia].
    destruct O as [O | ->]; [| by rewrite close_absent].
    destruct (di_close _ _ _ _ I (sock d')) as [A2 B2].
    destruct (count (is_close (sock d')) (stack s)) as [| [|]]; [done | by destruct O; auto | lia].
  - intros Cd. split; [by apply C |].
    rewrite (dc_stack _ _ _ _ _ _ C), !count_app, Vf, Vc, (dc_frames _ _ _ _ _ _ C), Z.eqb_refl, Cd.
    rewrite (dc_cbs _ _ _ _ _ _ C). cbn. lia.
  - intros Cd. split; [| by apply C].
    rewrite (dc_stack _ _ _ _ _ _ C), !count_app, Vf, (dc_frames _ _ _ _ _ _ C), Z.eqb_refl, Cd. done.
Qed.

Lemma change_socks i j x y : <[id := d']> (dials_ s) !! i = Some x -> <[id := d']> (dials_ s) !! j = Some y ->
  sock x = sock y -> 0 <= sock x -> i = j.
Proof.
  assert (forall j e, j <> id -> dials_ s !! j = Some e -> sock d' = sock e -> 0 <= sock d' -> False) as X.
  { intros k e N L Eq P. destruct (other_sock k e N L); lia. }
  intros Li Lj Eq P. apply lookup_insert_Some in Li as [[<- <-] | [Ni Li]], Lj as [[<- <-] | [Nj Lj]]; auto.
  - by destruct (X j y).
  - by destruct (X i x); rewrite <- ?Eq.
  - by eapply (di_socks _ _ _ _ I).
Qed.

Lemma change_handlers fd i : fds s' !! fd = Some i -> exists e, <[id := d']> (dials_ s) !! i = Some e /\ sock e = fd /\ 0 <= fd.
Proof.
  intros F. rewrite (dc_fds _ _ _ _ _ _ C) in F.
  assert (fds s !! fd = Some i /\ fd <> sock d \/ fd = sock d' /\ i = id /\ connectedEventRegistered d' = true) as [[F' N] | (-> & -> & G)].
  { destruct (connectedEventRegistered d'); [apply lookup_insert_Some in F as [[<- <-] | [_ F]]; [by right |] |];
      apply lookup_delete_Some in F as [? F]; left; auto. }
  - destruct (di_fds _ _ _ _ I _ _ F') as (e & L & Es & P). exists e.
    rewrite lookup_insert_ne; [done |]. intros <-. simplify_eq.
  - exists d'. rewrite lookup_insert_eq. destruct (dc_sock _ _ _ _ _ _ C) as [[? ?] | (? & ? & ?)]; [congruence | done].
Qed.

Lemma change_open fd : fd ∈ open s' -> 0 <= fd /\
  ((exists i e, <[id := d']> (dials_ s) !! i = Some e /\ sock e = fd) \/ count (is_close fd) (stack s') = 1%nat).
Proof.
  intros O. rewrite (dc_open _ _ _ _ _ _ C) in O. rewrite (dc_stack _ _ _ _ _ _ C), count_app.
  destruct O as [[O N] | [[-> P] | O]].
  - destruct (di_open _ _ _ _ I fd O) as (P & [(i & e & L & Es) | K]); split; auto.
    + left. exists i, e. rewrite lookup_insert_ne; [done |]. intros <-. simplify_eq.
    + destruct (dc_close _ _ _ _ _ _ C fd) as [A B]. right.
      destruct (count (is_close fd) fr) as [| [|]]; [done | | lia].
      destruct (B eq_refl) as (_ & [?|?] & _); done.
  - split; [done |]. left. exists id, d'. by rewrite lookup_insert_eq.
  - destruct (dc_close _ _ _ _ _ _ C fd) as [_ B]. destruct (B O) as (P & [Q | ->] & _); split; auto; right; rewrite O.
    + destruct (di_close _ _ _ _ I fd) as [A1 B1].
      destruct (count (is_close fd) (stack s)) as [| [|]]; [done | by destruct Q; auto | lia].
    + by rewrite close_absent.
Qed.

Lemma change_close fd : (count (is_close fd) (stack s') <= 1)%nat /\ (count (is_close fd) (stack s') = 1%nat -> fd ∈ open s').
Proof.
  rewrite (dc_stack _ _ _ _ _ _ C), count_app.
  destruct (dc_close _ _ _ _ _ _ C fd) as [A B]. destruct (di_close _ _ _ _ I fd) as [A' B'].
  rewrite (dc_open _ _ _ _ _ _ C).
  destruct (count (is_close fd) fr) as [| [|]] eqn:E1; [| | lia]; cbn.
  - split; [done |]. intros K. left. split; [auto |]. intros ->. rewrite close_absent in K. done.
  - destruct (B eq_refl) as (P & Q & R). split; [| auto].
    destruct (count (is_close fd) (stack s)) as [| [|]] eqn:E2; [lia | | lia].
    destruct Q as [Q | ->]; [by destruct Q; auto |]. rewrite close_absent in E2. done.
Qed.

Lemma dial_inv_change : ex = 0 \/ ex = id -> dial_inv 0 n down s'.
Proof.
  intros Hex. pose proof changed_ok as Kd. pose proof other_ok as Ko.
  split; rewrite ?(dc_next _ _ _ _ _ _ C), ?(dc_dials _ _ _ _ _ _ C).
  - apply I.
  - intros i e L. apply lookup_insert_Some in L as [[<- <-] | [N L]]; auto.
  - intros i e L Cd _. apply lookup_insert_Some in L as [[<- <-] | [N L]]; [by apply C |].
    destruct (di_waiting _ _ _ _ I i e L Cd) as [A B].
    { destruct Hex; subst; [| done]. destruct (di_ok _ _ _ _ I _ _ L). lia. }
    pose proof (dc_timers _ _ _ _ _ _ C). split; [auto |]. intros P T. destruct (B P T); auto.
  - apply change_socks.
  - apply change_handlers.
  - apply change_open.
  - apply change_close.
  - intros i. rewrite (dc_stack _ _ _ _ _ _ C), count_app, (dc_frames _ _ _ _ _ _ C).
    destruct (i =? id) eqn:Ei; b2p; subst.
    + intros F. exists d'. rewrite lookup_insert_eq. split; [done |].
      destruct (completed d') eqn:Cd; [done |]. destruct (do_live _ _ _ (di_ok _ _ _ _ I _ _ E) Hlive). cbn in F. lia.
    + cbn. intros F. destruct (di_frames _ _ _ _ I i F) as (e & L & ?). exists e. by rewrite lookup_insert_ne.
  - intros i L. apply lookup_insert_None in L as [L N]. rewrite (dc_calls _ _ _ _ _ _ C) by done. by apply I.
  - intros i a w T. destruct (dc_starts _ _ _ _ _ _ C _ _ _ T) as [T' | (-> & -> & R)].
    + destruct (di_timers _ _ _ _ I _ _ _ T') as (? & ? & X). split_and!; auto.
      intros e L. apply lookup_insert_Some in L as [[<- <-] | [N L]]; auto. rewrite (dc_opt _ _ _ _ _ _ C). auto.
    + split_and!; auto; [destruct (di_ok _ _ _ _ I _ _ E); lia |].
      intros e L. rewrite lookup_insert_eq in L. simplify_eq. by rewrite (dc_opt _ _ _ _ _ _ C).
Qed.

End Change.

(* ------------------------------------------------------------------ *)
(** ** The operations on dials change one dial *)

Lemma delete_negative {ex n down s} : dial_inv ex n down s -> delete (-1) (fds s) = fds s.
Proof.
  intros I. apply delete_id. destruct (fds s !! (-1)) eqn:E; [| done].
  destruct (di_fds _ _ _ _ I _ _ E) as (? & ? & ? & ?). lia.
Qed.

Lemma open_negative {ex n down s} : dial_inv ex n down s -> (-1) ∉ open s.
Proof. intros I O. destruct (di_open _ _ _ _ I _ O). lia. Qed.

Ltac mem_lia :=
  match goal with |- ?x ∈ _ <-> _ => destruct (decide (x = -1)); subst end;
  repeat match goal with |- ?x ∈ ?X <-> _ =>
    match X with context [{[?k]}] =>
      tryif constr_eq x k then fail else lazymatch goal with _ : x <> k |- _ => fail | _ => destruct (decide (x = k)); subst; try done; try lia end end end;
  repeat match goal with H : ?T |- _ =>
    lazymatch T with
    | _ ∈ _ => fail | _ ∉ _ => fail | _ <= _ => fail | _ <> _ => fail
    | _ => clear H
    end end;
  set_unfold; split; intros; destruct_or?; destruct_and?; subst;
  first [done | lia | tauto | left; split; [tauto | lia] | right; left; split; [done | lia] | right; right; lia].

Ltac wait_solver :=
  match goal with |- waiting _ _ _ /\ _ => idtac end;
  unfold waiting; cbn; rewrite ?elem_of_app, ?list_elem_of_singleton; split_and!; intros; destruct_and?; solve [done | lia | auto].

(** Closes the fields of [dial_change] for a state built by setters. *)
Ltac change_solver :=
  split; cbn; intros; unfold dial_calls in *; cbn; rewrite ?count_cons, ?count_nil, ?insert_insert_eq; cbn; rewrite ?Z.eqb_refl;
  repeat match goal with N : ?i <> ?j |- context [?j =? ?i] => rewrite (proj2 (Z.eqb_neq j i)) by congruence end;
  try (zb_eval; fail);
  repeat match goal with |- context [?i =? ?j] => destruct (Z.eqb_spec i j); subst end; cbn;
  try solve [done | lia | congruence | auto | mem_lia | wait_solver | set_solver].

(** The facts an operation on a live dial needs, with the record taken apart
    and the two cases of its socket. *)
Ltac live_cases I E Hlive :=
  let R := fresh "R" in let A := fresh "A" in let S := fresh "S" in let K := fresh "K" in let V := fresh "V" in
  pose proof (di_ok _ _ _ _ I _ _ E) as [R A S K _ V]; destruct (V Hlive) as [_ ?]; clear V;
  pose proof (delete_negative I); pose proof (open_negative I);
  match type of E with _ = Some ?d => destruct d as [opt cb att reg comp sk pr] end; cbn in Hlive |- *; subst; cbn in *;
  destruct S as [[-> ->] | (? & ? & -> & ?)]; cbn in *.

Definition closed (d : DialState) (att : Z) : DialState :=
  mk_dial (d_opt d) (d_cb d) att false true (-1) (peer d).

Lemma finishOk_change {ex n down s id d} :
  dial_inv ex n down s -> dials_ s !! id = Some d -> completed d = false ->
  dial_change s (finishDialOk_ s id (attemptIndex d)) id d (closed d (attemptIndex d)) [FAccept id].
Proof.
  intros I E Hlive. unfold finishDialOk_, closed. rewrite E, Hlive, Z.eqb_refl.
  live_cases I E Hlive; [| rewrite (proj2 (Z.leb_le 0 sk)) by done; cbn]; change_solver.
Qed.

Lemma finishFail_change {ex n down s id d} err b :
  dial_inv ex n down s -> dials_ s !! id = Some d -> completed d = false ->
  dial_change s (finishDialFail_ s id (attemptIndex d) err b) id d (closed d (attemptIndex d)) [FDialCb id].
Proof.
  intros I E Hlive. unfold finishDialFail_, closed. rewrite E, Hlive, Z.eqb_refl.
  live_cases I E Hlive; [| rewrite (proj2 (Z.leb_le 0 sk)) by done; cbn]; change_solver.
Qed.

(** [dialStartAttempt_] changes the dial in one of five ways. *)
Lemma start_change {ex n down s id d} k a :
  dial_inv ex n down s -> dials_ s !! id = Some d -> completed d = false ->
  fresh_answers s a = true -> k = 0 \/ k = 1 /\ do_retryOnce (d_opt d) = true ->
  exists d' fr, dial_change s (dialStartAttempt_ s id k a) id d d' fr.
Proof.
  intros I E Hlive Fr Ha. unfold dialStartAttempt_, drop_attempt, await_connect, finishDialFail_, finishDialOk_. rewrite E, Hlive.
  destruct a as [[fd |] conn reg']; cbn in *; b2p.
  2: { exists (closed d k), [FDialCb id]. unfold closed.
       live_cases I E Hlive; [| rewrite (proj2 (Z.leb_le 0 sk)) by done; cbn]; rewrite lookup_insert_eq; cbn; rewrite Z.eqb_refl; cbn; change_solver. }
  destruct conn as [| | err].
  - exists (closed d k), [FAccept id]. unfold closed.
    live_cases I E Hlive; [| rewrite (proj2 (Z.leb_le 0 sk)) by done; cbn]; rewrite lookup_insert_eq; cbn; rewrite Z.eqb_refl; cbn;
      rewrite ?andb_false_r; change_solver.
  - destruct (bool_decide (is_Some _)) eqn:Ei; b2p.
    + exfalso. revert Ei. live_cases I E Hlive; [| rewrite (proj2 (Z.leb_le 0 sk)) by done; cbn]; intros [i F].
      * destruct (di_fds _ _ _ _ I _ _ F) as (e & L & <- & P). destruct (di_ok _ _ _ _ I _ _ L) as [_ _ [[? ?] | (? & ? & ?)] _ _ _]; [lia | done].
      * apply lookup_delete_Some in F as [? F].
        destruct (di_fds _ _ _ _ I _ _ F) as (e & L & <- & P). destruct (di_ok _ _ _ _ I _ _ L) as [_ _ [[? ?] | (? & ? & ?)] _ _ _]; [lia | done].
    + rewrite orb_false_r. destruct reg'; cbn.
      * exists (mk_dial (d_opt d) (d_cb d) k true false fd (peer d)), [].
        live_cases I E Hlive; [| rewrite (proj2 (Z.leb_le 0 sk)) by done; cbn]; destruct (0 <? do_timeoutMs opt) eqn:Et; b2p; change_solver.
      * exists (closed d k), [FDialCb id]. unfold closed.
        live_cases I E Hlive; [| rewrite (proj2 (Z.leb_le 0 sk)) by done; cbn]; rewrite lookup_insert_eq; cbn; rewrite Z.eqb_refl; cbn;
          rewrite ?andb_false_r; change_solver.
  - destruct (do_retryOnce (d_opt d) && (k =? 0)) eqn:Er; b2p.
    + exists (mk_dial (d_opt d) (d_cb d) k false false (-1) (peer d)), [].
      live_cases I E Hlive; [| rewrite (proj2 (Z.leb_le 0 sk)) by done; cbn]; change_solver.
    + exists (closed d k), [FDialCb id; FClose fd]. unfold closed.
      live_cases I E Hlive; [| rewrite (proj2 (Z.leb_le 0 sk)) by done; cbn]; rewrite lookup_insert_eq; cbn; rewrite Z.eqb_refl; cbn;
          rewrite ?andb_false_r; change_solver.
Qed.

(* ------------------------------------------------------------------ *)
(** ** Dials keep both invariants *)

Lemma dial_weaken {ex n down s} id :
  dial_inv ex n down s -> (forall d, dials_ s !! ex = Some d -> completed d = false -> waiting s ex d) -> dial_inv id n down s.
Proof.
  intros [? ? W] H. split; auto. intros i d L C _.
  destruct (decide (i = ex)) as [-> |]; [by apply H | by apply W].
Qed.

Lemma finishOk_inv ex n down s id att :
  dial_inv ex n down s -> ex = 0 \/ ex = id -> (forall d, dials_ s !! id = Some d -> attemptIndex d = att) ->
  dial_inv 0 n down (finishDialOk_ s id att).
Proof.
  intros I Hex Ha. destruct (dials_ s !! id) as [d |] eqn:E; [destruct (completed d) eqn:C |].
  - unfold finishDialOk_. rewrite E, C. cbn. apply (dial_weaken _ I).
    intros e L. destruct Hex as [-> | ->]; [destruct (di_ok _ _ _ _ I _ _ L); lia | congruence].
  - rewrite <- (Ha d eq_refl). eapply dial_inv_change; eauto using finishOk_change.
  - unfold finishDialOk_. rewrite E. apply (dial_weaken _ I).
    intros e L. destruct Hex as [-> | ->]; [destruct (di_ok _ _ _ _ I _ _ L); lia | congruence].
Qed.

Lemma finishFail_inv ex n down s id att err b :
  dial_inv ex n down s -> ex = 0 \/ ex = id -> (forall d, dials_ s !! id = Some d -> attemptIndex d = att) ->
  dial_inv 0 n down (finishDialFail_ s id att err b).
Proof.
  intros I Hex Ha. destruct (dials_ s !! id) as [d |] eqn:E; [destruct (completed d) eqn:C |].
  - unfold finishDialFail_. rewrite E, C. cbn. apply (dial_weaken _ I).
    intros e L. destruct Hex as [-> | ->]; [destruct (di_ok _ _ _ _ I _ _ L); lia | congruence].
  - rewrite <- (Ha d eq_refl). eapply dial_inv_change; eauto using finishFail_change.
  - unfold finishDialFail_. rewrite E. apply (dial_weaken _ I).
    intros e L. destruct Hex as [-> | ->]; [destruct (di_ok _ _ _ _ I _ _ L); lia | congruence].
Qed.

Lemma dial_start_inv ex n down s id att a :
  dial_inv ex n down s -> ex = 0 \/ ex = id -> fresh_answers s a = true ->
  (forall d, dials_ s !! id = Some d -> att = 0 \/ att = 1 /\ do_retryOnce (d_opt d) = true) ->
  dial_inv 0 n down (dialStartAttempt_ s id att a).
Proof.
  intros I Hex Fr Ha. destruct (dials_ s !! id) as [d |] eqn:E; [destruct (completed d) eqn:C |].
  - unfold dialStartAttempt_. rewrite E, C. apply (dial_weaken _ I).
    intros e L. destruct Hex as [-> | ->]; [destruct (di_ok _ _ _ _ I _ _ L); lia | congruence].
  - destruct (start_change att a I E C Fr (Ha d eq_refl)) as (d' & fr & X). eapply dial_inv_change; eauto.
  - unfold dialStartAttempt_. rewrite E. apply (dial_weaken _ I).
    intros e L. destruct Hex as [-> | ->]; [destruct (di_ok _ _ _ _ I _ _ L); lia | congruence].
Qed.

(** A retry is armed. *)
Lemma retry_inv ex n down s id d :
  dial_inv ex n down s -> ex = 0 \/ ex = id -> dials_ s !! id = Some d -> do_retryOnce (d_opt d) = true ->
  dial_inv 0 n down (addTimer s (retryDelayMs (d_opt d)) (TDialStart id 1)).
Proof.
  intros I Hex E R. destruct I as [Hn Hok Hw Hs Hf Ho Hc Hfr Hg Ht].
  split; auto.
  - intros i e L. by destruct (Hok _ _ L).
  - intros i e L C _. unfold waiting. cbn in L |- *. rewrite !elem_of_app, !list_elem_of_singleton.
    destruct (decide (i = id)) as [-> | N]; [simplify_eq; split; auto 6 |].
    destruct (Hw i e L C) as [A B]; [destruct (Hok _ _ L); destruct Hex; subst; [lia | done] |].
    split; [auto |]. intros P T. destruct (B P T); auto.
  - intros i a w. cbn. rewrite elem_of_app, list_elem_of_singleton. intros [T | T]; [by apply (Ht _ _ w) |].
    simplify_eq. split; [done |]. destruct (Hok _ _ E). split; [lia |]. intros. by simplify_eq.
Qed.

Lemma dialTimeout_inv n down s id att :
  dial_inv id n down s ->
  (forall d, dials_ s !! id = Some d -> completed d = false -> attemptIndex d <> att -> waiting s id d) ->
  dial_inv 0 n down (dialTimeout_ s id att).
Proof.
  intros I Hst. unfold dialTimeout_. destruct (dials_ s !! id) as [d |] eqn:E.
  2: { apply (dial_weaken _ I). congruence. }
  destruct (completed d) eqn:C; cbn. { apply (dial_weaken _ I). congruence. }
  destruct (attemptIndex d =? att) eqn:Ea; b2p; cbn.
  2: { apply (dial_weaken _ I). intros. simplify_eq. by apply Hst. }
  destruct (do_retryOnce _ && _) eqn:R; b2p.
  - eapply retry_inv; eauto.
  - eapply finishFail_inv; eauto. intros. by simplify_eq.
Qed.

Lemma handleEvent_inv n down s id soErr :
  dial_inv 0 n down s -> dial_inv 0 n down (handleEvent s id soErr).
Proof.
  intros I. unfold handleEvent. destruct (dials_ s !! id) as [d |] eqn:E; [| done].
  destruct (completed d) eqn:C; [done |].
  assert (forall e, dials_ s !! id = Some e -> attemptIndex e = attemptIndex d) as Ha by (intros; by simplify_eq).
  destruct soErr as [[err |] |]; [| by eapply finishOk_inv; eauto | by eapply finishFail_inv; eauto].
  destruct (do_retryOnce _ && _) eqn:R; b2p; [| by eapply finishFail_inv; eauto].
  rewrite H0. eapply retry_inv; eauto.
Qed.

Lemma dialTcpSession_inv n down s o opt cb a :
  dial_inv 0 n down s -> n + 1 < U64 -> fresh_answers s a = true ->
  dial_inv 0 (n + 1) down (dialTcpSession s o opt cb a).
Proof.
  intros I L Fr. unfold dialTcpSession.
  destruct (negb o). { eapply dial_bound; [eapply dial_inv_same; [| done]; same_solver | lia]. }
  destruct cb as [cb |]; [| eapply dial_bound; [done | lia]].
  destruct (_ || _). { eapply dial_bound; [eapply dial_inv_same; [| done]; same_solver | lia]. }
  pose proof (di_next _ _ _ _ I) as Hn.
  assert (u64 (nextDialId_ s + 1) = nextDialId_ s + 1) as Eu by (apply u64_small; lia). rewrite Eu.
  cbn [dials_ set_nextDialId]. destruct (dials_ s !! nextDialId_ s) eqn:E.
  { destruct (di_ok _ _ _ _ I _ _ E). lia. }
  set (id := nextDialId_ s) in *.
  apply (dial_start_inv id); [| auto | done |].
  2: { intros d Ld. left. done. }
  destruct (di_gone _ _ _ _ I _ E) as (_ & G & _). specialize (G ltac:(lia)).
  assert (count (is_frame id) (stack s) = 0%nat) as Hfr.
  { destruct (count (is_frame id) (stack s)) eqn:Ec; [done |]. destruct (di_frames _ _ _ _ I id) as (? & ? & ?); [lia | congruence]. }
  assert (count (is_close (-1)) (stack s) = 0%nat) as Hcl.
  { destruct (di_close _ _ _ _ I (-1)) as [A B]. destruct (count (is_close (-1)) (stack s)) as [| [|]]; [done | | lia].
    destruct (open_negative I). auto. }
  destruct I as [_ Hok Hw Hs Hf Ho Hc Hfs Hg Ht]. split; cbn.
  - lia.
  - intros i d Li. apply lookup_insert_Some in Li as [[<- <-] | [N Li]].
    + split; cbn; auto; [lia | by intros].
    + destruct (Hok _ _ Li). split; cbn; auto. lia.
  - intros i d Li C N. apply lookup_insert_Some in Li as [[<- <-] | [_ Li]]; [done |]. apply Hw; auto. destruct (Hok _ _ Li). lia.
  - intros i j d e Li Lj. apply lookup_insert_Some in Li as [[<- <-] | [Ni Li]], Lj as [[<- <-] | [Nj Lj]]; cbn; intros; try lia.
    by eapply Hs.
  - intros fd i F. destruct (Hf _ _ F) as (e & Le & ?). exists e. rewrite lookup_insert_ne; [done | congruence].
  - intros fd O. destruct (Ho fd O) as (? & [(i & e & Li & ?) | ?]); auto. split; auto. left. exists i, e.
    rewrite lookup_insert_ne; [done | congruence].
  - apply Hc.
  - intros i F. destruct (Hfs i F) as (e & Le & ?). exists e. rewrite lookup_insert_ne; [done | congruence].
  - intros i Li. apply lookup_insert_None in Li as [Li N]. destruct (Hg i Li) as (A & B & D).
    split_and!; auto; intros; [apply B; lia | apply D; [lia | done]].
  - intros i b w T. destruct (Ht _ _ _ T) as (? & ? & ?). split_and!; auto; [lia |].
    intros d Ld. apply lookup_insert_Some in Ld as [[<- <-] | [N Ld]]; [lia | auto].
Qed.

(* ------------------------------------------------------------------ *)
(** ** The requests are untouched by dials *)

Lemma finishOk_req s id att : req_same s (finishDialOk_ s id att).
Proof. unfold finishDialOk_. destruct (dials_ s !! id); [| done]. destruct (_ || _); [done |]. destruct (_ && _); same_solver. Qed.

Lemma finishFail_req s id att err b : req_same s (finishDialFail_ s id att err b).
Proof. unfold finishDialFail_. destruct (dials_ s !! id); [| done]. destruct (_ || _); [done |]. destruct (_ && _); same_solver. Qed.

Lemma accepted_req s id h : req_same s (accepted s id h).
Proof. unfold accepted. destruct (dials_ s !! id); [| done]. destruct (isValid h); same_solver. Qed.

Lemma start_req s id att a : req_same s (dialStartAttempt_ s id att a).
Proof.
  unfold dialStartAttempt_. destruct (dials_ s !! id) as [st |]; [| done]. destruct (completed st); [done |].
  etransitivity; [instantiate (1 := drop_attempt s id att st); unfold drop_attempt; destruct (0 <=? sock st), (connectedEventRegistered st); same_solver |].
  generalize (drop_attempt s id att st). clear s. intros s.
  destruct (a_socket a) as [fd |]; [| apply finishFail_req].
  destruct (a_connect a) as [| | err].
  - etransitivity; [| apply finishOk_req]. same_solver.
  - unfold await_connect. destruct (_ || _).
    + etransitivity; [| apply finishFail_req]. same_solver.
    + destruct (0 <? _); same_solver.
  - destruct (_ && _); [same_solver |]. etransitivity; [| apply finishFail_req]. same_solver.
Qed.

Lemma dialTimeout_req s id att : req_same s (dialTimeout_ s id att).
Proof.
  unfold dialTimeout_. destruct (dials_ s !! id); [| done]. destruct (_ || _); [done |].
  destruct (_ && _); [same_solver | apply finishFail_req].
Qed.

Lemma handleEvent_req s id soErr : req_same s (handleEvent s id soErr).
Proof.
  unfold handleEvent. destruct (dials_ s !! id); [| done]. destruct (completed _); [done |].
  destruct soErr as [[err |] |]; [| apply finishOk_req | apply finishFail_req].
  destruct (_ && _); [same_solver | apply finishFail_req].
Qed.

Lemma dialTcpSession_req s o opt cb a : req_same s (dialTcpSession s o opt cb a).
Proof.
  unfold dialTcpSession. destruct (negb o); [same_solver |]. destruct cb; [| done].
  destruct (_ || _); [same_solver |]. etransitivity; [| apply start_req].
  destruct (dials_ _ !! _); same_solver.
Qed.

Lemma shutdown_fold_req l s : req_same s (foldr (fun (kv : Z * DialState) s => shutdown_dial (snd kv) s) s l).
Proof.
  induction l as [| [i d] l IH]; [done |]. etransitivity; [apply IH |]. cbn. unfold shutdown_dial.
  destruct (0 <=? sock d), (connectedEventRegistered d); same_solver.
Qed.

Lemma shutdown_req n s o : req_inv 0 n s -> req_inv 0 n (shutdownDialsInOwnerThread s o).
Proof.
  intros I. unfold shutdownDialsInOwnerThread. destruct (negb o).
  - by apply req_inv_posted.
  - eapply req_inv_same; [| exact I]. etransitivity; [apply shutdown_fold_req | same_solver].
Qed.

Lemma settle_req s fr : req_same s (settle_frames s fr).
Proof. revert s. induction fr as [| [] fr IH]; intros s; cbn; try same_solver. etransitivity; [| apply IH]. same_solver. Qed.

(* ------------------------------------------------------------------ *)
(** ** Shutting down, returning, going out of scope *)

(** Shutting down gives up every socket of the table. *)
Lemma shutdown_fold l s :
  let s' := foldr (fun (kv : Z * DialState) s => shutdown_dial (snd kv) s) s l in
  nextDialId_ s' = nextDialId_ s /\ stack s' = stack s /\ timers s' = timers s /\ trace s' = trace s /\
  (forall fd, fd ∈ open s' <-> fd ∈ open s /\ Forall (fun kv => ~ (sock (snd kv) = fd /\ 0 <= fd)) l) /\
  (forall fd i, fds s' !! fd = Some i <-> fds s !! fd = Some i /\
     Forall (fun kv => ~ (sock (snd kv) = fd /\ 0 <= fd /\ connectedEventRegistered (snd kv) = true)) l).
Proof.
  induction l as [| [i d] l IH]; cbn; [split_and!; auto; intros; rewrite Forall_nil; tauto |].
  destruct IH as (A1 & A2 & A3 & A4 & A5 & A6).
  set (s1 := foldr _ s l) in *. clearbody s1. unfold shutdown_dial.
  destruct (0 <=? sock d) eqn:P; b2p; [destruct (connectedEventRegistered d) eqn:R |]; cbn; split_and!; auto; intros;
    rewrite ?elem_of_difference, ?elem_of_singleton, ?lookup_delete_Some, ?A5, ?A6, Forall_cons; cbn; rewrite ?R;
    destruct (decide (sock d = fd)); subst; intuition (try congruence; try lia).
Qed.

Lemma shutdown_inv n down s o :
  dial_inv 0 n down s -> (o = true -> stack s = []) ->
  dial_inv 0 n (down || o) (shutdownDialsInOwnerThread s o).
Proof.
  intros I Hst. unfold shutdownDialsInOwnerThread. destruct o; cbn.
  2: { rewrite orb_false_r. destruct I as [? Hok]. split; try done. intros i d L. by destruct (Hok _ _ L). }
  rewrite orb_true_r. specialize (Hst eq_refl).
  destruct (shutdown_fold (map_to_list (dials_ s)) s) as (A1 & A2 & A3 & A4 & A5 & A6).
  set (s1 := foldr _ s _) in *. clearbody s1.
  assert (forall fd, fds s1 !! fd = None) as Hf.
  { intros fd. destruct (fds s1 !! fd) as [i |] eqn:F; [| done]. apply A6 in F as [F N]. 
    destruct (di_fds _ _ _ _ I _ _ F) as (d & L & Es & P).
    rewrite Forall_forall in N. apply elem_of_map_to_list in L as L'. destruct (N _ L'). destruct (di_ok _ _ _ _ I _ _ L) as [_ _ [[? ?] | (? & ? & ? & ?)] _ _ _]; [lia | auto]. }
  assert (forall fd, fd ∉ open s1) as Ho.
  { intros fd [O N]%A5. destruct (di_open _ _ _ _ I _ O) as (P & [(i & d & L & Es) | K]).
    - rewrite Forall_forall in N. apply elem_of_map_to_list in L. by destruct (N _ L).
    - rewrite Hst in K. done. }
  split; cbn; rewrite ?A1, ?A2, ?A3, ?Hst; intros; rewrite ?lookup_empty, ?count_nil in *; try done; try congruence.
  - apply I.
  - split; [lia | done].
  - lia.
  - unfold dial_calls. cbn. rewrite A4. split_and!; try done.
    + destruct (dials_ s !! id) as [d |] eqn:L; [| by apply I].
      destruct (di_ok _ _ _ _ I _ _ L) as [_ _ _ _ D V]. destruct (completed d);
        [destruct (D eq_refl) as (_ & X & _); rewrite Hst in X; done | destruct (V eq_refl); unfold dial_calls in *; lia].
    + intros Li. destruct (dials_ s !! id) as [d |] eqn:L; [destruct (di_ok _ _ _ _ I _ _ L); lia | by apply I].
  - destruct (di_timers _ _ _ _ I _ _ _ H) as (? & ? & ?). split_and!; auto. done.
Qed.

(** A local socket goes out of scope. *)
Lemma close_inv ex n down s fd rest :
  dial_inv ex n down s -> stack s = FClose fd :: rest -> dial_inv ex n down (set_stack (close_fd s fd) rest).
Proof.
  intros [Hn Hok Hw Hs Hf Ho Hc Hfr Hg Ht] Est.
  assert (forall g, count (is_close g) (stack s) = (if fd =? g then S (count (is_close g) rest) else count (is_close g) rest)) as Ec.
  { intros g. by rewrite Est, count_cons. }
  assert (forall i, count (is_frame i) (stack s) = count (is_frame i) rest) as Ef by (intros; by rewrite Est, count_cons).
  assert (forall i, count (is_cb_frame i) (stack s) = count (is_cb_frame i) rest) as Eb by (intros; by rewrite Est, count_cons).
  split; cbn; auto.
  - intros i d L. destruct (Hok _ _ L) as [R A S K D V].
    rewrite Ec in K. destruct (Z.eqb_spec fd (sock d)); [done |].
    split; cbn; rewrite <- ?Ef, <- ?Eb; auto.
    rewrite elem_of_difference, elem_of_singleton. destruct S as [? | (? & ? & ? & ?)]; auto 6.
  - intros g O. apply elem_of_difference in O as [O N]. specialize (Ho g O). rewrite Ec in Ho.
    destruct (Z.eqb_spec fd g); [subst; by rewrite elem_of_singleton in N | done].
  - intros g. specialize (Hc g). rewrite Ec in Hc. destruct (Z.eqb_spec fd g); [lia |].
    rewrite elem_of_difference, elem_of_singleton. destruct Hc. auto.
  - intros i. rewrite <- Ef. auto.
Qed.

Lemma settle_inv ex n down s : dial_inv ex n down s -> dial_inv ex n down (settle s).
Proof.
  unfold settle. remember (stack s) as fr eqn:E. revert s E.
  induction fr as [| f fr IH]; intros s E I.
  - cbn. eapply dial_inv_same; [| exact I]. split; cbn; intros; rewrite <- ?E; done.
  - destruct f; cbn; try (eapply dial_inv_same; [| exact I]; split; cbn; intros; rewrite <- ?E; done).
    replace (settle_frames (close_fd s fd) fr) with (settle_frames (set_stack (close_fd s fd) fr) fr).
    + apply IH; [done |]. by apply close_inv.
    + clear. generalize (close_fd s fd) as s0. induction fr as [| [] fr IH]; intros s0; try done. cbn. rewrite <- (IH (close_fd s0 fd0)).
      rewrite <- (IH (close_fd (set_stack s0 (FClose fd0 :: fr)) fd0)). done.
Qed.

(** [sm_.onAccepted] returns: the callback of the dial is called. *)
Lemma dial_accepted_inv n down s id h rest :
  dial_inv 0 n down s -> stack s = FAccept id :: rest -> dial_inv 0 n down (accepted (set_stack s rest) id h).
Proof.
  intros I Est. destruct (di_frames _ _ _ _ I id) as (d & L & C); [rewrite Est, count_cons; cbn; rewrite Z.eqb_refl; lia |].
  destruct (di_ok _ _ _ _ I _ _ L) as [_ _ _ _ D _]. destruct (D C) as (Es & F1 & Dc).
  rewrite Est, count_cons in F1, Dc. cbn in F1, Dc. rewrite Z.eqb_refl in F1.
  assert (exists o, accepted (set_stack s rest) id h = push_frame (emit (set_stack s rest) o) (FDialCb id) /\
            forall i, is_dial_call i o = (id =? i)) as (o & -> & Ho).
  { unfold accepted. cbn. rewrite L. destruct (isValid h); cbn; eexists; split; done. }
  assert (forall i, dial_calls i (push_frame (emit (set_stack s rest) o) (FDialCb id)) = if id =? i then S (dial_calls i s) else dial_calls i s) as Ed.
  { intros i. unfold dial_calls. cbn. by rewrite count_cons, Ho. }
  assert (forall i, count (is_frame i) (FDialCb id :: rest) = count (is_frame i) (stack s)) as Ef by (intros; by rewrite Est, !count_cons).
  assert (forall i, count (is_close i) (FDialCb id :: rest) = count (is_close i) (stack s)) as Ec by (intros; by rewrite Est, !count_cons).
  destruct I as [Hn Hok Hw Hs Hf Hop Hc Hfr Hg Ht]. split; cbn; auto.
  - intros i e Li. destruct (Hok _ _ Li) as [R A S K D' V]. split; cbn; rewrite ?Ef, ?Ec, ?Ed; auto.
    + intros Ce. destruct (D' Ce) as (? & ? & Dx). split_and!; auto. rewrite count_cons, Dx, Est, count_cons. cbn. by destruct (id =? i).
    + intros Ce. destruct (V Ce) as (V1 & V2). destruct (Z.eqb_spec id i); [congruence | done].
  - intros fd O. rewrite Ec. auto.
  - intros fd. rewrite Ec. auto.
  - intros i. rewrite Ef. auto.
  - intros i Li. rewrite Ed. destruct (Z.eqb_spec id i); [congruence | auto].
Qed.

(** The callback of a dial returns: the dial leaves the table. *)
Lemma erase_inv n down s id rest :
  dial_inv 0 n down s -> stack s = FDialCb id :: rest ->
  dial_inv 0 n down (set_dials (set_stack s rest) (delete id (dials_ s))).
Proof.
  intros I Est. destruct (di_frames _ _ _ _ I id) as (d & L & C); [rewrite Est, count_cons; cbn; rewrite Z.eqb_refl; lia |].
  destruct (di_ok _ _ _ _ I _ _ L) as [R0 _ _ _ D _]. destruct (D C) as (Es & F1 & Dc).
  rewrite Est, count_cons in F1, Dc. cbn in F1, Dc. rewrite Z.eqb_refl in F1, Dc.
  assert (count (is_cb_frame id) rest = 0%nat) as Hz.
  { pose proof (cb_le_frames id rest). lia. }
  assert (forall i, count (is_close i) rest = count (is_close i) (stack s)) as Ec by (intros; by rewrite Est, !count_cons).
  assert (forall i, i <> id -> count (is_frame i) rest = count (is_frame i) (stack s)) as Ef.
  { intros i N. rewrite Est, !count_cons. cbn. by destruct (Z.eqb_spec id i). }
  assert (forall i, i <> id -> count (is_cb_frame i) rest = count (is_cb_frame i) (stack s)) as Eb.
  { intros i N. rewrite Est, !count_cons. cbn. by destruct (Z.eqb_spec id i). }
  destruct I as [Hn Hok Hw Hs Hf Hop Hc Hfr Hg Ht]. split; cbn; auto.
  - intros i e Li. apply lookup_delete_Some in Li as [N Li]. destruct (Hok _ _ Li) as [R A S K D' V].
    split; cbn; rewrite ?Ef, ?Ec, ?Eb by done; auto.
  - intros i e Li. apply lookup_delete_Some in Li as [N Li]. by apply Hw.
  - intros i j x y Li Lj. apply lookup_delete_Some in Li as [Ni Li], Lj as [Nj Lj]. by apply (Hs i j x y).
  - intros fd i F. destruct (Hf _ _ F) as (e & Le & ? & ?). exists e. rewrite lookup_delete_ne; [done |].
    intros <-. simplify_eq. lia.
  - intros fd O. rewrite Ec. destruct (Hop fd O) as (? & [(i & e & Li & ?) | ?]); auto. split; auto. left. exists i, e.
    rewrite lookup_delete_ne; [done |]. intros <-. simplify_eq. lia.
  - intros fd. rewrite Ec. auto.
  - intros i F. destruct (decide (i = id)) as [-> | N]; [lia |].
    rewrite Ef in F by done. destruct (Hfr i F) as (e & Le & ?). exists e. by rewrite lookup_delete_ne.
  - intros i Li. unfold dial_calls in *. cbn. destruct (decide (i = id)) as [-> | N].
    + split_and!; intros; lia.
    + rewrite lookup_delete_ne in Li by done. auto.
  - intros i a w T. destruct (Ht _ _ _ T) as (? & ? & ?). split_and!; auto.
    intros e Le. apply lookup_delete_Some in Le as [? ?]. auto.
Qed.

(* ------------------------------------------------------------------ *)
(** ** Every action keeps the invariants *)

Lemma timer_removed (l : list (Z * timer)) k w t x :
  l !! k = Some (w, t) -> x ∈ l -> snd x <> t -> x ∈ take k l ++ drop (S k) l.
Proof.
  intros E I N. rewrite <- (take_drop_middle l k _ E) in I. rewrite !elem_of_app, elem_of_cons in *.
  destruct I as [? | [-> | ?]]; auto. by destruct N.
Qed.

Lemma timer_kept (l : list (Z * timer)) k x : x ∈ take k l ++ drop (S k) l -> x ∈ l.
Proof.
  rewrite elem_of_app. intros [H | H]; apply list_elem_of_lookup in H as [i H].
  - apply lookup_take_Some in H as [? _]. by eapply list_elem_of_lookup_2.
  - rewrite lookup_drop in H. by eapply list_elem_of_lookup_2.
Qed.

(** The timer that fires belongs to one request or one dial. *)
Definition timer_req (t : timer) : Z := match t with TReqTimeout id _ => id | _ => 0 end.
Definition timer_dial (t : timer) : Z := match t with TReqTimeout _ _ => 0 | TDialStart id _ | TDialTimeout id _ => id end.

Section Fire.
Context {n : Z} {s : state} {k : nat} {w : Z} {t : timer}.
Context (Et : timers s !! k = Some (w, t)).
Let s1 := set_timers s (take k (timers s) ++ drop (S k) (timers s)).

Lemma fired_req : req_inv 0 n s -> req_inv (timer_req t) n s1 /\
  forall id p, pending_ s !! id = Some p -> t <> TReqTimeout id (attempt p) -> req_armed s1 id p.
Proof.
  intros I. assert (forall id p, pending_ s !! id = Some p -> t <> TReqTimeout id (attempt p) -> req_armed s1 id p) as H.
  { intros id p E N. eapply timer_removed; [exact Et | | cbn; congruence]. by eapply all_timed. }
  split; [| exact H]. destruct I as [A B C D F]. split; auto.
  - intros id p E. by destruct (B _ _ E).
  - intros id p E N. apply H; [done |]. destruct t; cbn in *; congruence.
Qed.

Lemma fired_dial down : dial_inv 0 n down s -> dial_inv (timer_dial t) n down s1 /\
  forall id d, dials_ s !! id = Some d -> completed d = false ->
    t <> TDialTimeout id (attemptIndex d) -> t <> TDialStart id 1 -> waiting s1 id d.
Proof.
  intros I. assert (forall id d, dials_ s !! id = Some d -> completed d = false ->
    t <> TDialTimeout id (attemptIndex d) -> t <> TDialStart id 1 -> waiting s1 id d) as H.
  { intros id d L C N1 N2. destruct (di_waiting _ _ _ _ I _ _ L C) as [A B]; [destruct (di_ok _ _ _ _ I _ _ L); lia |].
    pose proof (fun x => timer_removed (timers s) k w t x Et) as R.
    split; [intros P; apply R; [auto | cbn; congruence] |].
    intros P T. destruct (B P T); [left | right]; apply R; auto; cbn; congruence. }
  split; [| exact H]. destruct I as [Hn Hok Hw Hs Hf Hop Hc Hfr Hg Ht]. split; auto.
  - intros i d L. by destruct (Hok _ _ L).
  - intros i d L C N. apply H; auto; destruct t; cbn in *; congruence.
  - intros i a v T. apply (Ht i a v). eapply timer_kept; exact T.
Qed.

End Fire.

Lemma fire_inv n down s k w t a :
  timers s !! k = Some (w, t) -> req_inv 0 n s -> dial_inv 0 n down s -> fresh_answers s a = true ->
  let s' := fire (set_timers s (take k (timers s) ++ drop (S k) (timers s))) t a in
  req_inv 0 n s' /\ dial_inv 0 n down s'.
Proof.
  intros Et R D Fr. destruct (fired_req Et R) as [R1 R2]. destruct (fired_dial Et down D) as [D1 D2].
  assert (Ht := di_timers _ _ _ _ D). specialize (fun i b e => Ht i b w (e)).
  apply list_elem_of_lookup_2 in Et as In.
  set (s1 := set_timers _ _) in *. destruct t as [id att | id att | id att]; cbn in *.
  - split.
    + apply onTimeout_req; [done |]. intros p E N. apply R2; [done | congruence].
    + eapply dial_inv_same; [apply onTimeout_dial | done].
  - split; [eapply req_inv_same; [apply start_req | done] |].
    destruct (Ht id att In) as (-> & _ & Hr). eapply dial_start_inv; eauto.
  - split; [eapply req_inv_same; [apply dialTimeout_req | done] |].
    apply dialTimeout_inv; [done |]. intros d L C N. apply D2; [done | done | congruence | done].
Qed.

(** Both invariants; [n] bounds the ids, [down] tells whether a shutdown was
    asked for. *)
Record inv (n : Z) (down : bool) (s : state) : Prop := {
  iv_req : req_inv 0 n s;
  iv_dial : dial_inv 0 n down s;
  iv_posted : down = false -> KShutdown ∉ posted s
}.

Definition is_shutdown (x : action) : bool := match x with AShutdown _ => true | _ => false end.

Lemma add_inv n down s c :
  req_inv 0 n s -> dial_inv 0 n down s -> req_inv 0 n (snd (add s c)) /\ dial_inv 0 n down (snd (add s c)).
Proof.
  intros R D. destruct c as [name |]; cbn; [| done]. destruct (bool_decide _); [done |]. destruct (bool_decide _); [done |]. cbn.
  split; [eapply req_inv_same; [| done] | eapply dial_inv_same; [| done]]; same_solver.
Qed.

Lemma return_inv n down s h :
  req_inv 0 n s -> dial_inv 0 n down s ->
  match return_ s h with
  | Step s' => req_inv 0 n s' /\ dial_inv 0 n down s'
  | Disabled => True
  | Crash => False
  end.
Proof.
  intros R D. unfold return_. destruct (stack s) as [| [| id | id | fd] rest] eqn:Est; try done.
  - split; [eapply req_inv_same; [| done]; same_solver |].
    eapply dial_inv_same; [| done]. split; cbn; intros; rewrite ?Est, ?count_cons; done.
  - destruct (di_frames _ _ _ _ D id) as (d & L & C); [rewrite Est, count_cons; cbn; rewrite Z.eqb_refl; lia |].
    rewrite L. split; [| by apply dial_accepted_inv].
    eapply req_inv_same; [| done]. etransitivity; [| apply accepted_req]. same_solver.
  - destruct (di_frames _ _ _ _ D id) as (d & L & C); [rewrite Est, count_cons; cbn; rewrite Z.eqb_refl; lia |].
    rewrite L. split; [| by apply erase_inv]. eapply req_inv_same; [| done]. same_solver.
Qed.

Lemma inv_req_op n down s s' :
  inv n down s -> dial_same s s' -> req_inv 0 (n + 1) s' -> inv (n + 1) down s'.
Proof.
  intros [R D P] S R'. split; [done | |].
  - eapply dial_bound; [by eapply dial_inv_same | lia].
  - intros E K. apply (P E). by apply (ds_posted _ _ S).
Qed.

Lemma inv_dial_op n down s s' :
  inv n down s -> req_same s s' -> dial_inv 0 (n + 1) down s' -> inv (n + 1) down s'.
Proof.
  intros [R D P] S D'. split; [| done |].
  - eapply req_bound; [by eapply req_inv_same | lia].
  - intros E K. apply (P E). by apply (rs_posted _ _ S).
Qed.

Lemma inv_bound n m down s : inv n down s -> n <= m -> inv m down s.
Proof. intros [R D P] L. split; [by eapply req_bound | by eapply dial_bound | done]. Qed.

Lemma send_inv n down s o name opt req cb :
  inv n down s -> n + 1 < U64 -> inv (n + 1) down (sendAsync s o name opt req cb).
Proof. intros I L. eapply inv_req_op; [done | apply sendAsync_dial | apply sendAsync_req; [apply I | done]]. Qed.

Lemma sendToDispatcher_inv n down s o name opt h op req :
  inv n down s -> n + 1 < U64 -> inv (n + 1) down (sendAsyncToDispatcher s o name opt h op req).
Proof.
  intros I L. unfold sendAsyncToDispatcher. destruct (negb o); [| by apply send_inv].
  eapply inv_req_op; [done | same_solver |]. eapply req_bound; [eapply req_inv_same; [| apply I]; same_solver | lia].
Qed.

Lemma dial_inv_op n down s o opt cb a :
  inv n down s -> n + 1 < U64 -> fresh_answers s a = true -> inv (n + 1) down (dialTcpSession s o opt cb a).
Proof. intros I L F. eapply inv_dial_op; [done | apply dialTcpSession_req | apply dialTcpSession_inv; [apply I | done | done]]. Qed.

Lemma shutdown_op n down s o :
  inv n down s -> (o = true -> stack s = []) -> inv (n + 1) true (shutdownDialsInOwnerThread s o).
Proof.
  intros I H. split; [| | done].
  - eapply req_bound; [apply shutdown_req, I | lia].
  - eapply dial_bound; [| instantiate (1 := n); lia].
    pose proof (shutdown_inv n down s o (iv_dial _ _ _ I) H) as D. destruct D. split; auto.
    intros i L. destruct (di_gone0 i L) as (? & ? & ?). split_and!; [done | done | by intros].
Qed.

(** Running the next posted task. *)
Lemma task_inv n down s t rest a :
  inv n down s -> n + 1 < U64 -> posted s = t :: rest -> stack s = [] -> fresh_answers s a = true ->
  inv (n + 1) down (run_task (set_posted s rest) t a).
Proof.
  intros I L E Est Fr.
  assert (inv n down (set_posted s rest)) as I1.
  { destruct I as [R D P]. split.
    - by apply req_inv_posted.
    - eapply dial_inv_same; [| exact D]. split; cbn; try done. rewrite E. by right.
    - intros Hd. specialize (P Hd). rewrite E in P. cbn. set_solver. }
  destruct t; unfold run_task.
  - by apply send_inv.
  - by apply sendToDispatcher_inv.
  - by apply dial_inv_op.
  - destruct down; [by eapply shutdown_op | destruct (iv_posted _ _ _ I eq_refl); rewrite E; by left].
Qed.

(** One action: nothing is accessed through a dead iterator, and the
    invariants hold afterwards. *)
Lemma conn_step_inv n down s x :
  inv n down s -> n + 1 < U64 ->
  match step s x with
  | Step s' => inv (n + 1) (down || is_shutdown x) s'
  | Disabled => True
  | Crash => False
  end.
Proof.
  intros I L. unfold step.
  assert (match raw_step s x with Step s' => inv (n + 1) (down || is_shutdown x) s' | Disabled => True | Crash => False end) as H.
  { destruct x; cbn [raw_step is_shutdown]; rewrite ?orb_false_r, ?orb_true_r.
    - destruct (add_inv n down s c (iv_req _ _ _ I) (iv_dial _ _ _ I)).
      split; [eapply req_bound; [done | lia] | eapply dial_bound; [done | lia] |].
      destruct c as [name |]; cbn; [| apply I]. destruct (bool_decide _); [apply I |]. destruct (bool_decide _); apply I.
    - by apply send_inv.
    - by apply sendToDispatcher_inv.
    - destruct (fresh_answers s a) eqn:Fr; [by apply dial_inv_op | done].
    - destruct (negb inOwner || idle s) eqn:Ei; [| done]. eapply shutdown_op; [done |].
      intros ->. cbn in Ei. unfold idle in Ei. by destruct (stack s).
    - eapply inv_req_op; [done | apply onComplete_dial |]. eapply req_bound; [eapply onComplete_req; [apply I | auto] | lia].
    - pose proof (return_inv n down s h (iv_req _ _ _ I) (iv_dial _ _ _ I)) as R.
      assert (forall s', return_ s h = Step s' -> posted s' = posted s) as Hp.
      { intros s'. unfold return_, accepted. destruct (stack s) as [| [| id | id | fd] rest]; try done; try congruence; cbn; [by intros [= <-] | |];
          destruct (dials_ s !! id); try done; [destruct (isValid h) |]; by intros [= <-]. }
      destruct (return_ s h); [| done | done]. destruct R. split; [eapply req_bound; [done | lia] | eapply dial_bound; [done | lia] |].
      rewrite (Hp s0 eq_refl). apply I.
    - destruct (timers s !! n0) as [[w t] |] eqn:Et; [| done]. destruct (idle s && fresh_answers s a) eqn:Ei; [| done]. b2p.
      destruct (fire_inv n down s n0 w t a Et (iv_req _ _ _ I) (iv_dial _ _ _ I) H0) as [R D].
      split; [eapply req_bound; [exact R | lia] | eapply dial_bound; [exact D | lia] |].
      intros Hd K. apply (iv_posted _ _ _ I Hd). revert K. destruct t; cbn; intros K.
      + by apply (ds_posted _ _ (onTimeout_dial _ _ _)) in K.
      + by apply (rs_posted _ _ (start_req _ _ _ _)) in K.
      + by apply (rs_posted _ _ (dialTimeout_req _ _ _)) in K.
    - destruct (fds s !! fd) as [id |]; [| done]. destruct (idle s); [| done].
      eapply inv_dial_op; [done | apply handleEvent_req |]. eapply dial_bound; [apply handleEvent_inv, I | lia].
    - destruct (posted s) as [| t rest] eqn:Ep; [done |]. destruct (idle s && fresh_answers s a) eqn:Ei; [| done]. b2p.
      eapply task_inv; eauto. unfold idle in *. by destruct (stack s). }
  destruct (raw_step s x) as [s' | |]; [| done | done]. destruct H as [R D P]. split.
  - eapply req_inv_same; [apply settle_req | done].
  - by apply settle_inv.
  - intros Hd K. apply (P Hd). by apply (rs_posted _ _ (settle_req s' (stack s'))).
Qed.

Lemma conn_init_inv : inv 1 false init.
Proof. split; [by apply req_inv_init | by apply dial_inv_init | intros _; cbn; set_solver]. Qed.

Lemma conn_run_inv xs : forall n down s,
  inv n down s -> n + zlen xs < U64 ->
  match run s xs with
  | Step s' => inv (n + zlen xs) (down || existsb is_shutdown xs) s'
  | Disabled => True
  | Crash => False
  end.
Proof.
  induction xs as [| x xs IH]; intros n down s I L; cbn.
  - rewrite zlen_nil, orb_false_r, Z.add_0_r. done.
  - rewrite zlen_cons in *. pose proof (zlen_nonneg xs). pose proof (conn_step_inv n down s x I ltac:(lia)) as S.
    destruct (step s x) as [s' | |]; [| done | done]. specialize (IH _ _ _ S ltac:(lia)).
    destruct (run s' xs); [| done | done]. rewrite orb_assoc. by replace (n + (1 + zlen xs)) with (n + 1 + zlen xs) by lia.
Qed.

End ConnectorInv.
