(* ===== verification/Connecting.v ===== *)
(** * Connecting: requests are answered, dials complete

    The theorems about [Connector]: every request is answered once, at the
    latest by its timeout; every dial calls its callback once, gives back its
    socket, and finishes by its timers alone. *)

From stdpp Require Import strings.
From S2P Require Import Prelude Handle World Connector ConnectorInv.
Import Handle World Connector ConnectorInv.

Module Connecting.

(* ------------------------------------------------------------------ *)
(** ** Requests *)

(** A completion reported by a connector is for the attempt in progress. *)
Definition current_reply (s : state) (x : action) : bool :=
  match x with
  | AHook id att _ => match pending_ s !! id with Some p => att =? attempt p | None => true end
  | _ => true
  end.

Definition has_cb (cb : option Callback) : bool := match cb with Some _ => true | None => false end.

(** What a property of the requests needs to hold along a run: the operations
    on dials leave it, and the three entries into the table of requests keep
    it, for replies and callbacks that are [ok]. *)
Section Preserve.
Variable Q : state -> Prop.
Variable ok_reply : state -> action -> bool.
Variable ok_cb : option Callback -> bool.
Hypothesis cb_some : forall c, ok_cb (Some c) = true.
Hypothesis q_same : forall s s', req_same s s' -> Q s -> Q s'.
Hypothesis q_shutdown : forall s, Q s -> Q (post s KShutdown).
Hypothesis q_timers : forall s l, Q s -> Q (set_timers s l).
Hypothesis q_task : forall s t rest, Q s -> posted s = t :: rest ->
  Q (set_posted s rest) /\ match t with KSend _ _ _ cb => ok_cb cb = true | _ => True end.
Hypothesis q_hook : forall n s id att r, req_inv 0 n s -> ok_reply s (AHook id att r) = true -> Q s -> Q (onComplete_ s id att r).
Hypothesis q_timeout : forall ex n s id att, req_inv ex n s -> Q s -> Q (onTimeout_ s id att).
Hypothesis q_send : forall n s o name opt req cb,
  req_inv 0 n s -> n + 1 < U64 -> ok_cb cb = true -> Q s -> Q (sendAsync s o name opt req cb).

Definition ok_action (x : action) : bool := match x with ASend _ _ _ _ cb => ok_cb cb | _ => true end.

Lemma q_return s h s' : Q s -> return_ s h = Step s' -> Q s'.
Proof using All.
  intros I. unfold return_. destruct (stack s) as [| [| id | id | fd] rest]; try done.
  - intros [= <-]. eapply q_same; [| exact I]. same_solver.
  - destruct (dials_ s !! id); [| done]. intros [= <-]. eapply q_same; [| exact I].
    etransitivity; [| apply accepted_req]. same_solver.
  - destruct (dials_ s !! id); [| done]. intros [= <-]. eapply q_same; [| exact I]. same_solver.
Qed.

Lemma q_down s o : Q s -> Q (shutdownDialsInOwnerThread s o).
Proof using All.
  intros I. unfold shutdownDialsInOwnerThread. destruct (negb o); [by apply q_shutdown |].
  eapply q_same; [| exact I]. etransitivity; [apply shutdown_fold_req | same_solver].
Qed.

Lemma q_dispatch n s o name opt h op req :
  req_inv 0 n s -> n + 1 < U64 -> Q s -> Q (sendAsyncToDispatcher s o name opt h op req).
Proof using All.
  intros R L I. unfold sendAsyncToDispatcher. destruct (negb o); [| by eapply q_send].
  eapply q_same; [same_solver | done].
Qed.

Lemma q_step n down s x s' :
  inv n down s -> n + 1 < U64 -> ok_reply s x = true -> ok_action x = true -> Q s -> step s x = Step s' -> Q s'.
Proof using All.
  intros I L Cr Gc A. pose proof (iv_req _ _ _ I) as R.
  unfold step. destruct (raw_step s x) as [s1 | |] eqn:E; try done. intros [= <-].
  eapply q_same; [apply settle_req |].
  destruct x; cbn [raw_step] in E; simplify_eq.
  - eapply q_same; [| exact A]. destruct c as [name |]; cbn; [| done].
    destruct (bool_decide _); [done |]. destruct (bool_decide _); [done | same_solver].
  - by eapply q_send.
  - by eapply q_dispatch.
  - destruct (fresh_answers s a); simplify_eq. eapply q_same; [apply dialTcpSession_req | done].
  - destruct (negb inOwner || idle s); simplify_eq. by apply q_down.
  - by eapply q_hook.
  - by eapply q_return.
  - destruct (timers s !! n0) as [[w t] |] eqn:Et; [| done]. destruct (idle s && fresh_answers s a); simplify_eq.
    destruct (fired_req Et R) as [R1 _].
    assert (Q (set_timers s (take n0 (timers s) ++ drop (S n0) (timers s)))) as A1 by (by apply q_timers).
    destruct t as [id att | id att | id att]; cbn [fire].
    + by eapply q_timeout.
    + eapply q_same; [apply start_req | done].
    + eapply q_same; [apply dialTimeout_req | done].
  - destruct (fds s !! fd); [| done]. destruct (idle s); simplify_eq. eapply q_same; [apply handleEvent_req | done].
  - destruct (posted s) as [| t rest] eqn:Ep; [done |]. destruct (idle s && fresh_answers s a); simplify_eq.
    destruct (q_task s t rest A Ep) as [A1 Ht]. assert (req_inv 0 n (set_posted s rest)) as R1 by (by apply req_inv_posted).
    destruct t; unfold run_task.
    + by eapply q_send.
    + by eapply q_dispatch.
    + eapply q_same; [apply dialTcpSession_req | done].
    + by apply q_down.
Qed.

Fixpoint ok_replies (s : state) (xs : list action) : bool :=
  match xs with
  | [] => true
  | x :: xs => ok_reply s x && match step s x with Step s' => ok_replies s' xs | _ => true end
  end.

Lemma q_run xs : forall n down s s',
  inv n down s -> n + zlen xs < U64 -> ok_replies s xs = true -> forallb ok_action xs = true ->
  Q s -> run s xs = Step s' -> Q s'.
Proof using All.
  induction xs as [| x xs IH]; intros n down s s' I L Cr Gc A; cbn; [by intros [= <-] |].
  rewrite zlen_cons in L. pose proof (zlen_nonneg xs). cbn in Cr, Gc. apply andb_true_iff in Cr as [C1 C2], Gc as [G1 G2].
  pose proof (conn_step_inv n down s x I ltac:(lia)) as Si.
  destruct (step s x) as [s1 | |] eqn:E; try done.
  apply (IH _ _ _ _ Si); [lia | done | done |]. apply (q_step n down s x s1); auto; lia.
Qed.

End Preserve.

(** Every request is in flight or was answered. *)
Record answered (s : state) : Prop := {
  an_cb : forall id p, pending_ s !! id = Some p -> is_Some (p_cb p);
  an_posted : forall name opt req, KSend name opt req None ∉ posted s;
  an_all : forall id, 1 <= id < nextRequestId_ s -> pending_ s !! id = None -> req_calls id s = 1%nat
}.

Lemma answered_same s s' : req_same s s' -> answered s -> answered s'.
Proof.
  intros [Hc Hp Hi Ht Hr _ Hk] [A B C]. split; rewrite ?Hp, ?Hi; auto.
  - intros name opt req K. by apply (B name opt req), Hk.
  - intros id L N. rewrite Hr. auto.
Qed.

Lemma call_body_answered s cb r : answered s -> answered (call_body s cb r).
Proof. apply answered_same, call_body_req. Qed.

Lemma onComplete_answered s id att r :
  answered s -> (forall p, pending_ s !! id = Some p -> req_calls id s = 0%nat /\ att = attempt p) ->
  answered (onComplete_ s id att r).
Proof.
  intros I H. unfold onComplete_. destruct (pending_ s !! id) as [p |] eqn:E; [| done].
  destruct (H p eq_refl) as [Hz ->]. rewrite Z.eqb_refl. cbn.
  destruct (an_cb _ I _ _ E) as [cb ->]. apply call_body_answered. destruct I as [A B C]. split; cbn; auto.
  - intros i q L. apply lookup_delete_Some in L as [_ L]. eauto.
  - intros i L N. unfold req_calls in *. cbn. rewrite count_cons. cbn.
    destruct (Z.eqb_spec id i) as [<- | Ne]; [by rewrite Hz |]. rewrite lookup_delete_ne in N by done. auto.
Qed.

(** An attempt starts for a request with a known connector. *)
Lemma startAttempt_answered s id p :
  pending_ s !! id = Some p -> connectorName p ∈ connectors_ s -> answered s -> answered (startAttempt_ s id).
Proof.
  intros E K I. unfold startAttempt_, find_. rewrite E, (bool_decide_true _ K). cbn.
  destruct I as [A B C]. split; auto.
Qed.

Lemma onTimeout_answered s id att :
  (forall p, pending_ s !! id = Some p -> req_calls id s = 0%nat /\ connectorName p ∈ connectors_ s) ->
  answered s -> answered (onTimeout_ s id att).
Proof.
  intros H I. unfold onTimeout_. destruct (pending_ s !! id) as [p |] eqn:E; [| done].
  destruct (H p eq_refl) as [Hz K]. destruct (negb _); [done |]. destruct (so_retryOnce _ && _).
  - eapply startAttempt_answered; [cbn; apply lookup_insert_eq | done |]. destruct I as [A B C]. split; cbn; auto.
    + intros i q L. apply lookup_insert_Some in L as [[<- <-] | [_ L]]; [exact (A _ _ E) | eauto].
    + intros i L N. apply lookup_insert_None in N as [N _]. by apply C.
  - apply onComplete_answered; [done |]. intros q Eq. simplify_eq. done.
Qed.

Lemma sendAsync_answered n s o name opt req cb :
  req_inv 0 n s -> n + 1 < U64 -> is_Some cb -> answered s -> answered (sendAsync s o name opt req cb).
Proof.
  intros R L [c ->] I. unfold sendAsync. destruct (negb o).
  { destruct I as [A B C]. split; cbn; auto. intros nm op rq. specialize (B nm op rq). set_solver. }
  unfold find_. destruct (bool_decide (name ∈ connectors_ s)) eqn:F; cbn [negb]; b2p.
  2: { apply call_body_answered. by destruct I as [A B C]; split. }
  pose proof (ri_next _ _ _ R) as Hn. cbn [pending_ set_nextRequestId].
  assert (u64 (nextRequestId_ s + 1) = nextRequestId_ s + 1) as Eu by (apply u64_small; lia). rewrite Eu.
  destruct (pending_ s !! nextRequestId_ s) eqn:E; [destruct (ri_ok _ _ _ R _ _ E); lia |].
  eapply startAttempt_answered; [cbn; apply lookup_insert_eq | done |]. destruct I as [A B C]. split; cbn; auto.
  - intros i q Li. apply lookup_insert_Some in Li as [[<- <-] | [_ Li]]; eauto.
  - intros i Li N. apply lookup_insert_None in N as [N Ne]. apply C; [lia | done].
Qed.

Lemma run_answered xs n down s s' :
  inv n down s -> n + zlen xs < U64 -> ok_replies current_reply s xs = true -> forallb (ok_action has_cb) xs = true ->
  answered s -> run s xs = Step s' -> answered s'.
Proof.
  apply q_run; try done; clear.
  - apply answered_same.
  - intros s [A B C]. split; cbn; auto. intros nm op rq. specialize (B nm op rq). set_solver.
  - intros s l [A B C]. by split.
  - intros s t rest [A B C] Ep. split.
    + split; auto. intros nm op rq K. apply (B nm op rq). rewrite Ep. by right.
    + destruct t as [nm op rq [cb |] | | |]; try done. destruct (B nm op rq). rewrite Ep. by left.
  - intros n s id att r R Cr A. apply onComplete_answered; [done |]. intros p Ep. cbn in Cr. rewrite Ep in Cr.
    split; [by destruct (ri_ok _ _ _ R _ _ Ep) | by apply Z.eqb_eq].
  - intros ex n s id att R A. apply onTimeout_answered; [| done]. intros p Ep. by destruct (ri_ok _ _ _ R _ _ Ep).
  - intros n s o name opt req cb R L Hc. eapply sendAsync_answered; eauto. by destruct cb.
Qed.

(** A request that left the table is not answered later. *)
Record gone (id : Z) (c : nat) (s : state) : Prop := {
  go_range : id < nextRequestId_ s;
  go_none : pending_ s !! id = None;
  go_calls : req_calls id s = c
}.

Lemma onComplete_gone id c s i att r : gone id c s -> gone id c (onComplete_ s i att r).
Proof.
  intros [A B C]. unfold onComplete_. destruct (pending_ s !! i) as [p |] eqn:E; [| by split].
  assert (i <> id) as N by congruence.
  assert (pending_ s !! id = None -> delete i (pending_ s) !! id = None) as Hd by (by rewrite lookup_delete_ne).
  destruct (negb _); [split; cbn; auto |]. destruct (p_cb p) as [cb |]; [| split; cbn; auto].
  destruct (call_body_req (emit (set_pending s (delete i (pending_ s))) (OReqCb i cb r)) cb r) as [_ Ep En _ Ec _ _].
  split; rewrite ?Ep, ?En, ?Ec; cbn; auto. unfold req_calls. cbn. rewrite count_cons. cbn. by rewrite (proj2 (Z.eqb_neq _ _) N).
Qed.

Lemma startAttempt_gone id c s i : gone id c s -> gone id c (startAttempt_ s i).
Proof.
  intros H. unfold startAttempt_. destruct (pending_ s !! i) as [p |]; [| done].
  destruct (negb _); [by apply onComplete_gone |]. by destruct H.
Qed.

Lemma run_gone xs n down s s' id c :
  inv n down s -> n + zlen xs < U64 -> gone id c s -> run s xs = Step s' -> gone id c s'.
Proof.
  intros I L. apply (q_run (gone id c) (fun _ _ => true) (fun _ => true)) with (n := n) (down := down); try done; clear.
  - intros s s' [_ Ep En _ Ec _ _] [A B C]. split; rewrite ?Ep, ?En, ?Ec; auto.
  - by intros s [A B C].
  - by intros s l [A B C].
  - intros s t rest [A B C] _. split; [by split | by destruct t].
  - intros n s i att r _ _. apply onComplete_gone.
  - intros ex n s i att _ H. unfold onTimeout_. destruct (pending_ s !! i) as [p |] eqn:E; [| done].
    destruct (negb _); [done |]. destruct (_ && _); [| by apply onComplete_gone].
    apply startAttempt_gone. destruct H as [A B C]. split; cbn; auto. rewrite lookup_insert_ne; [done | congruence].
  - intros n s o name opt req cb R L _ H. unfold sendAsync. destruct (negb o); [by destruct H |]. destruct (negb (find_ s name)).
    { destruct cb as [cb |]; [| done].
      destruct (call_body_req (emit s (OReqReject cb (fail "unknown_connector"))) cb (fail "unknown_connector")) as [_ Ep En _ Ec _ _].
      destruct H as [A B C]. split; rewrite ?Ep, ?En, ?Ec; auto. }
    apply startAttempt_gone. pose proof (ri_next _ _ _ R). destruct H as [A B C]. cbn [pending_ set_nextRequestId].
    destruct (pending_ s !! nextRequestId_ s); split; cbn; rewrite ?u64_small by lia; auto; try lia. rewrite lookup_insert_ne; [done | lia].
  - induction xs as [| x xs IH] in s |- *; [done |]. cbn. destruct (step s x); [apply IH | done | done].
  - induction xs as [| x xs IH]; [done |]. by destruct x.
Qed.

(** Settling only closes sockets. *)
Lemma settle_fields s fr :
  let s' := settle_frames s fr in
  dials_ s' = dials_ s /\ timers s' = timers s /\ pending_ s' = pending_ s /\ trace s' = trace s.
Proof. revert s. induction fr as [| [] fr IH]; intros s; cbn; try done. apply (IH (close_fd s fd)). Qed.

Lemma settle_idle s : stack s = [] -> settle s = set_stack s [].
Proof. unfold settle. by intros ->. Qed.

(** The kernel is not asked. *)
Definition no_answers : answers := mk_answers None ConnOk false.

Lemma conn_timer_step s k w t a :
  timers s !! k = Some (w, t) -> idle s = true -> fresh_answers s a = true ->
  step s (ATimer k a) = Step (settle (fire (set_timers s (take k (timers s) ++ drop (S k) (timers s))) t a)).
Proof. intros E I F. unfold step, raw_step. by rewrite E, I, F. Qed.

(** The timer of the last attempt answers the request. *)
Lemma last_timeout s id p k w :
  idle s = true -> timers s !! k = Some (w, TReqTimeout id (attempt p)) -> pending_ s !! id = Some p ->
  so_retryOnce (p_opt p) && (attempt p =? 0) = false ->
  exists s', step s (ATimer k no_answers) = Step s' /\ pending_ s' !! id = None /\
    match p_cb p with Some cb => OReqCb id cb (fail "timeout") ∈ trace s' | None => True end.
Proof.
  intros I E P R. eexists. split; [by eapply conn_timer_step |].
  destruct (settle_fields (fire (set_timers s (take k (timers s) ++ drop (S k) (timers s))) (TReqTimeout id (attempt p)) no_answers)
              (stack (fire (set_timers s (take k (timers s) ++ drop (S k) (timers s))) (TReqTimeout id (attempt p)) no_answers)))
    as (_ & _ & Ep & Et).
  unfold settle. rewrite Ep, Et. cbn. unfold onTimeout_, onComplete_. cbn. rewrite P, Z.eqb_refl, R. cbn.
  destruct (p_cb p) as [[] |]; cbn; rewrite lookup_delete_eq; split; try done; set_solver.
Qed.

Lemma called_once n down s id cb r : inv n down s -> OReqCb id cb r ∈ trace s -> req_calls id s = 1%nat.
Proof.
  intros I O. pose proof (ri_once _ _ _ (iv_req _ _ _ I) id) as H1. unfold req_calls, count in *.
  assert (In (OReqCb id cb r) (List.filter (is_req_call id) (trace s))) as Hin.
  { apply filter_In. split; [by apply list_elem_of_In | cbn; apply Z.eqb_refl]. }
  destruct (List.filter _ _) as [| o [|]]; cbn in *; [done | done | lia].
Qed.

(** The first timeout of a request that may be retried starts the retry. *)
Lemma first_timeout s id p k w :
  idle s = true -> timers s !! k = Some (w, TReqTimeout id (attempt p)) -> pending_ s !! id = Some p ->
  so_retryOnce (p_opt p) && (attempt p =? 0) = true -> connectorName p ∈ connectors_ s ->
  exists s', step s (ATimer k no_answers) = Step s' /\ pending_ s' !! id = Some (set_attempt p 1) /\ idle s' = true.
Proof.
  intros Hi T P R Hn. eexists. split; [by eapply conn_timer_step |]. cbn. unfold onTimeout_. cbn. rewrite P, Z.eqb_refl, R. cbn.
  unfold startAttempt_, find_. cbn. rewrite lookup_insert_eq. cbn. rewrite (bool_decide_true _ Hn). cbn.
  unfold idle in Hi. destruct (stack s) eqn:Es; [| done]. unfold settle. cbn. rewrite ?Es. cbn. by rewrite lookup_insert_eq.
Qed.

(** A request in flight is answered by its own timers: when the worker is
    idle, at most two timers of the wheel end it, the callback called once with
    a failure. *)
Theorem request_times_out xs s id p :
  zlen xs < U64 - 3 -> run init xs = Step s -> idle s = true -> pending_ s !! id = Some p ->
  exists ks s', (length ks <= 2)%nat /\ run s (map (fun k => ATimer k no_answers) ks) = Step s' /\
    pending_ s' !! id = None /\
    match p_cb p with Some cb => OReqCb id cb (fail "timeout") ∈ trace s' /\ req_calls id s' = 1%nat | None => True end.
Proof.
  intros L Er Hi P. pose proof (conn_run_inv xs 1 false init conn_init_inv ltac:(lia)) as I. rewrite Er in I.
  pose proof (all_timed s _ (iv_req _ _ _ I) id p P) as T. apply list_elem_of_lookup in T as [k T].
  assert (forall s1 s2 m k, inv m (false || existsb is_shutdown xs) s1 -> m + 1 < U64 -> step s1 (ATimer k no_answers) = Step s2 ->
    exists m' b, inv m' b s2) as Hs.
  { intros s1 s2 m j I1 Lm E1. pose proof (conn_step_inv _ _ s1 (ATimer j no_answers) I1 Lm) as Si. rewrite E1 in Si. eauto. }
  destruct (so_retryOnce (p_opt p) && (attempt p =? 0)) eqn:R.
  - destruct (first_timeout s id p k _ Hi T P R) as (s1 & E1 & P1 & Hi1); [by destruct (ri_ok _ _ _ (iv_req _ _ _ I) _ _ P) |].
    pose proof (conn_step_inv _ _ s (ATimer k no_answers) I ltac:(lia)) as I1. rewrite E1, orb_false_r in I1.
    pose proof (all_timed s1 _ (iv_req _ _ _ I1) id _ P1) as T1. apply list_elem_of_lookup in T1 as [k1 T1].
    destruct (last_timeout s1 id _ k1 _ Hi1 T1 P1) as (s2 & E2 & P2 & O2); [cbn; apply andb_false_r |].
    destruct (Hs _ _ _ _ I1 ltac:(lia) E2) as (? & ? & I2).
    exists [k; k1], s2. cbn [map run]. rewrite E1, E2. split_and!; [cbn; lia | done | done |].
    cbn in O2. destruct (p_cb p); [| done]. split; [done | by eapply called_once].
  - destruct (last_timeout s id p k _ Hi T P R) as (s1 & E1 & P1 & O1).
    destruct (Hs _ _ _ _ I ltac:(lia) E1) as (? & ? & I1).
    exists [k], s1. cbn [map run]. rewrite E1. split_and!; [cbn; lia | done | done |].
    destruct (p_cb p); [| done]. split; [done | by eapply called_once].
Qed.

(** C13: however the application, the connectors and the timers move, the
    callback of a request is called at most once; a request in flight has not
    been answered and its timeout, with its delay, is armed for the attempt in
    progress; and when every request has a callback and connectors only report
    on the attempt in progress, every request that left the table was answered
    exactly once. *)
Theorem requests_answered_once xs s :
  zlen xs < U64 - 1 -> run init xs = Step s ->
  (forall id, (req_calls id s <= 1)%nat) /\
  (forall id p, pending_ s !! id = Some p ->
     req_calls id s = 0%nat /\ (timeoutResolved p, TReqTimeout id (attempt p)) ∈ timers s) /\
  (ok_replies current_reply init xs = true -> forallb (ok_action has_cb) xs = true ->
   forall id, 1 <= id < nextRequestId_ s -> pending_ s !! id = None -> req_calls id s = 1%nat).
Proof.
  intros L E. pose proof (conn_run_inv xs 1 false init conn_init_inv ltac:(lia)) as I. rewrite E in I.
  pose proof (iv_req _ _ _ I) as R. split_and!.
  - apply R.
  - intros id p P. split; [by destruct (ri_ok _ _ _ R _ _ P) | by eapply all_timed].
  - intros Cr Gc. eapply an_all, (run_answered xs 1 false init s); try done; [apply conn_init_inv | lia |].
    split; cbn; [| set_solver | lia]. intros id p. by rewrite lookup_empty.
Qed.

(* ------------------------------------------------------------------ *)
(** ** Dials *)

Definition settled (id : Z) (s : state) : Prop :=
  match dials_ s !! id with None => True | Some d => completed d = true end.

(** At most [k] of the dial's own timers bring it to its end, whatever the
    kernel answers to the attempts they start. *)
Fixpoint timers_finish (k : nat) (id : Z) (s : state) : Prop :=
  settled id s \/
  match k with
  | O => False
  | S k =>
      exists i w t, timers s !! i = Some (w, t) /\ timer_dial t = id /\
        forall a, fresh_answers s a = true -> exists s', step s (ATimer i a) = Step s' /\ timers_finish k id s'
  end.

Lemma settled_settle id s : settled id s -> settled id (settle s).
Proof. unfold settled, settle. by destruct (settle_fields s (stack s)) as (-> & _). Qed.

Lemma finishOk_done s id d att : dials_ s !! id = Some d -> attemptIndex d = att -> settled id (finishDialOk_ s id att).
Proof.
  intros E <-. unfold finishDialOk_, settled. rewrite E, Z.eqb_refl. destruct (completed d) eqn:C; cbn; [by rewrite E |].
  by rewrite lookup_insert_eq.
Qed.

Lemma finishFail_done s id d att err b : dials_ s !! id = Some d -> attemptIndex d = att -> settled id (finishDialFail_ s id att err b).
Proof.
  intros E <-. unfold finishDialFail_, settled. rewrite E, Z.eqb_refl. destruct (completed d) eqn:C; cbn; [by rewrite E |].
  by rewrite lookup_insert_eq.
Qed.

(** A retry ends the dial or waits for the connect with its timeout armed. *)
Lemma retry_outcome s id d a :
  dials_ s !! id = Some d -> completed d = false -> 0 < do_timeoutMs (d_opt d) -> stack s = [] ->
  let s' := dialStartAttempt_ s id 1 a in
  settled id s' \/
  stack s' = [] /\ exists d' w, dials_ s' !! id = Some d' /\ completed d' = false /\ attemptIndex d' = 1 /\
    (w, TDialTimeout id 1) ∈ timers s'.
Proof.
  intros E C T Es. unfold dialStartAttempt_. rewrite E, C.
  destruct (a_socket a) as [fd |]; [| left; eapply finishFail_done; [cbn; apply lookup_insert_eq | done]].
  destruct (a_connect a) as [| | err].
  - left. eapply finishOk_done; [cbn; apply lookup_insert_eq | done].
  - unfold await_connect. destruct (_ || _); [left; eapply finishFail_done; [cbn; apply lookup_insert_eq | done] |].
    right. cbn. rewrite (proj2 (Z.ltb_lt _ _) T). cbn. split.
    + unfold drop_attempt. by destruct (0 <=? sock d), (connectedEventRegistered d).
    + eexists _, _. rewrite lookup_insert_eq. split_and!; try done. apply elem_of_app. right. by left.
  - left. rewrite andb_false_r. eapply finishFail_done; [cbn; apply lookup_insert_eq | done].
Qed.

(** The timeout of an attempt that is not retried ends the dial. *)
Lemma finish_last s id d w :
  idle s = true -> dials_ s !! id = Some d -> (w, TDialTimeout id (attemptIndex d)) ∈ timers s ->
  do_retryOnce (d_opt d) && (attemptIndex d =? 0) = false -> timers_finish 1 id s.
Proof.
  intros I E T R. right. apply list_elem_of_lookup in T as [i T]. exists i, w, (TDialTimeout id (attemptIndex d)).
  split_and!; [done | done |]. intros a Fr. eexists. split; [by eapply conn_timer_step |]. left. apply settled_settle.
  cbn. unfold dialTimeout_. cbn. rewrite E. destruct (completed d) eqn:C; cbn; [unfold settled; cbn; by rewrite E |].
  rewrite Z.eqb_refl, R. cbn. by eapply finishFail_done.
Qed.

(** A retry that is armed ends the dial within two timers. *)
Lemma finish_retry s id d w :
  idle s = true -> dials_ s !! id = Some d -> 0 < do_timeoutMs (d_opt d) -> (w, TDialStart id 1) ∈ timers s -> timers_finish 2 id s.
Proof.
  intros I E T Ti. right. apply list_elem_of_lookup in Ti as [i Ti]. exists i, w, (TDialStart id 1).
  split_and!; [done | done |]. intros a Fr. eexists. split; [by eapply conn_timer_step |]. cbn [fire].
  set (s1 := set_timers _ _).
  destruct (completed d) eqn:C.
  { left. apply settled_settle. unfold dialStartAttempt_, settled. cbn. rewrite E, C. cbn. by rewrite E. }
  assert (stack s1 = []) as Es by (unfold idle in I; cbn; by destruct (stack s)).
  destruct (retry_outcome s1 id d a E C T Es) as [Hd | (Es' & d' & w' & E' & C' & A' & T')].
  - left. by apply settled_settle.
  - apply (finish_last _ id d' w'); rewrite ?settle_idle by done; cbn; try done; [by rewrite A' | by rewrite A', andb_false_r].
Qed.

Lemma finish_mono k id s : timers_finish k id s -> timers_finish (S k) id s.
Proof.
  revert s. induction k as [| k IH]; intros s [H | H]; try done; [by left | by left |].
  destruct H as (i & w & t & E & D & H). right. exists i, w, t. split_and!; auto.
  intros a Fr. destruct (H a Fr) as (s' & S & K). eauto.
Qed.

(** C37: a dial with a connect timeout ends by its own timers: from any idle
    moment at most three of them complete it, whatever the kernel answers. *)
Theorem dials_finish xs s id d :
  zlen xs < U64 - 1 -> run init xs = Step s -> idle s = true ->
  dials_ s !! id = Some d -> 0 < do_timeoutMs (d_opt d) -> timers_finish 3 id s.
Proof.
  intros L Er Hi E T. pose proof (conn_run_inv xs 1 false init conn_init_inv ltac:(lia)) as I. rewrite Er in I. apply iv_dial in I.
  destruct (completed d) eqn:C; [left; unfold settled; by rewrite E |].
  pose proof (di_ok _ _ _ _ I _ _ E) as [R A S _ _ _].
  destruct (di_waiting _ _ _ _ I _ _ E C) as [W1 W2]; [lia |].
  assert ((retryDelayMs (d_opt d), TDialStart id 1) ∈ timers s \/ (do_timeoutMs (d_opt d), TDialTimeout id (attemptIndex d)) ∈ timers s) as [T1 | T1].
  { destruct S as [S | (P & _)]; [auto | destruct (W2 P T); auto]. }
  { apply finish_mono. by eapply finish_retry. }
  destruct (do_retryOnce (d_opt d) && (attemptIndex d =? 0)) eqn:Rt.
  2: { apply finish_mono, finish_mono. by eapply finish_last. }
  right. apply list_elem_of_lookup in T1 as [i T1]. eexists i, _, _. split_and!; [exact T1 | done |].
  intros a Fr. eexists. split; [by eapply conn_timer_step |]. cbn [fire]. unfold dialTimeout_. cbn [dials_ set_timers].
  rewrite E, C, Z.eqb_refl. b2p. rewrite H0 in *. rewrite H. cbn [orb negb andb Z.eqb].
  apply (finish_retry _ id d (retryDelayMs (d_opt d))); rewrite ?settle_idle; cbn; try done.
  1, 2, 4 : unfold idle in Hi; by destruct (stack s).
  apply elem_of_app. right. by left.
Qed.


(* ------------------------------------------------------------------ *)
(** ** Witnesses and two observations *)

Definition retry_opts : SendOptions := mk_sendopt 100 true.
Definition retry_dial : DialTcpOptions := mk_dialopt "10.0.0.1" 9000 300 200 true true.
Definition in_progress (fd : Z) : answers := mk_answers (Some fd) ConnInProgress true.

(** A request with a retry; the first attempt times out, the second is
    answered; from the callback the application dials. *)
Definition busy_run : list action :=
  [AAdd (Some "redis"); ASend true "redis" retry_opts [] (Some (CbApp 7)); ATimer 0 no_answers;
   ASend true "redis" retry_opts [] (Some (CbApp 8));
   AHook 1 1 (mk_response true []); ADial true retry_dial (Some 9) (in_progress 5); AReturn null_handle].

Definition busy : state := match run init busy_run with Step s => s | _ => init end.

Lemma busy_reached : run init busy_run = Step busy.
Proof. vm_compute. reflexivity. Qed.

Lemma requests_answered_once_witness : req_calls 1 busy = 1%nat /\ req_calls 2 busy = 0%nat.
Proof.
  destruct (requests_answered_once busy_run busy) as (A & B & C); [vm_compute; reflexivity | exact busy_reached |].
  split.
  - apply C; [vm_compute; reflexivity | vm_compute; reflexivity | vm_compute; split; congruence | vm_compute; reflexivity].
  - eapply proj1, (B 2). vm_compute. reflexivity.
Defined.

Lemma request_times_out_witness :
  exists ks s', (length ks <= 2)%nat /\ run busy (map (fun k => ATimer k no_answers) ks) = Step s' /\
    pending_ s' !! 2 = None /\ OReqCb 2 (CbApp 8) (fail "timeout") ∈ trace s' /\ req_calls 2 s' = 1%nat.
Proof.
  eapply (request_times_out busy_run busy 2 (mk_pending "redis" retry_opts [] (Some (CbApp 8)) 0 100));
    [vm_compute; reflexivity | exact busy_reached | vm_compute; reflexivity | vm_compute; reflexivity].
Defined.

Lemma dials_finish_witness : timers_finish 3 1 busy.
Proof.
  apply (dials_finish busy_run busy 1 (mk_dial retry_dial 9 0 true false 5 ("10.0.0.1", 9000)));
    [vm_compute; reflexivity | exact busy_reached | vm_compute; reflexivity | vm_compute; reflexivity | vm_compute; reflexivity].
Defined.


(** A connector that answers the first attempt after the retry has begun. *)
Definition late_run : list action :=
  [AAdd (Some "redis"); ASend true "redis" retry_opts [] (Some (CbApp 7)); ATimer 0 no_answers; AHook 1 0 (mk_response true [])].

Definition late : state := match run init late_run with Step s => s | _ => init end.

Lemma late_reached : run init late_run = Step late.
Proof. vm_compute. reflexivity. Qed.

(** A reply to the first attempt of a request that arrives after its retry
    has started loses the request: it leaves the table with its callback not
    called, and no continuation, not even the reply to the retry, calls it. *)
Theorem late_reply_loses_request ys :
  zlen ys < U64 - 10 ->
  pending_ late !! 1 = None /\
  match run late ys with Step s => req_calls 1 s = 0%nat | Disabled => True | Crash => False end.
Proof.
  intros L. pose proof (conn_run_inv late_run 1 false init conn_init_inv ltac:(vm_compute; reflexivity)) as I. rewrite late_reached in I.
  assert (1 + zlen late_run = 5) as E5 by (vm_compute; reflexivity). rewrite E5 in I.
  assert (gone 1 0 late) as G by (split; vm_compute; reflexivity).
  split; [apply G |]. pose proof (conn_run_inv ys _ _ late I ltac:(lia)) as Iy.
  destruct (run late ys) as [s | |] eqn:E; [| done | done].
  eapply go_calls, (run_gone ys _ _ late s 1 0 I ltac:(lia) G E).
Qed.

Lemma late_reply_loses_request_witness :
  match run late [AHook 1 1 (mk_response true []); ATimer 0 no_answers] with
  | Step s => req_calls 1 s = 0%nat | Disabled => True | Crash => False end.
Proof. apply (late_reply_loses_request [AHook 1 1 (mk_response true []); ATimer 0 no_answers]). vm_compute. reflexivity. Defined.

(** A dial whose first attempt both times out and reports an error before the
    retry starts: each arms a retry. *)
Definition twice_run : list action :=
  [ADial true retry_dial (Some 9) (in_progress 5); ATimer 0 no_answers; AEvent 5 (Some (Some "refused"));
   ATimer 0 (in_progress 6); ATimer 0 (in_progress 7)].

Definition is_connect (id : Z) (o : out) : bool := match o with OConnect i _ _ _ _ => i =? id | _ => false end.

(** A dial with [retryOnce] may connect three times: when its first attempt
    times out and fails before the retry, two retries are armed, and the second
    abandons the attempt the first has started. *)
Theorem dial_may_try_three_times :
  exists s, run init twice_run = Step s /\ do_retryOnce retry_dial = true /\
    count (is_connect 1) (trace s) = 3%nat /\ open s = {[7]}.
Proof. eexists. split; [vm_compute; reflexivity |]. split_and!; vm_compute; reflexivity. Qed.

End Connecting.
