(* ===== verification/Config.v ===== *)
(** * Config: from the command line to the options of a worker

    Models [ConfigLoader], [EngineConfig] and the option records: the TOML
    document is read into a [GlobalConfig], validated, and turned into the
    effective options the workers are built from.  The document is a tree, as
    the vendored parser gives it; an exception is a value. *)

From stdpp Require Import strings pretty.
From S2P Require Import Prelude.

Module Config.

(* ------------------------------------------------------------------ *)
(** ** Exceptions *)

Inductive error := InvalidArgument (msg : string) | RuntimeError (msg : string).

(** A call returns, throws, or ends the process. *)
Inductive result (A : Type) := Ok (a : A) | Throw (e : error) | Exit.
Arguments Ok {A} _.
Arguments Throw {A} _.
Arguments Exit {A}.

Definition rbind {A B} (m : result A) (f : A -> result B) : result B :=
  match m with Ok a => f a | Throw e => Throw e | Exit => Exit end.

Declare Scope config_scope.
Delimit Scope config_scope with config.
Notation "x <-- m ; f" := (rbind m (fun x => f)) (at level 100, m at next level, right associativity) : config_scope.
Open Scope config_scope.

(* ------------------------------------------------------------------ *)
(** ** EngineConfig *)

Inductive LogLevel := Trace | Debug | Info | Warn | Error | Fatal.

Record EngineConfig := mk_engine {
  listenAddress : string;
  listenPort : Z;
  listenBacklog : Z;
  workerThreads : Z;
  reusePort : bool;
  logFilePath : string;
  logLevel : LogLevel;
  metricsHttpAddress : string;
  metricsHttpPort : Z;
  idleTimeoutMs : Z;
  heartbeatIntervalMs : Z;
  shutdownDrainTimeoutMs : Z;
  shutdownPollIntervalMs : Z;
  tickResolutionMs : Z;
  timerSlots : Z;
  maxEpollEvents : Z;
  bufferBlockSize : Z;
  bufferBlockCount : Z;
  recvRingCapacity : Z;
  sendRingCapacity : Z;
  maxPayloadLen : Z
}.

Definition EngineConfig_default : EngineConfig :=
  mk_engine "0.0.0.0" 9000 0 0 true "" Info "127.0.0.1" 0 60000 15000 0 0 0 0 0 0 0 0 0 0.

(** The fields fit their C++ types. *)
Record engine_typed (c : EngineConfig) : Prop := {
  ty_listenPort : 0 <= listenPort c < U16;
  ty_listenBacklog : 0 <= listenBacklog c < U32;
  ty_workerThreads : 0 <= workerThreads c < U32;
  ty_metricsHttpPort : 0 <= metricsHttpPort c < U16;
  ty_idleTimeoutMs : 0 <= idleTimeoutMs c < U32;
  ty_heartbeatIntervalMs : 0 <= heartbeatIntervalMs c < U32;
  ty_shutdownDrainTimeoutMs : 0 <= shutdownDrainTimeoutMs c < U32;
  ty_shutdownPollIntervalMs : 0 <= shutdownPollIntervalMs c < U32;
  ty_tickResolutionMs : 0 <= tickResolutionMs c < U32;
  ty_timerSlots : 0 <= timerSlots c < U64;
  ty_maxEpollEvents : 0 <= maxEpollEvents c < U32;
  ty_bufferBlockSize : 0 <= bufferBlockSize c < U64;
  ty_bufferBlockCount : 0 <= bufferBlockCount c < U64;
  ty_recvRingCapacity : 0 <= recvRingCapacity c < U64;
  ty_sendRingCapacity : 0 <= sendRingCapacity c < U64;
  ty_maxPayloadLen : 0 <= maxPayloadLen c < U32
}.

(** [hw] is what [std::thread::hardware_concurrency] answers. *)
Definition effectiveWorkerThreads (hw : Z) (c : EngineConfig) : Z :=
  if negb (workerThreads c =? 0) then workerThreads c
  else if hw =? 0 then 1 else hw.

Definition makeErrorMessage (detail : string) : string := "[EngineConfig] " +:+ detail.

Definition throwConfigError {A} (detail : string) : result A := Throw (InvalidArgument (makeErrorMessage detail)).

(** The checks of [validateEngineConfig] in order: a condition that throws and
    its message. *)
Definition checks (hw : Z) (c : EngineConfig) : list (bool * string) :=
  [ (bool_decide (listenAddress c = "") && negb (listenPort c =? 0), "listenAddress must not be empty when listenPort != 0");
    (65535 <? listenPort c, "listenPort must be in [0, 65535]");
    (negb (metricsHttpPort c =? 0) && (metricsHttpPort c =? listenPort c) && negb (listenPort c =? 0), "metricsHttpPort must not be equal to listenPort");
    (negb (workerThreads c =? 0) && (workerThreads c <? 1), "workerThreads must be >= 1 when specified");
    (negb (tickResolutionMs c =? 0) && (tickResolutionMs c <? 1), "tickResolutionMs must be >= 1 when specified");
    (negb (timerSlots c =? 0) && (timerSlots c <? 1), "timerSlots must be >= 1 when specified");
    (negb (maxEpollEvents c =? 0) && (maxEpollEvents c <? 1), "maxEpollEvents must be >= 1 when specified");
    (negb (bufferBlockSize c =? 0) && (bufferBlockSize c <? 256), "bufferBlockSize is too small (min 256 bytes when specified)");
    (negb (bufferBlockCount c =? 0) && (bufferBlockCount c <? 1), "bufferBlockCount must be >= 1 when specified)");
    (negb (recvRingCapacity c =? 0) && (recvRingCapacity c <? 1024), "recvRingCapacity is too small (min 1024 bytes when specified)");
    (negb (sendRingCapacity c =? 0) && (sendRingCapacity c <? 1024), "sendRingCapacity is too small (min 1024 bytes when specified)");
    (negb (maxPayloadLen c =? 0) && (maxPayloadLen c <? 1), "maxPayloadLen must be >= 1 when specified");
    (negb (listenPort c =? 0) && (1 <? effectiveWorkerThreads hw c) && negb (reusePort c),
     "reusePort must be enabled when effective workerThreads > 1 (SO_REUSEPORT required)") ].

Fixpoint run_checks (l : list (bool * string)) : result unit :=
  match l with
  | [] => Ok tt
  | (bad, msg) :: l => if bad then throwConfigError msg else run_checks l
  end.

Definition validateEngineConfig (hw : Z) (c : EngineConfig) : result unit := run_checks (checks hw c).

(* ------------------------------------------------------------------ *)
(** ** Options *)

Definition kTickResolutionMs : Z := 10.
Definition kTimerSlots : Z := 1024.
Definition kMaxEpollEvents : Z := 64.
Definition kBufferBlockSize : Z := 4096.
Definition kBufferBlockCount : Z := 1024.
Definition kRecvRingCapacity : Z := 64 * 1024.
Definition kSendRingCapacity : Z := 64 * 1024.
Definition kMaxPayloadLen : Z := 1024 * 1024.
Definition kListenBacklog : Z := 128.

Record WorkerOptions := mk_worker {
  w_id : Z;
  tickResolution : Z;
  slotCount : Z;
  blockSize : Z;
  blockCount : Z;
  w_maxEpollEvents : Z;
  recvCapacity : Z;
  sendCapacity : Z;
  w_maxPayloadLen : Z;
  w_idleTimeoutMs : Z;
  w_heartbeatIntervalMs : Z
}.

Record EngineOptions := mk_options {
  workerCount : Z;
  o_listenBacklog : Z;
  workerDefaults : WorkerOptions;
  shutdownDrainTimeout : Z;
  shutdownPollInterval : Z
}.

Definition WorkerOptions_default : WorkerOptions :=
  mk_worker 0 kTickResolutionMs kTimerSlots kBufferBlockSize kBufferBlockCount kMaxEpollEvents
    kRecvRingCapacity kSendRingCapacity kMaxPayloadLen 0 0.

Definition INT_MAX : Z := 2147483647.

(** [cfg] if it is given, else [dflt]. *)
Definition override (cfg dflt : Z) : Z := if negb (cfg =? 0) then cfg else dflt.

(** A given u32 as an [int], capped. *)
Definition override_int (cfg dflt : Z) : Z :=
  if negb (cfg =? 0) then (if INT_MAX <? cfg then INT_MAX else cfg) else dflt.

Definition positive_or (v dflt : Z) : Z := if v <=? 0 then dflt else v.
Definition nonzero_or (v dflt : Z) : Z := if v =? 0 then dflt else v.

(** The payload limit a ring of [recvCap] bytes allows. *)
Definition cap_payload (recvCap limit : Z) : Z :=
  if 4 <? recvCap then
    let maxByRing := size_sub recvCap 4 in
    let cap32 := if U32 - 1 <? maxByRing then U32 - 1 else u32 maxByRing in
    Z.min limit cap32
  else limit.

Definition makeEffectiveEngineOptions (hw : Z) (cfg : EngineConfig) : EngineOptions :=
  let d := WorkerOptions_default in
  let recv := nonzero_or (override (recvRingCapacity cfg) (recvCapacity d)) kRecvRingCapacity in
  let payload := nonzero_or (override (maxPayloadLen cfg) (w_maxPayloadLen d)) kMaxPayloadLen in
  mk_options
    (let n := effectiveWorkerThreads hw cfg in if n =? 0 then 1 else n)
    (override_int (listenBacklog cfg) kListenBacklog)
    (mk_worker (w_id d)
       (positive_or (override (tickResolutionMs cfg) (tickResolution d)) kTickResolutionMs)
       (nonzero_or (override (timerSlots cfg) (slotCount d)) kTimerSlots)
       (nonzero_or (override (bufferBlockSize cfg) (blockSize d)) kBufferBlockSize)
       (nonzero_or (override (bufferBlockCount cfg) (blockCount d)) kBufferBlockCount)
       (positive_or (override_int (maxEpollEvents cfg) (w_maxEpollEvents d)) kMaxEpollEvents)
       recv
       (nonzero_or (override (sendRingCapacity cfg) (sendCapacity d)) kSendRingCapacity)
       (cap_payload recv payload)
       (w_idleTimeoutMs d) (w_heartbeatIntervalMs d))
    (override (shutdownDrainTimeoutMs cfg) 3000)
    (override (shutdownPollIntervalMs cfg) 50).

Definition makeWorkerOptions (opt : EngineOptions) (workerId : Z) : WorkerOptions :=
  let w := workerDefaults opt in
  mk_worker workerId (tickResolution w) (slotCount w) (blockSize w) (blockCount w) (w_maxEpollEvents w)
    (recvCapacity w) (sendCapacity w) (w_maxPayloadLen w) (w_idleTimeoutMs w) (w_heartbeatIntervalMs w).

(** The options of worker [i] in [Engine::createWorkers_]. *)
Definition worker_options (cfg : EngineConfig) (opt : EngineOptions) (i : Z) : WorkerOptions :=
  let w := makeWorkerOptions opt i in
  mk_worker (w_id w) (tickResolution w) (slotCount w) (blockSize w) (blockCount w) (w_maxEpollEvents w)
    (recvCapacity w) (sendCapacity w) (w_maxPayloadLen w) (idleTimeoutMs cfg) (heartbeatIntervalMs cfg).

Definition createWorkers_ (cfg : EngineConfig) (opt : EngineOptions) : list WorkerOptions :=
  map (worker_options cfg opt) (seqZ 0 (workerCount opt)).

(* ------------------------------------------------------------------ *)
(** ** GlobalConfig *)

Record ExchangeSimConfig := mk_sim { fep_host : string; fep_port : Z; autoScope : bool; connection_count : Z }.
Record FepConfig := mk_fep { upstream_host : string; upstream_port : Z; worker_threads : Z; handoff_mode : bool }.
Record GlobalConfig := mk_global { engine : EngineConfig; sim : ExchangeSimConfig; fep : FepConfig }.

Definition GlobalConfig_default : GlobalConfig :=
  mk_global EngineConfig_default (mk_sim "127.0.0.1" 9000 false 1) (mk_fep "" 0 0 false).

(* ------------------------------------------------------------------ *)
(** ** The TOML document *)

(** A node of the parsed document; of a float only whether it equals an
    integer matters. *)
Inductive node :=
| NTable (entries : list (string * node))
| NInt (v : Z)
| NFloat (exact : option Z)
| NBool (b : bool)
| NStr (s : string)
| NOther.

Definition table : Type := list (string * node).

Fixpoint get (t : table) (key : string) : option node :=
  match t with
  | [] => None
  | (k, v) :: t => if bool_decide (k = key) then Some v else get t key
  end.

Definition as_table (v : option node) : option table := match v with Some (NTable t) => Some t | _ => None end.

(** [node::value<T>] for the three types the loader asks for. *)
Definition value_int (v : option node) : option Z :=
  match v with
  | Some (NInt i) => Some i
  | Some (NFloat e) => e
  | Some (NBool b) => Some (if b then 1 else 0)
  | _ => None
  end.

Definition value_bool (v : option node) : option bool :=
  match v with
  | Some (NBool b) => Some b
  | Some (NInt i) => Some (negb (i =? 0))
  | _ => None
  end.

Definition value_str (v : option node) : option string := match v with Some (NStr s) => Some s | _ => None end.

(* ------------------------------------------------------------------ *)
(** ** ConfigLoader *)

Section Setters.
Variable c : EngineConfig.

Definition set_listenAddress (x : string) : EngineConfig :=
  mk_engine x (listenPort c) (listenBacklog c) (workerThreads c) (reusePort c) (logFilePath c) (logLevel c) (metricsHttpAddress c) (metricsHttpPort c) (idleTimeoutMs c) (heartbeatIntervalMs c) (shutdownDrainTimeoutMs c) (shutdownPollIntervalMs c) (tickResolutionMs c) (timerSlots c) (maxEpollEvents c) (bufferBlockSize c) (bufferBlockCount c) (recvRingCapacity c) (sendRingCapacity c) (maxPayloadLen c).
Definition set_listenPort (x : Z) : EngineConfig :=
  mk_engine (listenAddress c) x (listenBacklog c) (workerThreads c) (reusePort c) (logFilePath c) (logLevel c) (metricsHttpAddress c) (metricsHttpPort c) (idleTimeoutMs c) (heartbeatIntervalMs c) (shutdownDrainTimeoutMs c) (shutdownPollIntervalMs c) (tickResolutionMs c) (timerSlots c) (maxEpollEvents c) (bufferBlockSize c) (bufferBlockCount c) (recvRingCapacity c) (sendRingCapacity c) (maxPayloadLen c).
Definition set_listenBacklog (x : Z) : EngineConfig :=
  mk_engine (listenAddress c) (listenPort c) x (workerThreads c) (reusePort c) (logFilePath c) (logLevel c) (metricsHttpAddress c) (metricsHttpPort c) (idleTimeoutMs c) (heartbeatIntervalMs c) (shutdownDrainTimeoutMs c) (shutdownPollIntervalMs c) (tickResolutionMs c) (timerSlots c) (maxEpollEvents c) (bufferBlockSize c) (bufferBlockCount c) (recvRingCapacity c) (sendRingCapacity c) (maxPayloadLen c).
Definition set_workerThreads (x : Z) : EngineConfig :=
  mk_engine (listenAddress c) (listenPort c) (listenBacklog c) x (reusePort c) (logFilePath c) (logLevel c) (metricsHttpAddress c) (metricsHttpPort c) (idleTimeoutMs c) (heartbeatIntervalMs c) (shutdownDrainTimeoutMs c) (shutdownPollIntervalMs c) (tickResolutionMs c) (timerSlots c) (maxEpollEvents c) (bufferBlockSize c) (bufferBlockCount c) (recvRingCapacity c) (sendRingCapacity c) (maxPayloadLen c).
Definition set_reusePort (x : bool) : EngineConfig :=
  mk_engine (listenAddress c) (listenPort c) (listenBacklog c) (workerThreads c) x (logFilePath c) (logLevel c) (metricsHttpAddress c) (metricsHttpPort c) (idleTimeoutMs c) (heartbeatIntervalMs c) (shutdownDrainTimeoutMs c) (shutdownPollIntervalMs c) (tickResolutionMs c) (timerSlots c) (maxEpollEvents c) (bufferBlockSize c) (bufferBlockCount c) (recvRingCapacity c) (sendRingCapacity c) (maxPayloadLen c).
Definition set_logFilePath (x : string) : EngineConfig :=
  mk_engine (listenAddress c) (listenPort c) (listenBacklog c) (workerThreads c) (reusePort c) x (logLevel c) (metricsHttpAddress c) (metricsHttpPort c) (idleTimeoutMs c) (heartbeatIntervalMs c) (shutdownDrainTimeoutMs c) (shutdownPollIntervalMs c) (tickResolutionMs c) (timerSlots c) (maxEpollEvents c) (bufferBlockSize c) (bufferBlockCount c) (recvRingCapacity c) (sendRingCapacity c) (maxPayloadLen c).
Definition set_logLevel (x : LogLevel) : EngineConfig :=
  mk_engine (listenAddress c) (listenPort c) (listenBacklog c) (workerThreads c) (reusePort c) (logFilePath c) x (metricsHttpAddress c) (metricsHttpPort c) (idleTimeoutMs c) (heartbeatIntervalMs c) (shutdownDrainTimeoutMs c) (shutdownPollIntervalMs c) (tickResolutionMs c) (timerSlots c) (maxEpollEvents c) (bufferBlockSize c) (bufferBlockCount c) (recvRingCapacity c) (sendRingCapacity c) (maxPayloadLen c).
Definition set_metricsHttpAddress (x : string) : EngineConfig :=
  mk_engine (listenAddress c) (listenPort c) (listenBacklog c) (workerThreads c) (reusePort c) (logFilePath c) (logLevel c) x (metricsHttpPort c) (idleTimeoutMs c) (heartbeatIntervalMs c) (shutdownDrainTimeoutMs c) (shutdownPollIntervalMs c) (tickResolutionMs c) (timerSlots c) (maxEpollEvents c) (bufferBlockSize c) (bufferBlockCount c) (recvRingCapacity c) (sendRingCapacity c) (maxPayloadLen c).
Definition set_metricsHttpPort (x : Z) : EngineConfig :=
  mk_engine (listenAddress c) (listenPort c) (listenBacklog c) (workerThreads c) (reusePort c) (logFilePath c) (logLevel c) (metricsHttpAddress c) x (idleTimeoutMs c) (heartbeatIntervalMs c) (shutdownDrainTimeoutMs c) (shutdownPollIntervalMs c) (tickResolutionMs c) (timerSlots c) (maxEpollEvents c) (bufferBlockSize c) (bufferBlockCount c) (recvRingCapacity c) (sendRingCapacity c) (maxPayloadLen c).
Definition set_idleTimeoutMs (x : Z) : EngineConfig :=
  mk_engine (listenAddress c) (listenPort c) (listenBacklog c) (workerThreads c) (reusePort c) (logFilePath c) (logLevel c) (metricsHttpAddress c) (metricsHttpPort c) x (heartbeatIntervalMs c) (shutdownDrainTimeoutMs c) (shutdownPollIntervalMs c) (tickResolutionMs c) (timerSlots c) (maxEpollEvents c) (bufferBlockSize c) (bufferBlockCount c) (recvRingCapacity c) (sendRingCapacity c) (maxPayloadLen c).
Definition set_heartbeatIntervalMs (x : Z) : EngineConfig :=
  mk_engine (listenAddress c) (listenPort c) (listenBacklog c) (workerThreads c) (reusePort c) (logFilePath c) (logLevel c) (metricsHttpAddress c) (metricsHttpPort c) (idleTimeoutMs c) x (shutdownDrainTimeoutMs c) (shutdownPollIntervalMs c) (tickResolutionMs c) (timerSlots c) (maxEpollEvents c) (bufferBlockSize c) (bufferBlockCount c) (recvRingCapacity c) (sendRingCapacity c) (maxPayloadLen c).
Definition set_shutdownDrainTimeoutMs (x : Z) : EngineConfig :=
  mk_engine (listenAddress c) (listenPort c) (listenBacklog c) (workerThreads c) (reusePort c) (logFilePath c) (logLevel c) (metricsHttpAddress c) (metricsHttpPort c) (idleTimeoutMs c) (heartbeatIntervalMs c) x (shutdownPollIntervalMs c) (tickResolutionMs c) (timerSlots c) (maxEpollEvents c) (bufferBlockSize c) (bufferBlockCount c) (recvRingCapacity c) (sendRingCapacity c) (maxPayloadLen c).
Definition set_shutdownPollIntervalMs (x : Z) : EngineConfig :=
  mk_engine (listenAddress c) (listenPort c) (listenBacklog c) (workerThreads c) (reusePort c) (logFilePath c) (logLevel c) (metricsHttpAddress c) (metricsHttpPort c) (idleTimeoutMs c) (heartbeatIntervalMs c) (shutdownDrainTimeoutMs c) x (tickResolutionMs c) (timerSlots c) (maxEpollEvents c) (bufferBlockSize c) (bufferBlockCount c) (recvRingCapacity c) (sendRingCapacity c) (maxPayloadLen c).
Definition set_tickResolutionMs (x : Z) : EngineConfig :=
  mk_engine (listenAddress c) (listenPort c) (listenBacklog c) (workerThreads c) (reusePort c) (logFilePath c) (logLevel c) (metricsHttpAddress c) (metricsHttpPort c) (idleTimeoutMs c) (heartbeatIntervalMs c) (shutdownDrainTimeoutMs c) (shutdownPollIntervalMs c) x (timerSlots c) (maxEpollEvents c) (bufferBlockSize c) (bufferBlockCount c) (recvRingCapacity c) (sendRingCapacity c) (maxPayloadLen c).
Definition set_timerSlots (x : Z) : EngineConfig :=
  mk_engine (listenAddress c) (listenPort c) (listenBacklog c) (workerThreads c) (reusePort c) (logFilePath c) (logLevel c) (metricsHttpAddress c) (metricsHttpPort c) (idleTimeoutMs c) (heartbeatIntervalMs c) (shutdownDrainTimeoutMs c) (shutdownPollIntervalMs c) (tickResolutionMs c) x (maxEpollEvents c) (bufferBlockSize c) (bufferBlockCount c) (recvRingCapacity c) (sendRingCapacity c) (maxPayloadLen c).
Definition set_maxEpollEvents (x : Z) : EngineConfig :=
  mk_engine (listenAddress c) (listenPort c) (listenBacklog c) (workerThreads c) (reusePort c) (logFilePath c) (logLevel c) (metricsHttpAddress c) (metricsHttpPort c) (idleTimeoutMs c) (heartbeatIntervalMs c) (shutdownDrainTimeoutMs c) (shutdownPollIntervalMs c) (tickResolutionMs c) (timerSlots c) x (bufferBlockSize c) (bufferBlockCount c) (recvRingCapacity c) (sendRingCapacity c) (maxPayloadLen c).
Definition set_bufferBlockSize (x : Z) : EngineConfig :=
  mk_engine (listenAddress c) (listenPort c) (listenBacklog c) (workerThreads c) (reusePort c) (logFilePath c) (logLevel c) (metricsHttpAddress c) (metricsHttpPort c) (idleTimeoutMs c) (heartbeatIntervalMs c) (shutdownDrainTimeoutMs c) (shutdownPollIntervalMs c) (tickResolutionMs c) (timerSlots c) (maxEpollEvents c) x (bufferBlockCount c) (recvRingCapacity c) (sendRingCapacity c) (maxPayloadLen c).
Definition set_bufferBlockCount (x : Z) : EngineConfig :=
  mk_engine (listenAddress c) (listenPort c) (listenBacklog c) (workerThreads c) (reusePort c) (logFilePath c) (logLevel c) (metricsHttpAddress c) (metricsHttpPort c) (idleTimeoutMs c) (heartbeatIntervalMs c) (shutdownDrainTimeoutMs c) (shutdownPollIntervalMs c) (tickResolutionMs c) (timerSlots c) (maxEpollEvents c) (bufferBlockSize c) x (recvRingCapacity c) (sendRingCapacity c) (maxPayloadLen c).
Definition set_recvRingCapacity (x : Z) : EngineConfig :=
  mk_engine (listenAddress c) (listenPort c) (listenBacklog c) (workerThreads c) (reusePort c) (logFilePath c) (logLevel c) (metricsHttpAddress c) (metricsHttpPort c) (idleTimeoutMs c) (heartbeatIntervalMs c) (shutdownDrainTimeoutMs c) (shutdownPollIntervalMs c) (tickResolutionMs c) (timerSlots c) (maxEpollEvents c) (bufferBlockSize c) (bufferBlockCount c) x (sendRingCapacity c) (maxPayloadLen c).
Definition set_sendRingCapacity (x : Z) : EngineConfig :=
  mk_engine (listenAddress c) (listenPort c) (listenBacklog c) (workerThreads c) (reusePort c) (logFilePath c) (logLevel c) (metricsHttpAddress c) (metricsHttpPort c) (idleTimeoutMs c) (heartbeatIntervalMs c) (shutdownDrainTimeoutMs c) (shutdownPollIntervalMs c) (tickResolutionMs c) (timerSlots c) (maxEpollEvents c) (bufferBlockSize c) (bufferBlockCount c) (recvRingCapacity c) x (maxPayloadLen c).
Definition set_maxPayloadLen (x : Z) : EngineConfig :=
  mk_engine (listenAddress c) (listenPort c) (listenBacklog c) (workerThreads c) (reusePort c) (logFilePath c) (logLevel c) (metricsHttpAddress c) (metricsHttpPort c) (idleTimeoutMs c) (heartbeatIntervalMs c) (shutdownDrainTimeoutMs c) (shutdownPollIntervalMs c) (tickResolutionMs c) (timerSlots c) (maxEpollEvents c) (bufferBlockSize c) (bufferBlockCount c) (recvRingCapacity c) (sendRingCapacity c) x.

End Setters.

Definition tolower (a : Ascii.ascii) : Ascii.ascii :=
  let n := Ascii.nat_of_ascii a in
  if ((65 <=? Z.of_nat n) && (Z.of_nat n <=? 90)) then Ascii.ascii_of_nat (n + 32) else a.

Fixpoint lower (s : string) : string :=
  match s with EmptyString => EmptyString | String a s => String (tolower a) (lower s) end.

Definition parseLogLevel (s : string) : result LogLevel :=
  let v := lower s in
  if bool_decide (v = "trace") then Ok Trace
  else if bool_decide (v = "debug") then Ok Debug
  else if bool_decide (v = "info") then Ok Info
  else if bool_decide (v = "warn") || bool_decide (v = "warning") then Ok Warn
  else if bool_decide (v = "error") then Ok Error
  else if bool_decide (v = "fatal") then Ok Fatal
  else Throw (InvalidArgument ("Invalid log_level: " +:+ s)).

(** The arguments after the program's name; [None] is a null pointer. *)
Fixpoint scanCliForConfigPath (args : list (option string)) : result (option string) :=
  match args with
  | [] => Ok None
  | a :: rest =>
      if bool_decide (a = Some "--config") || bool_decide (a = Some "-c") then
        match rest with
        | Some path :: _ => if bool_decide (path = "") then Throw (RuntimeError "--config requires a path") else Ok (Some path)
        | _ => Throw (RuntimeError "--config requires a path")
        end
      else scanCliForConfigPath rest
  end.

Definition checkedPortFromI64 (v : Z) (key : string) : result Z :=
  if (v <? 0) || (65535 <? v) then Throw (InvalidArgument (key +:+ " out of range (0..65535): " +:+ pretty v))
  else Ok (u16 v).

Definition checkedUIntFromI64 (v : Z) (key : string) : result Z :=
  if (v <? 0) || (U32 - 1 <? v) then Throw (InvalidArgument (key +:+ " out of range: " +:+ pretty v))
  else Ok (u32 v).

Definition checkedSizeFromI64 (v : Z) (key : string) : result Z :=
  if v <? 0 then Throw (InvalidArgument (key +:+ " must be non-negative: " +:+ pretty v))
  else Ok (u64 v).

Definition requireTable (root : table) (name : string) : result table :=
  match as_table (get root name) with
  | None => Throw (RuntimeError ("Missing required [" +:+ name +:+ "] section"))
  | Some t => Ok t
  end.

(** An integer key of a table, checked and stored if it is there. *)
Definition key_int {C} (t : table) (key : string) (check : Z -> string -> result Z) (set : C -> Z -> C) (c : C) : result C :=
  match value_int (get t key) with
  | Some v => x <-- check v key; Ok (set c x)
  | None => Ok c
  end.

Definition key_str {C} (t : table) (key : string) (set : C -> string -> C) (c : C) : C :=
  match value_str (get t key) with Some s => set c s | None => c end.

Definition key_log (t : table) (c : EngineConfig) : result EngineConfig :=
  match value_str (get t "log_level") with
  | Some s => l <-- parseLogLevel s; Ok (set_logLevel c l)
  | None => Ok c
  end.

Definition key_reuse (t : table) (c : EngineConfig) : EngineConfig :=
  match value_bool (get t "reuse_port") with
  | Some b => set_reusePort c b
  | None => match value_int (get t "reuse_port") with Some i => set_reusePort c (negb (i =? 0)) | None => c end
  end.

Definition apply_engine (t : table) (c : EngineConfig) : result EngineConfig :=
  c <-- key_int t "listen_port" checkedPortFromI64 set_listenPort c;
  c <-- key_int t "metrics_port" checkedPortFromI64 set_metricsHttpPort c;
  c <-- key_int t "worker_threads" checkedUIntFromI64 set_workerThreads c;
  c <-- key_log t c;
  c <-- Ok (key_str t "listen_address" set_listenAddress c);
  c <-- key_int t "listen_backlog" checkedUIntFromI64 set_listenBacklog c;
  c <-- Ok (key_reuse t c);
  c <-- Ok (key_str t "log_file_path" set_logFilePath c);
  c <-- Ok (key_str t "metrics_http_address" set_metricsHttpAddress c);
  c <-- key_int t "idle_timeout_ms" checkedUIntFromI64 set_idleTimeoutMs c;
  c <-- key_int t "heartbeat_interval_ms" checkedUIntFromI64 set_heartbeatIntervalMs c;
  c <-- key_int t "shutdown_drain_timeout_ms" checkedUIntFromI64 set_shutdownDrainTimeoutMs c;
  c <-- key_int t "shutdown_poll_interval_ms" checkedUIntFromI64 set_shutdownPollIntervalMs c;
  c <-- key_int t "tick_resolution_ms" checkedUIntFromI64 set_tickResolutionMs c;
  c <-- key_int t "timer_slots" checkedSizeFromI64 set_timerSlots c;
  c <-- key_int t "max_epoll_events" checkedUIntFromI64 set_maxEpollEvents c;
  c <-- key_int t "buffer_block_size" checkedSizeFromI64 set_bufferBlockSize c;
  c <-- key_int t "buffer_block_count" checkedSizeFromI64 set_bufferBlockCount c;
  c <-- key_int t "recv_ring_capacity" checkedSizeFromI64 set_recvRingCapacity c;
  c <-- key_int t "send_ring_capacity" checkedSizeFromI64 set_sendRingCapacity c;
  c <-- key_int t "max_payload_len" checkedUIntFromI64 set_maxPayloadLen c;
  Ok c.

Definition applyEngineToml (cfg : GlobalConfig) (root : table) : result GlobalConfig :=
  t <-- requireTable root "engine";
  c <-- apply_engine t (engine cfg);
  Ok (mk_global c (sim cfg) (fep cfg)).

Definition set_fep_host (s : ExchangeSimConfig) (x : string) : ExchangeSimConfig := mk_sim x (fep_port s) (autoScope s) (connection_count s).
Definition set_fep_port (s : ExchangeSimConfig) (x : Z) : ExchangeSimConfig := mk_sim (fep_host s) x (autoScope s) (connection_count s).
Definition set_autoScope (s : ExchangeSimConfig) (x : bool) : ExchangeSimConfig := mk_sim (fep_host s) (fep_port s) x (connection_count s).
Definition set_connection_count (s : ExchangeSimConfig) (x : Z) : ExchangeSimConfig := mk_sim (fep_host s) (fep_port s) (autoScope s) x.

(** [static_cast<int>] of an [int64_t]. *)
Definition int_of_i64 (v : Z) : Z := i32_of_u32 (u32 v).

Definition apply_sim (t : table) (s : ExchangeSimConfig) : result ExchangeSimConfig :=
  s <-- Ok (match value_str (get t "fep_host") with
            | Some h => set_fep_host s h
            | None => key_str t "upstream_host" set_fep_host s
            end);
  s <-- match value_int (get t "fep_port") with
        | Some v => x <-- checkedPortFromI64 v "fep_port"; Ok (set_fep_port s x)
        | None => key_int t "upstream_port" checkedPortFromI64 set_fep_port s
        end;
  s <-- Ok (match value_bool (get t "auto_scope") with Some b => set_autoScope s b | None => s end);
  Ok (match value_int (get t "connection_count") with Some v => set_connection_count s (int_of_i64 v) | None => s end).

Definition set_upstream_host (f : FepConfig) (x : string) : FepConfig := mk_fep x (upstream_port f) (worker_threads f) (handoff_mode f).
Definition set_upstream_port (f : FepConfig) (x : Z) : FepConfig := mk_fep (upstream_host f) x (worker_threads f) (handoff_mode f).
Definition set_handoff_mode (f : FepConfig) (x : bool) : FepConfig := mk_fep (upstream_host f) (upstream_port f) (worker_threads f) x.
Definition set_worker_threads (f : FepConfig) (x : Z) : FepConfig := mk_fep (upstream_host f) (upstream_port f) x (handoff_mode f).

Definition apply_fep (t : table) (c : EngineConfig) (f : FepConfig) : result FepConfig :=
  f <-- Ok (key_str t "upstream_host" set_upstream_host f);
  f <-- key_int t "upstream_port" checkedPortFromI64 set_upstream_port f;
  f <-- Ok (match value_bool (get t "handoff_mode") with Some b => set_handoff_mode f b | None => f end);
  Ok (set_worker_threads f (u16 (workerThreads c))).

(** The section of the simulator: the first of three names. *)
Definition sim_table (app : table) : option table :=
  match as_table (get app "loadgen") with
  | Some t => Some t
  | None => match as_table (get app "exchange_sim") with
            | Some t => Some t
            | None => as_table (get app "client")
            end
  end.

Definition applyAppToml (cfg : GlobalConfig) (root : table) : result GlobalConfig :=
  match as_table (get root "app") with
  | None => Ok cfg
  | Some app =>
      s <-- match sim_table app with Some t => apply_sim t (sim cfg) | None => Ok (sim cfg) end;
      f <-- match as_table (get app "fep_gateway") with Some t => apply_fep t (engine cfg) (fep cfg) | None => Ok (fep cfg) end;
      Ok (mk_global (engine cfg) s f)
  end.

Definition validateFailFast (hw : Z) (cfg : GlobalConfig) (root : table) : result unit :=
  if 65535 <? listenPort (engine cfg) then Throw (RuntimeError "listen_port out of range")
  else
    match as_table (get root "app") with
    | None => validateEngineConfig hw (engine cfg)
    | Some app =>
        let wantSim := match sim_table app with Some _ => true | None => false end in
        if wantSim && bool_decide (fep_host (sim cfg) = "") then Throw (RuntimeError "Config Error: Loadgen requires 'fep_host'")
        else if wantSim && (fep_port (sim cfg) =? 0) then Throw (RuntimeError "Config Error: Loadgen requires 'fep_port'")
        else validateEngineConfig hw (engine cfg)
    end.

(** [ConfigLoader::load].  The file system and the parser are arguments. *)
Definition load (hw : Z) (exists_ : string -> bool) (parse_file : string -> string + table) (args : list (option string))
    : result GlobalConfig :=
  if existsb (fun a => bool_decide (a = Some "--help") || bool_decide (a = Some "-h")) args then Exit
  else
    configOpt <-- scanCliForConfigPath args;
    match configOpt with
    | None => Throw (RuntimeError "Missing required argument: --config <path.toml>")
    | Some configPath =>
        if negb (exists_ configPath) then Throw (RuntimeError ("Config file not found: " +:+ configPath))
        else
          match parse_file configPath with
          | inl what => Throw (RuntimeError ("TOML Parse Error: " +:+ what))
          | inr root =>
              cfg <-- applyEngineToml GlobalConfig_default root;
              cfg <-- applyAppToml cfg root;
              _ <-- validateFailFast hw cfg root;
              Ok cfg
          end
    end.

End Config.
