(* ===== verification/ConfigSpec.v ===== *)
(** * ConfigSpec: what a loaded configuration guarantees

    The theorems about [Config]: validation accepts exactly the valid
    configurations and reports the first failure, a loaded configuration fits
    its C++ types and holds the numbers of the file unchanged, and the options
    derived from it are what the components of a worker need. *)

From stdpp Require Import strings pretty.
From S2P Require Import Prelude RingBuffer BufferPool TimerWheel Config.
Import Config.
Local Open Scope config_scope.

Module ConfigSpec.

(* ------------------------------------------------------------------ *)
(** ** Validation *)

(** What the engine asks of its configuration. *)
Record config_valid (hw : Z) (c : EngineConfig) : Prop := {
  cv_address : listenPort c <> 0 -> listenAddress c <> "";
  cv_metrics : listenPort c <> 0 -> metricsHttpPort c <> listenPort c;
  cv_blockSize : bufferBlockSize c = 0 \/ 256 <= bufferBlockSize c;
  cv_recv : recvRingCapacity c = 0 \/ 1024 <= recvRingCapacity c;
  cv_send : sendRingCapacity c = 0 \/ 1024 <= sendRingCapacity c;
  cv_reuse : listenPort c <> 0 -> 1 < effectiveWorkerThreads hw c -> reusePort c = true
}.

Lemma run_checks_spec l :
  match run_checks l with
  | Ok _ => Forall (fun x => fst x = false) l
  | Throw e => exists pre msg post, l = pre ++ (true, msg) :: post /\ Forall (fun x => fst x = false) pre /\
      e = InvalidArgument (makeErrorMessage msg)
  | Exit => False
  end.
Proof.
  induction l as [| [bad msg] l IH]; [by constructor |]. cbn. destruct bad.
  - exists [], msg, l. by split_and!.
  - destruct (run_checks l); [by constructor | | done].
    destruct IH as (pre & m & post & -> & F & ->). exists ((false, msg) :: pre), m, post. split_and!; try done. by constructor.
Qed.

(** A given value is at least [k]. *)
Lemma given_min x k : negb (x =? 0) && (x <? k) = false <-> x = 0 \/ k <= x.
Proof. rewrite andb_false_iff, negb_false_iff, Z.eqb_eq, Z.ltb_ge. done. Qed.

Lemma listening x b : b && negb (x =? 0) = false <-> (x <> 0 -> b = false).
Proof. rewrite andb_false_iff, negb_false_iff, Z.eqb_eq. destruct (decide (x = 0)); intuition. Qed.

Lemma checks_pass hw c : engine_typed c -> Forall (fun x => fst x = false) (checks hw c) <-> config_valid hw c.
Proof.
  intros []. unfold checks. rewrite !Forall_cons, Forall_nil. cbn [fst].
  rewrite !given_min, !listening, (andb_comm (negb (listenPort c =? 0))), <- andb_assoc, (andb_comm (negb (listenPort c =? 0))), andb_assoc, listening.
  rewrite !bool_decide_eq_false, !andb_false_iff, !negb_false_iff, !Z.eqb_eq, !Z.eqb_neq, !Z.ltb_ge. split.
  - intros (H1 & _ & H3 & _ & _ & _ & _ & H8 & _ & H10 & H11 & _ & H13 & _). split; auto.
    + intros N E. destruct (H3 N); lia.
    + intros N L. destruct (H13 N); [lia | done].
  - intros [A B C D E F]. split_and!; auto; try lia.
    intros N. destruct (reusePort c) eqn:R; [by right | left].
    destruct (Z.lt_ge_cases 1 (effectiveWorkerThreads hw c)) as [L |]; [| done]. by specialize (F N L).
Qed.

(** Validation accepts exactly the configurations that are valid, and
    otherwise throws an [invalid_argument] with the message of the first check,
    in the order of the source, that fails. *)
Theorem validation_reports_first_failure hw c :
  engine_typed c ->
  match validateEngineConfig hw c with
  | Ok _ => config_valid hw c
  | Throw e => ~ config_valid hw c /\ exists pre msg post, checks hw c = pre ++ (true, msg) :: post /\
      Forall (fun x => fst x = false) pre /\ e = InvalidArgument (makeErrorMessage msg)
  | Exit => False
  end.
Proof.
  intros T. pose proof (run_checks_spec (checks hw c)) as R. unfold validateEngineConfig.
  destruct (run_checks (checks hw c)) as [| e |]; [by apply checks_pass | | done]. split; [| done].
  intros V. apply checks_pass in V; [| done]. destruct R as (pre & msg & post & E & _). rewrite E in V.
  apply Forall_app in V as [_ V]. by apply Forall_cons in V as [V _].
Qed.

(* ------------------------------------------------------------------ *)
(** ** Reading the document *)

Lemma rbind_ok {A B} (m : result A) (f : A -> result B) b : rbind m f = Ok b -> exists a, m = Ok a /\ f a = Ok b.
Proof. destruct m; cbn; [eauto | done | done]. Qed.

Lemma key_int_ok {C} t key check (set : C -> Z -> C) c c' :
  key_int t key check set c = Ok c' ->
  value_int (get t key) = None /\ c' = c \/
  exists v x, value_int (get t key) = Some v /\ check v key = Ok x /\ c' = set c x.
Proof.
  unfold key_int. destruct (value_int (get t key)) as [v |]; [| intros [= <-]; by left].
  intros (x & E & [= <-])%rbind_ok. right. eauto.
Qed.

(** Takes a successful run of the loader apart, step by step. *)
Ltac run_ok :=
  repeat match goal with
  | H : rbind _ _ = Ok _ |- _ => apply rbind_ok in H as (? & ? & H)
  | H : Ok _ = Ok _ |- _ => injection H as <-
  end.

Lemma port_ok v key x : checkedPortFromI64 v key = Ok x -> 0 <= v < U16 /\ x = v.
Proof.
  unfold checkedPortFromI64. destruct (_ || _) eqn:E; [done |]. intros [= <-]. b2p.
  split; [lia |]. apply Z.mod_small. lia.
Qed.

Lemma uint_ok v key x : checkedUIntFromI64 v key = Ok x -> 0 <= v < U32 /\ x = v.
Proof.
  unfold checkedUIntFromI64. destruct (_ || _) eqn:E; [done |]. intros [= <-]. b2p.
  split; [lia |]. apply Z.mod_small. lia.
Qed.

Lemma size_ok v key x : checkedSizeFromI64 v key = Ok x -> 0 <= v /\ x = u64 v.
Proof. unfold checkedSizeFromI64. destruct (_ <? _) eqn:E; [done |]. intros [= <-]. b2p. done. Qed.

Lemma checked_range check v key x :
  check = checkedPortFromI64 \/ check = checkedUIntFromI64 \/ check = checkedSizeFromI64 -> check v key = Ok x -> 0 <= x < U64.
Proof.
  intros [-> | [-> | ->]] H; [apply port_ok in H | apply uint_ok in H | apply size_ok in H]; destruct H as [? ->]; [lia | lia | apply u64_range].
Qed.

(** A key leaves the other fields. *)
Lemma key_int_keeps {C} {t key check} {set : C -> Z -> C} {c c'} {A} (f : C -> A) :
  key_int t key check set c = Ok c' -> (forall c x, f (set c x) = f c) -> f c' = f c.
Proof. intros H K. apply key_int_ok in H as [[_ ->] | (v & x & _ & _ & ->)]; auto. Qed.

Lemma key_str_keeps {C} t key (set : C -> string -> C) c {A} (f : C -> A) :
  (forall c x, f (set c x) = f c) -> f (key_str t key set c) = f c.
Proof. intros K. unfold key_str. by destruct (value_str _). Qed.

Lemma key_int_sets {C} {t key check} {set : C -> Z -> C} {c c'} (f : C -> Z) :
  key_int t key check set c = Ok c' -> (forall c x, f (set c x) = x) ->
  match value_int (get t key) with None => f c' = f c | Some v => check v key = Ok (f c') end.
Proof. intros H K. apply key_int_ok in H as [[-> ->] | (v & x & -> & E & ->)]; [done |]. by rewrite K. Qed.

(** Every integer key of the engine's section: its name, the size of its type
    and the field it sets. *)
Definition engine_keys : list (string * Z * (EngineConfig -> Z)) :=
  [("listen_port", U16, listenPort); ("metrics_port", U16, metricsHttpPort); ("worker_threads", U32, workerThreads);
   ("listen_backlog", U32, listenBacklog); ("idle_timeout_ms", U32, idleTimeoutMs);
   ("heartbeat_interval_ms", U32, heartbeatIntervalMs); ("shutdown_drain_timeout_ms", U32, shutdownDrainTimeoutMs);
   ("shutdown_poll_interval_ms", U32, shutdownPollIntervalMs); ("tick_resolution_ms", U32, tickResolutionMs);
   ("timer_slots", U64, timerSlots); ("max_epoll_events", U32, maxEpollEvents); ("buffer_block_size", U64, bufferBlockSize);
   ("buffer_block_count", U64, bufferBlockCount); ("recv_ring_capacity", U64, recvRingCapacity);
   ("send_ring_capacity", U64, sendRingCapacity); ("max_payload_len", U32, maxPayloadLen)].

(** The field holds the number of the file, which is in range, or its default. *)
Definition key_read (t : table) (c0 c : EngineConfig) (row : string * Z * (EngineConfig -> Z)) : Prop :=
  let '(key, size, field) := row in
  match value_int (get t key) with
  | None => field c = field c0
  | Some v => 0 <= v /\ field c = v mod size /\ (size <> U64 -> v < size)
  end.

Lemma key_reuse_keeps t c {A} (f : EngineConfig -> A) : (forall c x, f (set_reusePort c x) = f c) -> f (key_reuse t c) = f c.
Proof. intros K. unfold key_reuse. destruct (value_bool _); [auto |]. destruct (value_int _); auto. Qed.

Lemma key_log_keeps {t c c' A} (f : EngineConfig -> A) :
  key_log t c = Ok c' -> (forall c x, f (set_logLevel c x) = f c) -> f c' = f c.
Proof. intros H K. unfold key_log in H. destruct (value_str _); run_ok; auto. Qed.

(** Follows a field back through the keys that leave it. *)
Ltac key_field :=
  match goal with
  | H : key_int _ _ _ _ _ = Ok ?c |- context [?f ?c] => rewrite (key_int_keeps f H (fun _ _ => eq_refl))
  | H : key_log _ _ = Ok ?c |- context [?f ?c] => rewrite (key_log_keeps f H (fun _ _ => eq_refl))
  | |- context [?f (key_str ?t ?k ?set ?c)] => rewrite (key_str_keeps t k set c f (fun _ _ => eq_refl))
  | |- context [?f (key_reuse ?t ?c)] => rewrite (key_reuse_keeps t c f (fun _ _ => eq_refl))
  end.

Ltac key_row :=
  unfold key_read; repeat key_field;
  match goal with
  | H : key_int ?t ?key _ _ ?c = Ok ?c' |- context [?f ?c'] =>
      let S := fresh "S" in
      pose proof (key_int_sets f H (fun _ _ => eq_refl)) as S; destruct (value_int (get t key));
      [first [apply port_ok in S | apply uint_ok in S | apply size_ok in S]; destruct S as [? ->];
       rewrite ?(Z.mod_small _ _) by lia; split_and!; try done; try lia
      | rewrite S; repeat key_field; done]
  end.

Lemma apply_engine_reads t c0 c : apply_engine t c0 = Ok c -> Forall (key_read t c0 c) engine_keys.
Proof.
  unfold apply_engine. intros H. run_ok.
  repeat (apply Forall_cons; split); [.. | done]; key_row.
Qed.

Lemma key_read_range t c0 c key size field :
  key_read t c0 c (key, size, field) -> 0 < size -> 0 <= field c0 < size -> 0 <= field c < size.
Proof.
  unfold key_read. intros K P R. destruct (value_int _); [| by rewrite K].
  destruct K as (_ & -> & _). by apply Z.mod_pos_bound.
Qed.

Lemma apply_engine_typed t c0 c : apply_engine t c0 = Ok c -> engine_typed c0 -> engine_typed c.
Proof.
  intros H []. apply apply_engine_reads in H. unfold engine_keys in H.
  repeat (apply Forall_cons in H as [?K H]). 
  split; eapply key_read_range; eauto; lia.
Qed.

Lemma default_typed : engine_typed EngineConfig_default.
Proof. split; vm_compute; split; congruence. Qed.

Lemma apply_sim_typed t s s' :
  apply_sim t s = Ok s' -> 0 <= fep_port s < U16 -> - 2147483648 <= connection_count s < 2147483648 ->
  0 <= fep_port s' < U16 /\ - 2147483648 <= connection_count s' < 2147483648.
Proof.
  unfold apply_sim. intros H P N. run_ok.
  match goal with H : match value_int (get t "fep_port") with _ => _ end = Ok ?s1 |- _ =>
    assert (0 <= fep_port s1 < U16 /\ connection_count s1 = connection_count s) as [P1 N1] end.
  { set (s0 := match value_str (get t "fep_host") with Some h => set_fep_host s h | None => key_str t "upstream_host" set_fep_host s end) in *.
    assert (fep_port s0 = fep_port s /\ connection_count s0 = connection_count s) as [E1 E2]
      by (subst s0; unfold key_str; destruct (value_str _); [done |]; by destruct (value_str _)).
    clearbody s0. destruct (value_int (get t "fep_port")).
    - run_ok. match goal with H : checkedPortFromI64 _ _ = Ok _ |- _ => apply port_ok in H as [? ->] end. cbn. split; [lia | done].
    - match goal with H : key_int _ _ _ _ _ = Ok _ |- _ => apply key_int_ok in H as [[_ ->] | (v & y & _ & E & ->)] end; [by rewrite E1 |].
      apply port_ok in E as [? ->]. cbn. split; [lia | done]. }
  assert (forall v, - 2147483648 <= int_of_i64 v < 2147483648) as Hi.
  { intros v. unfold int_of_i64, i32_of_u32, u32. pose proof (Z.mod_pos_bound v U32 ltac:(lia)). destruct (_ <? _) eqn:El; b2p; lia. }
  destruct (value_bool _), (value_int (get t "connection_count")); cbn; rewrite ?N1; auto.
Qed.

Lemma apply_fep_typed t c f f' :
  apply_fep t c f = Ok f' -> 0 <= upstream_port f < U16 -> 0 <= upstream_port f' < U16 /\ 0 <= worker_threads f' < U16.
Proof.
  unfold apply_fep. intros H P. run_ok. cbn. split; [| apply Z.mod_pos_bound; lia].
  match goal with H : key_int _ _ _ _ _ = Ok ?f1 |- _ => assert (0 <= upstream_port f1 < U16) as P1;
    [apply key_int_ok in H as [[_ ->] | (v & y & _ & E & ->)] |] end.
  - by rewrite key_str_keeps.
  - apply port_ok in E as [? ->]. cbn. lia.
  - by destruct (value_bool _).
Qed.

(** The sections of the applications are within their types too. *)
Record app_typed (cfg : GlobalConfig) : Prop := {
  at_fep_port : 0 <= fep_port (sim cfg) < U16;
  at_connections : - 2147483648 <= connection_count (sim cfg) < 2147483648;
  at_upstream_port : 0 <= upstream_port (fep cfg) < U16;
  at_worker_threads : 0 <= worker_threads (fep cfg) < U16
}.

Lemma applyAppToml_typed cfg root cfg' :
  applyAppToml cfg root = Ok cfg' -> app_typed cfg -> app_typed cfg' /\ engine cfg' = engine cfg.
Proof.
  unfold applyAppToml. intros H [A B C D]. destruct (as_table (get root "app")) as [app |]; [| by simplify_eq].
  run_ok. destruct (sim_table app), (as_table (get app "fep_gateway")); run_ok;
    repeat match goal with
    | H : apply_sim _ _ = Ok _ |- _ => apply apply_sim_typed in H as [? ?]; [| done | done]
    | H : apply_fep _ _ _ = Ok _ |- _ => apply apply_fep_typed in H as [? ?]; [| done]
    end; (split; [split; cbn; done | done]).
Qed.


(* ------------------------------------------------------------------ *)
(** ** Options *)

Lemma override_range x d lo hi : 0 < lo -> (x = 0 \/ lo <= x) -> x < hi -> lo <= d < hi -> lo <= override x d < hi.
Proof. intros P H L D. unfold override. destruct (Z.eqb_spec x 0); cbn; lia. Qed.

Lemma override_int_range x d : 0 <= x -> 1 <= d <= INT_MAX -> 1 <= override_int x d <= INT_MAX.
Proof.
  intros P D. unfold override_int. destruct (Z.eqb_spec x 0); cbn; [done |].
  destruct (INT_MAX <? x) eqn:E; b2p; unfold INT_MAX in *; lia.
Qed.

Lemma positive_id v d : 0 < v -> positive_or v d = v.
Proof. intros. unfold positive_or. by zb_eval. Qed.

Lemma nonzero_id v d : 0 < v -> nonzero_or v d = v.
Proof. intros. unfold nonzero_or. by zb_eval. Qed.

(** The payload limit is the smaller of the limit asked for and what the ring
    and the length field can hold. *)
Lemma cap_payload_min recvCap limit :
  4 < recvCap < U64 -> 0 <= limit < U32 -> cap_payload recvCap limit = Z.min limit (recvCap - 4).
Proof.
  intros R L. unfold cap_payload, size_sub. zb_eval. rewrite u64_small by lia.
  destruct (U32 - 1 <? recvCap - 4) eqn:E; b2p; [lia |]. unfold u32. rewrite Z.mod_small by lia. done.
Qed.


(* ------------------------------------------------------------------ *)
(** ** Witnesses and two observations *)

(** A file with the numbers [entries] in its engine section. *)
Definition document (entries : table) (app : table) : table := [("engine", NTable entries); ("app", NTable app)].

Definition load_doc (root : table) : result GlobalConfig :=
  load 8 (fun _ => true) (fun _ => inr root) [Some "--config"; Some "a.toml"].

Definition sample : table :=
  document [("listen_port", NInt 9100); ("recv_ring_capacity", NInt 4096); ("log_level", NStr "WARN")]
    [("loadgen", NTable [("fep_host", NStr "10.0.0.2"); ("connection_count", NInt 500)])].

Definition sample_config : GlobalConfig :=
  match load_doc sample with Ok c => c | _ => GlobalConfig_default end.

Lemma sample_loads : load_doc sample = Ok sample_config.
Proof. vm_compute. reflexivity. Qed.

Lemma sample_typed : engine_typed (engine sample_config).
Proof. split; vm_compute; split; congruence. Qed.

Lemma validation_reports_first_failure_witness :
  ~ config_valid 8 (set_recvRingCapacity EngineConfig_default 100).
Proof.
  pose proof (validation_reports_first_failure 8 (set_recvRingCapacity EngineConfig_default 100)) as H.
  apply H. split; vm_compute; split; congruence.
Defined.



(** Two numbers of a file are not checked.  A [connection_count] above the
    range of [int] is cut to its low 32 bits, and a pool of 16 blocks of 2^60
    bytes is accepted: the product wraps to zero, so the storage is empty and
    every block lies outside it. *)
Theorem unchecked_numbers_wrap :
  (exists cfg, load_doc (document [] [("loadgen", NTable [("connection_count", NInt 4294967297)])]) = Ok cfg /\
     connection_count (sim cfg) = 1) /\
  (exists cfg p, load_doc (document [("buffer_block_size", NInt (2 ^ 60)); ("buffer_block_count", NInt 16)] []) = Ok cfg /\
     let w := workerDefaults (makeEffectiveEngineOptions 8 (engine cfg)) in
     BufferPool.create (blockSize w) (blockCount w) = inr p /\ BufferPool.storageBytes p = 0 /\
     (BufferPool.allocate p).2 = Some (15 * 2 ^ 60)).
Proof.
  split; [eexists; split; vm_compute; reflexivity |].
  eexists _, _. split; [vm_compute; reflexivity |]. split_and!; vm_compute; reflexivity.
Qed.

End ConfigSpec.
