(* ===== verification/JobSystem.v ===== *)
(** * JobSystem: a pool of threads for slow work

    Models [JobSystem]: jobs are queued under a mutex, pool threads sleep on a
    condition variable, take jobs in order, run them and post the completion to
    the worker that owns the session.  Threads interleave at the points where
    they hold or release the mutex; a sleeping thread runs again only when it
    is notified or wakes up spuriously. *)

From S2P Require Import Prelude Handle.
Import Handle.

Module JobSystem.

(* ------------------------------------------------------------------ *)
(** ** State *)

(** A queued closure: a name for it and the session it is for. *)
Record job := mk_job { j_name : Z; j_sid : Z }.

(** A pool thread: before the test of its wait, asleep in it, running a job,
    or returned. *)
Inductive thread := Testing | Sleeping | Running (j : job) | Exited.

(** Where the thread that calls [start] and [stop] is; [next] is the number of
    threads to start afterwards, if the call was [start]. *)
Inductive caller :=
| Out
| Notify (next : option nat)
| Join (next : option nat)
| Clear (next : option nat).

Record state := mk_state {
  q_ : list job;
  stopping_ : bool;
  threads_ : list thread;
  scheduler_ : bool;             (** a scheduler is set *)
  main : caller;
  submitted : list job;          (** every job, oldest first *)
  taken : list (job * bool);     (** jobs that left the queue: started or dropped *)
  finished : list job;
  posts : list (Z * Z)           (** completions: worker and session *)
}.

Definition init : state := mk_state [] false [] false Out [] [] [] [].

Definition set_thread (s : state) (i : nat) (t : thread) : state :=
  mk_state (q_ s) (stopping_ s) (<[i := t]> (threads_ s)) (scheduler_ s) (main s) (submitted s) (taken s) (finished s) (posts s).
Definition set_threads (s : state) (l : list thread) : state :=
  mk_state (q_ s) (stopping_ s) l (scheduler_ s) (main s) (submitted s) (taken s) (finished s) (posts s).
Definition set_main (s : state) (m : caller) : state :=
  mk_state (q_ s) (stopping_ s) (threads_ s) (scheduler_ s) m (submitted s) (taken s) (finished s) (posts s).
Definition set_stopping (s : state) (b : bool) : state :=
  mk_state (q_ s) b (threads_ s) (scheduler_ s) (main s) (submitted s) (taken s) (finished s) (posts s).
Definition setScheduler (s : state) (b : bool) : state :=
  mk_state (q_ s) (stopping_ s) (threads_ s) b (main s) (submitted s) (taken s) (finished s) (posts s).
Definition set_queue (s : state) (q : list job) (tk : list (job * bool)) : state :=
  mk_state q (stopping_ s) (threads_ s) (scheduler_ s) (main s) (submitted s) tk (finished s) (posts s).

(* ------------------------------------------------------------------ *)
(** ** Operations *)

Definition wake (t : thread) : thread := match t with Sleeping => Testing | t => t end.

(** [notify_one] wakes a sleeping thread, of the system's choice. *)
Definition notify_one (s : state) (i : nat) : option state :=
  match threads_ s !! i with
  | Some Sleeping => Some (set_thread s i Testing)
  | _ => if existsb (fun t => match t with Sleeping => true | _ => false end) (threads_ s) then None else Some s
  end.

Definition notify_all (s : state) : state := set_threads s (map wake (threads_ s)).

(** [submitForSession]: the push, and the notification under the lock. *)
Definition submitForSession (s : state) (j : job) (i : nat) : option state :=
  notify_one (mk_state (q_ s ++ [j]) (stopping_ s) (threads_ s) (scheduler_ s) (main s) (submitted s ++ [j]) (taken s) (finished s) (posts s)) i.

(** The test of [cv_.wait] and what follows it under the lock, in
    [workerLoop_]. *)
Definition take_job (s : state) (i : nat) : state :=
  match q_ s with
  | [] => if stopping_ s then set_thread s i Exited else set_thread s i Sleeping
  | j :: rest => set_thread (set_queue s rest (taken s ++ [(j, true)])) i (Running j)
  end.

(** The end of the job's closure: with a scheduler its completion goes to the
    worker that owns the session. *)
Definition finish_job (s : state) (i : nat) (j : job) : state :=
  let s := set_thread s i Testing in
  let p := if scheduler_ s then posts s ++ [(ownerWorkerFromId (j_sid j), j_sid j)] else posts s in
  mk_state (q_ s) (stopping_ s) (threads_ s) (scheduler_ s) (main s) (submitted s) (taken s) (finished s ++ [j]) p.

(** [stop] up to the release of the lock. *)
Definition stop_begin (s : state) (next : option nat) : state := set_main (set_stopping s true) (Notify next).

(** The end of [stop]: what is left in the queue is dropped; [start] then
    creates the threads. *)
Definition stop_end (s : state) (next : option nat) : state :=
  let s := set_queue s [] (taken s ++ map (fun j => (j, false)) (q_ s)) in
  match next with
  | None => set_main s Out
  | Some n => set_main (set_threads (set_stopping s false) (replicate n Testing)) Out
  end.

Definition exited (t : thread) : bool := match t with Exited => true | _ => false end.

Inductive action :=
| ASubmit (j : job) (i : nat)
| AThread (i : nat)            (** pool thread [i] goes on *)
| ASpurious (i : nat)          (** it wakes up without a notification *)
| AStart (n : nat)
| AStop
| AMain                        (** the caller of [stop] goes on *)
| ASetScheduler.

Definition step (s : state) (x : action) : option state :=
  match x with
  | ASubmit j i => submitForSession s j i
  | AThread i =>
      match threads_ s !! i with
      | Some Testing => Some (take_job s i)
      | Some (Running j) => Some (finish_job s i j)
      | _ => None
      end
  | ASpurious i => match threads_ s !! i with Some Sleeping => Some (set_thread s i Testing) | _ => None end
  | AStart n => match main s with Out => Some (stop_begin s (Some n)) | _ => None end
  | AStop => match main s with Out => Some (stop_begin s None) | _ => None end
  | AMain =>
      match main s with
      | Out => None
      | Notify next => Some (set_main (notify_all s) (Join next))
      | Join next => if forallb exited (threads_ s) then Some (set_main (set_threads s []) (Clear next)) else None
      | Clear next => Some (stop_end s next)
      end
  | ASetScheduler => Some (setScheduler s true)
  end.

Fixpoint run (s : state) (xs : list action) : option state :=
  match xs with
  | [] => Some s
  | x :: xs => match step s x with Some s' => run s' xs | None => None end
  end.

(* ------------------------------------------------------------------ *)
(** ** Invariant *)

Definition running (t : thread) : option job := match t with Running j => Some j | _ => None end.
Definition started (s : state) : list job := omap (fun p : job * bool => if p.2 then Some p.1 else None) (taken s).

(** A job that is waiting does not find all threads asleep. *)
Definition attended (s : state) : Prop :=
  q_ s = [] \/ Forall (fun t => t = Exited) (threads_ s) \/ exists i t, threads_ s !! i = Some t /\ t <> Sleeping /\ t <> Exited.

Record inv (s : state) : Prop := {
  i_fifo : map fst (taken s) ++ q_ s = submitted s;
  i_running : started s ≡ₚ finished s ++ omap running (threads_ s);
  i_attended : attended s;
  i_exited : forall i, threads_ s !! i = Some Exited -> stopping_ s = true;
  i_join : match main s with Join _ => stopping_ s = true /\ Sleeping ∉ threads_ s | Notify _ => stopping_ s = true | _ => True end;
  i_clear : match main s with Clear _ => threads_ s = [] | Out => stopping_ s = true -> threads_ s = [] | _ => True end
}.

(** Jobs in the threads when thread [i] changes. *)
Lemma running_insert l i t t' : l !! i = Some t ->
  option_list (running t) ++ omap running (<[i := t']> l) ≡ₚ option_list (running t') ++ omap running l.
Proof.
  intros E. pose proof (lookup_lt_Some _ _ _ E). rewrite (insert_take_drop l i t') by done.
  rewrite <- (take_drop_middle l i t E) at 3. rewrite !omap_app. cbn.
  destruct (running t), (running t'); cbn; rewrite <- ?Permutation_middle; auto using perm_swap.
Qed.

(** The other threads are what they were. *)
Lemma insert_kept (l : list thread) i t' k x : (<[i := t']> l) !! k = Some x -> x <> t' -> l !! k = Some x.
Proof.
  intros L N. destruct (decide (k = i)) as [-> | Nk]; [| by rewrite list_lookup_insert_ne in L].
  apply list_lookup_insert_Some in L as [(_ & ? & _) | [? _]]; congruence.
Qed.

Lemma insert_not_in (l : list thread) i t' x : x ∉ l -> x <> t' -> x ∉ <[i := t']> l.
Proof. intros H N [k L]%list_elem_of_lookup. apply H. eapply list_elem_of_lookup_2, insert_kept; eauto. Qed.

Lemma wake_running l : omap running (map wake l) = omap running l.
Proof. induction l as [| [] l IH]; cbn; rewrite ?IH; done. Qed.

(** One thread changes from [t] to an active state, or sleeps with nothing to do. *)
Lemma attended_insert s s' i t t' :
  threads_ s !! i = Some t -> threads_ s' = <[i := t']> (threads_ s) -> t' <> Sleeping -> t' <> Exited -> attended s'.
Proof.
  intros E Et N1 N2. right. right. exists i, t'. rewrite Et. split_and!; auto. apply list_lookup_insert_eq. by eapply lookup_lt_Some.
Qed.

Lemma notify_inv s i s' :
  map fst (taken s) ++ q_ s = submitted s -> started s ≡ₚ finished s ++ omap running (threads_ s) ->
  (forall i, threads_ s !! i = Some Exited -> stopping_ s = true) ->
  (match main s with Join _ => stopping_ s = true /\ Sleeping ∉ threads_ s | Notify _ => stopping_ s = true | _ => True end) ->
  (match main s with Clear _ => threads_ s = [] | Out => stopping_ s = true -> threads_ s = [] | _ => True end) ->
  notify_one s i = Some s' -> inv s'.
Proof.
  intros F R Ex J C. unfold notify_one.
  assert (existsb (fun t => match t with Sleeping => true | _ => false end) (threads_ s) = false -> attended s) as Ha.
  { intros Ne. right. destruct (forallb exited (threads_ s)) eqn:Ea.
    - left. apply Forall_forall. intros t Ht. rewrite forallb_forall in Ea. apply list_elem_of_In in Ht. specialize (Ea t Ht). by destruct t.
    - right. apply not_true_iff_false in Ea. rewrite forallb_forall in Ea.
      assert (exists t, t ∈ threads_ s /\ exited t = false) as (t & Ht & Et).
      { clear -Ea. induction (threads_ s) as [| t l IH]; [by destruct Ea |]. destruct (exited t) eqn:E; [| exists t; split; [by left | done]].
        destruct IH as (t' & ? & ?); [| exists t'; split; [by right | done]]. intros H. apply Ea. intros x [<- | Hx]; auto. }
      apply list_elem_of_lookup in Ht as [k Hk]. exists k, t. split_and!; [done | | by destruct t].
      intros ->. apply not_true_iff_false in Ne. apply Ne, existsb_exists. exists Sleeping. split; [| done].
      apply list_elem_of_In. by eapply list_elem_of_lookup_2. }
  destruct (threads_ s !! i) as [[| | j |] |] eqn:E;
    try (destruct (existsb _ _) eqn:Ee; [done |]; intros [= <-]; split; auto).
  intros [= <-]. split; cbn; auto.
  - pose proof (running_insert (threads_ s) i Sleeping Testing E) as P. cbn in P. by rewrite P.
  - eapply attended_insert; eauto.
  - intros k L. apply (Ex k). by eapply insert_kept.
  - destruct (main s); try done. destruct J as [? J]. destruct J. by eapply list_elem_of_lookup_2.
  - destruct (main s); try done; [intros H; by rewrite C in E | by rewrite C in E].
Qed.

Lemma take_inv s i : inv s -> threads_ s !! i = Some Testing -> inv (take_job s i).
Proof.
  intros [F R A Ex J C] E. unfold take_job.
  assert (match main s with Clear _ => False | Out => stopping_ s = false | _ => True end) as NC.
  { destruct (main s); try done; [| by rewrite C in E]. destruct (stopping_ s); [by rewrite C in E | done]. }
  destruct (q_ s) as [| j rest] eqn:Eq.
  - pose proof (running_insert (threads_ s) i Testing Exited E) as P1. pose proof (running_insert (threads_ s) i Testing Sleeping E) as P2. cbn in P1, P2.
    destruct (stopping_ s) eqn:Es; split; cbn; rewrite ?Eq, ?Es; auto; rewrite ?P1, ?P2; auto; try (by left); try (by destruct (main s)).
    + destruct (main s); try done. split; [done |]. by apply insert_not_in; [apply J |].
    + intros k L. by eapply Ex, insert_kept.
    + destruct (main s); try done. by destruct J.
  - pose proof (running_insert (threads_ s) i Testing (Running j) E) as P. cbn in P. split; cbn; auto.
    + rewrite map_app, <- app_assoc. done.
    + unfold started in *. cbn. rewrite omap_app. cbn. rewrite R, P, <- app_assoc. apply Permutation_app_head.
      symmetry. apply Permutation_cons_append.
    + by eapply attended_insert.
    + intros k L. by eapply Ex, insert_kept.
    + destruct (main s); try done. destruct J as [? J]. split; [done |]. by apply insert_not_in.
    + destruct (main s); try done. congruence.
Qed.

Lemma finish_inv s i j : inv s -> threads_ s !! i = Some (Running j) -> inv (finish_job s i j).
Proof.
  intros [F R A Ex J C] E. unfold finish_job. pose proof (running_insert (threads_ s) i (Running j) Testing E) as P. cbn in P.
  split; cbn; auto.
  - unfold started in *. cbn. rewrite R, <- P, <- app_assoc. done.
  - by eapply attended_insert.
  - intros k L. by eapply Ex, insert_kept.
  - destruct (main s); try done. destruct J as [? Jn]. split; [done |]. by apply insert_not_in.
  - destruct (main s); try done; [intros H; by rewrite C in E | by rewrite C in E].
Qed.

Lemma none_started (l : list job) :
  omap (fun p : job * bool => if p.2 then Some p.1 else None) (map (fun j => (j, false)) l) = [].
Proof. induction l; done. Qed.

Lemma none_running n : omap running (replicate n Testing) = [].
Proof. induction n; done. Qed.

Lemma job_step_inv s x s' : inv s -> step s x = Some s' -> inv s'.
Proof.
  intros I. destruct x; cbn.
  - intros E. destruct I as [F R A Ex J C]. eapply notify_inv; [.. | exact E]; cbn; auto. by rewrite app_assoc, F.
  - destruct (threads_ s !! i) as [[| | j |] |] eqn:E; try done; intros [= <-]; [by apply take_inv | by apply finish_inv].
  - destruct (threads_ s !! i) as [[| | j |] |] eqn:E; try done. intros H. destruct I as [F R A Ex J C].
    eapply (notify_inv s i); eauto. unfold notify_one. by rewrite E.
  - destruct (main s) eqn:Em; try done. intros [= <-]. destruct I as [F R A Ex J C]. split; cbn; auto.
  - destruct (main s) eqn:Em; try done. intros [= <-]. destruct I as [F R A Ex J C]. split; cbn; auto.
  - destruct I as [F R A Ex J C]. destruct (main s) as [| next | next | next]; [done | | |].
    + intros [= <-]. split; cbn; auto.
      * by rewrite wake_running.
      * destruct A as [? | [A | (i & t & L & N1 & N2)]]; [by left | |]; right; [left | right].
        -- apply Forall_fmap. eapply Forall_impl; [exact A |]. by intros ? ->.
        -- exists i, (wake t). cbn. rewrite list_lookup_fmap, L. by destruct t.
      * split; [done |]. intros H. apply list_elem_of_fmap in H as (t & E & _). by destruct t.
    + destruct (forallb exited (threads_ s)) eqn:Ea; [| done]. intros [= <-]. split; cbn; auto; try done.
      * rewrite R. assert (omap running (threads_ s) = []) as ->; [| done].
        clear -Ea. induction (threads_ s) as [| t l IH]; [done |]. cbn in *. b2p. destruct t; try done. auto.
      * right. left. constructor.
    + intros [= <-]. destruct next as [n |]; split; cbn; auto; try done.
      * rewrite map_app, map_map, map_id, app_nil_r. done.
      * unfold started in *. cbn. rewrite omap_app, none_started, app_nil_r, none_running, R, C. done.
      * by left.
      * intros i L. apply lookup_replicate in L as [? _]. done.
      * rewrite map_app, map_map, map_id, app_nil_r. done.
      * unfold started in *. cbn. by rewrite omap_app, none_started, app_nil_r.
      * by left.
  - intros [= <-]. by destruct I; split.
Qed.

Lemma job_init_inv : inv init.
Proof. split; cbn; try done. by left. Qed.

Lemma job_run_inv xs : forall s s', inv s -> run s xs = Some s' -> inv s'.
Proof.
  induction xs as [| x xs IH]; intros s s' I; cbn; [by intros [= <-] |].
  destruct (step s x) as [s1 |] eqn:E; [| done]. apply IH. by eapply job_step_inv.
Qed.

(* ------------------------------------------------------------------ *)
(** ** Stopping *)

(** While a stop is on its way the jobs [l] are started or queued, and once a
    thread has returned they are all started. *)
Definition draining (l : list job) (s : state) : Prop :=
  match main s with
  | Notify _ | Join _ => threads_ s <> [] /\ l `prefix_of` (started s ++ q_ s) /\ (Exited ∈ threads_ s -> l `prefix_of` started s)
  | _ => l `prefix_of` started s
  end.

Lemma insert_nonempty (l : list thread) i t : l <> [] -> <[i := t]> l <> [].
Proof. destruct l; [done |]. by destruct i. Qed.

Lemma notify_one_fields s i s' : notify_one s i = Some s' ->
  main s' = main s /\ started s' = started s /\ q_ s' = q_ s /\ (threads_ s <> [] -> threads_ s' <> []) /\
  (Exited ∈ threads_ s' -> Exited ∈ threads_ s).
Proof.
  unfold notify_one. destruct (threads_ s !! i) as [[| | j |] |] eqn:E;
    try (destruct (existsb _ _); [done |]; intros [= <-]; done).
  intros [= <-]. cbn. split_and!; try done; [by intros; apply insert_nonempty |].
  intros [k L]%list_elem_of_lookup. eapply list_elem_of_lookup_2, insert_kept; eauto.
Qed.

Lemma prefix_grow (l a b : list job) : l `prefix_of` a -> l `prefix_of` (a ++ b).
Proof. intros. by apply prefix_app_r. Qed.

Lemma take_draining l s i : inv s -> threads_ s !! i = Some Testing -> draining l s -> draining l (take_job s i).
Proof.
  intros I E D. pose proof (i_clear _ I) as C. unfold draining, take_job in *.
  destruct (q_ s) as [| j rest] eqn:Eq.
  - destruct (stopping_ s); cbn; rewrite ?Eq, ?app_nil_r in *; destruct (main s); try done; destruct D as (Dn & Dp & De);
      (split_and!; [by apply insert_nonempty | done |]); auto.
  - unfold started in *. cbn. rewrite omap_app. cbn.
    destruct (main s); try (by apply prefix_grow); destruct D as (Dn & Dp & De).
    1, 2 : split_and!; [by apply insert_nonempty | by rewrite <- app_assoc |];
      intros [k L]%list_elem_of_lookup; apply prefix_grow, De; eapply list_elem_of_lookup_2, insert_kept; eauto; done.
Qed.

Lemma step_draining l s x s' :
  inv s -> draining l s -> main s <> Out -> step s x = Some s' -> draining l s'.
Proof.
  intros I D Hm. destruct x; cbn.
  - intros E. apply notify_one_fields in E as (E1 & E2 & E3 & E4 & E5). unfold draining in *. cbn in *. rewrite E1, E2, E3.
    destruct (main s); try done; destruct D as (Dn & Dp & De); (split_and!; [auto | rewrite app_assoc; by apply prefix_grow | auto]).
  - destruct (threads_ s !! i) as [[| | j |] |] eqn:E; try done; intros [= <-]; [by apply take_draining |].
    unfold draining, finish_job in *. cbn. destruct (main s); try done; destruct D as (Dn & Dp & De);
      (split_and!; [by apply insert_nonempty | done |]); intros [k L]%list_elem_of_lookup; apply De;
      eapply list_elem_of_lookup_2, insert_kept; eauto; done.
  - destruct (threads_ s !! i) as [[| | j |] |] eqn:E; try done. intros H.
    assert (notify_one s i = Some s') as H' by (unfold notify_one; by rewrite E).
    apply notify_one_fields in H' as (E1 & E2 & E3 & E4 & E5). unfold draining in *. rewrite E1, E2, E3.
    destruct (main s); try done; destruct D as (Dn & Dp & De); split_and!; auto.
  - destruct (main s); done.
  - destruct (main s); done.
  - unfold draining in *. destruct (main s) as [| next | next | next]; [done | | |].
    + intros [= <-]. cbn. destruct D as (Dn & Dp & De). split_and!; [by destruct (threads_ s) | done |].
      intros (t & Et & Ht)%list_elem_of_fmap. apply De. by destruct t.
    + destruct (forallb exited (threads_ s)) eqn:Ea; [| done]. intros [= <-]. cbn. destruct D as (Dn & Dp & De). apply De.
      destruct (threads_ s) as [| t r]; [done |]. cbn in Ea. b2p. destruct t; try done. by left.
    + intros [= <-]. unfold started in *. destruct next; cbn; rewrite omap_app; by apply prefix_grow.
  - intros [= <-]. done.
Qed.

(** What the pool and the caller of [stop] have left to do. *)
Definition weight (t : thread) : nat := match t with Testing => 1 | Running _ => 2 | Sleeping | Exited => 0 end.
Fixpoint sum (l : list nat) : nat := match l with [] => 0 | x :: l => x + sum l end.
Definition measure (s : state) : nat :=
  3 * length (q_ s) + sum (map weight (threads_ s)) +
  match main s with Out => 0 | Notify _ => 3 + length (threads_ s) | Join _ => 2 | Clear _ => 1 end.

Lemma weight_insert l i t t' : l !! i = Some t -> (sum (map weight (<[i := t']> l)) + weight t = sum (map weight l) + weight t')%nat.
Proof.
  revert i. induction l as [| x l IH]; [done |]. intros [| i] E; cbn in *; [injection E as ->; lia |].
  rewrite <- !Nat.add_assoc. f_equal. exact (IH i E).
Qed.

Lemma wake_weight l : (sum (map weight (map wake l)) <= sum (map weight l) + length l)%nat.
Proof. induction l as [| [] l IH]; cbn; lia. Qed.

(** The steps of the pool's threads and of the caller. *)
Definition own_step (x : action) : bool := match x with AThread _ | AMain => true | _ => false end.

Lemma own_step_decreases s x s' :
  inv s -> main s <> Out -> own_step x = true -> step s x = Some s' ->
  main s' = Out \/ (measure s' < measure s)%nat.
Proof.
  intros I Hm Ho. destruct x; try done; cbn.
  - destruct (threads_ s !! i) as [[| | j |] |] eqn:E; try done; intros [= <-]; right; unfold measure.
    + unfold take_job. destruct (q_ s) as [| j rest] eqn:Eq; [destruct (stopping_ s) |]; cbn; rewrite ?Eq;
        rewrite ?length_insert; [pose proof (weight_insert _ _ _ Exited E) | pose proof (weight_insert _ _ _ Sleeping E) | pose proof (weight_insert _ _ _ (Running j) E)];
        cbn in *; lia.
    + unfold finish_job. cbn. rewrite length_insert. pose proof (weight_insert _ _ _ Testing E). cbn in *. lia.
  - destruct (main s) as [| next | next | next] eqn:Em; [done | | |].
    + intros [= <-]. right. unfold measure. cbn. rewrite ?Em. pose proof (wake_weight (threads_ s)). lia.
    + destruct (forallb exited (threads_ s)) eqn:Ea; [| done]. intros [= <-]. right. unfold measure. cbn. rewrite ?Em. lia.
    + intros [= <-]. left. by destruct next.
Qed.

Lemma own_step_enabled s : inv s -> main s <> Out -> exists x s', own_step x = true /\ step s x = Some s'.
Proof.
  intros I Hm. destruct (main s) as [| next | next | next] eqn:Em; [done | | |].
  - exists AMain. eexists. cbn. by rewrite Em.
  - destruct (forallb exited (threads_ s)) eqn:Ea; [exists AMain; eexists; cbn; by rewrite Em, Ea |].
    pose proof (i_join _ I) as J. rewrite Em in J. destruct J as [_ J].
    assert (exists i t, threads_ s !! i = Some t /\ exited t = false) as (i & t & L & Et).
    { clear -Ea. induction (threads_ s) as [| t l IH]; [done |]. cbn in Ea. destruct (exited t) eqn:E; [| by exists 0%nat, t].
      destruct (IH Ea) as (i & t' & ? & ?). by exists (S i), t'. }
    destruct t as [| | j |]; [| destruct J; by eapply list_elem_of_lookup_2 | | done];
      exists (AThread i); eexists; cbn; rewrite L; done.
  - exists AMain. eexists. cbn. by rewrite Em.
Qed.

(** Running the pool and the caller until the stop is over. *)
Lemma stop_ends n : forall s, (measure s <= n)%nat -> inv s ->
  exists xs s', forallb own_step xs = true /\ (length xs <= n + 1)%nat /\ run s xs = Some s' /\ main s' = Out.
Proof.
  induction n as [| n IH]; intros s L I; destruct (main s) eqn:Em; try (exists [], s; split_and!; cbn; auto; lia);
    try (unfold measure in L; rewrite Em in L; lia).
  all: destruct (own_step_enabled s I ltac:(congruence)) as (x & s1 & Ho & E);
    destruct (own_step_decreases s x s1 I ltac:(congruence) Ho E) as [Hd | Hd];
    [exists [x], s1; cbn; rewrite Ho, E; split_and!; auto; lia |];
    destruct (IH s1 ltac:(lia) (job_step_inv _ _ _ I E)) as (xs & s2 & H1 & H2 & H3 & H4);
    exists (x :: xs), s2; cbn; rewrite Ho, H1, E; split_and!; auto; lia.
Qed.

Definition completion (j : job) : Z * Z := (ownerWorkerFromId (j_sid j), j_sid j).

(** With a scheduler every finished job has posted its completion. *)
Lemma run_posts xs : forall s s', scheduler_ s = true -> posts s = map completion (finished s) ->
  run s xs = Some s' -> posts s' = map completion (finished s').
Proof.
  induction xs as [| x xs IH]; intros s s' Hs Hp; cbn; [by intros [= <-] |].
  destruct (step s x) as [s1 |] eqn:E; [| done].
  assert (scheduler_ s1 = true /\ posts s1 = map completion (finished s1)) as [H1 H2]; [| by apply IH].
  destruct x; cbn in E.
  - unfold submitForSession, notify_one in E. cbn in E. destruct (threads_ s !! i) as [[| | j' |] |];
      try (destruct (existsb _ _); [done |]); injection E as <-; done.
  - destruct (threads_ s !! i) as [[| | j |] |]; try done; injection E as <-.
    + unfold take_job. destruct (q_ s); [destruct (stopping_ s) |]; done.
    + unfold finish_job. cbn. rewrite Hs, Hp, map_app. done.
  - destruct (threads_ s !! i) as [[| | j |] |]; try done; injection E as <-; done.
  - destruct (main s); try done; injection E as <-; done.
  - destruct (main s); try done; injection E as <-; done.
  - destruct (main s) as [| next | next | next]; try done; [injection E as <-; done | |].
    + destruct (forallb exited _); [| done]. injection E as <-; done.
    + injection E as <-. by destruct next.
  - injection E as <-. done.
Qed.

(** Jobs leave the queue in the order submitted, each at most once, to be
    started or, at the end of a stop, dropped; a started job is running in one
    thread or finished; and while a job waits and some thread has not returned,
    not all of them sleep: a thread can go on, so no notification is lost.  With
    a scheduler set, every finished job has posted its completion, once, to the
    worker that owns its session. *)
Theorem jobs_run_once xs s :
  run init xs = Some s ->
  map fst (taken s) ++ q_ s = submitted s /\
  started s ≡ₚ finished s ++ omap running (threads_ s) /\
  (q_ s <> [] -> forallb exited (threads_ s) = false -> exists i s', step s (AThread i) = Some s') /\
  (forall s', run (setScheduler init true) xs = Some s' -> posts s' = map completion (finished s')).
Proof.
  intros E. pose proof (job_run_inv xs init s job_init_inv E) as I. split_and!; [apply I | apply I | | intros s'; by apply run_posts].
  intros Hq He. destruct (i_attended _ I) as [? | [A | (i & t & L & N1 & N2)]]; [done | |].
  - exfalso. apply not_true_iff_false in He. apply He. apply forallb_forall. intros t Ht. apply list_elem_of_In in Ht.
    rewrite Forall_forall in A. by rewrite (A t Ht).
  - destruct t; try done; exists i; eexists; cbn; by rewrite L.
Qed.

(** C36: stopping a pool that has threads returns, by the steps of the threads and
    the caller alone and within a bound, and on every way there the jobs
    submitted before it are started, none of them dropped. *)
Theorem stop_runs_queued_jobs xs s s1 :
  run init xs = Some s -> threads_ s <> [] -> step s AStop = Some s1 ->
  (exists ys s', forallb own_step ys = true /\ (length ys <= measure s1 + 1)%nat /\ run s1 ys = Some s' /\ main s' = Out) /\
  (forall ys s', run s1 ys = Some s' -> main s' = Out -> forallb (fun x => match x with AStart _ | AStop => false | _ => true end) ys = true ->
     (started s ++ q_ s) `prefix_of` started s').
Proof.
  intros Er Hn Es. pose proof (job_run_inv xs init s job_init_inv Er) as I. pose proof (job_step_inv _ _ _ I Es) as I1.
  split; [by apply (stop_ends (measure s1)) |].
  intros ys s' E1 Ho Hns.
  assert (draining (started s ++ q_ s) s1) as D.
  { cbn in Es. destruct (main s) eqn:Em; try done. injection Es as <-. unfold draining. cbn. split_and!; [done | done |].
    intros [k L]%list_elem_of_lookup. pose proof (i_clear _ I) as C. rewrite Em in C. destruct Hn. apply C. by eapply i_exited. }
  clear Er Hn Es I. generalize dependent s1. induction ys as [| y ys IH]; intros s1 I1 E1 D; cbn in E1.
  - injection E1 as ->. unfold draining in D. by rewrite Ho in D.
  - destruct (step s1 y) as [s2 |] eqn:E; [| done]. cbn in Hns. b2p.
    destruct (main s1) eqn:Em.
    1: { assert (main s2 = Out /\ started s1 `prefix_of` started s2) as [Em2 Hp].
         { destruct y; cbn in E; try done; rewrite ?Em in E; try done.
           - apply notify_one_fields in E as (-> & -> & _). done.
           - destruct (threads_ s1 !! i) as [[| | j |] |]; try done; injection E as <-; [| done]. unfold take_job.
             destruct (q_ s1); [destruct (stopping_ s1); done |]. split; [done |]. unfold started. cbn. rewrite omap_app. by apply prefix_app_r.
           - destruct (threads_ s1 !! i) as [[| | j |] |]; try done; by injection E as <-.
           - by injection E as <-. }
         apply (IH ltac:(done) s2 (job_step_inv _ _ _ I1 E) E1). unfold draining in *. rewrite Em in D. rewrite Em2. by transitivity (started s1). }
    all: apply (IH ltac:(done) s2 (job_step_inv _ _ _ I1 E) E1); eapply step_draining; eauto; congruence.
Qed.

(** Two threads, three jobs, one in progress when [stop] is called. *)
Definition pool_run : list action :=
  [AStart 2; AMain; AMain; AMain; AThread 0; ASubmit (mk_job 1 4294967297) 0; AThread 0; ASubmit (mk_job 2 4294967298) 0;
   ASubmit (mk_job 3 4294967299) 0].

Definition pool : state := match run init pool_run with Some s => s | None => init end.
Definition pool_stopped : state := match step pool AStop with Some s => s | None => init end.

Lemma jobs_run_once_witness : map fst (taken pool) ++ q_ pool = submitted pool /\ exists i s', step pool (AThread i) = Some s'.
Proof.
  destruct (jobs_run_once pool_run pool) as (A & _ & B & _); [vm_compute; reflexivity |].
  split; [exact A |]. apply B; vm_compute; [discriminate | reflexivity].
Defined.

Lemma stop_runs_queued_jobs_witness :
  exists ys s', forallb own_step ys = true /\ (length ys <= measure pool_stopped + 1)%nat /\ run pool_stopped ys = Some s' /\ main s' = Out.
Proof.
  apply (stop_runs_queued_jobs pool_run pool pool_stopped); [vm_compute; reflexivity | vm_compute; discriminate | vm_compute; reflexivity].
Defined.

End JobSystem.
