(* ===== verification/Monitoring.v ===== *)
(** * Monitoring: the engine's counters and their text page

    Models [monitoring/Metrics.hpp] and [monitoring/Metrics.cpp]: the two
    gauges (signed, 64 bits) and seven counters (unsigned, 64 bits), the
    operations the engine calls on them, the snapshot and the Prometheus text.
    The reference it is compared with is the reader's side: [sample] looks a
    metric up in a page by its name, as a scraper does. *)

From Stdlib Require Import Ascii Decimal DecimalString DecimalN DecimalNat.
From stdpp Require Import strings.
From S2P Require Import Prelude.

Module Monitoring.

(* ------------------------------------------------------------------ *)
(** ** Text: [std::string] as a list of characters *)

Abbreviation text := (list ascii).

Definition lit (s : string) : text := String.list_ascii_of_string s.
Definition nl : ascii := "010"%char.
Definition cr : ascii := "013"%char.
Definition sp : ascii := " "%char.

(** [std::to_string] of an unsigned number, and [operator<<]. *)
Definition to_string (v : Z) : text := lit (NilEmpty.string_of_uint (N.to_uint (Z.to_N v))).

(** Its inverse, on the reader's side. *)
Definition number (t : text) : option Z :=
  (fun d => Z.of_N (N.of_uint d)) <$> NilEmpty.uint_of_string (String.string_of_list_ascii t).

Definition is_digit (c : ascii) : bool := (48 <=? nat_of_ascii c)%nat && (nat_of_ascii c <=? 57)%nat.

(** The pieces of a text between the occurrences of a character. *)
Fixpoint split (c : ascii) (s : text) : list text :=
  match s with
  | [] => [[]]
  | x :: r =>
      if decide (x = c) then [] :: split c r
      else match split c r with [] => [[x]] | l :: ls => (x :: l) :: ls end
  end.

Lemma split_app c l r : c ∉ l -> split c (l ++ c :: r) = l :: split c r.
Proof.
  induction l as [| x l IH]; cbn; intros H.
  - by rewrite decide_True.
  - apply not_elem_of_cons in H as [? H]. rewrite decide_False by done. by rewrite IH.
Qed.

Lemma split_none c l : c ∉ l -> split c l = [l].
Proof.
  induction l as [| x l IH]; cbn; intros H; [done |].
  apply not_elem_of_cons in H as [? H]. rewrite decide_False by done. by rewrite IH.
Qed.

Lemma lit_digits d : Forall is_digit (lit (NilEmpty.string_of_uint d)).
Proof. induction d; cbn; by constructor. Qed.

Lemma to_string_digits v : Forall is_digit (to_string v).
Proof. apply lit_digits. Qed.

Lemma digits_avoid c v : is_digit c = false -> c ∉ to_string v.
Proof.
  intros N E. pose proof (to_string_digits v) as H. rewrite Forall_forall in H.
  specialize (H c E). by rewrite N in H.
Qed.

Lemma number_to_string v : 0 <= v -> number (to_string v) = Some v.
Proof.
  intros H. unfold number, to_string, lit.
  rewrite String.string_of_list_ascii_of_string, NilEmpty.usu. cbn.
  rewrite DecimalN.Unsigned.of_to. f_equal. lia.
Qed.

(* ------------------------------------------------------------------ *)
(** ** The counters *)

(** Two's complement wrap of [std::atomic<std::int64_t>]. *)
Definition i64 (z : Z) : Z := (z + 9223372036854775808) mod U64 - 9223372036854775808.

Record EngineMetrics := mk_metrics {
  currentConnections_ : Z;
  rxMessagesTotal_ : Z;
  txMessagesTotal_ : Z;
  errorsTotal_ : Z;
  connectorPending_ : Z;
  connectorTotal_ : Z;
  connectorSuccessTotal_ : Z;
  connectorTimeoutTotal_ : Z;
  connectorFailureTotal_ : Z
}.

Definition reset (_ : EngineMetrics) : EngineMetrics := mk_metrics 0 0 0 0 0 0 0 0 0.

(** The static object of [engineMetrics()] before any call. *)
Definition engineMetrics : EngineMetrics := mk_metrics 0 0 0 0 0 0 0 0 0.

(** The calls of the engine, one constructor per member function. *)
Inductive call :=
| onConnectionOpened | onConnectionClosed | onRxMessage | onTxMessage | onError
| onConnectorTotal | onConnectorPendingInc | onConnectorPendingDec
| onConnectorSuccess | onConnectorTimeout | onConnectorFailure.

#[global] Instance call_eq_decision : EqDecision call.
Proof. solve_decision. Defined.

Definition count (m : EngineMetrics) (c : call) : EngineMetrics :=
  let '(mk_metrics cc rx tx er pe to su ti fa) := m in
  match c with
  | onConnectionOpened => mk_metrics (i64 (cc + 1)) rx tx er pe to su ti fa
  | onConnectionClosed => mk_metrics (i64 (cc - 1)) rx tx er pe to su ti fa
  | onRxMessage => mk_metrics cc (u64 (rx + 1)) tx er pe to su ti fa
  | onTxMessage => mk_metrics cc rx (u64 (tx + 1)) er pe to su ti fa
  | onError => mk_metrics cc rx tx (u64 (er + 1)) pe to su ti fa
  | onConnectorTotal => mk_metrics cc rx tx er pe (u64 (to + 1)) su ti fa
  | onConnectorPendingInc => mk_metrics cc rx tx er (i64 (pe + 1)) to su ti fa
  | onConnectorPendingDec => mk_metrics cc rx tx er (i64 (pe - 1)) to su ti fa
  | onConnectorSuccess => mk_metrics cc rx tx er pe to (u64 (su + 1)) ti fa
  | onConnectorTimeout => mk_metrics cc rx tx er pe to su (u64 (ti + 1)) fa
  | onConnectorFailure => mk_metrics cc rx tx er pe to su ti (u64 (fa + 1))
  end.

(* ------------------------------------------------------------------ *)
(** ** Snapshot and page *)

Definition clampNonNegative (v : Z) : Z := u64 (Z.max 0 v).

Record EngineMetricsSnapshot := mk_snapshot {
  currentConnections : Z;
  rxMessagesTotal : Z;
  txMessagesTotal : Z;
  errorsTotal : Z;
  connectorPending : Z;
  connectorTotal : Z;
  connectorSuccessTotal : Z;
  connectorTimeoutTotal : Z;
  connectorFailureTotal : Z
}.

Definition snapshot (m : EngineMetrics) : EngineMetricsSnapshot :=
  mk_snapshot (clampNonNegative (currentConnections_ m)) (rxMessagesTotal_ m) (txMessagesTotal_ m)
    (errorsTotal_ m) (clampNonNegative (connectorPending_ m)) (connectorTotal_ m)
    (connectorSuccessTotal_ m) (connectorTimeoutTotal_ m) (connectorFailureTotal_ m).

(** What [appendGauge] and [appendCounter] append. *)
Definition append_metric (kind : string) (os : text) (name help : string) (value : Z) : text :=
  os ++ lit "# HELP " ++ lit name ++ lit " " ++ lit help ++ [nl]
     ++ lit "# TYPE " ++ lit name ++ lit kind ++ [nl]
     ++ lit name ++ lit " " ++ to_string value ++ [nl].

Definition appendGauge := append_metric " gauge".
Definition appendCounter := append_metric " counter".

Definition kMCurrentConnections : string := "hypernet_engine_current_connections".
Definition kMRxMessagesTotal : string := "hypernet_engine_rx_messages_total".
Definition kMTxMessagesTotal : string := "hypernet_engine_tx_messages_total".
Definition kMErrorsTotal : string := "hypernet_engine_errors_total".
Definition kMConnectorPending : string := "hypernet_connector_pending".
Definition kMConnectorTotal : string := "hypernet_connector_total".
Definition kMConnectorSuccessTotal : string := "hypernet_connector_success_total".
Definition kMConnectorTimeoutTotal : string := "hypernet_connector_timeout_total".
Definition kMConnectorFailureTotal : string := "hypernet_connector_failure_total".

Definition toPrometheusText (m : EngineMetrics) : text :=
  let s := snapshot m in
  let os := [] in
  let os := appendGauge os kMCurrentConnections "Current number of active TCP sessions." (currentConnections s) in
  let os := appendCounter os kMRxMessagesTotal "Total number of framed messages received (dispatcher level)." (rxMessagesTotal s) in
  let os := appendCounter os kMTxMessagesTotal "Total number of framed messages sent (dispatcher level)." (txMessagesTotal s) in
  let os := appendCounter os kMErrorsTotal "Total number of engine/network errors." (errorsTotal s) in
  let os := appendGauge os kMConnectorPending "Number of in-flight connector attempts." (connectorPending s) in
  let os := appendCounter os kMConnectorTotal "Total connector attempts." (connectorTotal s) in
  let os := appendCounter os kMConnectorSuccessTotal "Total successful connector attempts." (connectorSuccessTotal s) in
  let os := appendCounter os kMConnectorTimeoutTotal "Total timed-out connector attempts." (connectorTimeoutTotal s) in
  let os := appendCounter os kMConnectorFailureTotal "Total failed connector attempts." (connectorFailureTotal s) in
  os.

(* ------------------------------------------------------------------ *)
(** ** The reader's side *)

(** A sample line: a name, a space and a number. *)
Definition sample_line (l : text) : option (text * Z) :=
  match split sp l with [n; v] => (fun z => (n, z)) <$> number v | _ => None end.

Definition samples (page : text) : list (text * Z) := omap sample_line (split nl page).

(** The value of the first sample with the name. *)
Fixpoint assoc (name : text) (l : list (text * Z)) : option Z :=
  match l with
  | [] => None
  | (n, v) :: l => if decide (n = name) then Some v else assoc name l
  end.

Definition sample (page : text) (name : string) : option Z := assoc (lit name) (samples page).

(* ------------------------------------------------------------------ *)
(** ** The page of a snapshot *)

Definition names : list string :=
  [kMCurrentConnections; kMRxMessagesTotal; kMTxMessagesTotal; kMErrorsTotal; kMConnectorPending;
   kMConnectorTotal; kMConnectorSuccessTotal; kMConnectorTimeoutTotal; kMConnectorFailureTotal].

Definition values (s : EngineMetricsSnapshot) : list Z :=
  [currentConnections s; rxMessagesTotal s; txMessagesTotal s; errorsTotal s; connectorPending s;
   connectorTotal s; connectorSuccessTotal s; connectorTimeoutTotal s; connectorFailureTotal s].

(** The character is not in the literal; decided by evaluation. *)
Definition avoids (c : ascii) (s : string) : bool := bool_decide (c ∉ lit s).

Lemma avoids_spec c s : avoids c s = true -> c ∉ lit s.
Proof. apply bool_decide_eq_true. Qed.

Ltac avoid := repeat first [done | by apply avoids_spec | apply not_elem_of_app; split | apply not_elem_of_cons; split].

(** What a metric's name, help text and kind must be for its lines to be
    read back. *)
Definition well_named (kind name help : string) : bool :=
  avoids nl name && avoids sp name && avoids nl help && avoids nl kind.

Lemma split_cons c s : exists l ls, split c s = l :: ls.
Proof.
  induction s as [| x s (l & ls & IH)]; cbn; [eauto |].
  destruct (decide _); [eauto |]. rewrite IH. eauto.
Qed.

(** A comment line is not a sample: it has two spaces. *)
Lemma comment_line p n r : sp ∉ p -> sp ∉ n -> sample_line (p ++ sp :: n ++ sp :: r) = None.
Proof.
  intros P N. unfold sample_line. rewrite !split_app by done.
  by destruct (split_cons sp r) as (l & ls & ->).
Qed.

Lemma value_line name v : sp ∉ name -> 0 <= v -> sample_line (name ++ sp :: to_string v) = Some (name, v).
Proof.
  intros N V. unfold sample_line. rewrite split_app, split_none by (done || by apply digits_avoid).
  by rewrite number_to_string.
Qed.

Lemma samples_line l rest : nl ∉ l ->
  samples (l ++ nl :: rest) = match sample_line l with Some x => x :: samples rest | None => samples rest end.
Proof. intros N. unfold samples. by rewrite split_app. Qed.

(** The lines of one metric are read as one sample. *)
Lemma samples_append kind name help value rest :
  well_named kind name help = true -> 0 <= value ->
  samples (append_metric kind [] name help value ++ rest) = (lit name, value) :: samples rest.
Proof.
  unfold well_named. intros [[[N S]%andb_prop H]%andb_prop K]%andb_prop V.
  apply avoids_spec in N, S, H, K.
  assert (nl ∉ to_string value) as D by by apply digits_avoid.
  trans (samples ((lit "#" ++ sp :: lit "HELP" ++ sp :: (lit name ++ sp :: lit help)) ++ nl ::
    ((lit "#" ++ sp :: lit "TYPE" ++ sp :: (lit name ++ lit kind)) ++ nl ::
    ((lit name ++ sp :: to_string value) ++ nl :: rest)))).
  { f_equal. unfold append_metric. by simplify_list_eq. }
  rewrite !samples_line, !comment_line, value_line; avoid.
Qed.

Lemma append_metric_app kind os name help value : append_metric kind os name help value = os ++ append_metric kind [] name help value.
Proof. done. Qed.

(** The samples of a page are the nine values of the snapshot. *)
Lemma page_samples m : (forall v, v ∈ values (snapshot m) -> 0 <= v) ->
  samples (toPrometheusText m) = zip (lit <$> names) (values (snapshot m)).
Proof.
  unfold values. intros V. unfold toPrometheusText, appendGauge, appendCounter.
  rewrite !(append_metric_app _ (append_metric _ _ _ _ _)). rewrite <- !app_assoc.
  rewrite <- (app_nil_r (append_metric _ [] kMConnectorFailureTotal _ _)).
  rewrite !samples_append by (reflexivity || (apply V; set_solver)). done.
Qed.

(** Names are distinct, so looking one up gives its value. *)
Lemma page_sample m (i : nat) name v :
  (forall v, v ∈ values (snapshot m) -> 0 <= v) ->
  names !! i = Some name -> values (snapshot m) !! i = Some v -> sample (toPrometheusText m) name = Some v.
Proof.
  intros V N E. unfold sample. rewrite page_samples by done. unfold values, names in *.
  do 9 (destruct i as [| i]; [cbn in N, E; simplify_eq; reflexivity |]). done.
Qed.

(* ------------------------------------------------------------------ *)
(** ** What the counters count *)

(** How often a call was made. *)
Definition times (c : call) (calls : list call) : Z := zlen (filter (fun d => d = c) calls).

Lemma times_snoc c calls d : times c (calls ++ [d]) = times c calls + (if decide (d = c) then 1 else 0).
Proof. unfold times. rewrite filter_app, zlen_app. f_equal. rewrite filter_cons, filter_nil. by destruct (decide _). Qed.

Lemma times_range c calls : 0 <= times c calls <= zlen calls.
Proof.
  split; [apply zlen_nonneg |]. unfold times, zlen. pose proof (length_filter (fun d => d = c) calls). lia.
Qed.

Lemma i64_step a d : i64 (i64 a + d) = i64 (a + d).
Proof.
  unfold i64. f_equal.
  replace (_ - _ + d + _) with ((a + 9223372036854775808) mod U64 + d) by lia.
  rewrite Zplus_mod_idemp_l. f_equal. lia.
Qed.

Lemma i64_back a d : i64 (i64 a - d) = i64 (a - d).
Proof. apply (i64_step a (- d)). Qed.

Lemma u64_step a d : u64 (u64 a + d) = u64 (a + d).
Proof. unfold u64. apply Zplus_mod_idemp_l. Qed.

(** The counters after any calls, at any width. *)
Lemma counters_of_calls calls :
  foldl count engineMetrics calls =
  mk_metrics (i64 (times onConnectionOpened calls - times onConnectionClosed calls))
    (u64 (times onRxMessage calls)) (u64 (times onTxMessage calls)) (u64 (times onError calls))
    (i64 (times onConnectorPendingInc calls - times onConnectorPendingDec calls))
    (u64 (times onConnectorTotal calls)) (u64 (times onConnectorSuccess calls))
    (u64 (times onConnectorTimeout calls)) (u64 (times onConnectorFailure calls)).
Proof.
  induction calls as [| d calls IH] using rev_ind; [done |].
  rewrite foldl_snoc, IH, !times_snoc.
  destruct d; cbn [count]; repeat (case_decide; try done);
    rewrite ?i64_back, ?i64_step, ?u64_step, ?Z.add_0_r; f_equal; f_equal; lia.
Qed.

(** What a page should say after the calls. *)
Definition expected (calls : list call) : list Z :=
  [Z.max 0 (times onConnectionOpened calls - times onConnectionClosed calls);
   times onRxMessage calls; times onTxMessage calls; times onError calls;
   Z.max 0 (times onConnectorPendingInc calls - times onConnectorPendingDec calls);
   times onConnectorTotal calls; times onConnectorSuccess calls; times onConnectorTimeout calls;
   times onConnectorFailure calls].

Lemma clamp_i64 z : - 9223372036854775808 <= z < 9223372036854775808 -> clampNonNegative (i64 z) = Z.max 0 z.
Proof.
  intros H. unfold clampNonNegative, i64. rewrite Z.mod_small by lia. rewrite u64_small by lia. lia.
Qed.

Lemma snapshot_of_calls calls : zlen calls < 9223372036854775808 ->
  values (snapshot (foldl count engineMetrics calls)) = expected calls.
Proof.
  intros H. rewrite counters_of_calls. unfold snapshot, values, expected; cbn.
  repeat match goal with |- context [times ?c calls] =>
    lazymatch goal with E : 0 <= times c calls <= _ |- _ => fail | _ => pose proof (times_range c calls) end end.
  rewrite !clamp_i64, !u64_small by lia. done.
Qed.

Lemma calls_nonneg calls v : zlen calls < 9223372036854775808 ->
  v ∈ values (snapshot (foldl count engineMetrics calls)) -> 0 <= v.
Proof.
  intros H. rewrite snapshot_of_calls by done. unfold expected.
  rewrite !elem_of_cons, elem_of_nil. intros E.
  repeat (destruct E as [-> | E]; [first [apply times_range | lia] |]). done.
Qed.

(** Looking a metric up in the page after any calls. *)
Lemma page_of_calls calls (i : nat) name : zlen calls < 9223372036854775808 -> names !! i = Some name ->
  sample (toPrometheusText (foldl count engineMetrics calls)) name = expected calls !! i.
Proof.
  intros H N. rewrite <- snapshot_of_calls by done.
  destruct (values _ !! i) as [v |] eqn:E.
  - apply (page_sample _ i); [intros ?; by apply calls_nonneg | done | done].
  - apply lookup_lt_Some in N. apply lookup_ge_None in E. cbn in N, E. lia.
Qed.

End Monitoring.
