(* ===== verification/Logger.v ===== *)
(** * Logger: the asynchronous log

    Models [core/Logger.hpp], [core/Logger.cpp] and [core/LoggingConfig.cpp]:
    the level filter in front, the queue with its thread, the text of a line,
    stopping, and the global instance.

    Callers append under a mutex and notify after it; the log thread sleeps on
    a condition variable, takes the whole queue and writes it without the
    mutex.  Callers, log thread and the caller of [stop] take turns in any
    order.  [accepted] and [shown] record the events appended and looked at. *)

From Stdlib Require Import Ascii.
From stdpp Require Import strings.
From S2P Require Import Prelude Monitoring.
Import Monitoring.

Module Logger.

(* ------------------------------------------------------------------ *)
(** ** Levels and text *)

Inductive LogLevel := Trace | Debug | Info | Warn | Error | Fatal.

#[export] Instance LogLevel_eq_dec : EqDecision LogLevel.
Proof. solve_decision. Defined.

Definition rank (l : LogLevel) : Z :=
  match l with Trace => 0 | Debug => 1 | Info => 2 | Warn => 3 | Error => 4 | Fatal => 5 end.

(** [fastEnabled]. *)
Definition fastEnabled (fastMinLevel level : LogLevel) : bool := rank fastMinLevel <=? rank level.

Definition levelToStr (l : LogLevel) : text :=
  lit match l with
      | Trace => "TRACE" | Debug => "DEBUG" | Info => "INFO" | Warn => "WARN" | Error => "ERROR" | Fatal => "FATAL"
      end.

(** [slog::build]. *)
Definition build (comp evt details : text) : text :=
  match details with
  | [] => comp ++ lit " | " ++ evt
  | _ => comp ++ lit " | " ++ evt ++ lit " | " ++ details
  end.

Record LogEvent := mk_event {
  level : LogLevel;
  message : text;
  timestamp : Z;                  (** microseconds of the system clock *)
  threadTag : text;
  threadId : Z
}.

(** [ThreadContext::updateTag_]. *)
Definition updateTag_ (wid : Z) : text := if wid <? 0 then lit "main" else lit "w" ++ to_string wid.

(** [{:0nd}] and [{:<n}] of [std::format]. *)
Definition zeros (n : nat) (t : text) : text := replicate (n - length t) "0"%char ++ t.
Definition left_aligned (n : nat) (t : text) : text := t ++ replicate (n - length t) " "%char.

Definition esc : text := ["027"%char; "["%char].
Definition color (l : LogLevel) : text :=
  esc ++ lit match l with Trace => "90m" | Debug => "36m" | Info => "32m" | Warn => "33m" | Error | Fatal => "31m" end.

(** The thread column: a tag that starts with w is written with W. *)
Definition thread_column (ev : LogEvent) : text :=
  (match threadTag ev with
   | c :: rest => (if decide (c = "w"%char) then "W"%char else c) :: rest
   | [] => []
   end) ++ lit " tid=" ++ to_string (threadId ev).

Definition level_column (useColor_ : bool) (ev : LogEvent) : text :=
  let lvlCol := left_aligned 5 (levelToStr (level ev)) in
  if useColor_ then color (level ev) ++ lvlCol ++ esc ++ lit "0m" else lvlCol.

Section Line.
(** [localtime_r]: hour, minute and second of a time. *)
Context (localtime : Z -> Z * Z * Z).

Definition time_column (ev : LogEvent) : text :=
  let '(hour, min, sec) := localtime (timestamp ev / 1000000) in
  zeros 2 (to_string hour) ++ lit ":" ++ zeros 2 (to_string min) ++ lit ":" ++ zeros 2 (to_string sec) ++
  lit "." ++ zeros 6 (to_string (timestamp ev mod 1000000)).

(** [writeLog]. *)
Definition writeLog (useColor_ : bool) (ev : LogEvent) : text :=
  time_column ev ++ lit " | " ++ thread_column ev ++ lit " | " ++ level_column useColor_ ev ++ lit " | " ++ message ev ++ [nl].

(* ------------------------------------------------------------------ *)
(** ** The queue and its thread *)

(** The log thread: before the test of its wait, asleep, writing a batch, or
    returned. *)
Inductive writer := Testing | Sleeping | Writing (batch : list LogEvent) | Exited.

(** The caller of [stop]: before it, before the notification, in [join], or
    returned. *)
Inductive stopper := Before | Notify | Join | Done.

Record state := mk_state {
  queue_ : list LogEvent;
  stop_ : bool;
  minLevel_ : LogLevel;
  fastMinLevel : LogLevel;
  useColor_ : bool;
  worker_ : writer;
  stopping : stopper;
  notifying : nat;                (** callers between append and notify *)
  out : list text;
  flushed : nat;
  accepted : list LogEvent;
  shown : list (LogEvent * LogLevel);   (** with the level at that time *)
  at_stop : nat                   (** accepted when [stop_] was set *)
}.

Definition set_writer s w := mk_state (queue_ s) (stop_ s) (minLevel_ s) (fastMinLevel s) (useColor_ s) w (stopping s) (notifying s) (out s) (flushed s) (accepted s) (shown s) (at_stop s).
Definition set_stopping s p := mk_state (queue_ s) (stop_ s) (minLevel_ s) (fastMinLevel s) (useColor_ s) (worker_ s) p (notifying s) (out s) (flushed s) (accepted s) (shown s) (at_stop s).
Definition set_notifying s n := mk_state (queue_ s) (stop_ s) (minLevel_ s) (fastMinLevel s) (useColor_ s) (worker_ s) (stopping s) n (out s) (flushed s) (accepted s) (shown s) (at_stop s).
Definition set_queue s q := mk_state q (stop_ s) (minLevel_ s) (fastMinLevel s) (useColor_ s) (worker_ s) (stopping s) (notifying s) (out s) (flushed s) (accepted s) (shown s) (at_stop s).

(** The constructor of [Logger] followed by [setMinLevel]. *)
Definition construct (lvl : LogLevel) (tty : bool) : state :=
  mk_state [] false lvl lvl tty Testing Before 0 [] 0 [] [] 0.

(** [setMinLevel]. *)
Definition setMinLevel s lvl := mk_state (queue_ s) (stop_ s) lvl lvl (useColor_ s) (worker_ s) (stopping s) (notifying s) (out s) (flushed s) (accepted s) (shown s) (at_stop s).

(** [log] up to the end of the critical section. *)
Definition log (s : state) (ev : LogEvent) : state :=
  mk_state (queue_ s ++ [ev]) (stop_ s) (minLevel_ s) (fastMinLevel s) (useColor_ s) (worker_ s) (stopping s) (S (notifying s)) (out s) (flushed s) (accepted s ++ [ev]) (shown s) (at_stop s).

(** [slog::emit]. *)
Definition emit (s : state) (lvl : LogLevel) (comp evt details : text) (now : Z) (tag : text) (tid : Z) : state :=
  if fastEnabled (fastMinLevel s) lvl then log s (mk_event lvl (build comp evt details) now tag tid) else s.

(** A notification reaches the log thread if it sleeps. *)
Definition wake (s : state) : state := match worker_ s with Sleeping => set_writer s Testing | _ => s end.

(** [processQueue]: the test of the wait and the rest of the critical section;
    one event of the batch; the flush at its end. *)
Definition take_batch (s : state) : state :=
  match queue_ s with
  | [] => if stop_ s then set_writer s Exited else set_writer s Sleeping
  | q => set_writer (set_queue s []) (Writing q)
  end.

Definition write_event (s : state) (ev : LogEvent) (rest : list LogEvent) : state :=
  mk_state (queue_ s) (stop_ s) (minLevel_ s) (fastMinLevel s) (useColor_ s) (Writing rest) (stopping s) (notifying s)
    (if rank (level ev) <? rank (minLevel_ s) then out s else out s ++ [writeLog (useColor_ s) ev])
    (flushed s) (accepted s) (shown s ++ [(ev, minLevel_ s)]) (at_stop s).

Definition flush (s : state) : state :=
  mk_state (queue_ s) (stop_ s) (minLevel_ s) (fastMinLevel s) (useColor_ s) Testing (stopping s) (notifying s)
    (out s) (length (out s)) (accepted s) (shown s) (at_stop s).

Definition processQueue (s : state) : option state :=
  match worker_ s with
  | Testing => Some (take_batch s)
  | Writing (ev :: rest) => Some (write_event s ev rest)
  | Writing [] => Some (flush s)
  | Sleeping | Exited => None
  end.

(** [stop]: the flag, the notification, the join. *)
Definition stop (s : state) : option state :=
  match stopping s with
  | Before => Some (mk_state (queue_ s) true (minLevel_ s) (fastMinLevel s) (useColor_ s) (worker_ s) Notify (notifying s) (out s) (flushed s) (accepted s) (shown s) (length (accepted s)))
  | Notify => Some (wake (set_stopping s Join))
  | Join => match worker_ s with Exited => Some (set_stopping s Done) | _ => None end
  | Done => None
  end.

Inductive move :=
| MEmit (lvl : LogLevel) (comp evt details : text) (now : Z) (tag : text) (tid : Z)
| MNotify
| MThread
| MSpurious
| MStop
| MSetLevel (lvl : LogLevel).

Definition step (s : state) (m : move) : option state :=
  match m with
  | MEmit lvl comp evt details now tag tid => Some (emit s lvl comp evt details now tag tid)
  | MNotify => match notifying s with O => None | S n => Some (wake (set_notifying s n)) end
  | MThread => processQueue s
  | MSpurious => match worker_ s with Sleeping => Some (set_writer s Testing) | _ => None end
  | MStop => stop s
  | MSetLevel lvl => Some (setMinLevel s lvl)
  end.

Fixpoint run (s : state) (l : list move) : option state :=
  match l with
  | [] => Some s
  | m :: l => s ← step s m; run s l
  end.

(* ------------------------------------------------------------------ *)
(** ** Invariant *)

Definition batch_of (w : writer) : list LogEvent := match w with Writing b => b | _ => [] end.

(** The lines of the events that passed the level they were compared with. *)
Definition lines (color : bool) (l : list (LogEvent * LogLevel)) : list text :=
  (fun p => writeLog color (fst p)) <$> filter (fun p => rank (snd p) <= rank (level (fst p))) l.

#[local] Arguments lines : simpl never.

Record inv (s : state) : Prop := {
  inv_order : accepted s = (fst <$> shown s) ++ batch_of (worker_ s) ++ queue_ s;
  inv_out : out s = lines (useColor_ s) (shown s);
  inv_sleep : worker_ s = Sleeping ->
    (queue_ s = [] \/ (0 < notifying s)%nat \/ stopping s = Notify) /\ (stop_ s = false \/ stopping s = Notify);
  inv_stop : stop_ s = true <-> stopping s <> Before;
  inv_exit : worker_ s = Exited -> stop_ s = true /\ (at_stop s <= length (shown s))%nat;
  inv_done : stopping s = Done -> worker_ s = Exited;
  inv_at : (at_stop s <= length (accepted s))%nat;
  inv_flush : match worker_ s with Writing _ => True | _ => flushed s = length (out s) end
}.

Lemma construct_inv lvl tty : inv (construct lvl tty).
Proof. split; cbn; try done; lia. Qed.

Lemma lines_snoc color l p : lines color (l ++ [p]) =
  if rank (level (fst p)) <? rank (snd p) then lines color l else lines color l ++ [writeLog color (fst p)].
Proof.
  unfold lines. rewrite filter_app, fmap_app. destruct (Z.ltb_spec (rank (level (fst p))) (rank (snd p))).
  - rewrite filter_cons_False, filter_nil by lia. by rewrite app_nil_r.
  - by rewrite filter_cons_True.
Qed.

Lemma logger_step_inv s m s' : inv s -> step s m = Some s' -> inv s'.
Proof.
  intros [Or Ou Sl St Ex Dn At Fl]. destruct m as [lvl comp evt details now tag tid | | | | | lvl]; cbn.
  - intros [= <-]. unfold emit. destruct (fastEnabled _ _); [| by split]. split; cbn; try done.
    + by rewrite Or, <- !app_assoc.
    + intros W. destruct (Sl W) as [_ ?]. split; [right; left; lia | done].
    + rewrite length_app. lia.
  - destruct (notifying s) as [| n] eqn:N; [done |]. intros [= <-]. unfold wake; cbn.
    destruct (worker_ s) eqn:W; split; cbn; rewrite ?W; try done; auto; by intros ?%Dn.
  - unfold processQueue. destruct (worker_ s) as [| | [| ev rest] |] eqn:W; try done; intros [= <-].
    + unfold take_batch. destruct (queue_ s) as [| x q] eqn:Q; [destruct (stop_ s) eqn:S |]; split; cbn; rewrite ?Q, ?S; try done; auto.
      all: try (by intros ?%Dn).
      * intros _. split; [done |]. rewrite Or in At. cbn in At. by rewrite app_nil_r, length_fmap in At.
      * cbn in Or. by rewrite app_nil_r.
    + split; cbn; try done. by intros ?%Dn.
    + split; cbn; try done.
      * by rewrite Or, fmap_app, <- app_assoc.
      * rewrite lines_snoc; cbn. by destruct (_ <? _); rewrite Ou.
      * by intros ?%Dn.
  - destruct (worker_ s) eqn:W; try done. intros [= <-]. split; cbn; try done. by intros ?%Dn.
  - unfold stop. destruct (stopping s) eqn:P; try done.
    + intros [= <-]. split; cbn; try done; auto.
      intros W. destruct (Ex W) as [S _]. by apply St in S.
    + intros [= <-]. unfold wake; cbn. destruct (worker_ s) eqn:W; split; cbn; rewrite ?W; try done.
      all: split; [done | intros _; by apply St].
    + destruct (worker_ s) eqn:W; try done. intros [= <-]. split; cbn; rewrite ?W; try done.
      all: split; [done | intros _; by apply St].
  - intros [= <-]. by split.
Qed.

Lemma logger_run_inv l : forall s s', inv s -> run s l = Some s' -> inv s'.
Proof.
  induction l as [| m l IH]; cbn; intros s s' I E; [by simplify_eq |].
  apply bind_Some in E as (s1 & E1 & E). eapply IH, E. by eapply logger_step_inv.
Qed.

(** ** Stopping ends *)

(** Steps the thread and the caller of [stop] still need, when nothing more is
    logged. *)
Definition left_over (s : state) : nat :=
  3 * length (queue_ s) + 3 * (match stopping s with Before => 3 | Notify => 2 | Join => 1 | Done => 0 end) +
  match worker_ s with Sleeping => 3 | Testing => 2 + (match queue_ s with [] => 0 | _ => 1 end)
  | Writing b => length b + 4 + (match queue_ s with [] => 0 | _ => 1 end) | Exited => 0 end.

(** Moves of the log thread and of the caller of [stop]. *)
Definition own (m : move) : bool := match m with MThread | MStop => true | _ => false end.

Lemma stop_closer s : inv s -> stop_ s = true -> stopping s <> Done ->
  exists m s', own m = true /\ step s m = Some s' /\ stop_ s' = true /\ (left_over s' < left_over s)%nat.
Proof.
  intros I S N. assert (stopping s <> Before) as B by by apply (inv_stop _ I).
  destruct (stopping s) eqn:P; [done | | | done].
  - exists MStop. cbn. unfold stop. rewrite P. eexists. split_and!; [done | reflexivity | |].
    + unfold wake; cbn. by destruct (worker_ s).
    + unfold wake, left_over; cbn. destruct (worker_ s) eqn:W; cbn; rewrite ?P, ?W; destruct (queue_ s); cbn; lia.
  - destruct (worker_ s) as [| | [| ev rest] |] eqn:W.
    + exists MThread. cbn. unfold processQueue. rewrite W. eexists. split_and!; [done | reflexivity | |].
      * unfold take_batch. rewrite S. by destruct (queue_ s).
      * unfold take_batch, left_over. rewrite S, ?W, ?P. destruct (queue_ s) eqn:Q; cbn; rewrite ?Q, ?P; cbn; lia.
    + destruct (inv_sleep _ I W) as [_ [? | ?]]; congruence.
    + exists MThread. cbn. unfold processQueue. rewrite W. eexists. split_and!; [done | reflexivity | done |].
      unfold left_over; cbn. rewrite ?W, ?P. destruct (queue_ s); cbn; lia.
    + exists MThread. cbn. unfold processQueue. rewrite W. eexists. split_and!; [done | reflexivity | done |].
      unfold left_over; cbn. rewrite ?W, ?P. cbn. lia.
    + exists MStop. cbn. unfold stop. rewrite P, W. eexists. split_and!; [done | reflexivity | done |].
      unfold left_over; cbn. rewrite ?W, ?P. lia.
Qed.

Lemma stop_finishes n : forall s, inv s -> stop_ s = true -> (left_over s <= n)%nat ->
  exists l s', Forall own l /\ (length l <= n)%nat /\ run s l = Some s' /\ stopping s' = Done.
Proof.
  induction n as [| n IH]; intros s I S L.
  all: assert (stopping s = Done \/ stopping s <> Done) as [D | D] by (destruct (stopping s); auto).
  1,3: by exists [], s; split_and!; cbn; try lia.
  all: destruct (stop_closer s I S D) as (m & s1 & O & E & S1 & C).
  1: lia.
  destruct (IH s1) as (l & s' & F & Ln & R & Dn); [by eapply logger_step_inv | done | lia |].
  exists (m :: l), s'. split_and!; [constructor; [by rewrite O | done] | cbn; lia | cbn; by rewrite E | done].
Qed.

(** ** Levels *)

Definition sets_level (m : move) : bool := match m with MSetLevel _ => true | _ => false end.

(** With the level never changed, exactly the events at or above it are
    accepted, and all that are looked at are written. *)
Definition emitted (lvl : LogLevel) (m : move) : option LogEvent :=
  match m with
  | MEmit l comp evt details now tag tid =>
      if fastEnabled lvl l then Some (mk_event l (build comp evt details) now tag tid) else None
  | _ => None
  end.

Lemma step_level lvl s m s' : sets_level m = false -> fastMinLevel s = lvl -> minLevel_ s = lvl -> step s m = Some s' ->
  fastMinLevel s' = lvl /\ minLevel_ s' = lvl /\ useColor_ s' = useColor_ s /\
  accepted s' = accepted s ++ option_list (emitted lvl m) /\
  (Forall (fun p => snd p = lvl) (shown s) -> Forall (fun p => snd p = lvl) (shown s')).
Proof.
  intros N F M. destruct m as [l comp evt details now tag tid | | | | | l]; cbn in *; [| | | | | done].
  - intros [= <-]. unfold emit. rewrite F. destruct (fastEnabled lvl l); cbn; rewrite ?app_nil_r; done.
  - destruct (notifying s); [done |]. intros [= <-]. unfold wake; cbn. rewrite app_nil_r. by destruct (worker_ s).
  - unfold processQueue. rewrite app_nil_r. destruct (worker_ s) as [| | [| ev rest] |]; try done; intros [= <-].
    + unfold take_batch. destruct (queue_ s); [destruct (stop_ s) |]; done.
    + done.
    + cbn. split_and!; try done. intros H. apply Forall_app. split; [done |]. by constructor.
  - rewrite app_nil_r. destruct (worker_ s); try done. by intros [= <-].
  - rewrite app_nil_r. unfold stop. destruct (stopping s); try done; [by intros [= <-] | | destruct (worker_ s); try done; by intros [= <-]].
    intros [= <-]. unfold wake; cbn. by destruct (worker_ s).
Qed.

Lemma run_level lvl l : forall s s', Forall (fun m => sets_level m = false) l -> fastMinLevel s = lvl -> minLevel_ s = lvl ->
  Forall (fun p => snd p = lvl) (shown s) -> run s l = Some s' ->
  useColor_ s' = useColor_ s /\ accepted s' = accepted s ++ omap (emitted lvl) l /\ Forall (fun p => snd p = lvl) (shown s').
Proof.
  induction l as [| m l IH]; cbn; intros s s' F Fa Mi Sh E; [simplify_eq; by rewrite app_nil_r |].
  apply bind_Some in E as (s1 & E1 & E). inversion F; subst.
  destruct (step_level (fastMinLevel s) s m s1) as (F1 & M1 & U1 & A1 & S1); [done | done | done | done |].
  destruct (IH s1 s') as (U & A & S); [done | done | done | auto | done |].
  split_and!; [congruence | | done]. rewrite A, A1, <- app_assoc. by destruct (emitted _ m).
Qed.

(** Everything an accepted event has been compared with lets it pass. *)
Lemma all_lines lvl color l : Forall (fun p => snd p = lvl) l -> Forall (fun ev => rank lvl <= rank (level ev)) (fst <$> l) ->
  lines color l = writeLog color <$> (fst <$> l).
Proof.
  unfold lines. induction l as [| [ev lv] l IH]; intros F H; [done |].
  rewrite fmap_cons in H. apply Forall_cons in F as [E F], H as [L H]. cbn in E, L. subst lv.
  rewrite filter_cons_True by done. rewrite !fmap_cons. by rewrite IH.
Qed.

Lemma emitted_level lvl l : Forall (fun ev => rank lvl <= rank (level ev)) (omap (emitted lvl) l).
Proof.
  apply Forall_forall. intros ev (m & _ & E)%list_elem_of_omap. destruct m; try done. cbn in E. unfold fastEnabled in E.
  destruct (Z.leb_spec (rank lvl) (rank lvl0)); [| done]. by simplify_eq.
Qed.

(** C31: with the level set once, under every interleaving of callers, log
    thread and [stop], the lines written are those of the calls at or above
    the level, each once and in the order of the calls; when [stop] returns,
    all calls made before it began are written and flushed; and once [stop]
    has begun it can always finish, in a bounded number of steps of its own
    thread and the log thread. *)
Theorem log_is_complete lvl tty l s : Forall (fun m => sets_level m = false) l -> run (construct lvl tty) l = Some s ->
  let calls := omap (emitted lvl) l in
  out s `prefix_of` (writeLog tty <$> calls) /\
  (stopping s = Done -> (writeLog tty <$> take (at_stop s) calls) `prefix_of` out s /\ flushed s = length (out s)) /\
  (stop_ s = true -> exists l' s', Forall own l' /\ (length l' <= left_over s)%nat /\ run s l' = Some s' /\ stopping s' = Done).
Proof.
  intros F R calls. pose proof (logger_run_inv _ _ _ (construct_inv lvl tty) R) as I.
  destruct (run_level lvl l (construct lvl tty) s F eq_refl eq_refl) as (U & A & Sh); [constructor | done |]. cbn in U, A. fold calls in A.
  pose proof (inv_order _ I) as Or. rewrite A in Or.
  assert (out s = writeLog tty <$> (fst <$> shown s)) as Ou.
  { rewrite (inv_out _ I), U. apply (all_lines lvl); [done |]. pose proof (emitted_level lvl l) as H. fold calls in H.
    rewrite Or in H. by apply Forall_app in H as [H _]. }
  split_and!.
  - rewrite Ou, Or, fmap_app. by eexists.
  - intros D. pose proof (inv_done _ I D) as W. destruct (inv_exit _ I W) as [_ L]. split.
    + rewrite Ou, Or, take_app_le by by rewrite length_fmap. rewrite <- (take_drop (at_stop s) (shown s).*1) at 2.
      rewrite (fmap_app _ (take _ _)). by eexists.
    + pose proof (inv_flush _ I) as Fl. by rewrite W in Fl.
  - intros S. by apply stop_finishes.
Qed.

(* ------------------------------------------------------------------ *)
(** ** The layout of a line *)

Definition bar : ascii := "|"%char.

(** What stands before the first occurrence of a character, and after it. *)
Fixpoint cut (c : ascii) (t : text) : option (text * text) :=
  match t with
  | [] => None
  | x :: r => if decide (x = c) then Some ([], r) else (fun p => (x :: fst p, snd p)) <$> cut c r
  end.

(** A reader of the log: the columns of a line. *)
Definition columns (t : text) : option (text * text * text * text) :=
  '(time, t) ← cut bar t; '(thr, t) ← cut bar t; '(lvl, t) ← cut bar t; Some (time, thr, lvl, t).

Lemma cut_app c l r : c ∉ l -> cut c (l ++ c :: r) = Some (l, r).
Proof.
  induction l as [| x l IH]; cbn; intros H; [by rewrite decide_True |].
  apply not_elem_of_cons in H as [? H]. rewrite decide_False by done. by rewrite IH.
Qed.

(** No bar in what the logger itself writes. *)
Definition no_bar (t : text) : bool := forallb (fun c => negb (bool_decide (c = bar))) t.

Lemma no_bar_spec t : no_bar t = true <-> bar ∉ t.
Proof.
  unfold no_bar. rewrite forallb_forall. split.
  - intros H E. apply list_elem_of_In in E. specialize (H bar E). by rewrite bool_decide_eq_true_2 in H.
  - intros H x E. apply negb_true_iff, bool_decide_eq_false. intros ->. apply H. by apply list_elem_of_In.
Qed.

Lemma zeros_bar n t : bar ∉ t -> bar ∉ zeros n t.
Proof. intros H. unfold zeros. rewrite elem_of_app. intros [E | E]; [| done]. by apply elem_of_replicate in E as [? _]. Qed.

Lemma time_bar ev : bar ∉ time_column ev.
Proof.
  unfold time_column. destruct (localtime _) as [[hour min] sec].
  assert (forall v, bar ∉ to_string v) as D by (intros v; by apply digits_avoid).
  rewrite !elem_of_app. intros [E | [E | [E | [E | [E | [E | E]]]]]]; revert E; first [by apply no_bar_spec | by apply zeros_bar, D].
Qed.

Lemma level_bar color ev : bar ∉ level_column color ev.
Proof. apply no_bar_spec. unfold level_column. by destruct color, (level ev). Qed.

(** The tags of threads have no bar. *)
Lemma tag_bar wid : bar ∉ updateTag_ wid.
Proof.
  unfold updateTag_. destruct (wid <? 0); [by apply no_bar_spec |]. rewrite elem_of_app. intros [E | E].
  - revert E. by apply no_bar_spec.
  - revert E. by apply digits_avoid.
Qed.

Lemma thread_bar ev : bar ∉ threadTag ev -> bar ∉ thread_column ev.
Proof.
  intros H. unfold thread_column. rewrite !elem_of_app. intros [E | [E | E]].
  - destruct (threadTag ev) as [| c rest]; [by apply elem_of_nil in E |]. apply not_elem_of_cons in H as [? ?].
    apply elem_of_cons in E as [E | E]; [| done]. destruct (decide (c = "w"%char)); done.
  - revert E. by apply no_bar_spec.
  - revert E. by apply digits_avoid.
Qed.

(** A line of the log, whatever its message contains, is read back column
    by column: time, thread, level (with its colour) and the message, which
    ends with the line. *)
Theorem log_line_reads_back color ev wid : threadTag ev = updateTag_ wid ->
  columns (writeLog color ev) =
  Some (time_column ev ++ [sp], [sp] ++ thread_column ev ++ [sp], [sp] ++ level_column color ev ++ [sp], [sp] ++ message ev ++ [nl]).
Proof.
  intros T. assert (bar ∉ threadTag ev) as B by (rewrite T; apply tag_bar).
  assert (forall t, bar ∉ t -> bar ∉ t ++ [sp]) as S1 by (intros t H; rewrite elem_of_app, list_elem_of_singleton; intros [? | E]; [done | discriminate E]).
  assert (forall t, bar ∉ t -> bar ∉ [sp] ++ t ++ [sp]) as S2.
  { intros t H. rewrite elem_of_app, list_elem_of_singleton. intros [E | E]; [discriminate E | by apply S1 in E]. }
  unfold columns, writeLog.
  replace (time_column ev ++ lit " | " ++ _) with
    ((time_column ev ++ [sp]) ++ bar :: ([sp] ++ thread_column ev ++ [sp]) ++ bar :: ([sp] ++ level_column color ev ++ [sp]) ++ bar :: [sp] ++ message ev ++ [nl])
    by (rewrite <- !app_assoc; done).
  rewrite cut_app by (apply S1, time_bar). cbn [mbind option_bind]. rewrite cut_app by (by apply S2, thread_bar). cbn [mbind option_bind].
  rewrite cut_app by (apply S2, level_bar). done.
Qed.

End Line.

(* ------------------------------------------------------------------ *)
(** ** The global instance *)

(** The logger installed (its level) and the level of the front filter. *)
Record global := mk_global { instance : option LogLevel; fast : LogLevel }.

(** The static objects before any call. *)
Definition globals : global := mk_global (Some Info) Info.

Definition setLogger (g : global) (logger : option LogLevel) : global :=
  mk_global logger (match logger with Some lvl => lvl | None => Info end).

(** [getLogger]: without an instance a default one is made. *)
Definition getLogger (g : global) : LogLevel * global :=
  match instance g with
  | Some lvl => (lvl, g)
  | None => (Info, mk_global (Some Info) (fast g))
  end.

Definition shutdownLogger (g : global) : global := mk_global None (fast g).

(** [applyLoggingConfig]; [opened]: the file could be opened; [None]: it
    throws. *)
Definition applyLoggingConfig (logFilePath : string) (logLevel : LogLevel) (opened : bool) (g : global) : option global :=
  if String.eqb logFilePath "" then Some (setLogger g (Some logLevel))
  else if opened then Some (setLogger g (Some logLevel)) else None.

(** After the configuration both filters have its level; after a shutdown the
    front filter keeps it while the next logger starts at [Info]. *)
Lemma configured_levels path lvl opened g g' : applyLoggingConfig path lvl opened g = Some g' ->
  instance g' = Some lvl /\ fast g' = lvl /\
  instance (snd (getLogger (shutdownLogger g'))) = Some Info /\ fast (snd (getLogger (shutdownLogger g'))) = lvl.
Proof. unfold applyLoggingConfig. destruct (String.eqb path ""), opened; by intros [= <-]. Qed.

(* ------------------------------------------------------------------ *)
(** ** A run *)

Definition demo_localtime (t : Z) : Z * Z * Z := (t / 3600 mod 24, t / 60 mod 60, t mod 60).

Definition say (lvl : LogLevel) (evt : string) : move :=
  MEmit lvl (lit "Demo") (lit evt) (lit "k=v | x") 45296000123 (updateTag_ 3) 4711.

(** A message below the level, two messages in one batch, [stop] with a message
    still queued, and one after it. *)
Definition demo_moves : list move :=
  [MThread; say Debug "hidden"; say Info "first"; say Warn "second"; MNotify; MThread; MThread; say Error "third"; MStop; MNotify; MNotify;
   MStop; MThread; MThread; MThread; MThread; MThread; MThread; MStop; say Fatal "late"].

Lemma log_is_complete_witness : exists s, run demo_localtime (construct Info false) demo_moves = Some s /\
  length (out s) = 3%nat /\ stopping s = Done /\
  let calls := omap (emitted Info) demo_moves in
  out s `prefix_of` (writeLog demo_localtime false <$> calls) /\
  (stopping s = Done -> (writeLog demo_localtime false <$> take (at_stop s) calls) `prefix_of` out s /\ flushed s = length (out s)) /\
  (stop_ s = true -> exists l' s', Forall own l' /\ (length l' <= left_over s)%nat /\ run demo_localtime s l' = Some s' /\ stopping s' = Done).
Proof.
  eexists. split; [vm_compute; reflexivity |]. split; [vm_compute; reflexivity |]. split; [done |].
  apply (log_is_complete demo_localtime Info false demo_moves); [by repeat constructor | vm_compute; reflexivity].
Defined.

Lemma log_line_reads_back_witness :
  let ev := mk_event Warn (lit "Demo | second") 45296000123 (updateTag_ 3) 4711 in
  columns (writeLog demo_localtime false ev) = Some (lit "12:34:56.000123 ", lit " W3 tid=4711 ", lit " WARN  ", lit " Demo | second" ++ [nl]) /\
  columns (writeLog demo_localtime false ev) =
  Some (time_column demo_localtime ev ++ [sp], [sp] ++ thread_column ev ++ [sp], [sp] ++ level_column false ev ++ [sp], [sp] ++ message ev ++ [nl]).
Proof.
  cbv zeta. split; [vm_compute; reflexivity |].
  apply (log_line_reads_back demo_localtime false (mk_event Warn (lit "Demo | second") 45296000123 (updateTag_ 3) 4711) 3). reflexivity.
Defined.

(** A message logged after [stop] is queued and never written. *)
Theorem late_message_is_lost : exists s, run demo_localtime (construct Info false) demo_moves = Some s /\
  length (accepted s) = 4%nat /\
  forall l s', run demo_localtime s l = Some s' -> out s' = out s.
Proof.
  eexists. split; [vm_compute; reflexivity |]. split; [done |]. intros l s' R.
  match type of R with run _ ?s0 _ = _ => assert (worker_ s0 = Exited) as D by done; revert D R; generalize s0 end.
  induction l as [| m l IH]; cbn; intros s D R; [by simplify_eq |]. apply bind_Some in R as (s1 & E1 & R).
  assert (worker_ s1 = Exited /\ out s1 = out s) as [D1 <-]; [| by apply IH].
  destruct m; cbn in E1; rewrite ?D in E1; try done.
  - simplify_eq. unfold emit. by destruct (fastEnabled _ _).
  - destruct (notifying s); [done |]. simplify_eq. unfold wake; cbn. by rewrite D.
  - unfold processQueue in E1. by rewrite D in E1.
  - unfold stop, wake in E1. cbn in E1. rewrite D in E1. destruct (stopping s); simplify_eq; done.
  - by simplify_eq.
Qed.

End Logger.
