(* ===== verification/Threads.v ===== *)
(** * Threads: what a thread knows about itself, and who owns a loop

    Models [core/ThreadContext.hpp]: the thread-local worker id, the cached
    thread id and the tag used in log lines, with the 16-byte buffer
    [snprintf] writes; and the ownership of an [EventLoop] by the thread that
    bound it ([bindToCurrentThread], [isInOwnerThread],
    [assertInOwnerThread_]).

    A process keeps one record per thread, made when the thread first needs
    it; threads are numbered. *)

From Stdlib Require Import Ascii DecimalString DecimalN.
From stdpp Require Import strings.
From S2P Require Import Prelude Monitoring Logger.
Import Monitoring.

Module Threads.

(* ------------------------------------------------------------------ *)
(** ** Thread-local variables *)

Definition kNonWorker : Z := -1.
Definition NUL : ascii := "000"%char.
Definition tag_size : nat := 16.

Record locals := mk_locals {
  currentWorkerId_ : Z;
  cachedTid_ : option Z;        (** [None] before the first use *)
  tagBuf_ : list ascii
}.

Definition fresh : locals := mk_locals kNonWorker None (replicate tag_size NUL).

(** [gettids]: the threads that made the system call, newest first. *)
Record process := mk_process { tls : gmap nat locals; gettids : list nat }.

Definition new_process : process := mk_process ∅ [].

Definition local (p : process) (t : nat) : locals := default fresh (tls p !! t).
Definition set_local (p : process) (t : nat) (l : locals) : process := mk_process (<[t := l]> (tls p)) (gettids p).

(** [snprintf(buf, buf.size(), ...)] of a text, and the text of a buffer. *)
Definition snprintf (buf : list ascii) (t : text) : list ascii :=
  let t := take (length buf - 1) t in t ++ [NUL] ++ drop (S (length t)) buf.

Fixpoint c_str (buf : list ascii) : text :=
  match buf with
  | [] => []
  | c :: r => if decide (c = NUL) then [] else c :: c_str r
  end.

Definition updateTag_ (l : locals) (wid : Z) : locals :=
  mk_locals (currentWorkerId_ l) (cachedTid_ l) (snprintf (tagBuf_ l) (Logger.updateTag_ wid)).

(** A number below 10^(k+1) has at most [k + 1] digits. *)
Fixpoint digits (d : Decimal.uint) : nat :=
  match d with
  | Decimal.Nil => 0
  | Decimal.D0 d | Decimal.D1 d | Decimal.D2 d | Decimal.D3 d | Decimal.D4 d
  | Decimal.D5 d | Decimal.D6 d | Decimal.D7 d | Decimal.D8 d | Decimal.D9 d => S (digits d)
  end.

Lemma lit_length d : length (lit (DecimalString.NilEmpty.string_of_uint d)) = digits d.
Proof. induction d; cbn; [done | by f_equal ..]. Qed.

Lemma of_uint_acc_ge d a : (Z.pos a * 10 ^ Z.of_nat (digits d) <= Z.pos (Pos.of_uint_acc d a)).
Proof.
  induction d as [| d IH | d IH | d IH | d IH | d IH | d IH | d IH | d IH | d IH | d IH] in a |- *; cbn [digits Pos.of_uint_acc]; [lia | ..];
    rewrite Nat2Z.inj_succ, Z.pow_succ_r by lia; (etrans; [| apply IH]); pose proof (Z.pow_pos_nonneg 10 (Z.of_nat (digits d)) ltac:(lia) ltac:(lia)); nia.
Qed.

Lemma to_string_length k v : 0 <= v < 10 ^ Z.of_nat (S k) -> (length (to_string v) <= S k)%nat.
Proof.
  intros [P B]. unfold to_string. rewrite lit_length. set (d := N.to_uint (Z.to_N v)).
  assert (N.of_uint d = Z.to_N v) as E by apply DecimalN.Unsigned.of_to.
  assert (d = Decimal.unorm d) as U by (rewrite <- DecimalN.Unsigned.to_of, E; done).
  assert (Z.of_N (N.of_uint d) = v) as V by (rewrite E; lia). clearbody d. clear E.
  assert (forall d' a, Z.pos (Pos.of_uint_acc d' a) = v -> (S (digits d') <= S k)%nat) as G.
  { intros d' a F. pose proof (of_uint_acc_ge d' a) as H. rewrite F in H. apply le_n_S, Nat.nlt_ge. intros L.
    assert (10 ^ Z.of_nat (S k) <= 10 ^ Z.of_nat (digits d')) by (apply Z.pow_le_mono_r; lia).
    pose proof (Z.pow_pos_nonneg 10 (Z.of_nat (digits d')) ltac:(lia) ltac:(lia)). nia. }
  destruct d as [| d | d | d | d | d | d | d | d | d | d]; try (apply (G d) in V; exact V); [cbn; lia |].
  assert (d = Decimal.Nil) as ->; [| cbn; lia].
  unfold Decimal.unorm in U. cbn [Decimal.nzhead] in U. destruct (Decimal.nzhead d) eqn:Z; try discriminate U; [by injection U |].
  exfalso. by apply DecimalFacts.nzhead_nonzero in Z.
Qed.

Section Kernel.
(** The thread ids the kernel gives. *)
Variable gettid : nat -> Z.

Definition currentTid (p : process) (t : nat) : Z * process :=
  let l := local p t in
  match cachedTid_ l with
  | Some tid => (tid, p)
  | None =>
      let p := set_local p t (mk_locals (currentWorkerId_ l) (Some (gettid t)) (tagBuf_ l)) in
      (gettid t, mk_process (tls p) (t :: gettids p))
  end.

Definition setCurrentWorkerId (p : process) (t : nat) (workerId : Z) : process :=
  let l := local p t in
  let l := updateTag_ (mk_locals workerId (cachedTid_ l) (tagBuf_ l)) workerId in
  (currentTid (set_local p t l) t).2.

Definition currentWorkerId (p : process) (t : nat) : Z := currentWorkerId_ (local p t).

Definition isWorkerThread (p : process) (t : nat) : bool := 0 <=? currentWorkerId p t.

Definition currentThreadTag (p : process) (t : nat) : text * process :=
  let l := local p t in
  let p := if decide (head (tagBuf_ l) = Some NUL) then set_local p t (updateTag_ l (currentWorkerId_ l)) else p in
  (c_str (tagBuf_ (local p t)), p).

(* ------------------------------------------------------------------ *)
(** ** Any use of them by any threads *)

Inductive use := USet (wid : Z) | UTid | UTag | UWid.
Inductive answer := ANone | ATid (tid : Z) | ATag (t : text) | AWid (wid : Z).

Definition apply_use (p : process) (t : nat) (u : use) : answer * process :=
  match u with
  | USet wid => (ANone, setCurrentWorkerId p t wid)
  | UTid => let '(tid, p) := currentTid p t in (ATid tid, p)
  | UTag => let '(tag, p) := currentThreadTag p t in (ATag tag, p)
  | UWid => (AWid (currentWorkerId p t), p)
  end.

Fixpoint answers (p : process) (l : list (nat * use)) : list answer * process :=
  match l with
  | [] => ([], p)
  | (t, u) :: l =>
      let '(a, p) := apply_use p t u in
      let '(r, p) := answers p l in
      (a :: r, p)
  end.

(** The reference: each thread has a worker id, set by itself only; tag and
    thread id are functions of worker id and thread. *)
Definition spec_answer (ids : gmap nat Z) (t : nat) (u : use) : answer :=
  let wid := default kNonWorker (ids !! t) in
  match u with
  | USet _ => ANone
  | UTid => ATid (gettid t)
  | UTag => ATag (Logger.updateTag_ wid)
  | UWid => AWid wid
  end.

Fixpoint spec_answers (ids : gmap nat Z) (l : list (nat * use)) : list answer :=
  match l with
  | [] => []
  | (t, u) :: l => spec_answer ids t u :: spec_answers (match u with USet wid => <[t := wid]> ids | _ => ids end) l
  end.

(** [static_cast<int>] of a worker id. *)
Definition in_int (u : nat * use) : Prop := match u.2 with USet wid => -2147483648 <= wid <= 2147483647 | _ => True end.

Lemma c_str_app t r : NUL ∉ t -> c_str (t ++ NUL :: r) = t.
Proof.
  induction t as [| c t IH]; cbn; intros N; [done |]. apply not_elem_of_cons in N as [Nc N].
  rewrite decide_False by done. by rewrite IH.
Qed.

Lemma c_str_snprintf (buf : list ascii) (t : text) :
  NUL ∉ t -> (length t < length buf)%nat -> c_str (snprintf buf t) = t /\ length (snprintf buf t) = length buf.
Proof.
  intros N L. unfold snprintf. rewrite take_ge by lia. split; [by apply c_str_app |].
  rewrite !length_app, length_drop. cbn. lia.
Qed.

Lemma tag_nul wid : NUL ∉ Logger.updateTag_ wid.
Proof.
  unfold Logger.updateTag_. destruct (wid <? 0); [by apply (bool_decide_unpack (NUL ∉ lit "main")) |].
  rewrite elem_of_app. intros [E | E]; revert E; [by apply (bool_decide_unpack (NUL ∉ lit "w")) | by apply digits_avoid].
Qed.

(** A tag has at most 11 characters. *)
Lemma tag_fits wid : wid <= 2147483647 -> (length (Logger.updateTag_ wid) <= 11)%nat.
Proof.
  intros W. unfold Logger.updateTag_. destruct (Z.ltb_spec wid 0); [cbn; lia |].
  rewrite length_app. pose proof (to_string_length 9 wid ltac:(lia)). cbn. lia.
Qed.

(** What holds of the locals of a thread whose worker id is [wid]. *)
Record thread_ok (t : nat) (wid : Z) (l : locals) : Prop := {
  ok_wid : currentWorkerId_ l = wid;
  ok_tid : cachedTid_ l = None \/ cachedTid_ l = Some (gettid t);
  ok_size : length (tagBuf_ l) = tag_size;
  ok_tag : tagBuf_ l = replicate tag_size NUL \/ c_str (tagBuf_ l) = Logger.updateTag_ wid
}.

Record process_ok (ids : gmap nat Z) (p : process) : Prop := {
  ok_threads : forall t, thread_ok t (default kNonWorker (ids !! t)) (local p t);
  ok_int : forall t wid, ids !! t = Some wid -> wid <= 2147483647;
  ok_once : NoDup (gettids p);
  ok_cached : forall t, t ∈ gettids p <-> is_Some (cachedTid_ (local p t))
}.

Lemma local_set p t l u : local (set_local p t l) u = if decide (u = t) then l else local p u.
Proof. unfold local, set_local. cbn. case_decide; [subst; by rewrite lookup_insert_eq | by rewrite lookup_insert_ne]. Qed.

Lemma set_id_read p t wid : currentWorkerId (setCurrentWorkerId p t wid) t = wid.
Proof.
  unfold setCurrentWorkerId, currentTid, currentWorkerId. rewrite local_set, decide_True by done.
  destruct (cachedTid_ _) eqn:E.
  - cbn [snd]. by rewrite local_set, decide_True.
  - cbn [snd]. change (local (mk_process (tls ?q) ?g) t) with (local q t). by rewrite local_set, decide_True.
Qed.

Lemma thread_ok_fresh t : thread_ok t kNonWorker fresh.
Proof. split; [done | by left | done | by left]. Qed.

Lemma process_ok_new : process_ok ∅ new_process.
Proof.
  split; [intros t; apply thread_ok_fresh | done | constructor |]. intros t. split; [intros H; by apply elem_of_nil in H |].
  intros [x H]. done.
Qed.

Lemma tag_bound ids p t : process_ok ids p -> default kNonWorker (ids !! t) <= 2147483647.
Proof. intros O. destruct (ids !! t) as [w |] eqn:E; [by apply (ok_int _ _ O t) | done]. Qed.

Lemma updateTag_ok t l : let wid := currentWorkerId_ l in
  wid <= 2147483647 -> cachedTid_ l = None \/ cachedTid_ l = Some (gettid t) -> length (tagBuf_ l) = tag_size ->
  thread_ok t wid (updateTag_ l wid) /\ c_str (tagBuf_ (updateTag_ l wid)) = Logger.updateTag_ wid.
Proof.
  cbn zeta. intros W B C. pose proof (tag_fits _ W).
  destruct (c_str_snprintf (tagBuf_ l) (Logger.updateTag_ (currentWorkerId_ l)) (tag_nul _)) as [R L]; [rewrite C; unfold tag_size; lia |].
  split; [| done]. split; [done | done | etrans; [apply L | done] | by right].
Qed.

(** Replacing the locals of one thread. *)
Lemma set_local_ok ids p t wid l : process_ok ids p -> wid <= 2147483647 -> thread_ok t wid l -> cachedTid_ l = cachedTid_ (local p t) ->
  process_ok (<[t := wid]> ids) (set_local p t l).
Proof.
  intros [T I N C] W K E. split.
  - intros u. rewrite local_set. case_decide; [subst; by rewrite lookup_insert_eq | by rewrite lookup_insert_ne by done].
  - intros u w [[<- <-] | [_ H]]%lookup_insert_Some; [done | by eapply I].
  - done.
  - intros u. rewrite local_set. case_decide; [subst; by rewrite E | done].
Qed.

Lemma set_local_same ids p t l : process_ok ids p -> thread_ok t (default kNonWorker (ids !! t)) l -> cachedTid_ l = cachedTid_ (local p t) ->
  process_ok ids (set_local p t l).
Proof.
  intros [T I N C] K E. split; [| done | done |]; intros u; rewrite local_set; case_decide; subst; try done. by rewrite E.
Qed.

Lemma currentTid_ok ids p t : process_ok ids p -> (currentTid p t).1 = gettid t /\ process_ok ids (currentTid p t).2.
Proof.
  intros O. pose proof O as [T I N C]. unfold currentTid. destruct (cachedTid_ (local p t)) as [x |] eqn:E.
  - destruct (T t) as [_ [F | F] _ _]; rewrite E in F; [done | injection F as ->]. done.
  - split; [done |]. destruct (T t) as [A _ B D].
    assert (forall u, local (mk_process (<[t := mk_locals (currentWorkerId_ (local p t)) (Some (gettid t)) (tagBuf_ (local p t))]> (tls p)) (t :: gettids p)) u =
      if decide (u = t) then mk_locals (currentWorkerId_ (local p t)) (Some (gettid t)) (tagBuf_ (local p t)) else local p u) as L by apply (local_set p t).
    split; [| done | |].
    + intros u. cbn. rewrite L. case_decide; [subst | done]. split; [done | by right | done | done].
    + cbn. constructor; [rewrite C, E; by intros [? ?] | done].
    + intros u. cbn. rewrite L, elem_of_cons. case_decide; [subst; split; [done | by left] |]. rewrite C. split; [intros [? | ?]; done | by right].
Qed.

(** One use answers as the reference says. *)
Lemma apply_use_ok ids p t u : process_ok ids p -> in_int (t, u) ->
  (apply_use p t u).1 = spec_answer ids t u /\
  process_ok (match u with USet wid => <[t := wid]> ids | _ => ids end) (apply_use p t u).2.
Proof.
  intros O B. destruct u as [wid | | |]; cbn.
  - split; [done |]. unfold setCurrentWorkerId. apply currentTid_ok. destruct (ok_threads _ _ O t) as [A C D E]. cbn in B.
    apply set_local_ok; [done | lia | | done].
    by apply (updateTag_ok t (mk_locals wid (cachedTid_ (local p t)) (tagBuf_ (local p t)))); [cbn; lia | ..].
  - pose proof (currentTid_ok ids p t O) as [F O']. destruct (currentTid p t). cbn in *. by rewrite F.
  - unfold currentThreadTag. pose proof (ok_threads _ _ O t) as K. pose proof (tag_bound _ _ t O) as W.
    pose proof (ok_wid _ _ _ K) as Ew. rewrite <- Ew in W.
    destruct (updateTag_ok t _ W (ok_tid _ _ _ K) (ok_size _ _ _ K)) as [K' R].
    case_decide as H; cbn.
    + rewrite local_set, decide_True by done. split; [f_equal; rewrite R; by rewrite Ew |].
      apply set_local_same; [done | by rewrite <- Ew | done].
    + split; [| done]. f_equal. destruct K as [_ _ _ [E | E]]; [by rewrite E in H | done].
  - split; [| done]. f_equal. apply (ok_threads _ _ O t).
Qed.

Lemma answers_ok l ids p : process_ok ids p -> Forall in_int l ->
  (answers p l).1 = spec_answers ids l /\ exists ids', process_ok ids' (answers p l).2.
Proof.
  intros O B. induction B as [| [t u] l U B IH] in ids, p, O |- *; cbn; [by eauto |].
  destruct (apply_use_ok ids p t u O U) as [A O']. destruct (apply_use p t u) as [a p']. cbn in *.
  destruct (IH _ _ O') as [R E]. destruct (answers p' l) as [r p'']. cbn in *. by rewrite A, R.
Qed.

(** What a thread is told about itself depends on that thread alone:
    through any sequence of calls by any threads, the worker id is the one the
    thread last set ([kNonWorker] before), the tag is main or w and that
    number in full (the 16 bytes are always enough, and a tag never shows what
    a longer one left behind), the thread id is the kernel's, and the kernel is
    asked at most once per thread. *)
Theorem thread_locals_isolated (l : list (nat * use)) :
  Forall in_int l ->
  (answers new_process l).1 = spec_answers ∅ l /\ NoDup (gettids (answers new_process l).2).
Proof. intros B. destruct (answers_ok l ∅ new_process process_ok_new B) as [A [ids O]]. split; [done | by apply (ok_once ids)]. Qed.

End Kernel.

(** Thread 1 is worker 12 and then worker 3, thread 2 never says. *)
Definition demo_uses : list (nat * use) :=
  [(1%nat, UTag); (1%nat, USet 12); (2%nat, UTag); (1%nat, UTag); (1%nat, USet 3); (1%nat, UTag); (2%nat, UTid); (2%nat, UTid); (2%nat, UWid)].

Lemma thread_locals_isolated_witness :
  spec_answers (fun t => Z.of_nat t + 4700) ∅ demo_uses =
    [ATag (lit "main"); ANone; ATag (lit "main"); ATag (lit "w12"); ANone; ATag (lit "w3"); ATid 4702; ATid 4702; AWid (-1)] /\
  (answers (fun t => Z.of_nat t + 4700) new_process demo_uses).1 = spec_answers (fun t => Z.of_nat t + 4700) ∅ demo_uses /\
  NoDup (gettids (answers (fun t => Z.of_nat t + 4700) new_process demo_uses).2).
Proof.
  split; [vm_compute; reflexivity |].
  apply (thread_locals_isolated (fun t => Z.of_nat t + 4700) demo_uses). repeat constructor; cbn; lia.
Defined.

End Threads.
