(* ===== verification/AppCallbacks.v ===== *)
(** * AppCallbacks: running a callback on the callback worker, and waiting for it

    Models [core/AppCallbacks.hpp]: [AppCallbackInvoker::post] and
    [postAndWait], with the loop they post to ([bindToCurrentThread],
    [isInOwnerThread], and [drainTasks] with its handling of exceptions) and
    the promise by which [postAndWait] learns how the callback ended.

    The worker's thread and any number of calling threads take turns in any
    order.  A callback is any program of further [post] and [postAndWait]
    calls that ends by returning or by throwing; an exception of a nested
    [postAndWait] leaves the callback that made the call.  Each accepted call
    gets a number, by which [begun] and [finished] record what happened.  The
    queue is the atomic FIFO of [TaskQueue]; that a posted task wakes the loop
    is shown in [EventLoop]. *)

From stdpp Require Import sorting.
From S2P Require Import Prelude Threads.

Module AppCallbacks.

(* ------------------------------------------------------------------ *)
(** ** Callbacks and calls *)

Inductive callback :=
| Callback (name : Z) (calls : list call) (throws : bool)
with call :=
| Post (cb : option callback)
| PostAndWait (cb : option callback).

(** [app_] and [loop_]: the pointers are not null. *)
Record AppCallbackInvoker := mk_invoker { app_ : bool; loop_ : bool; callbackWorkerId_ : Z }.

(** A posted closure: with or without a promise. *)
Record task := mk_task { t_id : nat; t_cb : callback; t_promise : bool }.

Inductive kind := Inline | Posted (promise : bool).

(** A callback being run: what is left of it. *)
Record frame := mk_frame { f_id : nat; f_calls : list call; f_throws : bool; f_kind : kind }.

Inductive result := Ignored | Queued | RFalse | RTrue | Threw.

#[export] Instance result_eq_dec : EqDecision result.
Proof. solve_decision. Defined.

(** A calling thread: the calls it has yet to make, the promise it waits for
    and the results it got. *)
Record caller := mk_caller { c_todo : list call; c_wait : option nat; c_results : list result }.

Record event := mk_event { e_id : nat; e_thread : nat; e_wid : Z; e_kind : kind }.

(* ------------------------------------------------------------------ *)
(** ** The loop and its owner *)

Record EventLoop := mk_loop { ownerThread_ : option nat; wakeupRegistered_ : bool; taskQueue_ : list task }.

Definition new_loop : EventLoop := mk_loop None false [].

(** [addOk]: epoll accepts the eventfd.  [None] is [std::abort]. *)
Definition bindToCurrentThread (l : EventLoop) (t : nat) (addOk : bool) : option EventLoop :=
  match ownerThread_ l with
  | Some o =>
      if decide (t = o) then
        if wakeupRegistered_ l then Some l else if addOk then Some (mk_loop (Some o) true (taskQueue_ l)) else None
      else None
  | None => if addOk then Some (mk_loop (Some t) true (taskQueue_ l)) else None
  end.

Definition isInOwnerThread (l : EventLoop) (t : nat) : bool :=
  match ownerThread_ l with None => false | Some o => bool_decide (t = o) end.

Definition push (l : EventLoop) (x : task) : EventLoop := mk_loop (ownerThread_ l) (wakeupRegistered_ l) (taskQueue_ l ++ [x]).

(* ------------------------------------------------------------------ *)
(** ** The machine *)

(** [stack]: the callbacks running on the worker's thread, innermost first.
    [blocked]: the promise that thread waits for, if it does. [swallowed]: the
    exceptions [drainTasks] caught. *)
Record state := mk_state {
  loop : EventLoop;
  process : Threads.process;
  stack : list frame;
  blocked : option nat;
  promises : gmap nat bool;     (** set: [false] a value, [true] an exception *)
  callers : list caller;
  next : nat;
  begun : list event;           (** oldest first *)
  finished : list nat;
  swallowed : list nat;
  aborted : bool
}.

(** The worker's thread is number 0, calling thread [i] is number [i + 1]. *)
Definition worker_thread : nat := 0.

Section Machine.
Variable inv : AppCallbackInvoker.
(** The id of the worker whose loop [loop_] is. *)
Variable worker_id : Z.
Variable gettid : nat -> Z.

Definition set_loop (s : state) (l : EventLoop) : state :=
  mk_state l (process s) (stack s) (blocked s) (promises s) (callers s) (next s) (begun s) (finished s) (swallowed s) (aborted s).
Definition set_stack (s : state) (x : list frame) : state :=
  mk_state (loop s) (process s) x (blocked s) (promises s) (callers s) (next s) (begun s) (finished s) (swallowed s) (aborted s).
Definition set_blocked (s : state) (x : option nat) : state :=
  mk_state (loop s) (process s) (stack s) x (promises s) (callers s) (next s) (begun s) (finished s) (swallowed s) (aborted s).
Definition set_caller (s : state) (i : nat) (c : caller) : state :=
  mk_state (loop s) (process s) (stack s) (blocked s) (promises s) (<[i := c]> (callers s)) (next s) (begun s) (finished s) (swallowed s) (aborted s).
Definition set_promise (s : state) (n : nat) (threw : bool) : state :=
  mk_state (loop s) (process s) (stack s) (blocked s) (<[n := threw]> (promises s)) (callers s) (next s) (begun s) (finished s) (swallowed s) (aborted s).
Definition set_aborted (s : state) : state :=
  mk_state (loop s) (process s) (stack s) (blocked s) (promises s) (callers s) (next s) (begun s) (finished s) (swallowed s) true.
Definition take_number (s : state) : state :=
  mk_state (loop s) (process s) (stack s) (blocked s) (promises s) (callers s) (S (next s)) (begun s) (finished s) (swallowed s) (aborted s).
Definition log_begin (s : state) (e : event) : state :=
  mk_state (loop s) (process s) (stack s) (blocked s) (promises s) (callers s) (next s) (begun s ++ [e]) (finished s) (swallowed s) (aborted s).
Definition log_end (s : state) (n : nat) : state :=
  mk_state (loop s) (process s) (stack s) (blocked s) (promises s) (callers s) (next s) (begun s) (finished s ++ [n]) (swallowed s) (aborted s).
Definition swallow (s : state) (n : nat) : state :=
  mk_state (loop s) (process s) (stack s) (blocked s) (promises s) (callers s) (next s) (begun s) (finished s) (swallowed s ++ [n]) (aborted s).

(** [if (!loop_ || !app_ || !cb)]. *)
Definition valid (cb : option callback) : option callback := if loop_ inv && app_ inv then cb else None.

(** Enqueueing the closure of call [next]. *)
Definition enqueue (s : state) (cb : callback) (promise : bool) : state :=
  take_number (set_loop s (push (loop s) (mk_task (next s) cb promise))).

Definition post (s : state) (cb : option callback) : result * state :=
  match valid cb with
  | None => (Ignored, s)
  | Some cb => (Queued, enqueue s cb false)
  end.

(** The start of a callback on thread [t], with the check of the worker id. *)
Definition begin (s : state) (t n : nat) (cb : callback) (k : kind) : state :=
  let wid := Threads.currentWorkerId (process s) t in
  if negb (wid =? i32_of_u32 (callbackWorkerId_ inv)) then set_aborted s
  else
    let '(Callback _ calls throws) := cb in
    set_stack (log_begin s (mk_event n t wid k)) (mk_frame n calls throws k :: stack s).

(** What [postAndWait] does before it blocks or runs the callback. *)
Inductive outcome := Refused | Started | Waiting (n : nat).

Definition postAndWait (s : state) (t : nat) (cb : option callback) : outcome * state :=
  match valid cb with
  | None => (Refused, s)
  | Some cb =>
      if isInOwnerThread (loop s) t then (Started, begin (take_number s) t (next s) cb Inline)
      else (Waiting (next s), enqueue s cb true)
  end.

(** The end of the innermost callback: by returning, or by an exception that
    leaves the enclosing callback too, goes into the promise, or is caught in
    [drainTasks]. *)
Definition finish (s : state) (f : frame) (rest : list frame) : state :=
  let s := log_end (set_stack s rest) (f_id f) in
  match f_kind f with
  | Inline =>
      match f_throws f, rest with
      | true, g :: rest => set_stack s (mk_frame (f_id g) [] true (f_kind g) :: rest)
      | _, _ => s
      end
  | Posted true => set_promise s (f_id f) (f_throws f)
  | Posted false => if f_throws f then swallow s (f_id f) else s
  end.

(** The worker's thread: it sets its id and binds the loop, then drains the
    queue and runs callbacks. *)
Definition worker_step (s : state) : option state :=
  match ownerThread_ (loop s) with
  | None =>
      let p := Threads.setCurrentWorkerId gettid (process s) worker_thread worker_id in
      l ← bindToCurrentThread (loop s) worker_thread true;
      Some (mk_state l p (stack s) (blocked s) (promises s) (callers s) (next s) (begun s) (finished s) (swallowed s) (aborted s))
  | Some _ =>
      match blocked s with
      | Some n => match promises s !! n with None => None | Some _ => Some (set_blocked s None) end
      | None =>
          match stack s with
          | [] =>
              match taskQueue_ (loop s) with
              | [] => None
              | x :: q =>
                  let s := set_loop s (mk_loop (ownerThread_ (loop s)) (wakeupRegistered_ (loop s)) q) in
                  Some (begin s worker_thread (t_id x) (t_cb x) (Posted (t_promise x)))
              end
          | f :: rest =>
              match f_calls f with
              | [] => Some (finish s f rest)
              | Post cb :: cs =>
                  let s := set_stack s (mk_frame (f_id f) cs (f_throws f) (f_kind f) :: rest) in
                  Some (post s cb).2
              | PostAndWait cb :: cs =>
                  let s := set_stack s (mk_frame (f_id f) cs (f_throws f) (f_kind f) :: rest) in
                  match postAndWait s worker_thread cb with
                  | (Waiting n, s) => Some (set_blocked s (Some n))
                  | (_, s) => Some s
                  end
              end
          end
      end
  end.

(** Calling thread [i]; [fut.get()] returns or throws once the promise is set. *)
Definition caller_step (s : state) (i : nat) : option state :=
  c ← callers s !! i;
  match c_wait c with
  | Some n =>
      threw ← promises s !! n;
      Some (set_caller s i (mk_caller (c_todo c) None (c_results c ++ [if threw : bool then Threw else RTrue])))
  | None =>
      match c_todo c with
      | [] => None
      | Post cb :: todo =>
          let '(r, s) := post s cb in
          Some (set_caller s i (mk_caller todo None (c_results c ++ [r])))
      | PostAndWait cb :: todo =>
          match postAndWait s (S i) cb with
          | (Refused, s) => Some (set_caller s i (mk_caller todo None (c_results c ++ [RFalse])))
          | (Started, s) => Some (set_caller s i (mk_caller todo None (c_results c ++ [RTrue])))
          | (Waiting n, s) => Some (set_caller s i (mk_caller todo (Some n) (c_results c)))
          end
      end
  end.

(** [None]: the worker's turn, [Some i]: that of calling thread [i]. *)
Definition step (s : state) (m : option nat) : option state :=
  if aborted s then None else match m with None => worker_step s | Some i => caller_step s i end.

Fixpoint run (s : state) (l : list (option nat)) : option state :=
  match l with [] => Some s | m :: l => s ← step s m; run s l end.

(** Calling threads with their programs. *)
Definition start (programs : list (list call)) : state :=
  mk_state new_loop Threads.new_process [] None ∅ ((fun l => mk_caller l None []) <$> programs) 0 [] [] [] false.

End Machine.

(* ------------------------------------------------------------------ *)
(** ** What is expected *)

(** Does running the callback on the worker end with an exception? *)
Fixpoint throws (c : callback) : bool :=
  match c with Callback _ calls t => existsb call_throws calls || t end
with call_throws (k : call) : bool :=
  match k with
  | Post _ => false
  | PostAndWait o => match o with None => false | Some c => throws c end
  end.

Definition expected (k : call) : result :=
  match k with
  | Post None => Ignored
  | Post (Some _) => Queued
  | PostAndWait None => RFalse
  | PostAndWait (Some c) => if throws c then Threw else RTrue
  end.

(** A bound on the steps a callback or call leads to. *)
Fixpoint cb_size (c : callback) : nat :=
  match c with Callback _ calls _ => S (list_sum (map call_size calls)) end
with call_size (k : call) : nat :=
  match k with
  | Post o => 2 + match o with None => 0 | Some c => cb_size c end
  | PostAndWait o => 3 + match o with None => 0 | Some c => cb_size c end
  end.

Definition calls_size (l : list call) : nat := list_sum (map call_size l).

(* ------------------------------------------------------------------ *)
(** ** Invariant *)

Definition frame_throws (f : frame) : bool := existsb call_throws (f_calls f) || f_throws f.

Definition is_posted (k : kind) : bool := match k with Posted _ => true | Inline => false end.

Definition begun_ids (s : state) : list nat := e_id <$> begun s.
Definition posted_ids (s : state) : list nat := e_id <$> filter (fun e => is_posted (e_kind e) = true) (begun s).
Definition queued_ids (s : state) : list nat := t_id <$> taskQueue_ (loop s).
Definition running_ids (s : state) : list nat := f_id <$> stack s.

(** The callback [cb] of call [n], whose end a thread waits for: it is queued,
    it is being run, or its end is known. *)
Inductive pending (s : state) (n : nat) (cb : callback) : Prop :=
| pending_queued : mk_task n cb true ∈ taskQueue_ (loop s) -> pending s n cb
| pending_running fs f : stack s = fs ++ [f] -> f_id f = n -> f_kind f = Posted true ->
    existsb frame_throws (stack s) = throws cb -> pending s n cb
| pending_known : promises s !! n = Some (throws cb) -> pending s n cb.

Definition caller_ok (s : state) (program : list call) (c : caller) : Prop :=
  exists done, c_results c = expected <$> done /\
    match c_wait c with
    | None => program = done ++ c_todo c
    | Some n => exists cb, program = done ++ PostAndWait (Some cb) :: c_todo c /\ pending s n cb
    end.

(** Nothing has run before the loop is bound; only the outermost callback was
    posted. *)
Definition stack_ok (l : list frame) : Prop :=
  l = [] \/ exists fs f b, l = fs ++ [f] /\ f_kind f = Posted b /\ Forall (fun f => f_kind f = Inline) fs.

Section Proofs.
Variable inv : AppCallbackInvoker.
Variable worker_id : Z.
Variable gettid : nat -> Z.
Hypothesis has_loop : loop_ inv = true.
Hypothesis has_app : app_ inv = true.
Hypothesis same_id : worker_id = i32_of_u32 (callbackWorkerId_ inv).

Record ok (programs : list (list call)) (s : state) : Prop := {
  ok_running : aborted s = false;
  ok_free : blocked s = None;
  ok_owner : ownerThread_ (loop s) = None /\ stack s = [] /\ begun s = [] \/
    ownerThread_ (loop s) = Some worker_thread /\ Threads.currentWorkerId (process s) worker_thread = worker_id;
  ok_stack : stack_ok (stack s);
  ok_numbers : begun_ids s ++ queued_ids s ≡ₚ seq 0 (next s);
  ok_ends : begun_ids s ≡ₚ finished s ++ running_ids s;
  ok_promises : forall n, is_Some (promises s !! n) -> n ∈ finished s;
  ok_order : StronglySorted lt (posted_ids s ++ queued_ids s);
  ok_place : Forall (fun e => e_thread e = worker_thread /\ e_wid e = worker_id) (begun s);
  ok_callers : Forall2 (caller_ok s) programs (callers s)
}.

Lemma valid_id cb : valid inv cb = cb.
Proof. unfold valid. by rewrite has_loop, has_app. Qed.

Lemma start_ok programs : ok programs (start programs).
Proof.
  split; try done; [by left | by left | by intros n [? ?] | constructor |].
  change (Forall2 (caller_ok (start programs)) programs ((fun l => mk_caller l None []) <$> programs)). generalize (start programs).
  intros s. induction programs as [| l r IH]; constructor; [| done]. by exists [].
Qed.

(** *** How the parts of the invariant move *)

Lemma callers_mono programs s s' l :
  (forall n cb, pending s n cb -> pending s' n cb) -> Forall2 (caller_ok s) programs l -> Forall2 (caller_ok s') programs l.
Proof.
  intros P F. eapply Forall2_impl; [exact F |]. intros p c (d & R & W). exists d. split; [done |].
  destruct (c_wait c); [| done]. destruct W as (cb & E & Q). eauto.
Qed.

Lemma callers_insert programs s l i p c :
  Forall2 (caller_ok s) programs l -> programs !! i = Some p -> caller_ok s p c -> Forall2 (caller_ok s) programs (<[i := c]> l).
Proof.
  intros F P C. rewrite <- (list_insert_id programs i p P). by apply Forall2_insert.
Qed.

Lemma ids_bound programs s n : ok programs s -> n ∈ begun_ids s ++ queued_ids s -> (n < next s)%nat.
Proof. intros O H. rewrite (ok_numbers _ _ O) in H. apply elem_of_seq in H. lia. Qed.

Lemma snoc_seq l n : l ≡ₚ seq 0 n -> l ++ [n] ≡ₚ seq 0 (S n).
Proof. intros ->. by rewrite seq_S. Qed.

Lemma sorted_snoc (l : list nat) n : StronglySorted lt l -> (forall x, x ∈ l -> (x < n)%nat) -> StronglySorted lt (l ++ [n]).
Proof.
  intros S B. apply StronglySorted_app. split; [| split; [done | by repeat constructor]].
  intros x y X ->%list_elem_of_singleton. by apply B.
Qed.

(** Enqueueing a closure. *)
Lemma enqueue_pending s cb b n c : pending s n c -> pending (enqueue s cb b) n c.
Proof.
  intros [H | fs f E I K T | H]; [apply pending_queued | by apply (pending_running _ _ _ fs f) | by apply pending_known].
  cbn. apply elem_of_app. by left.
Qed.

Lemma enqueue_ok programs s cb b : ok programs s -> ok programs (enqueue s cb b).
Proof.
  intros O. pose proof (fun n => ids_bound _ _ n O) as B. destruct O as [A F W S N E P Or Pl C].
  split; try done.
  - unfold queued_ids. cbn. rewrite fmap_app, app_assoc. by apply snoc_seq.
  - unfold queued_ids. cbn. rewrite fmap_app, app_assoc. apply sorted_snoc; [done |].
    intros x X. apply B. revert X. rewrite !elem_of_app. intros [X | X]; [left | by right].
    unfold posted_ids in X. apply list_elem_of_fmap in X as (e & -> & [_ X]%list_elem_of_filter). by apply list_elem_of_fmap_2.
  - eapply callers_mono; [| done]. intros. by apply enqueue_pending.
Qed.

(** The frame [f] on top makes progress without changing how the stack ends. *)
Lemma top_pending s f f' rest n c : stack s = f :: rest ->
  f_id f' = f_id f -> f_kind f' = f_kind f -> frame_throws f' = frame_throws f ->
  pending s n c -> pending (set_stack s (f' :: rest)) n c.
Proof.
  intros S I K T [H | fs g E J L X | H]; [by apply pending_queued | | by apply pending_known].
  rewrite S in E, X. destruct fs as [| h fs]; cbn in E.
  - injection E as <- ->. apply (pending_running _ _ _ [] f'); cbn; [done | congruence | congruence |].
    cbn in X. by rewrite T.
  - injection E as <- ->. apply (pending_running _ _ _ (f' :: fs) g); cbn; [done | done | done |]. cbn in X. by rewrite T.
Qed.

Lemma stack_ok_top f f' rest : f_kind f' = f_kind f -> stack_ok (f :: rest) -> stack_ok (f' :: rest).
Proof.
  intros K [? | (fs & g & b & E & P & I)]; [done | right]. destruct fs as [| h fs]; cbn in E.
  - injection E as <- ->. exists [], f', b. split; [done |]. split; [congruence | done].
  - injection E as <- ->. apply Forall_cons in I as [I1 I]. exists (f' :: fs), g, b. split; [done |]. split; [done |].
    constructor; [congruence | done].
Qed.

Lemma top_ok programs s f f' rest : stack s = f :: rest ->
  f_id f' = f_id f -> f_kind f' = f_kind f -> frame_throws f' = frame_throws f ->
  ok programs s -> ok programs (set_stack s (f' :: rest)).
Proof.
  intros S I K T [A F W St N E P Or Pl C]. split; try done.
  - destruct W as [(? & W & _) | ?]; [by rewrite S in W | by right].
  - cbn. rewrite S in St. by eapply stack_ok_top.
  - unfold running_ids in *. cbn. rewrite S in E. cbn in E. by rewrite I.
  - eapply callers_mono; [| done]. intros. by eapply top_pending.
Qed.

(** A callback begins. *)
Lemma begin_runs s n name calls t k : Threads.currentWorkerId (process s) worker_thread = worker_id ->
  begin inv s worker_thread n (Callback name calls t) k =
  set_stack (log_begin s (mk_event n worker_thread worker_id k)) (mk_frame n calls t k :: stack s).
Proof. intros W. unfold begin. rewrite W, same_id, Z.eqb_refl. done. Qed.

Lemma inline_ok programs s f rest cs cb : ok programs s -> stack s = f :: rest -> f_calls f = PostAndWait (Some cb) :: cs ->
  ok programs (begin inv (take_number (set_stack s (mk_frame (f_id f) cs (f_throws f) (f_kind f) :: rest))) worker_thread (next s) cb Inline).
Proof.
  intros [A F W St N E P Or Pl C] S Fc. destruct W as [(_ & W & _) | [Ow W]]; [by rewrite S in W |].
  destruct cb as [name calls t]. rewrite begin_runs by done. set (f' := mk_frame (f_id f) cs (f_throws f) (f_kind f)).
  split; try done.
  - by right.
  - cbn. rewrite S in St. apply (stack_ok_top f f' rest) in St; [| done].
    destruct St as [? | (fs & g & b & -> & K & I)]; [done | right]. exists (mk_frame (next s) calls t Inline :: fs), g, b. by repeat constructor.
  - unfold begun_ids in *. cbn. rewrite fmap_app. cbn. rewrite <- app_assoc, (Permutation_app_comm [_]), app_assoc. by apply snoc_seq.
  - unfold begun_ids, running_ids in *. cbn. rewrite fmap_app. cbn. rewrite E, S. cbn. rewrite <- !app_assoc. apply Permutation_app_head.
    by rewrite Permutation_app_comm.
  - unfold posted_ids. cbn. by rewrite filter_app, filter_cons_False, filter_nil, app_nil_r.
  - cbn. apply Forall_app. split; [done | by repeat constructor].
  - eapply callers_mono; [| done]. intros n c [H | fs g Es J L X | H]; [by apply pending_queued | | by apply pending_known].
    apply (pending_running _ _ _ (mk_frame (next s) calls t Inline :: match fs with [] => [] | _ :: r => f' :: r end) (match fs with [] => f' | _ => g end));
      destruct fs as [| h fs]; rewrite S in Es; cbn in Es; injection Es as <- ->; try done; rewrite <- X, S; cbn; unfold frame_throws; cbn; rewrite Fc; cbn;
      by rewrite !orb_assoc.
Qed.

Lemma pop_ok programs s x q : ok programs s -> stack s = [] -> ownerThread_ (loop s) = Some worker_thread -> taskQueue_ (loop s) = x :: q ->
  ok programs (begin inv (set_loop s (mk_loop (ownerThread_ (loop s)) (wakeupRegistered_ (loop s)) q)) worker_thread (t_id x) (t_cb x) (Posted (t_promise x))).
Proof.
  intros [A F W St N E P Or Pl C] S Ow Q. destruct W as [(W & _) | [_ W]]; [by rewrite Ow in W |].
  destruct x as [n [name calls t] b]. cbn [t_id t_cb t_promise]. rewrite begin_runs by done.
  unfold begun_ids, queued_ids, posted_ids, running_ids in *. rewrite Q, S in *.
  split; try done.
  - by right.
  - cbn. rewrite S. right. by exists [], (mk_frame n calls t (Posted b)), b.
  - unfold begun_ids, queued_ids. cbn. rewrite fmap_app. cbn in *. by rewrite <- app_assoc.
  - unfold begun_ids, running_ids. cbn. rewrite fmap_app, S. cbn in *. rewrite E, app_nil_r. done.
  - unfold posted_ids, queued_ids. cbn. rewrite filter_app, filter_cons_True, filter_nil, fmap_app by done. cbn in *. by rewrite <- app_assoc.
  - cbn. apply Forall_app. split; [done | by repeat constructor].
  - eapply callers_mono; [| done]. intros m c [H | fs g Es J L X | H]; [| by rewrite S in Es; destruct fs | by apply pending_known].
    rewrite Q in H. apply elem_of_cons in H as [[= -> -> <-] | H]; [| by apply pending_queued].
    apply (pending_running _ _ _ [] (mk_frame n calls t (Posted true))); cbn; rewrite ?S; try done. cbn. by rewrite orb_false_r.
Qed.

(** A callback ends. *)
Lemma begun_nodup programs s : ok programs s -> NoDup (begun_ids s).
Proof.
  intros O. assert (NoDup (begun_ids s ++ queued_ids s)) as H by (rewrite (ok_numbers _ _ O); apply NoDup_seq).
  by apply NoDup_app in H as [H _].
Qed.

Lemma running_unknown programs s f : ok programs s -> f ∈ stack s -> promises s !! f_id f = None.
Proof.
  intros O H. destruct (promises s !! f_id f) eqn:E; [exfalso | done].
  pose proof (ok_promises _ _ O (f_id f) ltac:(by rewrite E)) as D. pose proof (begun_nodup _ _ O) as N.
  rewrite (ok_ends _ _ O) in N. apply NoDup_app in N as (_ & N & _). apply (N _ D). by apply list_elem_of_fmap_2.
Qed.

Lemma stack_ok_inv f rest : stack_ok (f :: rest) ->
  (f_kind f = Inline /\ rest <> [] /\ stack_ok rest) \/ (exists b, f_kind f = Posted b /\ rest = []).
Proof.
  intros [? | (fs & g & b & E & K & I)]; [done |]. destruct fs as [| h fs]; cbn in E; injection E as <- ->; [by eauto | left].
  apply Forall_cons in I as [I1 I]. split; [done |]. split; [by destruct fs |]. right. by exists fs, g, b.
Qed.

(** What ending the innermost callback keeps, whatever follows. *)
Lemma ended_ok programs s f rest s' : ok programs s -> stack s = f :: rest ->
  loop s' = loop s -> process s' = process s -> blocked s' = blocked s -> callers s' = callers s -> next s' = next s -> begun s' = begun s ->
  finished s' = finished s ++ [f_id f] -> aborted s' = aborted s ->
  stack_ok (stack s') -> f_id <$> stack s' = f_id <$> rest -> (forall n, is_Some (promises s' !! n) -> n = f_id f \/ is_Some (promises s !! n)) ->
  (forall n c, pending s n c -> pending s' n c) -> ok programs s'.
Proof.
  intros [A F W St N E P Or Pl C] S El Ep Eb Ec En Eg Ef Ea K R Pr Pe. destruct W as [(_ & W & _) | W]; [by rewrite S in W |].
  unfold begun_ids, queued_ids, posted_ids, running_ids in *.
  split; unfold begun_ids, queued_ids, posted_ids, running_ids; rewrite ?El, ?Ep, ?Eb, ?Ec, ?En, ?Eg, ?Ef, ?Ea; try done.
  - by right.
  - rewrite R, E, S, <- app_assoc. done.
  - intros n [-> | H]%Pr; apply elem_of_app; [right; by apply list_elem_of_singleton | left; by apply P].
  - eapply callers_mono; [| done]. done.
Qed.

Lemma finish_ok programs s f rest : ok programs s -> stack s = f :: rest -> f_calls f = [] -> ok programs (finish s f rest).
Proof.
  intros O S Fc. pose proof (ok_stack _ _ O) as St. rewrite S in St.
  assert (frame_throws f = f_throws f) as T by (unfold frame_throws; by rewrite Fc).
  pose proof (running_unknown _ _ f O ltac:(rewrite S; apply list_elem_of_here)) as U. unfold finish.
  destruct (stack_ok_inv _ _ St) as [(K & Ne & St') | (b & K & ->)]; rewrite K.
  - destruct rest as [| g rest]; [done |]. destruct (f_throws f) eqn:Th.
    + apply (ended_ok programs s f (g :: rest)); try done; cbn.
      * by apply (stack_ok_top g).
      * intros n H. by right.
      * intros n c [H | fs h Es J L X | H]; [by apply pending_queued | | by apply pending_known].
        rewrite S in Es, X. destruct fs as [| f0 fs]; cbn in Es; injection Es as <- Es; [congruence |].
        destruct fs as [| g0 fs]; cbn in Es; injection Es as -> ->.
        -- apply (pending_running _ _ _ [] (mk_frame (f_id h) [] true (f_kind h))); [done .. |]. rewrite <- X. cbn. by rewrite T.
        -- apply (pending_running _ _ _ (mk_frame (f_id g0) [] true (f_kind g0) :: fs) h); [done .. |]. rewrite <- X. cbn. by rewrite T.
    + apply (ended_ok programs s f (g :: rest)); try done; cbn.
      * intros n H. by right.
      * intros n c [H | fs h Es J L X | H]; [by apply pending_queued | | by apply pending_known].
        rewrite S in Es, X. destruct fs as [| f0 fs]; cbn in Es; injection Es as <- Es; [congruence |].
        apply (pending_running _ _ _ fs h); try done. rewrite <- X. cbn. by rewrite T.
  - destruct b.
    + apply (ended_ok programs s f []); try done; cbn.
      * by left.
      * intros n. destruct (decide (n = f_id f)) as [-> | D]; [by left | rewrite lookup_insert_ne by done; by right].
      * intros n c [H | fs h Es J L X | H]; [by apply pending_queued | |]; apply pending_known; cbn.
        -- rewrite S in Es, X. destruct fs as [| f0 [| ]]; cbn in Es; [injection Es as <- | done | done].
           rewrite J, lookup_insert_eq, <- X. cbn. by rewrite T, orb_false_r.
        -- rewrite lookup_insert_ne; [done |]. intros <-. by rewrite U in H.
    + assert (forall s', stack s' = [] -> loop s' = loop s -> promises s' = promises s -> forall n c, pending s n c -> pending s' n c) as Pe.
      { intros s' _ El Ep n c [H | fs h Es J L X | H]; [by apply pending_queued; rewrite El | | by apply pending_known; rewrite Ep].
        rewrite S in Es. destruct fs as [| f0 [| ]]; cbn in Es; [injection Es as <- | done | done]. congruence. }
      destruct (f_throws f); apply (ended_ok programs s f []); try done; cbn; try (by left); try (intros n H; by right); by apply Pe.
Qed.

(** *** Steps *)

Lemma in_owner programs s : ok programs s -> stack s <> [] -> isInOwnerThread (loop s) worker_thread = true.
Proof. intros O N. destruct (ok_owner _ _ O) as [(_ & W & _) | [W _]]; [done |]. unfold isInOwnerThread. by rewrite W. Qed.

Lemma not_in_owner programs s i : ok programs s -> isInOwnerThread (loop s) (S i) = false.
Proof. intros O. unfold isInOwnerThread. by destruct (ok_owner _ _ O) as [(-> & _) | [-> _]]. Qed.

(** A promise that is set holds how the callback ended. *)
Lemma pending_value programs s n cb b : ok programs s -> pending s n cb -> promises s !! n = Some b -> b = throws cb.
Proof.
  intros O [H | fs f E I K T | H] P; [exfalso | exfalso | congruence].
  - pose proof (ok_promises _ _ O n ltac:(by rewrite P)) as D.
    assert (NoDup (begun_ids s ++ queued_ids s)) as N by (rewrite (ok_numbers _ _ O); apply NoDup_seq).
    apply NoDup_app in N as (_ & N & _). apply (N n).
    + rewrite (ok_ends _ _ O). apply elem_of_app. by left.
    + by apply (list_elem_of_fmap_2 t_id) in H.
  - pose proof (running_unknown _ _ f O ltac:(rewrite E; apply elem_of_app; right; by apply list_elem_of_singleton)). congruence.
Qed.

Lemma loop_step_ok programs s s' : ok programs s -> worker_step inv worker_id gettid s = Some s' -> ok programs s'.
Proof.
  intros O. unfold worker_step. destruct (ownerThread_ (loop s)) as [o |] eqn:Ow.
  - rewrite (ok_free _ _ O). assert (o = worker_thread) as ->.
    { destruct (ok_owner _ _ O) as [(W & _) | [W _]]; congruence. }
    destruct (stack s) as [| f rest] eqn:S.
    + destruct (taskQueue_ (loop s)) as [| x q] eqn:Q; intros [= <-]. pose proof (pop_ok _ _ _ _ O S Ow Q) as H. by rewrite Ow in H.
    + destruct (f_calls f) as [| [cb | cb] cs] eqn:Fc.
      * intros [= <-]. by apply finish_ok.
      * intros [= <-]. unfold post. rewrite valid_id.
        assert (ok programs (set_stack s (mk_frame (f_id f) cs (f_throws f) (f_kind f) :: rest))) as O'.
        { eapply top_ok; try done. unfold frame_throws. by rewrite Fc. }
        destruct cb; [by apply enqueue_ok | done].
      * unfold postAndWait. rewrite valid_id. destruct cb as [cb |].
        -- change (loop (set_stack s _)) with (loop s). rewrite (in_owner _ _ O) by by rewrite S. intros [= <-]. by eapply inline_ok.
        -- intros [= <-]. eapply top_ok; try done. unfold frame_throws. by rewrite Fc.
  - destruct O as [A F W St N E P Or Pl C]. destruct W as [(_ & S & B) | [W _]]; [| congruence].
    unfold bindToCurrentThread. rewrite Ow. cbn [mbind option_bind]. intros [= <-]. split; try done.
    + right. split; [done |]. apply Threads.set_id_read.
    + eapply callers_mono; [| done]. intros n c [H | fs g Es J L X | H];
        [by apply pending_queued | by apply (pending_running _ _ _ fs g) | by apply pending_known].
Qed.

Lemma caller_step_ok programs s i s' : ok programs s -> caller_step inv s i = Some s' -> ok programs s'.
Proof.
  intros O. unfold caller_step. destruct (callers s !! i) as [c |] eqn:L; [| done]. cbn [mbind option_bind].
  assert (exists p, programs !! i = Some p /\ caller_ok s p c) as (p & Lp & (d & R & W)).
  { destruct (Forall2_lookup_r _ _ _ _ _ (ok_callers _ _ O) L) as (p & Lp & K). eauto. }
  assert (forall s1, ok programs s1 -> callers s1 = callers s -> forall c', caller_ok s1 p c' -> ok programs (set_caller s1 i c')) as Put.
  { intros s1 [A F W1 St N E P Or Pl C] Ec c' K. split; try done. cbn. rewrite Ec.
    assert (forall n cb, pending s1 n cb -> pending (set_caller s1 i c') n cb) as M.
    { intros n cb [H | fs g Es J L1 X | H]; [by apply pending_queued | by apply (pending_running _ _ _ fs g) | by apply pending_known]. }
    eapply callers_insert; [rewrite <- Ec; by eapply callers_mono | done |].
    destruct K as (d' & R' & K'). exists d'. split; [done |]. destruct (c_wait c'); [| done]. destruct K' as (cb & Ep & K'). eauto. }
  destruct (c_wait c) as [n |] eqn:Wt.
  - destruct (promises s !! n) as [th |] eqn:Pn; [| done]. cbn [mbind option_bind]. intros [= <-]. apply Put; [done | done |].
    destruct W as (cb & Ep & K). exists (d ++ [PostAndWait (Some cb)]). cbn. rewrite fmap_app, R, <- app_assoc. split; [| done]. do 2 f_equal. cbn.
    by rewrite (pending_value _ _ _ _ _ O K Pn).
  - destruct (c_todo c) as [| [cb | cb] todo] eqn:Td; [done | |].
    + unfold post. rewrite valid_id. destruct cb as [cb |]; intros [= <-].
      * apply Put; [by apply enqueue_ok | done |]. exists (d ++ [Post (Some cb)]). cbn. by rewrite fmap_app, R, <- app_assoc.
      * apply Put; [done | done |]. exists (d ++ [Post None]). cbn. by rewrite fmap_app, R, <- app_assoc.
    + unfold postAndWait. rewrite valid_id. destruct cb as [cb |].
      * rewrite (not_in_owner _ _ _ O). intros [= <-]. apply Put; [by apply enqueue_ok | done |]. exists d. cbn. split; [done |].
        exists cb. split; [done |]. apply pending_queued. cbn. apply elem_of_app. right. by apply list_elem_of_singleton.
      * intros [= <-]. apply Put; [done | done |]. exists (d ++ [PostAndWait None]). cbn. by rewrite fmap_app, R, <- app_assoc.
Qed.

Lemma callbacks_run_ok programs l s s' : ok programs s -> run inv worker_id gettid s l = Some s' -> ok programs s'.
Proof.
  induction l as [| m l IH] in s |- *; cbn; intros O; [by intros [= <-] |].
  destruct (step _ _ _ s m) as [s1 |] eqn:E; [| done]. cbn. apply IH. unfold step in E. rewrite (ok_running _ _ O) in E.
  destruct m; [by eapply caller_step_ok | by eapply loop_step_ok].
Qed.

(** *** Every run ends *)

Definition task_weight (x : task) : nat := S (cb_size (t_cb x)).
Definition frame_weight (f : frame) : nat := S (calls_size (f_calls f)).
Definition caller_weight (c : caller) : nat := calls_size (c_todo c) + match c_wait c with None => 0 | Some _ => 1 end.

Definition weight (s : state) : nat :=
  match ownerThread_ (loop s) with None => 1 | Some _ => 0 end +
  list_sum (task_weight <$> taskQueue_ (loop s)) + list_sum (frame_weight <$> stack s) + list_sum (caller_weight <$> callers s).

Lemma sum_app (l k : list nat) : list_sum (l ++ k) = (list_sum l + list_sum k)%nat.
Proof. apply list_sum_app. Qed.

Lemma sum_cons x l : list_sum (x :: l) = (x + list_sum l)%nat.
Proof. done. Qed.

Lemma sum_nil : list_sum [] = 0%nat.
Proof. done. Qed.

Lemma callers_sum_insert l i c c' : l !! i = Some c ->
  (list_sum (caller_weight <$> <[i := c']> l) + caller_weight c = list_sum (caller_weight <$> l) + caller_weight c')%nat.
Proof.
  intros L. rewrite insert_take_drop by by eapply lookup_lt_Some. rewrite <- (take_drop_middle l i c L) at 3.
  rewrite !fmap_app, !fmap_cons, !sum_app. cbn. lia.
Qed.

Lemma calls_cons k l : calls_size (k :: l) = (call_size k + calls_size l)%nat.
Proof. done. Qed.

Lemma cb_size_eq name calls t : cb_size (Callback name calls t) = S (calls_size calls).
Proof. done. Qed.

Lemma task_weight_eq n cb b : task_weight (mk_task n cb b) = S (cb_size cb).
Proof. done. Qed.

Lemma frame_weight_eq n calls t k : frame_weight (mk_frame n calls t k) = S (calls_size calls).
Proof. done. Qed.

Lemma frame_weight_calls f calls : f_calls f = calls -> frame_weight f = S (calls_size calls).
Proof. by intros <-. Qed.

Lemma caller_weight_eq todo w r : caller_weight (mk_caller todo w r) = (calls_size todo + match w with None => 0 | Some _ => 1 end)%nat.
Proof. done. Qed.

Ltac weigh :=
  cbn [fst snd loop stack callers next ownerThread_ taskQueue_ set_stack set_loop set_caller take_number log_begin log_end set_promise swallow enqueue push] in *;
  rewrite ?fmap_app, ?sum_app, ?fmap_cons, ?fmap_nil, ?sum_cons, ?sum_nil in *;
  rewrite ?frame_weight_eq, ?task_weight_eq, ?caller_weight_eq, ?cb_size_eq, ?calls_cons in *; cbn [call_size] in *;
  rewrite ?cb_size_eq in *.

Lemma worker_weight programs s s' : ok programs s -> worker_step inv worker_id gettid s = Some s' -> (weight s' < weight s)%nat.
Proof.
  intros O. unfold worker_step. destruct (ownerThread_ (loop s)) as [o |] eqn:Ow.
  - rewrite (ok_free _ _ O). destruct (ok_owner _ _ O) as [(W & _) | [_ W]]; [congruence |].
    destruct (stack s) as [| f rest] eqn:S.
    + destruct (taskQueue_ (loop s)) as [| [n [name calls t] b] q] eqn:Q; intros [= <-]. cbn [t_id t_cb t_promise]. rewrite begin_runs by done.
      unfold weight. weigh. rewrite Ow, Q, S. weigh. lia.
    + destruct (f_calls f) as [| k cs] eqn:Fc; apply frame_weight_calls in Fc.
      * intros [= <-]. unfold finish, weight.
        destruct (f_kind f) as [| []], (f_throws f), rest as [| g rest]; weigh; rewrite Ow, S; weigh; rewrite Fc;
          try (rewrite (frame_weight_calls g _ eq_refl)); weigh; change (calls_size []) with 0%nat; lia.
      * destruct k as [cb | cb].
        -- intros [= <-]. unfold post. rewrite valid_id. unfold weight. rewrite S.
           destruct cb as [cb |]; weigh; rewrite ?Ow, Fc; weigh; lia.
        -- unfold postAndWait. rewrite valid_id. destruct cb as [[name calls t] |].
           ++ change (loop (set_stack s _)) with (loop s). rewrite (in_owner _ _ O) by by rewrite S. rewrite begin_runs by done. intros [= <-].
              unfold weight. rewrite S. weigh. rewrite Ow, Fc. weigh. lia.
           ++ intros [= <-]. unfold weight. rewrite S. weigh. rewrite Ow, Fc. weigh. lia.
  - unfold bindToCurrentThread. rewrite Ow. cbn [mbind option_bind]. intros [= <-]. unfold weight. weigh. rewrite Ow. lia.
Qed.

Lemma caller_step_weight programs s i s' : ok programs s -> caller_step inv s i = Some s' -> (weight s' < weight s)%nat.
Proof.
  intros O. unfold caller_step. destruct (callers s !! i) as [c |] eqn:L; [| done]. cbn [mbind option_bind].
  pose proof (fun c' => callers_sum_insert (callers s) i c c' L) as Sm. destruct c as [todo w r]. cbn [c_wait c_todo c_results].
  destruct w as [n |].
  - destruct (promises s !! n) as [th |]; [| done]. cbn [mbind option_bind]. intros [= <-].
    match goal with |- context [set_caller _ _ ?c'] => specialize (Sm c') end. unfold weight. weigh. lia.
  - destruct todo as [| k todo]; [done |]. destruct k as [cb | cb].
    + unfold post. rewrite valid_id. destruct cb as [cb |]; intros [= <-];
        match goal with |- context [set_caller _ _ ?c'] => specialize (Sm c') end; unfold weight; weigh; lia.
    + unfold postAndWait. rewrite valid_id, (not_in_owner _ _ _ O). destruct cb as [cb |]; intros [= <-];
        match goal with |- context [set_caller _ _ ?c'] => specialize (Sm c') end; unfold weight; weigh; lia.
Qed.

Lemma run_weight programs l s s' : ok programs s -> run inv worker_id gettid s l = Some s' -> (length l + weight s' <= weight s)%nat.
Proof.
  induction l as [| m l IH] in s |- *; cbn; intros O; [by intros [= <-] |].
  destruct (step _ _ _ s m) as [s1 |] eqn:E; [| done]. cbn. unfold step in E. rewrite (ok_running _ _ O) in E. intros R.
  assert (ok programs s1) as O1 by (destruct m; [by eapply caller_step_ok | by eapply loop_step_ok]).
  assert (weight s1 < weight s)%nat by (destruct m; [by eapply caller_step_weight | by eapply worker_weight]).
  pose proof (IH _ O1 R). lia.
Qed.

(** *** A state without steps is complete *)

Definition stuck (s : state) : Prop := forall m, step inv worker_id gettid s m = None.

Lemma stuck_idle programs s : ok programs s -> stuck s -> ownerThread_ (loop s) = Some worker_thread /\ stack s = [] /\ taskQueue_ (loop s) = [].
Proof.
  intros O St. specialize (St None). unfold step, worker_step in St. rewrite (ok_running _ _ O), (ok_free _ _ O) in St.
  destruct (ok_owner _ _ O) as [(W & _) | [W _]].
  - rewrite W in St. unfold bindToCurrentThread in St. by rewrite W in St.
  - rewrite W in St |- *. destruct (stack s) as [| f rest]; [by destruct (taskQueue_ (loop s)) |].
    destruct (f_calls f) as [| [] cs]; try done. destruct (postAndWait _ _ _ _) as [[] ?]; done.
Qed.

Lemma stuck_callers programs s : ok programs s -> stuck s ->
  (c_results <$> callers s) = (fun p => expected <$> p) <$> programs /\ Forall (fun c => c_todo c = [] /\ c_wait c = None) (callers s).
Proof.
  intros O St. destruct (stuck_idle _ _ O St) as (_ & S & Q).
  assert (forall i p c, programs !! i = Some p -> callers s !! i = Some c -> c_results c = expected <$> p /\ c_todo c = [] /\ c_wait c = None) as H.
  { intros i p c Lp Lc. destruct (Forall2_lookup_lr _ _ _ _ _ _ (ok_callers _ _ O) Lp Lc) as (d & R & W).
    specialize (St (Some i)). unfold step, caller_step in St. rewrite (ok_running _ _ O), Lc in St. cbn [mbind option_bind] in St.
    destruct (c_wait c) as [n |].
    - destruct W as (cb & _ & [H | fs g Es _ _ _ | H]); [rewrite Q in H; by apply elem_of_nil in H | rewrite S in Es; by destruct fs |].
      by rewrite H in St.
    - destruct (c_todo c) as [| [cb | cb] todo]; [by rewrite R, W, app_nil_r | by destruct (post _ _ _) | by destruct (postAndWait _ _ _ _) as [[] ?]]. }
  pose proof (Forall2_length _ _ _ (ok_callers _ _ O)) as Ln. split.
  - apply list_eq. intros i. rewrite !list_lookup_fmap. destruct (callers s !! i) as [c |] eqn:Lc, (programs !! i) as [p |] eqn:Lp; cbn; [| | | done].
    + f_equal. by eapply H.
    + apply lookup_lt_Some in Lc. apply lookup_ge_None in Lp. lia.
    + apply lookup_lt_Some in Lp. apply lookup_ge_None in Lc. lia.
  - apply Forall_lookup. intros i c Lc. destruct (lookup_lt_is_Some_2 programs i) as [p Lp]; [apply lookup_lt_Some in Lc; lia |]. by eapply H.
Qed.
End Proofs.

Lemma start_weight programs : weight (start programs) = S (list_sum (calls_size <$> programs)).
Proof.
  unfold weight. cbn [start new_loop loop stack callers ownerThread_ taskQueue_]. rewrite <- list_fmap_compose.
  replace (list_sum (caller_weight ∘ (fun l => mk_caller l None []) <$> programs)) with (list_sum (calls_size <$> programs)); [done |].
  f_equal. apply list_fmap_ext. intros i x _. cbn [compose]. rewrite caller_weight_eq. lia.
Qed.

(** The steps the calls of all threads can lead to, and one to bind the loop. *)
Definition total_steps (programs : list (list call)) : nat := S (list_sum (calls_size <$> programs)).

(** C16: callbacks handed to [post] and [postAndWait], by any threads and by
    callbacks themselves, in any order: no run goes on forever, and one that
    cannot go on has finished everything (a [postAndWait] made on the worker's
    own thread included, which would wait for itself if it were queued).
    Each accepted callback begins exactly once, on the worker's thread with
    that worker's id, posted ones in the order of the calls; a thread gets the
    results of its calls in order, and [postAndWait] returns true if the
    callback returned and throws if it threw. *)
Theorem callbacks_complete (inv : AppCallbackInvoker) (worker_id : Z) (gettid : nat -> Z)
    (programs : list (list call)) (l : list (option nat)) (s : state) :
  loop_ inv = true -> app_ inv = true -> worker_id = i32_of_u32 (callbackWorkerId_ inv) ->
  run inv worker_id gettid (start programs) l = Some s ->
  aborted s = false /\ (length l <= total_steps programs)%nat /\
  NoDup (begun_ids s) /\ begun_ids s ++ queued_ids s ≡ₚ seq 0 (next s) /\
  StronglySorted lt (posted_ids s ++ queued_ids s) /\
  Forall (fun e => e_thread e = worker_thread /\ e_wid e = worker_id) (begun s) /\
  Forall2 (fun p c => c_results c `prefix_of` (expected <$> p)) programs (callers s) /\
  (stuck inv worker_id gettid s ->
    begun_ids s ≡ₚ seq 0 (next s) /\ finished s ≡ₚ seq 0 (next s) /\
    c_results <$> callers s = (fun p => expected <$> p) <$> programs).
Proof.
  intros L A W R. pose proof (callbacks_run_ok inv worker_id gettid L A W programs l _ _ (start_ok worker_id programs) R) as O.
  pose proof (run_weight inv worker_id gettid L A W programs l _ _ (start_ok worker_id programs) R) as B. rewrite start_weight in B.
  split; [apply (ok_running _ _ _ O) |]. split; [unfold total_steps; lia |]. split; [by eapply begun_nodup |].
  split; [apply (ok_numbers _ _ _ O) |]. split; [apply (ok_order _ _ _ O) |]. split; [apply (ok_place _ _ _ O) |]. split.
  - eapply Forall2_impl; [apply (ok_callers _ _ _ O) |]. intros p c (d & E & Q). rewrite E.
    destruct (c_wait c); [destruct Q as (cb & -> & _) | subst p]; rewrite fmap_app; by apply prefix_app_r.
  - intros St. destruct (stuck_idle inv worker_id gettid programs s O St) as (_ & Sk & Q).
    pose proof (ok_numbers _ _ _ O) as N. pose proof (ok_ends _ _ _ O) as E.
    unfold queued_ids, running_ids in *. rewrite Q in N. rewrite Sk in E. cbn in N, E. rewrite app_nil_r in N, E.
    split; [done |]. split; [by rewrite <- E |]. by apply (stuck_callers inv worker_id gettid).
Qed.

(** Two threads; the first callback posts one that throws and waits, on the
    worker's own thread, for another that throws. *)
Definition demo_invoker : AppCallbackInvoker := mk_invoker true true 0.
Definition demo_programs : list (list call) :=
  [[PostAndWait (Some (Callback 1 [Post (Some (Callback 2 [] true)); PostAndWait (Some (Callback 3 [] true)); Post (Some (Callback 4 [] false))] false))];
   [Post None; PostAndWait (Some (Callback 5 [] false)); Post (Some (Callback 6 [] false))]].
Definition demo_schedule : list (option nat) :=
  [Some 0; Some 1; None; Some 1; None; None; None; None; None; None; None; None; None; Some 0; Some 1; Some 1; None; None]%nat.
Definition demo_end : state := default (start demo_programs) (run demo_invoker 0 Z.of_nat (start demo_programs) demo_schedule).

Lemma callbacks_complete_witness :
  aborted demo_end = false /\ (length demo_schedule <= total_steps demo_programs)%nat /\
  NoDup (begun_ids demo_end) /\ begun_ids demo_end ++ queued_ids demo_end ≡ₚ seq 0 (next demo_end) /\
  StronglySorted lt (posted_ids demo_end ++ queued_ids demo_end) /\
  Forall (fun e => e_thread e = worker_thread /\ e_wid e = 0) (begun demo_end) /\
  Forall2 (fun p c => c_results c `prefix_of` (expected <$> p)) demo_programs (callers demo_end) /\
  (stuck demo_invoker 0 Z.of_nat demo_end ->
    begun_ids demo_end ≡ₚ seq 0 (next demo_end) /\ finished demo_end ≡ₚ seq 0 (next demo_end) /\
    c_results <$> callers demo_end = (fun p => expected <$> p) <$> demo_programs).
Proof.
  apply (callbacks_complete demo_invoker 0 Z.of_nat demo_programs demo_schedule demo_end); [done | done | done |].
  vm_compute. reflexivity.
Defined.

(** The results, the order and the exception that [drainTasks] caught. *)
Example demo_end_results :
  c_results <$> callers demo_end = [[Threw]; [Ignored; RTrue; Queued]] /\ begun_ids demo_end = [0; 3; 1; 2; 4]%nat /\
  swallowed demo_end = [2%nat] /\ step demo_invoker 0 Z.of_nat demo_end None = None.
Proof. vm_compute. done. Qed.

(** Without a loop or an application nothing is queued or run: [post] is
    ignored and [postAndWait] returns false. *)
Theorem invalid_invoker_refuses (inv : AppCallbackInvoker) (s : state) (t : nat) (cb : option callback) :
  loop_ inv && app_ inv = false \/ cb = None -> post inv s cb = (Ignored, s) /\ postAndWait inv s t cb = (Refused, s).
Proof. intros H. unfold post, postAndWait, valid. destruct H as [-> | ->]; [done |]. by destruct (_ && _). Qed.

(** A loop whose thread has another worker id: the first callback ends the
    process before any of its code runs. *)
Theorem wrong_worker_aborts (inv : AppCallbackInvoker) (s : state) (n : nat) (cb : callback) (k : kind) (worker_id : Z) (gettid : nat -> Z) :
  worker_id <> i32_of_u32 (callbackWorkerId_ inv) -> Threads.currentWorkerId (process s) worker_thread = worker_id ->
  begun (begin inv s worker_thread n cb k) = begun s /\ forall m, step inv worker_id gettid (begin inv s worker_thread n cb k) m = None.
Proof. intros N W. unfold begin. rewrite W, (proj2 (Z.eqb_neq _ _) N). done. Qed.

(* ------------------------------------------------------------------ *)
(** ** The engine's invoker *)

(** [Engine::setupAppCallbacks_]: [app] is not null; per worker its
    [appCallbacks_].  The loop is that of the first worker. *)
Definition setupAppCallbacks_ (app : bool) (workers : list (option AppCallbackInvoker)) :
    option AppCallbackInvoker * list (option AppCallbackInvoker) :=
  match workers with
  | [] => (None, workers)
  | _ :: _ =>
      if negb app then (None, workers)
      else let invoker := mk_invoker true true 0 in (Some invoker, (fun _ => Some invoker) <$> workers)
  end.

(** All workers get the invoker the engine keeps, and it is one that
    [callbacks_complete] is about, for worker 0. *)
Theorem engine_invoker_usable (app : bool) (workers : list (option AppCallbackInvoker)) :
  match setupAppCallbacks_ app workers with
  | (Some i, ws) => loop_ i = true /\ app_ i = true /\ i32_of_u32 (callbackWorkerId_ i) = 0 /\ ws = replicate (length workers) (Some i)
  | (None, ws) => (app = false \/ workers = []) /\ ws = workers
  end.
Proof.
  unfold setupAppCallbacks_. destruct workers as [| w ws]; [split; [by right | done] |]. destruct app; cbn [negb]; [| split; [by left | done]].
  split_and!; [done | done | done |]. cbn. f_equal. induction ws as [| x ws IH]; cbn; [done | by f_equal].
Qed.

End AppCallbacks.
