(* ===== verification/Resources.v ===== *)
(** * Resources: what a worker owns, from its creation to its destruction

    Models the constructors and destructors of [EpollReactor], [EventLoop],
    [SessionManager] and [WorkerContext], with
    [WorkerContext::initialize], [shutdown], [stop], [join], [runOnce] and the
    accessors: descriptors opened and closed, exceptions in constructors (the
    members built so far are destroyed), reassignment of a [unique_ptr], the
    order in which members are destroyed, and the [shared_ptr] to the sender
    that session handles refer to weakly.

    The kernel may refuse any [epoll_create1] or [eventfd]; a list of answers
    says which. *)

From S2P Require Import Prelude BufferPool TimerWheel Handle.
Import Handle.

Module Resources.

(* ------------------------------------------------------------------ *)
(** ** Descriptors and senders *)

(** [misused]: descriptors closed that were not open. [senders]: the senders
    with a [shared_ptr] left; [made] is their number so far. *)
Record system := mk_system {
  open_fds : gset nat;
  misused : list nat;
  answers : list bool;
  senders : gset nat;
  made : nat
}.

Definition create_fd (k : system) : option nat * system :=
  match answers k with
  | false :: l => (None, mk_system (open_fds k) (misused k) l (senders k) (made k))
  | l => let fd := fresh (open_fds k) in
      (Some fd, mk_system ({[fd]} ∪ open_fds k) (misused k) (tail l) (senders k) (made k))
  end.

Definition close (k : system) (fd : nat) : system :=
  if decide (fd ∈ open_fds k) then mk_system (open_fds k ∖ {[fd]}) (misused k) (answers k) (senders k) (made k)
  else mk_system (open_fds k) (misused k ++ [fd]) (answers k) (senders k) (made k).

(* ------------------------------------------------------------------ *)
(** ** [EpollReactor] and [EventLoop] *)

Record EpollReactor := mk_reactor { epollFd_ : nat; maxEvents_ : Z }.

(** [None]: the constructor throws. *)
Definition new_reactor (maxEvents : Z) (k : system) : option EpollReactor * system :=
  let maxEvents := if maxEvents <=? 0 then 64 else maxEvents in
  match create_fd k with
  | (None, k) => (None, k)
  | (Some fd, k) => (Some (mk_reactor fd maxEvents), k)
  end.

Definition delete_reactor (r : EpollReactor) (k : system) : system := close k (epollFd_ r).

Record EventLoop := mk_loop { reactor_ : EpollReactor; timerWheel_ : TimerWheel.t unit; wakeupFd_ : nat; readyEvents_ : Z; ownerThread_ : option nat }.

(** The members come first; the timer wheel throws for a tick that is not
    positive or no slots.  [now] is the time its clock starts at. *)
Definition new_loop (tickResolution timerSlots maxEpollEvents now : Z) (k : system) : option EventLoop * system :=
  match new_reactor maxEpollEvents k with
  | (None, k) => (None, k)
  | (Some r, k) =>
      match TimerWheel.create tickResolution timerSlots now with
      | inl _ => (None, delete_reactor r k)
      | inr wheel =>
        match create_fd k with
        | (None, k) => (None, delete_reactor r k)
        | (Some fd, k) => (Some (mk_loop r wheel fd (if maxEpollEvents <=? 0 then 64 else maxEpollEvents) None), k)
        end
      end
  end.

(** The body of the destructor, then the members. *)
Definition delete_loop (l : EventLoop) (k : system) : system := delete_reactor (reactor_ l) (close k (wakeupFd_ l)).

(** [None] is [std::abort]. *)
Definition bindToCurrentThread (l : EventLoop) (t : nat) : option EventLoop :=
  match ownerThread_ l with
  | Some o => if decide (t = o) then Some l else None
  | None => Some (mk_loop (reactor_ l) (timerWheel_ l) (wakeupFd_ l) (readyEvents_ l) (Some t))
  end.

(* ------------------------------------------------------------------ *)
(** ** [SessionManager] and its sender *)

Record SessionManager := mk_manager { m_owner : Z; sender_ : nat; recvRingCapacity_ : Z; sendRingCapacity_ : Z; maxPayloadLen : Z }.

Definition new_manager (owner recvCap sendCap maxPayload : Z) (k : system) : SessionManager * system :=
  (mk_manager owner (made k) recvCap sendCap maxPayload,
   mk_system (open_fds k) (misused k) (answers k) ({[made k]} ∪ senders k) (S (made k))).

(** [sender_.reset()]: the handles' references expire. *)
Definition delete_manager (m : SessionManager) (k : system) : system :=
  mk_system (open_fds k) (misused k) (answers k) (senders k ∖ {[sender_ m]}) (made k).

(** [weak_ptr::lock] of a handle's sender. *)
Definition lock (k : system) (s : nat) : bool := bool_decide (s ∈ senders k).

(** [SessionHandle::sendPacketU16] as far as the handle decides: is the sender
    asked? *)
Definition handle_asks (k : system) (id : Z) (sender : option nat) : bool :=
  isValid (handle_of_id id) && match sender with None => false | Some s => lock k s end.

(* ------------------------------------------------------------------ *)
(** ** [WorkerContext] *)

Record WorkerOptions := mk_options {
  opt_id : Z; tickResolution : Z; slotCount : Z; maxEpollEvents : Z; blockSize : Z; blockCount : Z;
  recvCapacity : Z; sendCapacity : Z; opt_maxPayloadLen : Z
}.

(** [thread_]: joinable, on that thread; [detached]: it was left running. *)
Record WorkerContext := mk_worker {
  options_ : WorkerOptions;
  app_ : bool;
  eventLoop_ : option EventLoop;
  bufferPool_ : option BufferPool.t;
  sessionManager_ : option SessionManager;
  initialized_ : bool;
  running_ : bool;
  thread_ : option nat;
  detached : bool
}.

Definition new_worker (o : WorkerOptions) (app : bool) : WorkerContext := mk_worker o app None None None false false None false.

(** [unique_ptr::reset]. *)
Definition reset_loop (l : option EventLoop) (k : system) : system := match l with None => k | Some l => delete_loop l k end.
Definition reset_manager (m : option SessionManager) (k : system) : system := match m with None => k | Some m => delete_manager m k end.

(** [initialize]: a new object is assigned after it was built, and the old one
    destroyed then.  The flag says whether it throws. *)
Definition initialize (w : WorkerContext) (now : Z) (k : system) : WorkerContext * bool * system :=
  if initialized_ w then (w, false, k) else
  if negb (app_ w) then (w, false, k) else
  let o := options_ w in
  match new_loop (tickResolution o) (slotCount o) (maxEpollEvents o) now k with
  | (None, k) => (w, true, k)
  | (Some l, k) =>
      let k := reset_loop (eventLoop_ w) k in
      let w := mk_worker o (app_ w) (Some l) (bufferPool_ w) (sessionManager_ w) false (running_ w) (thread_ w) (detached w) in
      match BufferPool.create (blockSize o) (blockCount o) with
      | inl _ => (w, true, k)
      | inr pool =>
          let '(m, k) := new_manager (opt_id o) (recvCapacity o) (sendCapacity o) (opt_maxPayloadLen o) k in
          let k := reset_manager (sessionManager_ w) k in
          (mk_worker o (app_ w) (Some l) (Some pool) (Some m) true (running_ w) (thread_ w) (detached w), false, k)
      end
  end.

(** [join] on thread [t]: a thread that joins itself is detached instead. *)
Definition join (w : WorkerContext) (t : nat) : WorkerContext :=
  match thread_ w with
  | None => w
  | Some t' =>
      mk_worker (options_ w) (app_ w) (eventLoop_ w) (bufferPool_ w) (sessionManager_ w) (initialized_ w) (running_ w) None
        (if decide (t' = t) then true else detached w)
  end.

Definition stop (w : WorkerContext) (t : nat) : WorkerContext :=
  join (mk_worker (options_ w) (app_ w) (eventLoop_ w) (bufferPool_ w) (sessionManager_ w) (initialized_ w) false (thread_ w) (detached w)) t.

Definition shutdown (w : WorkerContext) (t : nat) (k : system) : WorkerContext * system :=
  if negb (initialized_ w) then (w, k) else
  let w := stop w t in
  let k := reset_manager (sessionManager_ w) k in
  let k := reset_loop (eventLoop_ w) k in
  (mk_worker (options_ w) (app_ w) None None None false (running_ w) (thread_ w) (detached w), k).

(** The destructor: its body, then the members, last declared first. *)
Definition delete_worker (w : WorkerContext) (t : nat) (k : system) : system :=
  let w := stop w t in
  let '(w, k) := if initialized_ w then shutdown w t k else (w, k) in
  let k := reset_manager (sessionManager_ w) k in
  reset_loop (eventLoop_ w) k.

(** [runOnce] on thread [t]; [None] is [std::abort]. *)
Definition runOnce (w : WorkerContext) (t : nat) : option WorkerContext :=
  if negb (initialized_ w) then Some w else
  match eventLoop_ w with
  | None => None
  | Some l =>
      l ← bindToCurrentThread l t;
      Some (mk_worker (options_ w) (app_ w) (Some l) (bufferPool_ w) (sessionManager_ w) (initialized_ w) (running_ w) (thread_ w) (detached w))
  end.

(** The accessors: [eventLoop()], [bufferPool()] and [sessionManager()];
    [None] is a failed assertion or a null pointer. *)
Definition eventLoop (w : WorkerContext) : option EventLoop := if initialized_ w then eventLoop_ w else None.
Definition bufferPool (w : WorkerContext) : option BufferPool.t := if initialized_ w then bufferPool_ w else None.
Definition sessionManager (w : WorkerContext) : option SessionManager := sessionManager_ w.

(* ------------------------------------------------------------------ *)
(** ** Any use of a worker *)

Inductive op := OInitialize (now : Z) | OShutdown (t : nat) | OStop (t : nat) | ORunOnce (t : nat).

Definition apply (o : op) (x : WorkerContext * system) : option (WorkerContext * system) :=
  let '(w, k) := x in
  match o with
  | OInitialize now => let '(w, _, k) := initialize w now k in Some (w, k)
  | OShutdown t => Some (shutdown w t k)
  | OStop t => Some (stop w t, k)
  | ORunOnce t => w ← runOnce w t; Some (w, k)
  end.

Fixpoint run (l : list op) (x : WorkerContext * system) : option (WorkerContext * system) :=
  match l with [] => Some x | o :: l => x ← apply o x; run l x end.

(** The descriptors of a loop. *)
Definition fds (l : option EventLoop) : gset nat := match l with None => ∅ | Some l => {[epollFd_ (reactor_ l)]} ∪ {[wakeupFd_ l]} end.
Definition sender_set (m : option SessionManager) : gset nat := match m with None => ∅ | Some m => {[sender_ m]} end.

(** The descriptors open in [k] are [base] and those of the loop, which are two
    different ones; likewise the senders. *)
Record owns (base : gset nat) (l : option EventLoop) (k : system) : Prop := {
  ow_open : open_fds k = base ∪ fds l;
  ow_disj : base ## fds l;
  ow_two : match l with None => True | Some l => epollFd_ (reactor_ l) <> wakeupFd_ l end;
  ow_fine : misused k = []
}.

Record sends (base : gset nat) (m : option SessionManager) (k : system) : Prop := {
  sd_set : senders k = base ∪ sender_set m;
  sd_disj : base ## sender_set m;
  sd_made : forall n, n ∈ senders k -> (n < made k)%nat
}.

Record worker_ok (base bsend : gset nat) (w : WorkerContext) (k : system) : Prop := {
  wk_owns : owns base (eventLoop_ w) k;
  wk_sends : sends bsend (sessionManager_ w) k;
  wk_ready : initialized_ w = true -> is_Some (eventLoop_ w) /\ is_Some (bufferPool_ w) /\ is_Some (sessionManager_ w);
  wk_off : initialized_ w = false -> sessionManager_ w = None
}.

Lemma create_fd_spec k : let '(r, k') := create_fd k in
  misused k' = misused k /\ senders k' = senders k /\ made k' = made k /\
  match r with None => open_fds k' = open_fds k | Some fd => (fd ∉ open_fds k) /\ open_fds k' = {[fd]} ∪ open_fds k end.
Proof.
  unfold create_fd. destruct (answers k) as [| [] l]; cbn; split_and!; try done; apply is_fresh.
Qed.

Lemma close_open_fd k fd : fd ∈ open_fds k ->
  close k fd = mk_system (open_fds k ∖ {[fd]}) (misused k) (answers k) (senders k) (made k).
Proof. intros H. unfold close. by rewrite decide_True. Qed.

(** Building a loop: all or nothing. *)
Lemma new_loop_spec tick slots maxEv now base l0 k : owns base l0 k ->
  let '(l, k') := new_loop tick slots maxEv now k in
  senders k' = senders k /\ made k' = made k /\
  match l with None => owns base l0 k' | Some _ => owns (base ∪ fds l0) l k' end.
Proof.
  intros [O D T F]. unfold new_loop, new_reactor.
  pose proof (create_fd_spec k) as H. destruct (create_fd k) as [[fd |] k1]; destruct H as (H1 & H2 & H3 & H4).
  2: { split; [done |]. split; [done |]. split; [by rewrite H4 | done | done | by rewrite H1]. }
  destruct H4 as [H4 H5].
  assert (forall k2, open_fds k2 = open_fds k1 -> misused k2 = misused k1 -> owns base l0 (delete_reactor (mk_reactor fd (if maxEv <=? 0 then 64 else maxEv)) k2)) as Back.
  { intros k2 E2 M2. unfold delete_reactor. cbn. rewrite close_open_fd by (rewrite E2, H5; set_solver). split; cbn; [| done | done | congruence].
    rewrite E2, H5, <- O. set_solver. }
  destruct (TimerWheel.create tick slots now) as [e | wheel].
  { split; [| split]; [..| by apply Back]; unfold delete_reactor, close; by case_decide. }
  pose proof (create_fd_spec k1) as G. destruct (create_fd k1) as [[wfd |] k2]; destruct G as (G1 & G2 & G3 & G4).
  - destruct G4 as [G4 G5]. split; [congruence |]. split; [congruence |]. rewrite H5, O in G4, G5. rewrite O in H4. split; cbn; [| | | congruence].
    + rewrite G5. set_solver.
    + set_solver.
    + set_solver.
  - split; [| split]; [..| by apply Back]; unfold delete_reactor, close; case_decide; cbn; congruence.
Qed.

Lemma reset_loop_spec base extra l k : owns (base ∪ fds l) extra k ->
  match l with None => True | Some l => epollFd_ (reactor_ l) <> wakeupFd_ l end -> base ## fds l ->
  owns base extra (reset_loop l k) /\ senders (reset_loop l k) = senders k /\ made (reset_loop l k) = made k.
Proof.
  intros [O D T F] Two Dj. destruct l as [l |]; cbn in *; [| split; [split; [by rewrite O, union_empty_r_L | set_solver | done | done] | done]].
  unfold delete_loop, delete_reactor. rewrite (close_open_fd k) by (rewrite O; set_solver).
  rewrite close_open_fd by (cbn; rewrite O; set_solver). cbn. split; [| done]. split; cbn; [| set_solver | done | done].
  rewrite O. set_solver.
Qed.

Lemma delete_manager_spec base m k : sends base (Some m) k -> sends base None (delete_manager m k).
Proof.
  intros [S D M]. cbn in *. split; cbn; [rewrite S; set_solver | set_solver |]. intros n H. apply M. set_solver.
Qed.

Lemma reset_manager_spec base m k : sends base m k -> sends base None (reset_manager m k) /\
  open_fds (reset_manager m k) = open_fds k /\ misused (reset_manager m k) = misused k.
Proof. intros S. destruct m as [m |]; [split; [by apply delete_manager_spec | done] | done]. Qed.

Lemma owns_move base l k k' : open_fds k' = open_fds k -> misused k' = misused k -> owns base l k -> owns base l k'.
Proof. intros E F [O D T M]. split; [by rewrite E | done | done | by rewrite F]. Qed.

Lemma sends_move base m k k' : senders k' = senders k -> made k' = made k -> sends base m k -> sends base m k'.
Proof. intros E F [S D M]. split; [congruence | done |]. intros n. rewrite E, F. apply M. Qed.

Lemma initialize_ok base bsend w now k : worker_ok base bsend w k ->
  let '(w', _, k') := initialize w now k in worker_ok base bsend w' k'.
Proof.
  intros [O S R F]. unfold initialize. destruct (initialized_ w) eqn:I; [by split; rewrite ?I |].
  destruct (app_ w); cbn [negb]; [| by split; rewrite ?I].
  pose proof (new_loop_spec (tickResolution (options_ w)) (slotCount (options_ w)) (maxEpollEvents (options_ w)) now base (eventLoop_ w) k O) as N.
  destruct (new_loop _ _ _ _ k) as [[l |] k1]; destruct N as (E & M & N).
  2: { split; [done | by apply (sends_move _ _ k) | by rewrite I | intros _; by apply F]. }
  destruct (reset_loop_spec base (Some l) (eventLoop_ w) k1 N (ow_two _ _ _ O) (ow_disj _ _ _ O)) as (O2 & E2 & M2).
  rewrite (F eq_refl) in *. assert (sends bsend None (reset_loop (eventLoop_ w) k1)) as S2 by (apply (sends_move _ _ k); [congruence | congruence | done]).
  destruct (BufferPool.create _ _) as [e | pool]; [by split |]. cbn [new_manager reset_manager sessionManager_].
  split; [by apply (owns_move _ _ (reset_loop (eventLoop_ w) k1)) | | done | done].
  cbn. destruct S2 as [S1 D1 B1]. cbn in S1. rewrite union_empty_r_L in S1.
  split; cbn; [rewrite S1; set_solver | |].
  - assert (made (reset_loop (eventLoop_ w) k1) ∉ bsend) as Nw; [| set_solver]. intros H. rewrite <- S1 in H. apply B1 in H. lia.
  - intros n [-> %elem_of_singleton | H]%elem_of_union; [lia |]. apply B1 in H. lia.
Qed.

Lemma stop_ok base bsend w t k : worker_ok base bsend w k -> worker_ok base bsend (stop w t) k.
Proof. intros [O S R F]. unfold stop, join. cbn. destruct (thread_ w); by split. Qed.

(** Destroying manager and loop. *)
Lemma teardown_ok base bsend w k : worker_ok base bsend w k ->
  let k' := reset_loop (eventLoop_ w) (reset_manager (sessionManager_ w) k) in owns base None k' /\ sends bsend None k'.
Proof.
  intros [O S R F]. cbn zeta. destruct (reset_manager_spec _ _ _ S) as (S' & E & M).
  destruct (reset_loop_spec base None (eventLoop_ w) (reset_manager (sessionManager_ w) k)) as (O' & E2 & M2).
  - destruct O as [O1 O2 O3 O4]. split; cbn; [by rewrite E, O1, union_empty_r_L | set_solver | done | congruence].
  - apply (ow_two _ _ _ O).
  - apply (ow_disj _ _ _ O).
  - split; [done |]. by eapply sends_move.
Qed.

Lemma stop_same w t : sessionManager_ (stop w t) = sessionManager_ w /\ eventLoop_ (stop w t) = eventLoop_ w /\ initialized_ (stop w t) = initialized_ w.
Proof. unfold stop, join. cbn. by destruct (thread_ w). Qed.

Lemma shutdown_ok base bsend w t k : worker_ok base bsend w k -> worker_ok base bsend (shutdown w t k).1 (shutdown w t k).2.
Proof.
  intros W. unfold shutdown. destruct (initialized_ w) eqn:I; cbn [negb]; [| done]. cbn [fst snd].
  destruct (stop_same w t) as (-> & -> & _). destruct (teardown_ok _ _ _ _ W) as [O S]. by split.
Qed.

Lemma runOnce_ok base bsend w t k w' : worker_ok base bsend w k -> runOnce w t = Some w' -> worker_ok base bsend w' k.
Proof.
  intros [O S R F]. unfold runOnce. destruct (initialized_ w) eqn:I; cbn [negb]; [| intros [= <-]; by split; rewrite ?I].
  destruct (eventLoop_ w) as [l |] eqn:L; [| done].
  unfold bindToCurrentThread. destruct (ownerThread_ l) as [o |]; [case_decide; [| done] |]; cbn [mbind option_bind]; intros [= <-].
  - split; [done | done | | done]. intros _. destruct (R eq_refl) as (_ & R'). by split.
  - split; [| done | | done]; [by destruct O; split |]. intros _. destruct (R eq_refl) as (_ & R'). by split.
Qed.

Lemma apply_ok base bsend o x x' : worker_ok base bsend x.1 x.2 -> apply o x = Some x' -> worker_ok base bsend x'.1 x'.2.
Proof.
  destruct x as [w k]. intros W. destruct o as [now | t | t | t]; cbn.
  - pose proof (initialize_ok base bsend w now k W) as H. destruct (initialize w now k) as [[w' b] k']. by intros [= <-].
  - intros [= <-]. by apply shutdown_ok.
  - intros [= <-]. by apply stop_ok.
  - destruct (runOnce w t) as [w' |] eqn:E; [| done]. intros [= <-]. by eapply runOnce_ok.
Qed.

Lemma worker_run_ok base bsend l x x' : worker_ok base bsend x.1 x.2 -> run l x = Some x' -> worker_ok base bsend x'.1 x'.2.
Proof.
  induction l as [| o l IH] in x |- *; cbn; intros W; [by intros [= <-] |].
  destruct (apply o x) as [x1 |] eqn:E; [| done]. apply IH. by eapply apply_ok.
Qed.

(** C23: a worker owns its descriptors exactly: whatever sequence of
    [initialize], [shutdown], [stop] and [runOnce] calls it gets, with any of
    its descriptors refused and any of its members failing to be built, the
    open descriptors are those of before and the two of its loop, none is
    closed twice or for another owner, and destroying the worker leaves those
    of before; an initialised worker has loop, pool and manager; and a session
    handle can reach the sender of a manager exactly as long as that manager
    exists. *)
Theorem worker_owns_resources (o : WorkerOptions) (app : bool) (k : system) (l : list op) (w : WorkerContext) (k' : system) (t : nat) :
  misused k = [] -> (forall n, n ∈ senders k -> (n < made k)%nat) ->
  run l (new_worker o app, k) = Some (w, k') ->
  misused k' = [] /\ open_fds k' = open_fds k ∪ fds (eventLoop_ w) /\ open_fds k ## fds (eventLoop_ w) /\
  (initialized_ w = true -> is_Some (eventLoop w) /\ is_Some (bufferPool w) /\ is_Some (sessionManager w)) /\
  (forall m, sessionManager_ w = Some m -> lock k' (sender_ m) = true /\ lock (delete_worker w t k') (sender_ m) = false) /\
  open_fds (delete_worker w t k') = open_fds k /\ misused (delete_worker w t k') = [] /\ senders (delete_worker w t k') = senders k.
Proof.
  intros Mi Se R. assert (worker_ok (open_fds k) (senders k) (new_worker o app) k) as W0.
  { split; [split; cbn; [by rewrite union_empty_r_L | set_solver | done | done] | split; cbn; [by rewrite union_empty_r_L | set_solver | done] | done | done]. }
  pose proof (worker_run_ok _ _ l (new_worker o app, k) (w, k') W0 R) as W. cbn [fst snd] in W.
  assert (owns (open_fds k) None (delete_worker w t k') /\ sends (senders k) None (delete_worker w t k')) as [Do Ds].
  { unfold delete_worker. destruct (stop_same w t) as (Sm & Sl & Si). pose proof (stop_ok _ _ w t k' W) as W1.
    destruct (initialized_ (stop w t)) eqn:I.
    - pose proof (shutdown_ok _ _ _ t _ W1) as W2. destruct (shutdown (stop w t) t k') as [w2 k2]. by apply teardown_ok.
    - by apply teardown_ok. }
  pose proof (sd_set _ _ _ Ds) as Es. cbn in Es. rewrite union_empty_r_L in Es.
  pose proof (ow_open _ _ _ Do) as Eo. cbn in Eo. rewrite union_empty_r_L in Eo.
  destruct W as [[O1 O2 O3 O4] [S1 S2 S3] Rd Of]. split; [done |]. split; [done |]. split; [done |]. split.
  { intros I. destruct (Rd I) as (? & ? & ?). unfold eventLoop, bufferPool, sessionManager. by rewrite I. }
  split; [| split; [done | split; [apply (ow_fine _ _ _ Do) | done]]].
  intros m E. rewrite E in *. cbn in *. unfold lock. split; [apply bool_decide_eq_true; set_solver | apply bool_decide_eq_false; set_solver].
Qed.

(** Descriptors 0 to 2 are open; the first [eventfd] is refused; the worker is
    initialised, used on the main thread, shut down and initialised again. *)
Definition demo_system : system := mk_system {[0; 1; 2]}%nat [] [true; false] ∅ 0.
Definition demo_options : WorkerOptions := mk_options 1 10 512 64 4096 16 65536 65536 1048576.
Definition demo_ops : list op := [OInitialize 0; OInitialize 5; ORunOnce 0; OInitialize 6; OStop 0; OShutdown 0; OShutdown 0; OInitialize 7]%nat.
Definition demo_end : WorkerContext * system := default (new_worker demo_options true, demo_system) (run demo_ops (new_worker demo_options true, demo_system)).

Lemma worker_owns_resources_witness :
  let w := demo_end.1 in let k' := demo_end.2 in let k := demo_system in
  misused k' = [] /\ open_fds k' = open_fds k ∪ fds (eventLoop_ w) /\ open_fds k ## fds (eventLoop_ w) /\
  (initialized_ w = true -> is_Some (eventLoop w) /\ is_Some (bufferPool w) /\ is_Some (sessionManager w)) /\
  (forall m, sessionManager_ w = Some m -> lock k' (sender_ m) = true /\ lock (delete_worker w 0 k') (sender_ m) = false) /\
  open_fds (delete_worker w 0 k') = open_fds k /\ misused (delete_worker w 0 k') = [] /\ senders (delete_worker w 0 k') = senders k.
Proof.
  apply (worker_owns_resources demo_options true demo_system demo_ops demo_end.1 demo_end.2 0); [reflexivity | | vm_compute; reflexivity].
  intros n H. exfalso. revert H. apply not_elem_of_empty.
Defined.

(** It ends with its two descriptors, the second manager's sender and the
    tables of its options. *)
Example demo_end_state :
  size (open_fds demo_end.2) = 5%nat /\ initialized_ demo_end.1 = true /\ (sender_ <$> sessionManager demo_end.1) = Some 1%nat /\
  lock demo_end.2 0 = false /\ lock demo_end.2 1 = true.
Proof. vm_compute. done. Qed.

(** A handle of a manager that is gone sends nothing. *)
Theorem stale_handle_is_silent (k : system) (m : SessionManager) (id : Z) :
  handle_asks (delete_manager m k) id (Some (sender_ m)) = false.
Proof.
  unfold handle_asks, lock. cbn. rewrite bool_decide_eq_false_2 by set_solver. by rewrite andb_false_r.
Qed.

(** A thread that joins itself is left running and is not joinable any more. *)
Theorem self_join_detaches (w : WorkerContext) (t : nat) :
  thread_ w = Some t -> thread_ (join w t) = None /\ detached (join w t) = true /\
  (forall t', t' <> t -> thread_ (join w t') = None /\ detached (join w t') = detached w).
Proof.
  intros E. unfold join. rewrite E. cbn. rewrite decide_True by done. split_and!; [done | done |].
  intros t' N. by rewrite decide_False by congruence.
Qed.

End Resources.
