(* ===== verification/HttpStatus.v ===== *)
(** * HttpStatus: the metrics page over HTTP

    Models [monitoring/HttpStatusServer.cpp]: the request line parser, the
    routing, the response and the loop that sends it, the accept loop, and the
    life of the server thread (start, stop request, join).

    The other side of the connection is data: what the client sent, and what
    the kernel answers to each send.  The reference the responses are compared
    with is a small HTTP reader ([read_response]). *)

From Stdlib Require Import Ascii.
From stdpp Require Import strings.
From S2P Require Import Prelude World Monitoring.
Import Monitoring.

Module HttpStatus.

(* ------------------------------------------------------------------ *)
(** ** [std::string_view] *)

(** [find(needle)] *)
Fixpoint find (needle s : text) : option nat :=
  if bool_decide (needle `prefix_of` s) then Some O
  else match s with [] => None | _ :: r => S <$> find needle r end.

(** [find(needle, pos)] *)
Definition find_from (needle s : text) (pos : nat) : option nat :=
  if (length s <? pos)%nat then None else (fun i => (pos + i)%nat) <$> find needle (drop pos s).

(** [startsWith] *)
Definition startsWith (s prefix : text) : bool :=
  (length prefix <=? length s)%nat && bool_decide (take (length prefix) s = prefix).

Definition crlf : text := [cr; nl].

(* ------------------------------------------------------------------ *)
(** ** Requests *)

(** [parseRequestTarget_]: the method and the target, or failure. *)
Definition parseRequestTarget_ (req : text) : option (text * text) :=
  eol ← (match find crlf req with Some i => Some i | None => find [nl] req end);
  let line := take eol req in
  sp1 ← find [sp] line;
  sp2 ← find_from [sp] line (S sp1);
  Some (take sp1 line, take (sp2 - S sp1) (drop (S sp1) line)).

(* ------------------------------------------------------------------ *)
(** ** Sending *)

(** The kernel's answer to one [send]: bytes taken, or an errno. *)
Inductive send_answer := Sent (n : Z) | SendErr (errno : Z).

(** How [sendAll_] ended; [Waiting]: it has not, the kernel's answers ran out
    while it polls and tries again. *)
Inductive sent := Done | GaveUp | Waiting.

(** [sendAll_] from offset [off]: the end, the bytes the kernel took and the
    answers left.  A transient error is followed by a [poll] of at most 100
    ms, whatever it returns, and another try. *)
Fixpoint sendAll_ (answers : list send_answer) (data : text) (off : Z) : sent * text * list send_answer :=
  if off <? zlen data then
    match answers with
    | [] => (Waiting, [], [])
    | Sent n :: rest =>
        if 0 <? n then
          let k := Z.min n (zlen data - off) in
          let '(r, out, rest) := sendAll_ rest data (off + k) in (r, slice off k data ++ out, rest)
        else (GaveUp, [], rest)
    | SendErr e :: rest =>
        if (e =? World.EAGAIN) || (e =? World.EINTR) then sendAll_ rest data off else (GaveUp, [], rest)
    end
  else (Done, [], answers).

(** The header of [sendTextResponse_]. *)
Definition header (code : Z) (reason contentType : text) (body : text) : text :=
  lit "HTTP/1.1 " ++ to_string code ++ lit " " ++ reason ++ crlf
  ++ lit "Content-Type: " ++ contentType ++ crlf
  ++ lit "Content-Length: " ++ to_string (zlen body) ++ crlf
  ++ lit "Connection: close" ++ crlf ++ crlf.

(** [sendTextResponse_]: header, then body whatever became of the header. *)
Definition sendTextResponse_ (answers : list send_answer) (code : Z) (reason contentType body : text) : sent * text :=
  let h := header code reason contentType body in
  match sendAll_ answers h 0 with
  | (Waiting, out, _) => (Waiting, out)
  | (_, out, answers) => let '(r, out', _) := sendAll_ answers body 0 in (r, out ++ out')
  end.

(* ------------------------------------------------------------------ *)
(** ** A client *)

(** What [poll] says within 500 ms, what the first [recv] finds ([None]: an
    error) and the answers to the sends. *)
Record client := mk_client {
  poll_rc : Z;
  poll_in : bool;
  arrived : option text;
  answers : list send_answer
}.

(** What became of a client: closed without an answer, or answered with a
    code, how the answer ended and the bytes the kernel took. *)
Inductive served := Dropped | Replied (code : Z) (r : sent) (out : text).

Definition plain : text := lit "text/plain; charset=utf-8".

(** The answer of [handleClient_]: code, reason, content type and body. *)
Definition reply (c : client) (code : Z) (reason contentType body : text) : served :=
  let '(r, out) := sendTextResponse_ (answers c) code reason contentType body in Replied code r out.

Definition handleClient_ (m : EngineMetrics) (c : client) : served :=
  if (poll_rc c <=? 0) || negb (poll_in c) then Dropped
  else match arrived c with
  | None | Some [] => Dropped
  | Some stream =>
      match parseRequestTarget_ (ztake 4096 stream) with
      | None => reply c 400 (lit "Bad Request") plain (lit "bad request" ++ [nl])
      | Some (method, target) =>
          if negb (bool_decide (method = lit "GET")) then
            reply c 405 (lit "Method Not Allowed") plain (lit "method not allowed" ++ [nl])
          else if bool_decide (target = lit "/metrics") || startsWith target (lit "/metrics?") then
            let body := toPrometheusText m in
            reply c 200 (lit "OK") (lit "text/plain; version=0.0.4; charset=utf-8") body
          else reply c 404 (lit "Not Found") plain (lit "not found" ++ [nl])
      end
  end.

(** What [accept] on the listening socket gives. *)
Inductive accept_answer := Conn (c : client) | AcceptErr (errno : Z).

(** [acceptLoop_]: the clients served, in order, and the answers left.  After
    the last answer the socket has nothing more ([EAGAIN]).  A client whose
    answer is still being sent holds the loop. *)
Fixpoint acceptLoop_ (m : EngineMetrics) (q : list accept_answer) : bool * list served * list accept_answer :=
  match q with
  | [] => (true, [], [])
  | Conn c :: q =>
      match handleClient_ m c with
      | Replied code Waiting out => (false, [Replied code Waiting out], q)
      | s => let '(e, l, q) := acceptLoop_ m q in (e, s :: l, q)
      end
  | AcceptErr e :: q =>
      if e =? World.EAGAIN then (true, [], q) else if e =? World.EINTR then acceptLoop_ m q else (true, [], q)
  end.

(* ------------------------------------------------------------------ *)
(** ** The server thread *)

(** Where [threadMain_] is: setting up its socket, before the test of
    [stopRequested_], in [poll], in [acceptLoop_] held by a client that does
    not take its answer. *)
Inductive pc := Setup | Check_ | Poll | Held (q : list accept_answer).

Inductive thread := NoThread | Running (p : pc) | Exited.

(** Where the owner is: between calls, in [requestStop] before it writes to
    the pipe (called by [stopAndJoin] or not), in [join]. *)
Inductive owner := Idle | Waking (join : bool) | Joining.

(** The object; the wake-up pipe is closed or holds a number of bytes. *)
Record server := mk_server {
  started_ : bool;
  stopRequested_ : bool;
  listenSock_ : bool;
  wakeupPipe_ : option nat;
  th_ : thread;
  caller : owner;
  queue : list accept_answer
}.

Definition init : server := mk_server false false false None NoThread Idle [].

(** [start]: the result and the new state. *)
Definition start (pipe_ok : bool) (s : server) : bool * server :=
  if started_ s then (true, s)
  else if pipe_ok then (true, mk_server true false (listenSock_ s) (Some O) (Running Setup) (caller s) (queue s))
  else (false, mk_server false false (listenSock_ s) (wakeupPipe_ s) (th_ s) (caller s) (queue s)).

Definition set_caller (s : server) (c : owner) : server :=
  mk_server (started_ s) (stopRequested_ s) (listenSock_ s) (wakeupPipe_ s) (th_ s) c (queue s).

(** [requestStop] up to its write; [join]: called by [stopAndJoin]. *)
Definition requestStop (join : bool) (s : server) : server :=
  let after := if join then Joining else Idle in
  if negb (started_ s) then set_caller s after
  else if stopRequested_ s then set_caller s after
  else mk_server (started_ s) true (listenSock_ s) (wakeupPipe_ s) (th_ s) (Waking join) (queue s).

(** The write of the wake-up byte. *)
Definition wake (join : bool) (s : server) : server :=
  mk_server (started_ s) (stopRequested_ s) (listenSock_ s) (S <$> wakeupPipe_ s) (th_ s)
    (if join then Joining else Idle) (queue s).

(** [stopAndJoin] once the thread is gone: sockets and pipe closed. *)
Definition join_ (s : server) : server :=
  mk_server false (stopRequested_ s) false None NoThread Idle (queue s).

Definition set_pc (s : server) (t : thread) (listen : bool) (q : list accept_answer) : server :=
  mk_server (started_ s) (stopRequested_ s) listen (wakeupPipe_ s) t (caller s) q.

(** The set-up of [threadMain_]: a step that fails ends the thread. *)
Definition setup (socket_ok bind_ok listen_ok : bool) (s : server) : server :=
  if negb socket_ok then set_pc s Exited false (queue s)
  else if bind_ok && listen_ok then set_pc s (Running Check_) true (queue s)
  else set_pc s Exited true (queue s).

(** The test of the loop. *)
Definition check (s : server) : server :=
  if stopRequested_ s then set_pc s Exited false (queue s) else set_pc s (Running Poll) (listenSock_ s) (queue s).

Definition accepting (m : EngineMetrics) (s : server) (q : list accept_answer) : server :=
  let '(ended, _, q) := acceptLoop_ m q in
  if ended then set_pc s (Running Check_) (listenSock_ s) q else set_pc s (Running (Held q)) (listenSock_ s) [].

(** What [poll] returns: an interruption, another error, an event that is not
    [POLLIN], or readiness. *)
Inductive poll_answer := PollIntr | PollErr | PollOther | Ready.

(** One return of [poll]; with nothing to report it does not return. *)
Definition polled (m : EngineMetrics) (a : poll_answer) (s : server) : option server :=
  match a with
  | PollIntr | PollOther => Some (set_pc s (Running Check_) (listenSock_ s) (queue s))
  | PollErr => Some (set_pc s Exited false (queue s))
  | Ready =>
      match wakeupPipe_ s with
      | Some (S n) =>
          Some (mk_server (started_ s) (stopRequested_ s) false (Some (S n - 32)%nat) Exited (caller s) (queue s))
      | _ => match queue s with [] => None | q => Some (accepting m s q) end
      end
  end.

(** A connection, or an error, arrives at the listening socket. *)
Definition connect (a : accept_answer) (s : server) : server :=
  mk_server (started_ s) (stopRequested_ s) (listenSock_ s) (wakeupPipe_ s) (th_ s) (caller s) (queue s ++ [a]).

Inductive move :=
| MStart (pipe_ok : bool) | MStop (join : bool) | MWake | MJoin
| MSetup (socket_ok bind_ok listen_ok : bool) | MCheck | MPoll (m : EngineMetrics) (a : poll_answer)
| MTaken (m : EngineMetrics) | MConnect (a : accept_answer).

(** [MTaken]: the client that held the accept loop took its answer or went
    away; the loop goes on. *)
Definition step (s : server) (mv : move) : option server :=
  match mv, caller s, th_ s with
  | MStart ok, Idle, _ => Some (snd (start ok s))
  | MStop join, Idle, _ => Some (requestStop join s)
  | MWake, Waking join, _ => Some (wake join s)
  | MJoin, Joining, (NoThread | Exited) => Some (join_ s)
  | MSetup a b c, _, Running Setup => Some (setup a b c s)
  | MCheck, _, Running Check_ => Some (check s)
  | MPoll m a, _, Running Poll => polled m a s
  | MTaken m, _, Running (Held q) => Some (accepting m s (q ++ queue s))
  | MConnect a, _, _ => Some (connect a s)
  | _, _, _ => None
  end.

Fixpoint run (s : server) (l : list move) : option server :=
  match l with [] => Some s | mv :: l => s ← step s mv; run s l end.

(* ------------------------------------------------------------------ *)
(** ** The reader's side *)

(** A text up to and after the first occurrence of the needle. *)
Definition cut (needle s : text) : option (text * text) :=
  (fun i => (take i s, drop (i + length needle) s)) <$> find needle s.

Fixpoint read_headers (fuel : nat) (s : text) : option (list text * text) :=
  match fuel with
  | O => None
  | S fuel =>
      '(line, rest) ← cut crlf s;
      match line with
      | [] => Some ([], rest)
      | _ => '(ls, body) ← read_headers fuel rest; Some (line :: ls, body)
      end
  end.

(** The value of the header with the given name. *)
Definition field (name : string) (ls : list text) : option text :=
  head (omap (fun l => if startsWith l (lit name) then Some (drop (length (lit name)) l) else None) ls).

(** A whole response: the code and the body, which must have the length the
    header says. *)
Definition read_response (s : text) : option (Z * text) :=
  '(status, rest) ← cut crlf s;
  '(ls, body) ← read_headers (length rest) rest;
  n ← field "Content-Length: " ls ≫= number;
  code ← split sp status !! 1%nat ≫= number;
  if zlen body =? n then Some (code, body) else None.

(* ------------------------------------------------------------------ *)
(** ** Finding *)

(** The needle occurs. *)
Definition has (needle s : text) : Prop := exists a b, s = a ++ needle ++ b.

Lemma has_nil needle : needle <> [] -> ~ has needle [].
Proof. intros N (a & b & E). by destruct a, needle. Qed.

Lemma has_cons needle x s : has needle (x :: s) <-> needle `prefix_of` x :: s \/ has needle s.
Proof.
  split.
  - intros ([| y a] & b & E); cbn in E; [left; by exists b | right]. simplify_eq. by exists a, b.
  - intros [[b E] | (a & b & E)]; [by exists [], b |]. exists (x :: a), b. by rewrite E.
Qed.

Lemma find_none needle s : needle <> [] -> find needle s = None <-> ~ has needle s.
Proof.
  intros N. induction s as [| x s IH]; cbn [find]; case_bool_decide as P.
  - by apply prefix_nil_inv in P.
  - split; [intros _; by apply has_nil | done].
  - split; [done |]. intros H. exfalso. apply H, has_cons. by left.
  - rewrite has_cons. destruct (find needle s); cbn; intuition (done || congruence).
Qed.

Lemma find_some needle s i : needle <> [] -> find needle s = Some i ->
  (i <= length s)%nat /\ s = take i s ++ needle ++ drop (i + length needle) s /\ ~ has needle (take i s).
Proof.
  intros N. revert i. induction s as [| x s IH]; intros i; cbn [find]; case_bool_decide as P; [| done | |].
  - by apply prefix_nil_inv in P.
  - intros [= <-]. split; [lia |]. destruct P as [k E]. rewrite E. cbn [take app Nat.add].
    rewrite drop_app_length. split; [done | by apply has_nil].
  - destruct (find needle s) as [j |]; cbn; intros [= <-].
    destruct (IH j eq_refl) as (L & E & H). split; [lia |]. cbn [take drop app Nat.add].
    split; [by rewrite <- E |]. rewrite has_cons. intros [[k Q] | Q]; [| done]. apply P.
    exists (k ++ drop j s). rewrite app_assoc, <- Q. cbn. by rewrite take_drop.
Qed.

(** A needle that is not in the text before it and whose first character does
    not come again is found where it is. *)
Lemma find_app h t l r : ~ has (h :: t) l -> h ∉ t -> find (h :: t) (l ++ (h :: t) ++ r) = Some (length l).
Proof.
  intros H T. induction l as [| x l IH]; cbn [find app length].
  - rewrite bool_decide_true; [done |]. by exists r.
  - rewrite has_cons in H. rewrite bool_decide_false.
    { cbn in IH. rewrite IH by naive_solver. done. }
    intros [k E]. apply H. left. cbn in E. injection E as -> E.
    apply app_eq_inv in E as [(k' & -> & _) | ([| y k'] & -> & E)].
    + by exists k'.
    + exists []. by rewrite !app_nil_r.
    + cbn in E. injection E as <- E. set_solver.
Qed.

Lemma find_single c s i : find [c] s = Some i -> s = take i s ++ c :: drop (S i) s /\ c ∉ take i s.
Proof.
  intros (_ & E & H)%find_some; [| done]. cbn in E. rewrite Nat.add_1_r in E. split; [done |].
  intros (a & b & Q)%list_elem_of_split. apply H. by exists a, b.
Qed.

Lemma find_char c l r : c ∉ l -> find [c] (l ++ c :: r) = Some (length l).
Proof.
  intros N. apply (find_app c []); [| set_solver]. intros (a & b & ->). set_solver.
Qed.

Lemma find_char_none c s : find [c] s = None <-> c ∉ s.
Proof.
  rewrite find_none by done. split; intros H E; apply H.
  - apply list_elem_of_split in E as (a & b & ->). by exists a, b.
  - destruct E as (a & b & ->). set_solver.
Qed.

(* ------------------------------------------------------------------ *)
(** ** The request line *)

(** The first line of a request: up to the first CR LF or, in a text without
    one, up to the first LF. *)
Definition first_line (req line : text) : Prop :=
  (~ has crlf line /\ (exists rest, req = line ++ crlf ++ rest)) \/
  (~ has crlf req /\ (nl ∉ line) /\ (exists rest, req = line ++ nl :: rest)).

(** A request line: a method and a target without spaces, and more. *)
Definition request_line (req method target : text) : Prop :=
  exists version, first_line req (method ++ sp :: target ++ sp :: version) /\ (sp ∉ method) /\ (sp ∉ target).

Lemma parse_complete req method target :
  request_line req method target -> parseRequestTarget_ req = Some (method, target).
Proof.
  intros (v & F & M & T). unfold parseRequestTarget_. set (line := method ++ sp :: target ++ sp :: v) in *.
  assert ((match find crlf req with Some i => Some i | None => find [nl] req end) = Some (length line)
    /\ take (length line) req = line) as [-> L].
  { destruct F as [(H & rest & ->) | (H & N & rest & ->)].
    - unfold crlf. rewrite find_app, take_app_length by (done || set_solver). done.
    - rewrite (proj2 (find_none crlf _ ltac:(done)) H), find_char, take_app_length by done. done. }
  assert (find [sp] line = Some (length method)) as F1 by by apply find_char.
  assert (drop (S (length method)) line = target ++ sp :: v) as D.
  { unfold line. rewrite cons_middle, app_assoc, drop_app_length'; [done |]. rewrite length_app. cbn. lia. }
  assert ((length line <? S (length method)) = false)%nat as F2.
  { apply Nat.ltb_ge. unfold line. rewrite length_app. cbn. lia. }
  assert (take (length method) line = method) as F3 by apply take_app_length.
  clearbody line. cbn [mbind option_bind]. rewrite L, F1. cbn [mbind option_bind]. unfold find_from.
  rewrite F2, D, find_char by done. cbn [mbind option_bind fmap option_fmap option_map].
  rewrite F3. replace (_ - _)%nat with (length target) by lia. by rewrite take_app_length.
Qed.

Lemma parse_sound req method target :
  parseRequestTarget_ req = Some (method, target) -> request_line req method target.
Proof.
  unfold parseRequestTarget_. intros H.
  apply bind_Some in H as (eol & E & H). cbn in H. set (line := take eol req) in *.
  apply bind_Some in H as (sp1 & E1 & H). apply bind_Some in H as (sp2 & E2 & H). injection H as <- <-.
  apply find_single in E1 as [L1 N1]. unfold find_from in E2. destruct (_ <? _)%nat; [done |].
  apply fmap_Some in E2 as (j & E2 & ->). apply find_single in E2 as [L2 N2].
  replace (S sp1 + j - S sp1)%nat with j by lia.
  exists (drop (S j) (drop (S sp1) line)). split_and!; [| done | done].
  rewrite <- L2, <- L1.
  destruct (find crlf req) as [i |] eqn:C.
  - simplify_eq. apply find_some in C as (_ & C & N); [| done]. left. split; [done |]. eauto.
  - apply find_none in C; [| done]. apply find_single in E as [E N]. right. split_and!; [done | done |]. eauto.
Qed.

(* ------------------------------------------------------------------ *)
(** ** Responses are read back *)

Lemma cut_line l r : cr ∉ l -> cut crlf (l ++ crlf ++ r) = Some (l, r).
Proof.
  intros N. unfold cut, crlf at 1 2. rewrite (find_app cr [nl]); [| | set_solver].
  - cbn [fmap option_fmap option_map]. rewrite take_app_length. do 2 f_equal.
    rewrite app_assoc. apply drop_app_length'. by rewrite length_app.
  - intros (a & b & ->). set_solver.
Qed.

Lemma startsWith_spec s p : startsWith s p = true <-> exists q, s = p ++ q.
Proof.
  unfold startsWith. rewrite andb_true_iff, Nat.leb_le, bool_decide_eq_true. split.
  - intros [_ <-]. exists (drop (length p) s). by rewrite take_drop.
  - intros [q ->]. rewrite length_app, take_app_length. split; [lia | done].
Qed.

(** Header lines are read up to the empty one. *)
Lemma read_headers_spec ls body fuel :
  Forall (fun l => l <> [] /\ cr ∉ l) ls -> (length ls < fuel)%nat ->
  read_headers fuel (foldr (fun l r => l ++ crlf ++ r) (crlf ++ body) ls) = Some (ls, body).
Proof.
  intros F. revert fuel. induction F as [| l ls [N C] F IH]; intros [| fuel] L; cbn [length] in L; [lia | | lia |].
  - cbn [read_headers foldr]. change (crlf ++ body) with ([] ++ crlf ++ body). by rewrite cut_line by set_solver.
  - cbn [read_headers foldr]. rewrite cut_line by done. cbn [mbind option_bind].
    destruct l as [| x l]; [done |]. by rewrite IH by lia.
Qed.

Lemma response_roundtrip code reason ctype body :
  0 <= code -> cr ∉ reason -> cr ∉ ctype ->
  read_response (header code reason ctype body ++ body) = Some (code, body).
Proof.
  intros C R T.
  assert (forall v, cr ∉ to_string v) as D by (intros v; by apply digits_avoid).
  set (ls := [lit "Content-Type: " ++ ctype; lit "Content-Length: " ++ to_string (zlen body); lit "Connection: close"]).
  set (status := lit "HTTP/1.1" ++ sp :: to_string code ++ sp :: reason).
  set (rest := foldr (fun l r => l ++ crlf ++ r) (crlf ++ body) ls).
  assert (header code reason ctype body ++ body = status ++ crlf ++ rest) as ->
    by (unfold header, status, rest, ls; cbn [foldr]; by simplify_list_eq).
  unfold read_response. rewrite cut_line by (unfold status; avoid). cbn [mbind option_bind].
  assert (read_headers (length rest) rest = Some (ls, body)) as ->.
  { apply read_headers_spec; [| unfold rest, ls; cbn; repeat (rewrite length_app; cbn); lia].
    unfold ls. repeat constructor; done || avoid. }
  cbn [mbind option_bind].
  assert (field "Content-Length: " ls = Some (to_string (zlen body))) as ->.
  { unfold field, ls. cbn [omap list_omap].
    replace (startsWith (lit "Content-Type: " ++ ctype) _) with false
      by (symmetry; apply andb_false_intro2; by apply bool_decide_eq_false).
    rewrite (proj2 (startsWith_spec _ _)) by eauto. by rewrite drop_app_length. }
  cbn [mbind option_bind]. rewrite number_to_string by apply zlen_nonneg. cbn [mbind option_bind].
  unfold status. rewrite !split_app by (avoid; by apply digits_avoid). cbn [lookup list_lookup mbind option_bind].
  rewrite number_to_string by done. cbn [mbind option_bind]. by rewrite Z.eqb_refl.
Qed.

(* ------------------------------------------------------------------ *)
(** ** Sending to a connection that stays up *)

(** The kernel takes something or asks to wait; it does not fail. *)
Definition benign (a : send_answer) : bool :=
  match a with Sent n => 0 <? n | SendErr e => (e =? World.EAGAIN) || (e =? World.EINTR) end.

(** How often it takes something. *)
Fixpoint progress (l : list send_answer) : Z :=
  match l with [] => 0 | Sent _ :: l => 1 + progress l | SendErr _ :: l => progress l end.

Lemma progress_nonneg l : 0 <= progress l.
Proof. induction l as [| [|] l IH]; cbn; lia. Qed.

(** Either everything is sent, or the answers run out on the way, which needs
    fewer answers with progress than there are bytes. *)
Lemma sendAll_spec l data off : Forall benign l -> 0 <= off <= zlen data ->
  (exists rest, sendAll_ l data off = (Done, zdrop off data, rest) /\ Forall benign rest /\
     progress l - progress rest <= zlen data - off) \/
  (exists out rest, sendAll_ l data off = (Waiting, out, rest) /\ out `prefix_of` zdrop off data /\
     progress l < zlen data - off).
Proof.
  intros F. revert off. induction F as [| a l B F IH]; intros off O; cbn [sendAll_ progress].
  - destruct (off <? zlen data) eqn:L; b2p.
    + right. exists [], []. split_and!; [done | apply prefix_nil | lia].
    + left. exists []. rewrite zdrop_ge by lia. split_and!; [done | done | cbn; lia].
  - destruct (off <? zlen data) eqn:L; b2p.
    2:{ left. exists (a :: l). rewrite zdrop_ge by lia. split_and!; [done | by constructor | destruct a; cbn; lia]. }
    apply Is_true_true in B. destruct a as [n | e]; cbn in B.
    + rewrite B. b2p. set (k := Z.min n (zlen data - off)).
      assert (zdrop off data = slice off k data ++ zdrop (off + k) data) as S.
      { unfold slice. rewrite <- zdrop_zdrop by lia. by rewrite ztake_zdrop. }
      destruct (IH (off + k) ltac:(lia)) as [(rest & -> & R & P) | (out & rest & -> & R & P)].
      * left. exists rest. rewrite S. split_and!; [done | done | lia].
      * right. eexists _, rest. rewrite S. split_and!; [done | by apply prefix_app | lia].
    + rewrite B. apply (IH off O).
Qed.

(** The response as a whole. *)
Lemma sendTextResponse_spec l code reason ctype body : Forall benign l ->
  let whole := header code reason ctype body ++ body in
  exists r out, sendTextResponse_ l code reason ctype body = (r, out) /\ out `prefix_of` whole /\
    (r = Done -> out = whole) /\ (zlen whole <= progress l -> r = Done).
Proof.
  intros F. cbn zeta. set (h := header _ _ _ _). unfold sendTextResponse_. fold h. rewrite zlen_app.
  destruct (sendAll_spec l h 0 F ltac:(zlen_lia)) as [(rest & -> & R & P) | (out & rest & -> & R & P)].
  2:{ exists Waiting, out. rewrite zdrop_0 in R. split_and!; [done | | done | zlen_lia]. by apply prefix_app_r. }
  rewrite zdrop_0. destruct (sendAll_spec rest body 0 R ltac:(zlen_lia)) as [(rest' & -> & _ & P') | (out & rest' & -> & R' & P')].
  - rewrite zdrop_0. by eexists _, _.
  - rewrite zdrop_0 in R'. eexists Waiting, _. split_and!; [done | by apply prefix_app | done | lia].
Qed.

(* ------------------------------------------------------------------ *)
(** ** Clients *)

(** A client that sends a request in time and takes what it is sent. *)
Definition patient (c : client) (stream : text) : Prop :=
  0 < poll_rc c /\ poll_in c = true /\ arrived c = Some stream /\ stream <> [] /\ Forall benign (answers c).

(** The targets of the metrics page. *)
Definition metrics_target (t : text) : Prop := t = lit "/metrics" \/ exists q, t = lit "/metrics?" ++ q.

(** The answer is the response, as far as it gets. *)
Definition answered (m : EngineMetrics) (c : client) (code : Z) (body : text) : Prop :=
  exists r out whole, handleClient_ m c = Replied code r out /\ read_response whole = Some (code, body) /\
    out `prefix_of` whole /\ (r = Done -> out = whole) /\ (zlen whole <= progress (answers c) -> r = Done).

Lemma reply_answered m c code reason ctype body : Forall benign (answers c) ->
  0 <= code -> cr ∉ reason -> cr ∉ ctype -> handleClient_ m c = reply c code reason ctype body ->
  answered m c code body.
Proof.
  intros F C R T E. unfold answered. rewrite E. unfold reply.
  destruct (sendTextResponse_spec (answers c) code reason ctype body F) as (r & out & -> & P & D & L).
  exists r, out, (header code reason ctype body ++ body). split_and!; try done. by apply response_roundtrip.
Qed.

(** Which answer a request gets. *)
Inductive outcome_of (m : EngineMetrics) (req : text) : Z -> text -> Prop :=
| bad_request : (~ exists method target, request_line req method target) ->
    outcome_of m req 400 (lit "bad request" ++ [nl])
| bad_method method target : request_line req method target -> method <> lit "GET" ->
    outcome_of m req 405 (lit "method not allowed" ++ [nl])
| metrics_page target : request_line req (lit "GET") target -> metrics_target target ->
    outcome_of m req 200 (toPrometheusText m)
| not_found target : request_line req (lit "GET") target -> ~ metrics_target target ->
    outcome_of m req 404 (lit "not found" ++ [nl]).

Lemma metrics_target_spec t :
  bool_decide (t = lit "/metrics") || startsWith t (lit "/metrics?") = true <-> metrics_target t.
Proof. rewrite orb_true_iff, bool_decide_eq_true, startsWith_spec. done. Qed.

Lemma request_outcome m c stream : patient c stream ->
  exists code body, outcome_of m (ztake 4096 stream) code body /\ answered m c code body.
Proof.
  intros (P & I & A & N & F).
  assert (H : handleClient_ m c =
    match parseRequestTarget_ (ztake 4096 stream) with
    | None => reply c 400 (lit "Bad Request") plain (lit "bad request" ++ [nl])
    | Some (method, target) =>
        if negb (bool_decide (method = lit "GET")) then
          reply c 405 (lit "Method Not Allowed") plain (lit "method not allowed" ++ [nl])
        else if bool_decide (target = lit "/metrics") || startsWith target (lit "/metrics?") then
          reply c 200 (lit "OK") (lit "text/plain; version=0.0.4; charset=utf-8") (toPrometheusText m)
        else reply c 404 (lit "Not Found") plain (lit "not found" ++ [nl])
    end).
  { unfold handleClient_. rewrite (proj2 (Z.leb_gt _ _) P), I, A. by destruct stream. }
  destruct (parseRequestTarget_ _) as [[method target] |] eqn:E.
  2:{ eexists 400, _. split; [| eapply reply_answered; [done | lia | | | exact H]; by apply avoids_spec].
      apply bad_request. intros (method & target & L%parse_complete). by rewrite L in E. }
  apply parse_sound in E. destruct (bool_decide _) eqn:G in H; cbn [negb] in H.
  2:{ apply bool_decide_eq_false in G. eexists 405, _. split; [by eapply bad_method |].
      eapply reply_answered; [done | lia | | | exact H]; by apply avoids_spec. }
  apply bool_decide_eq_true in G as ->. destruct (_ || _) eqn:T in H.
  - apply metrics_target_spec in T. eexists 200, _. split; [by eapply metrics_page |].
    eapply reply_answered; [done | lia | | | exact H]; by apply avoids_spec.
  - eexists 404, _. split; [eapply not_found; [done |]; by rewrite <- metrics_target_spec, T |].
    eapply reply_answered; [done | lia | | | exact H]; by apply avoids_spec.
Qed.


(* ------------------------------------------------------------------ *)
(** ** The life of the server *)

Definition awake (s : server) : Prop := exists n, wakeupPipe_ s = Some (S n).

(** A running thread belongs to a started server with a pipe; a stop request
    whose byte was written is in the pipe while the thread runs. *)
Record inv (s : server) : Prop := mk_inv {
  inv_started : th_ s <> NoThread -> started_ s = true;
  inv_pipe : started_ s = true -> wakeupPipe_ s <> None;
  inv_awake : forall p, th_ s = Running p -> stopRequested_ s = true -> (forall j, caller s <> Waking j) -> awake s;
  inv_waking : forall j, caller s = Waking j -> stopRequested_ s = true;
  inv_joining : forall p, th_ s = Running p -> caller s = Joining -> stopRequested_ s = true
}.

Lemma accepting_spec m s q : exists p q', accepting m s q = set_pc s (Running p) (listenSock_ s) q'.
Proof. unfold accepting. destruct (acceptLoop_ m q) as [[[] ?] ?]; eauto. Qed.

(** A move of the server thread alone keeps the invariant. *)
Lemma set_pc_inv s t l q : inv s -> (exists p, th_ s = Running p) -> t <> NoThread -> inv (set_pc s t l q).
Proof.
  intros [I1 I2 I3 I4 I5] [p P] N. unfold awake in *. split; cbn; unfold awake; cbn; try done.
  - intros _. apply I1. by rewrite P.
  - intros p' _. by apply (I3 p).
  - intros p' _. by apply (I5 p).
Qed.

Ltac inv_fields := match goal with s : server |- _ => destruct s as [st sr ls pi th ca q] end; cbn in *; subst; split; unfold awake in *; cbn in *; intros; simplify_eq; eauto; naive_solver.

Lemma server_start_inv ok s : inv s -> caller s = Idle -> inv (snd (start ok s)).
Proof. intros [I1 I2 I3 I4 I5] C. unfold start. destruct (started_ s) eqn:S, ok; cbn; inv_fields. Qed.

Lemma requestStop_inv j s : inv s -> caller s = Idle -> inv (requestStop j s).
Proof.
  intros [I1 I2 I3 I4 I5] C. unfold requestStop, set_caller.
  destruct (started_ s) eqn:S, (stopRequested_ s) eqn:R, j; cbn; inv_fields.
Qed.

Lemma wake_inv j s : inv s -> caller s = Waking j -> inv (wake j s).
Proof.
  intros [I1 I2 I3 I4 I5] C. split; cbn [wake started_ stopRequested_ th_ wakeupPipe_ caller].
  - done.
  - intros S. specialize (I2 S). by destruct (wakeupPipe_ s).
  - intros p T _ _. unfold awake; cbn. specialize (I2 (I1 ltac:(by rewrite T))).
    destruct (wakeupPipe_ s) as [n |]; [by exists n | done].
  - by destruct j.
  - intros p _ _. by apply (I4 j).
Qed.

Lemma join_inv s : inv (join_ s).
Proof. by split. Qed.

Lemma polled_inv m a s s' : inv s -> th_ s = Running Poll -> polled m a s = Some s' -> inv s'.
Proof.
  intros I T. destruct a; cbn; intros E; try (injection E as <-; apply set_pc_inv; eauto).
  destruct (wakeupPipe_ s) as [[| n] |] eqn:P; [| injection E as <- |].
  1,3: destruct (queue s) as [| x q]; [done |]; injection E as <-;
       destruct (accepting_spec m s (x :: q)) as (p & q' & ->); apply set_pc_inv; eauto.
  destruct I as [I1 I2 I3 I4 I5]. inv_fields.
Qed.

Lemma connect_inv s a : inv s -> inv (connect a s).
Proof. intros [I1 I2 I3 I4 I5]. by split. Qed.

Lemma server_step_inv s mv s' : inv s -> step s mv = Some s' -> inv s'.
Proof.
  intros I. destruct mv; cbn; destruct (caller s) eqn:C, (th_ s) as [| [| | | r] |] eqn:T; intros E;
    try discriminate E; try (injection E as <-);
    first [by apply server_start_inv | by apply requestStop_inv | by apply wake_inv | apply join_inv | by apply connect_inv
      | by eapply polled_inv
      | (unfold setup, check; repeat case_match; by apply set_pc_inv; eauto)
      | (destruct (accepting_spec m s (r ++ queue s)) as (p & q' & ->); by apply set_pc_inv; eauto)].
Qed.

Lemma server_run_inv l : forall s s', inv s -> run s l = Some s' -> inv s'.
Proof.
  induction l as [| mv l IH]; cbn; intros s s' I E; [by simplify_eq |].
  apply bind_Some in E as (s1 & E1 & E). eapply IH, E. by eapply server_step_inv.
Qed.

Lemma init_inv : inv init.
Proof. by split. Qed.

(** The moves of the server thread. *)
Definition thread_move (mv : move) : bool :=
  match mv with MSetup _ _ _ | MCheck | MPoll _ _ | MTaken _ => true | _ => false end.

(** The moves among them that need no signal or error to happen. *)
Definition ready_move (mv : move) : bool :=
  match mv with MSetup _ _ _ | MCheck | MPoll _ Ready => true | _ => false end.

(** Moves the thread has left once it is asked to stop. *)
Definition left_ (t : thread) : nat :=
  match t with Running Setup | Running Poll => 2 | Running Check_ => 1 | _ => 0 end.

Definition held (t : thread) : bool := match t with Running (Held _) => true | _ => false end.

Lemma stopping_step s mv s' : inv s -> caller s = Joining -> held (th_ s) = false ->
  thread_move mv = true -> step s mv = Some s' ->
  caller s' = Joining /\ held (th_ s') = false /\ (left_ (th_ s') < left_ (th_ s))%nat.
Proof.
  intros I C H M E. destruct mv; try discriminate M; cbn in E; rewrite ?C in E; destruct (th_ s) as [| [] |] eqn:T;
    try discriminate.
  - injection E as <-. unfold setup. destruct socket_ok, bind_ok, listen_ok; cbn; split_and!; done || lia.
  - injection E as <-. unfold check. rewrite (inv_joining s I _ T C). cbn. split_and!; done || lia.
  - destruct (inv_awake s I _ T (inv_joining s I _ T C) ltac:(by rewrite C)) as [n P].
    unfold polled in E. rewrite P in E. destruct a; injection E as <-; cbn; split_and!; done || lia.
Qed.

(** Once [stopAndJoin] waits for the thread, the thread is through after
    at most two more moves whatever the kernel answers, and at every moment
    before that it can move without a signal: it does not sleep in [poll]
    through a stop.  The
    join then leaves the server as it was before the start.  The one exception
    is a thread held by a client that does not take its answer. *)
Theorem stop_ends_status_server l s l' s' : run init l = Some s -> caller s = Joining -> held (th_ s) = false ->
  Forall thread_move l' -> run s l' = Some s' ->
  (length l' <= 2)%nat /\
  ((exists s'', step s' MJoin = Some s'' /\
      (started_ s'', th_ s'', wakeupPipe_ s'', listenSock_ s'', caller s'') = (false, NoThread, None, false, Idle)) \/
   (exists mv s'', ready_move mv = true /\ step s' mv = Some s'')).
Proof.
  intros R C H F E. apply server_run_inv in R; [| apply init_inv].
  enough (inv s' /\ caller s' = Joining /\ held (th_ s') = false /\ (left_ (th_ s') + length l' <= left_ (th_ s))%nat)
    as (I' & C' & H' & L).
  { split; [destruct (th_ s) as [| [] |]; cbn in L; lia |]. cbn. rewrite C'.
    destruct (th_ s') as [| [] |] eqn:T; try done; [left; by exists (join_ s') | right.. | left; by exists (join_ s')].
    - eexists (MSetup true true true), _. split; [done |]. cbn. by rewrite ?C', T.
    - eexists MCheck, _. split; [done |]. cbn. by rewrite ?C', T.
    - destruct (inv_awake s' I' _ T (inv_joining s' I' _ T C') ltac:(by rewrite C')) as [n P].
      eexists (MPoll engineMetrics Ready), _. split; [done |]. cbn. by rewrite ?C', T, P. }
  clear l. revert s E R C H. induction F as [| mv l' M F IH]; intros s; cbn.
  - intros [= ->] R C H. split_and!; done || lia.
  - intros (s1 & E1 & E)%bind_Some R C H. apply Is_true_true in M.
    destruct (stopping_step s mv s1 R C H M E1) as (C1 & H1 & L1).
    destruct (IH s1 E (server_step_inv s mv s1 R E1) C1 H1) as (? & ? & ? & ?). split_and!; done || lia.
Qed.

(* ------------------------------------------------------------------ *)
(** ** Witnesses and limits *)

Definition sample_request : text := lit "GET /metrics?x=1 HTTP/1.1" ++ crlf ++ lit "Host: a" ++ crlf ++ crlf.

(** The kernel asks to wait, then takes three bytes at a time. *)
Definition slow_client : client :=
  mk_client 1 true (Some sample_request) (SendErr World.EAGAIN :: replicate 2000 (Sent 3)).

Definition sample_calls : list call := [onConnectionOpened; onRxMessage; onRxMessage; onError; onConnectionClosed; onConnectionOpened].

Lemma sample_patient : patient slow_client sample_request.
Proof.
  split_and!; try done. cbn [answers slow_client]. constructor; [done |]. by apply Forall_replicate.
Qed.


Definition stop_moves : list move := [MStart true; MSetup true true true; MCheck; MConnect (Conn slow_client);
  MPoll engineMetrics Ready; MCheck; MStop true; MWake].

Lemma stop_ends_status_server_witness :
  exists s s', run init stop_moves = Some s /\ run s [MPoll engineMetrics Ready] = Some s' /\
    (1 <= 2)%nat /\
    ((exists s'', step s' MJoin = Some s'' /\
      (started_ s'', th_ s'', wakeupPipe_ s'', listenSock_ s'', caller s'') = (false, NoThread, None, false, Idle)) \/
     (exists mv s'', ready_move mv = true /\ step s' mv = Some s'')).
Proof.
  eexists _, _. split; [vm_compute; reflexivity |]. split; [vm_compute; reflexivity |].
  eapply (stop_ends_status_server stop_moves _ [MPoll engineMetrics Ready]);
    [vm_compute; reflexivity | reflexivity | reflexivity | by repeat constructor | vm_compute; reflexivity].
Defined.

Lemma sendAll_waits k data : 0 < zlen data -> sendAll_ (replicate k (SendErr World.EAGAIN)) data 0 = (Waiting, [], []).
Proof.
  intros L. induction k as [| k IH]; cbn [sendAll_ replicate]; rewrite (proj2 (Z.ltb_lt _ _) L); [done |]. apply IH.
Qed.

(** A client that never takes its answer holds the thread: however often the
    kernel says to wait, the answer is still going, and the join cannot
    return. *)
Theorem stuck_client_blocks_stop m k : let c := mk_client 1 true (Some sample_request) (replicate k (SendErr World.EAGAIN)) in
  exists s, run init [MStart true; MSetup true true true; MCheck; MConnect (Conn c); MPoll m Ready; MStop true; MWake] = Some s /\
    caller s = Joining /\ held (th_ s) = true /\ step s MJoin = None.
Proof.
  intros c.
  assert (handleClient_ m c = Replied 200 Waiting []) as H.
  { unfold handleClient_. cbn [poll_rc poll_in arrived c]. change (ztake 4096 sample_request) with sample_request.
    unfold sample_request at 1. cbn [Z.leb Z.compare negb orb lit String.list_ascii_of_string app].
    replace (parseRequestTarget_ sample_request) with (Some (lit "GET", lit "/metrics?x=1")) by by vm_compute.
    rewrite bool_decide_true by done. cbn [negb].
    replace (_ || _) with true by by vm_compute. unfold reply, sendTextResponse_. cbn [answers c].
    rewrite sendAll_waits; [done |]. unfold header. rewrite zlen_app. pose proof (zlen_nonneg (lit "HTTP/1.1 ")).
    change (zlen (lit "HTTP/1.1 ")) with 9. zlen_lia. }
  eexists. split; [| split; [| split]].
  { cbn -[handleClient_]. unfold accepting. cbn -[handleClient_]. rewrite H. cbn. reflexivity. }
  all: done.
Qed.

(** [start] reports success although the address cannot be bound, and goes on
    doing so: nothing listens. *)
Theorem failed_bind_reports_success : exists s,
  fst (start true init) = true /\ run init [MStart true; MSetup true false true] = Some s /\
  th_ s = Exited /\ start true s = (true, s).
Proof. eexists. split; [done |]. split; [vm_compute; reflexivity |]. done. Qed.

End HttpStatus.
