(* ===== verification/Lifecycle.v ===== *)
(** * Lifecycle: starting the workers and shutting the engine down

    Models the life of a [WorkerContext] (initialize, start, the worker
    thread's frame around the event loop, stop, join, shutdown, and the
    requests the engine posts to it) and the main thread of [Engine]: starting
    the workers and the five phases of [shutdownGracefully_], with
    [AppCallbackInvoker::postAndWait].

    The main thread, the worker threads, clients and time take turns in any
    order.  An [EventLoop] is a queue of tasks; a worker's loop is gone once
    its [unique_ptr] is reset, and [dangling] records that a raw pointer to
    such a loop was used. *)

From S2P Require Import Prelude.

Module Lifecycle.

(* ------------------------------------------------------------------ *)
(** ** Workers *)

(** The closures posted to a worker's loop; a query carries its promise. *)
Inductive task := TCleanup | TCount (promise : nat) | TCloseAll | TServerStop | TApp.

Inductive thread := NoThread | Running | Finished.

#[export] Instance task_eq_dec : EqDecision task.
Proof. solve_decision. Defined.

#[export] Instance thread_eq_dec : EqDecision thread.
Proof. solve_decision. Defined.

Record worker := mk_worker {
  initialized_ : bool;
  eventLoop_ : option (list task);
  sessionManager_ : option Z;       (** the number of its sessions *)
  acceptor_ : bool;
  listenPort : bool;                (** a listener is configured *)
  running_ : bool;
  thread_ : thread
}.

(** [WorkerContext] with an application: [initialize] and, with a port,
    [configureListener]. *)
Definition create (port : bool) : worker := mk_worker true (Some []) (Some 0) false port false NoThread.

(** [start]: the thread installs the listener ([ok]: socket, bind, listen and
    registration succeed) and either runs or ends; the result is whether
    [start] throws.  When it throws the thread has been joined. *)
Definition start (ok : bool) (w : worker) : worker * bool :=
  match initialized_ w, eventLoop_ w, sessionManager_ w with
  | true, Some q, Some n =>
      if running_ w then (w, false)
      else if listenPort w then
        if ok then (mk_worker true (Some q) (Some n) true true true Running, false)
        else (mk_worker true (Some q) (Some n) false true false NoThread, true)
      else (mk_worker true (Some q) (Some n) false false true Running, false)
  | _, _, _ => (w, false)
  end.

(** [shutdown] up to the join, and after it. *)
Definition stop_flag (w : worker) : worker :=
  mk_worker (initialized_ w) (eventLoop_ w) (sessionManager_ w) (acceptor_ w) (listenPort w) false (thread_ w).
Definition destroy (w : worker) : worker := mk_worker false None None false (listenPort w) (running_ w) NoThread.

(** The end of the worker's thread: [shutdownInOwnerThread] and the listener. *)
Definition finish (w : worker) : worker :=
  mk_worker (initialized_ w) (eventLoop_ w) ((fun _ => 0) <$> sessionManager_ w) false (listenPort w) (running_ w) Finished.

(** [cleanupListenerInWorkerThread_] and [closeAllByPolicy]. *)
Definition cleanupListenerInWorkerThread_ (w : worker) : worker :=
  mk_worker (initialized_ w) (eventLoop_ w) (sessionManager_ w) false (listenPort w) (running_ w) (thread_ w).
Definition closeAll (w : worker) : worker :=
  mk_worker (initialized_ w) (eventLoop_ w) ((fun _ => 0) <$> sessionManager_ w) (acceptor_ w) (listenPort w) (running_ w) (thread_ w).

Definition set_queue (w : worker) (q : list task) : worker :=
  mk_worker (initialized_ w) (Some q) (sessionManager_ w) (acceptor_ w) (listenPort w) (running_ w) (thread_ w).
Definition set_sessions (w : worker) (n : Z) : worker :=
  mk_worker (initialized_ w) (eventLoop_ w) (Some n) (acceptor_ w) (listenPort w) (running_ w) (thread_ w).

(* ------------------------------------------------------------------ *)
(** ** The engine *)

(** Where the main thread is in [shutdownGracefully_]; [i] counts workers,
    [rem] is the sum of the answers so far. *)
Inductive pc :=
| StopAccepting (i : nat)
| Query (i : nat) (rem : Z)
| Await (i : nat) (rem : Z)
| Decide (rem : Z)
| Sleep (until : Z)
| ForceClose (i : nat)
| Linger (until : Z)
| StopWorker (i : nat)
| Join (i : nat)
| ServerStop
| AwaitStop
| StopWorker0
| Join0
| Over.

Record engine := mk_engine {
  workers : list worker;
  main : pc;
  clock : Z;
  deadline : Z;
  promise : nat;                  (** the query main waits for *)
  answer : option Z;
  stopped_cb : bool;              (** onServerStop has returned *)
  dangling : bool
}.

(** What does not change: the two times of the drain phase, whether there is an application, and
    the workers its [onServerStop] posts to. *)
Record setting := mk_setting {
  shutdownDrainTimeout : Z;
  shutdownPollInterval : Z;
  has_app : bool;
  stop_posts : list nat
}.

Definition set_workers e ws := mk_engine ws (main e) (clock e) (deadline e) (promise e) (answer e) (stopped_cb e) (dangling e).
Definition set_main e p := mk_engine (workers e) p (clock e) (deadline e) (promise e) (answer e) (stopped_cb e) (dangling e).
Definition set_answer e a := mk_engine (workers e) (main e) (clock e) (deadline e) (promise e) a (stopped_cb e) (dangling e).
Definition set_cb e := mk_engine (workers e) (main e) (clock e) (deadline e) (promise e) (answer e) true (dangling e).
Definition fresh e := mk_engine (workers e) (main e) (clock e) (deadline e) (S (promise e)) None (stopped_cb e) (dangling e).
Definition use_dead e := mk_engine (workers e) (main e) (clock e) (deadline e) (promise e) (answer e) (stopped_cb e) true.
Definition set_deadline e t := mk_engine (workers e) (main e) (clock e) t (promise e) (answer e) (stopped_cb e) (dangling e).
Definition set_clock e t := mk_engine (workers e) (main e) t (deadline e) (promise e) (answer e) (stopped_cb e) (dangling e).

(** [loop->post(task)] through a raw pointer to the loop of worker [i]. *)
Definition post (e : engine) (i : nat) (t : task) : engine :=
  match workers e !! i with
  | Some w =>
      match eventLoop_ w with
      | Some q => set_workers e (<[i := set_queue w (q ++ [t])]> (workers e))
      | None => use_dead e
      end
  | None => e
  end.

(** [requestStopAccepting] and [requestCloseAllSessions], from the main
    thread: they look at the worker's own pointers first. *)
Definition requestStopAccepting (e : engine) (i : nat) : engine :=
  match workers e !! i with
  | Some w => match eventLoop_ w with Some _ => post e i TCleanup | None => e end
  | None => e
  end.

Definition requestCloseAllSessions (e : engine) (i : nat) : engine :=
  match workers e !! i with
  | Some w => match eventLoop_ w, sessionManager_ w with Some _, Some _ => post e i TCloseAll | _, _ => e end
  | None => e
  end.

(** The next step of the main thread; [None]: it waits.  [late]: the 200 ms of
    [querySessionCountBlocking] are over. *)
Definition main_step (cfg : setting) (late : bool) (e : engine) : option engine :=
  let n := length (workers e) in
  match main e with
  | StopAccepting i =>
      if (i <? n)%nat then Some (set_main (requestStopAccepting e i) (StopAccepting (S i)))
      else Some (set_main (set_deadline e (clock e + shutdownDrainTimeout cfg)) (Query 0 0))
  | Query i rem =>
      match workers e !! i with
      | Some w =>
          match eventLoop_ w, sessionManager_ w with
          | Some _, Some _ => let e := fresh e in Some (set_main (post e i (TCount (promise e))) (Await i rem))
          | _, _ => Some (set_main e (Query (S i) rem))
          end
      | None => Some (set_main e (Decide rem))
      end
  | Await i rem =>
      match answer e with
      | Some c => Some (set_main (set_answer e None) (Query (S i) (rem + c)))
      | None => if late then Some (set_main e (Query (S i) rem)) else None
      end
  | Decide rem =>
      if rem =? 0 then Some (set_main e (StopWorker 1))
      else if deadline e <=? clock e then Some (set_main e (ForceClose 0))
      else Some (set_main e (Sleep (clock e + shutdownPollInterval cfg)))
  | Sleep t => if t <=? clock e then Some (set_main e (Query 0 0)) else None
  | ForceClose i =>
      if (i <? n)%nat then Some (set_main (requestCloseAllSessions e i) (ForceClose (S i)))
      else Some (set_main e (Linger (clock e + 100)))
  | Linger t => if t <=? clock e then Some (set_main e (StopWorker 1)) else None
  | StopWorker i =>
      match workers e !! i with
      | Some w =>
          if initialized_ w then Some (set_main (set_workers e (<[i := stop_flag w]> (workers e))) (Join i))
          else Some (set_main e (StopWorker (S i)))
      | None => Some (set_main e ServerStop)
      end
  | Join i =>
      match workers e !! i with
      | Some w =>
          match thread_ w with
          | Running => None
          | _ => Some (set_main (set_workers e (<[i := destroy w]> (workers e))) (StopWorker (S i)))
          end
      | None => None
      end
  | ServerStop => if has_app cfg then Some (set_main (post e 0 TServerStop) AwaitStop) else Some (set_main e StopWorker0)
  | AwaitStop => if stopped_cb e then Some (set_main e StopWorker0) else None
  | StopWorker0 =>
      match workers e !! 0%nat with
      | Some w =>
          if initialized_ w then Some (set_main (set_workers e (<[0%nat := stop_flag w]> (workers e))) Join0)
          else Some (set_main e Over)
      | None => Some (set_main e Over)
      end
  | Join0 =>
      match workers e !! 0%nat with
      | Some w =>
          match thread_ w with
          | Running => None
          | _ => Some (set_main (set_workers e (<[0%nat := destroy w]> (workers e))) Over)
          end
      | None => None
      end
  | Over => None
  end.

(** A task run by worker [i], whose loop has lost it from its queue. *)
Definition run_task (cfg : setting) (e : engine) (i : nat) (w : worker) (t : task) : engine :=
  match t with
  | TCleanup => set_workers e (<[i := cleanupListenerInWorkerThread_ w]> (workers e))
  | TCount p => if (p =? promise e)%nat then set_answer e (Some (default 0 (sessionManager_ w))) else e
  | TCloseAll => set_workers e (<[i := closeAll w]> (workers e))
  | TServerStop => set_cb (foldl (fun e j => post e j TApp) e (stop_posts cfg))
  | TApp => e
  end.

(** What a worker, its clients and time may do. *)
Inductive move :=
| MMain (late : bool)
| MTask (i : nat)
| MOpen (i : nat)
| MClose (i : nat)
| MExit (i : nat)
| MTime (d : Z).

Definition step (cfg : setting) (e : engine) (m : move) : option engine :=
  match m with
  | MMain late => main_step cfg late e
  | MTime d => if 0 <=? d then Some (set_clock e (clock e + d)) else None
  | MTask i =>
      match workers e !! i with
      | Some w =>
          match thread_ w, eventLoop_ w with
          | Running, Some (t :: q) =>
              let w := set_queue w q in Some (run_task cfg (set_workers e (<[i := w]> (workers e))) i w t)
          | _, _ => None
          end
      | None => None
      end
  | MOpen i =>
      match workers e !! i with
      | Some w =>
          match thread_ w, acceptor_ w, sessionManager_ w with
          | Running, true, Some n => Some (set_workers e (<[i := set_sessions w (n + 1)]> (workers e)))
          | _, _, _ => None
          end
      | None => None
      end
  | MClose i =>
      match workers e !! i with
      | Some w =>
          match thread_ w, sessionManager_ w with
          | Running, Some n => if 0 <? n then Some (set_workers e (<[i := set_sessions w (n - 1)]> (workers e))) else None
          | _, _ => None
          end
      | None => None
      end
  | MExit i =>
      match workers e !! i with
      | Some w =>
          match thread_ w, running_ w with
          | Running, false => Some (set_workers e (<[i := finish w]> (workers e)))
          | _, _ => None
          end
      | None => None
      end
  end.

Fixpoint run (cfg : setting) (e : engine) (l : list move) : option engine :=
  match l with [] => Some e | m :: l => e ← step cfg e m; run cfg e l end.

(* ------------------------------------------------------------------ *)
(** ** Start *)

(** [startWorkers_]: the workers in turn; when one throws, all are stopped and
    shut down. *)
Fixpoint start_all (oks : list bool) (ws : list worker) : list worker * bool :=
  match ws, oks with
  | w :: ws, ok :: oks =>
      match start ok w with
      | (w, true) => (w :: ws, true)
      | (w, false) => let '(ws, thrown) := start_all oks ws in (w :: ws, thrown)
      end
  | _, _ => (ws, false)
  end.

Definition startWorkers_ (oks : list bool) (ws : list worker) : list worker * bool :=
  let '(ws, thrown) := start_all oks ws in
  if thrown then (map (fun w => if initialized_ w then destroy (stop_flag w) else stop_flag w) ws, true) else (ws, false).

(** The main thread as it enters [shutdownGracefully_]. *)
Definition entering (ws : list worker) (now : Z) : engine :=
  mk_engine ws (StopAccepting 0) now 0 0 None false false.

(* ------------------------------------------------------------------ *)
(** ** What state each worker is in *)

Inductive status := Up | Stopping | Gone.

(** The status of worker [i] while the main thread is at [p]. *)
Definition status_of (p : pc) (i : nat) : status :=
  match p with
  | StopWorker k => if decide (1 <= i < k)%nat then Gone else Up
  | Join k => if decide (1 <= i < k)%nat then Gone else if decide (i = k) then Stopping else Up
  | ServerStop | AwaitStop | StopWorker0 => if decide (i = 0%nat) then Up else Gone
  | Join0 => if decide (i = 0%nat) then Stopping else Gone
  | Over => Gone
  | _ => Up
  end.

Definition has_status (st : status) (w : worker) : Prop :=
  match st with
  | Up => initialized_ w = true /\ is_Some (eventLoop_ w) /\ is_Some (sessionManager_ w) /\ running_ w = true /\ thread_ w = Running
  | Stopping => initialized_ w = true /\ is_Some (eventLoop_ w) /\ is_Some (sessionManager_ w) /\ running_ w = false /\ thread_ w <> NoThread
  | Gone => initialized_ w = false /\ eventLoop_ w = None /\ sessionManager_ w = None /\ acceptor_ w = false /\ thread_ w = NoThread
  end.

(** The phase in which the callback may be queued or have run. *)
Definition after_callback (p : pc) : bool :=
  match p with AwaitStop | StopWorker0 | Join0 | Over => true | _ => false end.

Definition queued (e : engine) (t : task) : Prop :=
  exists i w q, workers e !! i = Some w /\ eventLoop_ w = Some q /\ t ∈ q.

(** The application's stop callback posts to worker 0 only, or to a worker
    that is gone by then. *)
Definition posts_home (cfg : setting) (n : nat) : Prop := forall j, j ∈ stop_posts cfg -> j = 0%nat \/ (n <= j)%nat.
Definition posts_away (cfg : setting) (n : nat) : Prop := has_app cfg = true /\ exists j, j ∈ stop_posts cfg /\ (1 <= j < n)%nat.

Record inv (cfg : setting) (n : nat) (e : engine) : Prop := mk_inv {
  inv_n : length (workers e) = n;
  inv_pos : (0 < n)%nat;
  inv_status : forall i w, workers e !! i = Some w -> has_status (status_of (main e) i) w;
  inv_index : forall k, main e = StopWorker k \/ main e = Join k -> (1 <= k)%nat;
  inv_join : forall k, main e = Join k -> (k < n)%nat;
  inv_cb : queued e TServerStop \/ stopped_cb e = true -> after_callback (main e) = true;
  inv_wait : main e = AwaitStop -> stopped_cb e = true \/
    exists w q, workers e !! 0%nat = Some w /\ eventLoop_ w = Some q /\ TServerStop ∈ q;
  inv_told : has_app cfg = true -> main e ∈ [StopWorker0; Join0; Over] -> stopped_cb e = true;
  inv_home : posts_home cfg n -> dangling e = false;
  inv_away : posts_away cfg n -> stopped_cb e = true -> dangling e = true
}.

(* ------------------------------------------------------------------ *)
(** ** Changes that keep the invariant *)

Definition has_callback (w : worker) : Prop := exists q, eventLoop_ w = Some q /\ TServerStop ∈ q.

(** A worker's change that matters to nobody else. *)
Definition alike (w w' : worker) : Prop :=
  (forall st, has_status st w -> has_status st w') /\ (has_callback w <-> has_callback w').

(** The engine's state up to such changes. *)
Record similar (e e' : engine) : Prop := mk_similar {
  si_main : main e' = main e;
  si_cb : stopped_cb e' = stopped_cb e;
  si_n : length (workers e') = length (workers e);
  si_workers : forall i w', workers e' !! i = Some w' -> exists w, workers e !! i = Some w /\ alike w w';
  si_dangling : dangling e = true -> dangling e' = true
}.

Lemma similar_refl e : similar e e.
Proof. split; try done. intros i w E. exists w. by split. Qed.

Lemma alike_trans w1 w2 w3 : alike w1 w2 -> alike w2 w3 -> alike w1 w3.
Proof. intros [A B] [C D]. split; [eauto | by rewrite B]. Qed.

Lemma similar_trans e1 e2 e3 : similar e1 e2 -> similar e2 e3 -> similar e1 e3.
Proof.
  intros [M1 C1 N1 W1 D1] [M2 C2 N2 W2 D2]. split; [congruence.. | | auto].
  intros i w3 E. destruct (W2 i w3 E) as (w2 & E2 & A2). destruct (W1 i w2 E2) as (w1 & E1 & A1).
  exists w1. split; [done | by eapply alike_trans].
Qed.

Lemma similar_update e i w w' : workers e !! i = Some w -> alike w w' -> similar e (set_workers e (<[i := w']> (workers e))).
Proof.
  intros E A. split; cbn; try done; [by rewrite length_insert |].
  intros j w2. destruct (decide (j = i)) as [-> |].
  - rewrite list_lookup_insert_eq by (by eapply lookup_lt_Some). intros [= <-]. by exists w.
  - rewrite list_lookup_insert_ne by done. intros E2. exists w2. split; [done | by split].
Qed.

Lemma similar_inv cfg n e e' : inv cfg n e -> similar e e' -> (posts_home cfg n -> dangling e' = false) -> inv cfg n e'.
Proof.
  intros [In Ip Is Ii Ij Ic Iw It Ih Ia] [M C N W D] H.
  assert (forall i w', workers e' !! i = Some w' -> has_callback w' -> exists w, workers e !! i = Some w /\ has_callback w) as Q.
  { intros i w' E K. destruct (W i w' E) as (w & E' & A). exists w. split; [done |]. by apply A. }
  split; rewrite ?M, ?C; try done.
  - congruence.
  - intros i w' E. destruct (W i w' E) as (w & E' & A). by apply A, Is.
  - intros [(i & w' & q & E & L & T) | X]; apply Ic; [left | by right].
    destruct (Q i w' E) as (w & E' & (q' & L' & T')); [by exists q |]. by exists i, w, q'.
  - intros X. destruct (Iw X) as [| (w & q & E & L & T)]; [by left | right].
    destruct (lookup_lt_is_Some_2 (workers e') 0%nat) as [w' E']; [rewrite N; by eapply lookup_lt_Some |].
    destruct (W _ _ E') as (w2 & E2 & A). simplify_eq. destruct (proj1 (proj2 A)) as (q' & L' & T'); [by exists q |]. eauto.
  - auto.
Qed.

(** Posting anything but the callback. *)
Lemma set_queue_alike w q q' : eventLoop_ w = Some q -> (TServerStop ∈ q <-> TServerStop ∈ q') -> alike w (set_queue w q').
Proof.
  intros L T. split.
  - intros [| |]; cbn; intros (A & B & C & D & E); split_and!; try done; congruence.
  - unfold has_callback. cbn. split.
    + intros (q2 & E2 & X). simplify_eq. eexists. split; [done |]. by apply T.
    + intros (q2 & [= <-] & X). exists q. split; [done |]. by apply T.
Qed.

Definition loop_dead (e : engine) (i : nat) : bool :=
  match workers e !! i with Some w => match eventLoop_ w with None => true | _ => false end | None => false end.

Lemma post_similar e i t : t <> TServerStop -> similar e (post e i t) /\ dangling (post e i t) = dangling e || loop_dead e i
  /\ forall j, loop_dead (post e i t) j = loop_dead e j.
Proof.
  intros T. unfold post, loop_dead. destruct (workers e !! i) as [w |] eqn:E.
  2:{ rewrite orb_false_r. split; [apply similar_refl | done]. }
  destruct (eventLoop_ w) as [q |] eqn:L.
  - rewrite orb_false_r. split; [| split; [done |]].
    + apply (similar_update _ _ w); [done |]. apply (set_queue_alike w q); [done |]. set_solver.
    + intros j. cbn. destruct (decide (j = i)) as [-> |]; [| by rewrite list_lookup_insert_ne].
      rewrite list_lookup_insert_eq by (by eapply lookup_lt_Some). cbn. by rewrite E, L.
  - rewrite orb_true_r. split; [| done]. destruct (similar_refl e) as [M C N W D]. by split.
Qed.

Lemma posts_similar js : forall e, let e' := foldl (fun e j => post e j TApp) e js in
  similar e e' /\ dangling e' = dangling e || existsb (loop_dead e) js.
Proof.
  induction js as [| j js IH]; intros e; cbn; [rewrite orb_false_r; split; [apply similar_refl | done] |].
  destruct (post_similar e j TApp ltac:(done)) as (S & D & L). destruct (IH (post e j TApp)) as (S' & D').
  split; [by eapply similar_trans |]. rewrite D', D, orb_assoc. f_equal. clear -L.
  induction js as [| k js IH]; cbn; [done |]. by rewrite L, IH.
Qed.

(** A worker that runs tasks has its loop. *)
Lemma up_loop cfg n e i w : inv cfg n e -> workers e !! i = Some w -> thread_ w = Running -> status_of (main e) i <> Gone.
Proof. intros I E T S. pose proof (inv_status _ _ _ I i w E) as H. rewrite S in H. destruct H as (_ & _ & _ & _ & H). congruence. Qed.

Lemma similar_core e e' : workers e' = workers e -> main e' = main e -> stopped_cb e' = stopped_cb e ->
  dangling e' = dangling e -> similar e e'.
Proof.
  intros W M C D. split; try congruence. rewrite W. intros i w E. exists w. split; [done | by split].
Qed.

Lemma core_inv cfg n e e' : inv cfg n e -> workers e' = workers e -> main e' = main e -> stopped_cb e' = stopped_cb e ->
  dangling e' = dangling e -> inv cfg n e'.
Proof. intros I W M C D. eapply similar_inv; [exact I | by apply similar_core |]. rewrite D. apply I. Qed.

(** ** Moves of the workers, the clients and time *)

Lemma loop_alike w w' : eventLoop_ w' = eventLoop_ w -> (forall st, has_status st w -> has_status st w') -> alike w w'.
Proof. intros L H. split; [done |]. unfold has_callback. by rewrite L. Qed.

Lemma worker_alike w : alike w (cleanupListenerInWorkerThread_ w) /\ alike w (closeAll w) /\
  (forall k, is_Some (sessionManager_ w) -> alike w (set_sessions w k)) /\
  (thread_ w = Running -> running_ w = false -> alike w (finish w)).
Proof.
  split_and!; intros; apply loop_alike; try done; intros [| |]; cbn; intros (A & B & C & D & E); rewrite ?fmap_is_Some;
    destruct (sessionManager_ w); cbn; split_and!; try done; try congruence; by destruct H.
Qed.

Lemma update_inv cfg n e i w w' : inv cfg n e -> workers e !! i = Some w -> alike w w' ->
  inv cfg n (set_workers e (<[i := w']> (workers e))).
Proof. intros I E A. eapply similar_inv; [exact I | by eapply similar_update | apply I]. Qed.

(** The callback runs: it is worker 0 that runs it, with the others gone. *)
Lemma callback_inv cfg n e i w q : inv cfg n e -> workers e !! i = Some w -> thread_ w = Running ->
  eventLoop_ w = Some (TServerStop :: q) ->
  let e1 := set_workers e (<[i := set_queue w q]> (workers e)) in
  inv cfg n (set_cb (foldl (fun e j => post e j TApp) e1 (stop_posts cfg))).
Proof.
  intros I E T L e1.
  assert (after_callback (main e) = true) as A.
  { apply (inv_cb _ _ _ I). left. exists i, w, (TServerStop :: q). split_and!; [done | done | left]. }
  assert (i = 0%nat) as ->.
  { pose proof (up_loop cfg n e i w I E T) as S. destruct (main e); try discriminate A; cbn in S; by destruct (decide (i = 0%nat)). }
  destruct (posts_similar (stop_posts cfg) e1) as (Sm & D). set (e2 := foldl _ _ _) in *.
  assert (forall j, loop_dead e1 j = if decide (j = 0%nat) then false else loop_dead e j) as Ld.
  { intros j. unfold loop_dead, e1. cbn. destruct (decide (j = 0%nat)) as [-> |]; [| by rewrite list_lookup_insert_ne].
    rewrite list_lookup_insert_eq by (by eapply lookup_lt_Some). done. }
  destruct Sm as [M C N W Dm].
  assert (forall j w', workers e2 !! j = Some w' -> has_status (status_of (main e) j) w') as Hs.
  { intros j w' E'. destruct (W j w' E') as (w1 & E1 & A1). apply A1. cbn in E1. destruct (decide (j = 0%nat)) as [-> |].
    - rewrite list_lookup_insert_eq in E1 by (by eapply lookup_lt_Some). injection E1 as <-.
      pose proof (inv_status _ _ _ I 0%nat w E) as H. destruct (status_of (main e) 0%nat); cbn in *; naive_solver.
    - rewrite list_lookup_insert_ne in E1 by done. by apply I. }
  destruct I as [In Ip Is Ii Ij Ic Iw It Ih Ia].
  assert (length (workers e2) = n) as Ln by (rewrite N; cbn; by rewrite length_insert).
  split; cbn [set_cb workers main stopped_cb dangling]; rewrite ?M; cbn [e1 set_workers main]; try done.
  - by left.
  - intros H. rewrite D. cbn. rewrite (Ih H). cbn. apply not_true_iff_false. intros (j & Hj & X)%existsb_exists.
    rewrite Ld in X. destruct (decide _) as [-> | Nj]; [done |].
    destruct (H j) as [-> | Hn]; [by apply list_elem_of_In | done |]. unfold loop_dead in X.
    rewrite lookup_ge_None_2 in X by lia. done.
  - intros (Ha & j & Hj & Rj) _. rewrite D. apply orb_true_iff. right. apply existsb_exists. exists j.
    split; [by apply list_elem_of_In |]. rewrite Ld, decide_False by lia. unfold loop_dead.
    destruct (lookup_lt_is_Some_2 (workers e) j) as [wj Ej]; [lia |]. rewrite Ej.
    pose proof (Is j wj Ej) as H. replace (status_of (main e) j) with Gone in H.
    + destruct H as (_ & -> & _). done.
    + destruct (main e); try discriminate A; cbn; try (by rewrite decide_False by lia); done.
Qed.

Lemma engine_task_inv cfg n e i w t q : inv cfg n e -> workers e !! i = Some w -> thread_ w = Running ->
  eventLoop_ w = Some (t :: q) ->
  inv cfg n (run_task cfg (set_workers e (<[i := set_queue w q]> (workers e))) i (set_queue w q) t).
Proof.
  intros I E T L. destruct (decide (t = TServerStop)) as [-> | Nt]; [by apply (callback_inv cfg n e i w q) |].
  assert (inv cfg n (set_workers e (<[i := set_queue w q]> (workers e)))) as I1.
  { apply (update_inv _ _ _ _ w); [done | done |]. apply (set_queue_alike w (t :: q)); [done |]. set_solver. }
  assert (workers (set_workers e (<[i := set_queue w q]> (workers e))) !! i = Some (set_queue w q)) as E1
    by (cbn; by rewrite list_lookup_insert_eq by (by eapply lookup_lt_Some)).
  destruct (worker_alike (set_queue w q)) as (A1 & A2 & _).
  destruct t; try done; cbn [run_task].
  - by apply (update_inv _ _ _ _ (set_queue w q)).
  - destruct (_ =? _)%nat; [| done]. by eapply core_inv.
  - by apply (update_inv _ _ _ _ (set_queue w q)).
Qed.

Lemma env_inv cfg n e m e' : (forall late, m <> MMain late) -> inv cfg n e -> step cfg e m = Some e' -> inv cfg n e'.
Proof.
  intros Nm I. destruct m as [late | i | i | i | i | d]; cbn; [by destruct (Nm late) | ..].
  5:{ destruct (0 <=? d); [| done]. intros [= <-]. by eapply core_inv. }
  all: destruct (workers e !! i) as [w |] eqn:E; [| done]; destruct (thread_ w) eqn:T; try done.
  - destruct (eventLoop_ w) as [[| t q] |] eqn:L; try done. intros [= <-]. by apply engine_task_inv.
  - destruct (acceptor_ w), (sessionManager_ w) as [k |] eqn:Sm; try done. intros [= <-].
    apply (update_inv _ _ _ _ w); [done | done |]. apply worker_alike. by rewrite Sm.
  - destruct (sessionManager_ w) as [k |] eqn:Sm; [| done]. destruct (0 <? k); [| done]. intros [= <-].
    apply (update_inv _ _ _ _ w); [done | done |]. apply worker_alike. by rewrite Sm.
  - destruct (running_ w) eqn:R; [done |]. intros [= <-]. apply (update_inv _ _ _ _ w); [done | done |]. by apply worker_alike.
Qed.

(** ** Moves of the main thread *)

Definition early (p : pc) : bool :=
  match p with
  | StopAccepting _ | Query _ _ | Await _ _ | Decide _ | Sleep _ | ForceClose _ | Linger _ => true
  | _ => false
  end.

Lemma early_status p i : early p = true -> status_of p i = Up /\ after_callback p = false.
Proof. by destruct p. Qed.

Lemma early_inv cfg n e p : inv cfg n e -> early (main e) = true -> early p = true -> inv cfg n (set_main e p).
Proof.
  intros [In Ip Is Ii Ij Ic Iw It Ih Ia] E E'. split; cbn [set_main workers main stopped_cb dangling]; try done.
  - intros i w L. rewrite (proj1 (early_status p i E')), <- (proj1 (early_status (main e) i E)). by apply Is.
  - intros k [-> | ->]; done.
  - by intros k ->.
  - intros Q. rewrite (proj2 (early_status p 0 E')). rewrite <- (proj2 (early_status (main e) 0 E)). apply Ic.
    by destruct Q as [Q | Q]; [left | right].
  - by intros ->.
  - intros _ Q. rewrite !elem_of_cons, elem_of_nil in Q. destruct Q as [-> | [-> | [-> | []]]]; done.
Qed.

Lemma post_inv cfg n e i t : inv cfg n e -> t <> TServerStop -> loop_dead e i = false -> inv cfg n (post e i t).
Proof.
  intros I T L. destruct (post_similar e i t T) as (S & D & _). eapply similar_inv; [exact I | exact S |].
  rewrite D, L, orb_false_r. apply I.
Qed.

Lemma status_at cfg n e i w : inv cfg n e -> workers e !! i = Some w -> forall st, status_of (main e) i = st -> has_status st w.
Proof. intros I E st <-. by apply I. Qed.

Lemma up_alive cfg n e i w : inv cfg n e -> workers e !! i = Some w -> status_of (main e) i <> Gone ->
  initialized_ w = true /\ is_Some (eventLoop_ w) /\ is_Some (sessionManager_ w) /\ loop_dead e i = false.
Proof.
  intros I E S. pose proof (inv_status _ _ _ I i w E) as H. unfold loop_dead. rewrite E.
  destruct (status_of (main e) i); [| | done]; destruct H as (A & [q B] & C & _); rewrite B; by eauto.
Qed.

Lemma early_requests cfg n e i : inv cfg n e -> early (main e) = true ->
  (inv cfg n (requestStopAccepting e i) /\ main (requestStopAccepting e i) = main e) /\
  (inv cfg n (requestCloseAllSessions e i) /\ main (requestCloseAllSessions e i) = main e).
Proof.
  intros I E. unfold requestStopAccepting, requestCloseAllSessions.
  destruct (workers e !! i) as [w |] eqn:W; [| done].
  destruct (up_alive cfg n e i w I W) as (_ & [q L] & [k S] & D); [by rewrite (proj1 (early_status _ i E)) |].
  rewrite L, S. split; (split; [by apply post_inv | unfold post; by rewrite W, L]).
Qed.

(** A status change of one worker together with the main thread's step. *)
Lemma stop_inv cfg n e i w w' p : inv cfg n e -> workers e !! i = Some w ->
  has_status (status_of p i) w' -> (forall j, j <> i -> (j < n)%nat -> status_of p j = status_of (main e) j) ->
  (has_callback w' -> has_callback w) ->
  (forall k, p = StopWorker k \/ p = Join k -> (1 <= k)%nat) -> (forall k, p = Join k -> (k < n)%nat) ->
  (after_callback (main e) = true -> after_callback p = true) -> p <> AwaitStop ->
  (has_app cfg = true -> p ∈ [StopWorker0; Join0; Over] -> stopped_cb e = true) ->
  inv cfg n (set_main (set_workers e (<[i := w']> (workers e))) p).
Proof.
  intros [In Ip Is Ii Ij Ic Iw It Ih Ia] E H Hj Hc K1 K2 Ac Na To.
  assert (forall j x, <[i := w']> (workers e) !! j = Some x -> (j = i /\ x = w') \/ (j <> i /\ workers e !! j = Some x)) as Lk.
  { intros j x. destruct (decide (j = i)) as [-> |].
    - rewrite list_lookup_insert_eq by (by eapply lookup_lt_Some). intros [= <-]. by left.
    - rewrite list_lookup_insert_ne by done. by right. }
  split; cbn [set_main set_workers workers main stopped_cb dangling]; try done.
  - by rewrite length_insert.
  - intros j x X. destruct (Lk j x X) as [[-> ->] | [Nj Ej]]; [done |].
    rewrite Hj; [by apply Is | done | rewrite <- In; by eapply lookup_lt_Some].
  - intros Q. apply Ac, Ic. destruct Q as [(j & x & q & X & L & T) | Q]; [left | by right].
    destruct (Lk j x X) as [[-> ->] | [Nj Ej]]; [| by exists j, x, q].
    destruct Hc as (q' & L' & T'); [by exists q |]. by exists i, w, q'.
Qed.

Lemma pc_inv cfg n e p : inv cfg n e -> (forall j, (j < n)%nat -> status_of p j = status_of (main e) j) ->
  (forall k, p = StopWorker k \/ p = Join k -> (1 <= k)%nat) -> (forall k, p = Join k -> (k < n)%nat) ->
  (after_callback (main e) = true -> after_callback p = true) -> p <> AwaitStop ->
  (has_app cfg = true -> p ∈ [StopWorker0; Join0; Over] -> stopped_cb e = true) -> inv cfg n (set_main e p).
Proof.
  intros I S K1 K2 A N T. destruct (lookup_lt_is_Some_2 (workers e) 0%nat) as [w E]; [rewrite (inv_n _ _ _ I); apply I |].
  replace (set_main e p) with (set_main (set_workers e (<[0%nat := w]> (workers e))) p)
    by (rewrite list_insert_id by done; by destruct e).
  apply (stop_inv _ _ _ _ w); try done; [| by intros j _; apply S].
  rewrite S by apply I. by apply I.
Qed.

Ltac plain_pc := first [by intros k [? | ?] | by intros k ? | done | by intros _ ?%elem_of_nil
  | intros _ Q; rewrite !elem_of_cons, elem_of_nil in Q; by destruct Q as [Q | [Q | [Q | Q]]]].

Lemma callback_posted cfg n e : inv cfg n e -> main e = ServerStop -> inv cfg n (set_main (post e 0%nat TServerStop) AwaitStop).
Proof.
  intros I M. destruct (lookup_lt_is_Some_2 (workers e) 0%nat) as [w E]; [rewrite (inv_n _ _ _ I); apply I |].
  destruct (up_alive cfg n e 0%nat w I E) as (_ & [q L] & _ & _); [by rewrite M |].
  unfold post. rewrite E, L. pose proof (inv_status _ _ _ I) as Is. rewrite M in Is.
  destruct I as [In Ip _ Ii Ij Ic Iw It Ih Ia].
  split; cbn [set_main set_workers workers main stopped_cb dangling]; try done.
  - by rewrite length_insert.
  - intros j x. destruct (decide (j = 0%nat)) as [-> | Nj].
    + rewrite list_lookup_insert_eq by (by eapply lookup_lt_Some). intros [= <-].
      pose proof (Is 0%nat w E) as (A & B & C & D). cbn. rewrite decide_True by done. split_and!; [done | by eexists | done | apply D | apply D].
    + rewrite list_lookup_insert_ne by done. apply Is.
  - by intros k [? | ?].
  - intros _. right. rewrite list_lookup_insert_eq by (by eapply lookup_lt_Some).
    eexists _, _. split; [done |]. split; [done |]. set_solver.
  - intros _ Q. rewrite !elem_of_cons, elem_of_nil in Q. by destruct Q as [Q | [Q | [Q | Q]]].
Qed.

Lemma main_early_inv cfg n late e e' : inv cfg n e -> early (main e) = true -> main_step cfg late e = Some e' -> inv cfg n e'.
Proof.
  intros I Ea. unfold main_step. destruct (main e) as [i | i rem | i rem | rem | t | i | t | | | | | | |] eqn:M; try discriminate Ea.
  - destruct (_ <? _)%nat; intros [= <-].
    + destruct (early_requests cfg n e i I) as [[I' M'] _]; [by rewrite M |]. apply early_inv; [done | by rewrite M', M | done].
    + apply early_inv; [by eapply core_inv | by rewrite <- M in Ea | done].
  - destruct (workers e !! i) as [w |] eqn:E; [| intros [= <-]; apply early_inv; [done | by rewrite M | done]].
    destruct (up_alive cfg n e i w I E) as (_ & [q L] & [k S] & D); [by rewrite M |]. rewrite L, S. intros [= <-].
    apply early_inv; [| unfold post; cbn; by rewrite E, L; cbn; rewrite M | done].
    apply post_inv; [by eapply core_inv | done | done].
  - destruct (answer e) as [c |]; [| destruct late; [| done]]; intros [= <-]; (apply early_inv; [| by rewrite <- M in Ea | done]);
      [by eapply core_inv | done].
  - destruct (rem =? 0); [| destruct (_ <=? _)]; intros [= <-].
    2,3: apply early_inv; [done | by rewrite M | done].
    apply pc_inv; [done | | | | by rewrite M | done |]; try plain_pc; [| intros k [[= <-] | ?]; [lia | done]].
    intros j _. rewrite M. cbn. by rewrite decide_False by lia.
  - destruct (_ <=? _); [| done]. intros [= <-]. apply early_inv; [done | by rewrite M | done].
  - destruct (_ <? _)%nat; intros [= <-].
    + destruct (early_requests cfg n e i I) as [_ [I' M']]; [by rewrite M |]. apply early_inv; [done | by rewrite M', M | done].
    + apply early_inv; [done | by rewrite M | done].
  - destruct (_ <=? _); [| done]. intros [= <-].
    apply pc_inv; [done | | | | by rewrite M | done |]; try plain_pc; [| intros k [[= <-] | ?]; [lia | done]].
    intros j _. rewrite M. cbn. by rewrite decide_False by lia.
Qed.

Lemma main_inv cfg n late e e' : inv cfg n e -> main_step cfg late e = Some e' -> inv cfg n e'.
Proof.
  intros I H. destruct (early (main e)) eqn:Ea; [by eapply main_early_inv |]. revert H. unfold main_step.
  pose proof (inv_pos _ _ _ I) as Pn. pose proof (inv_n _ _ _ I) as Ln.
  destruct (main e) as [| | | | | | | i | i | | | | |] eqn:M; try discriminate Ea.
  - pose proof (inv_index _ _ _ I i (or_introl M)) as Ki.
    destruct (workers e !! i) as [w |] eqn:E.
    + assert (has_status Up w) as St by (apply (status_at cfg n e i w I E); rewrite M; cbn; by rewrite decide_False by lia).
      destruct St as (A & B & C & D & T). rewrite A. intros [= <-]. pose proof (lookup_lt_Some _ _ _ E).
      apply (stop_inv _ _ _ _ w); [done | done | | | | | | by rewrite M | done | plain_pc].
      * cbn. rewrite decide_False, decide_True by lia. cbn. split_and!; try done. by rewrite T.
      * intros j Nj _. rewrite M. cbn. destruct (decide (1 <= j < i)%nat); [done |]. by rewrite decide_False.
      * done.
      * intros k [? | [= <-]]; [done | lia].
      * intros k [= <-]. lia.
    + intros [= <-]. apply lookup_ge_None in E. apply pc_inv; [done | | plain_pc | plain_pc | by rewrite M | done | plain_pc].
      intros j Hj. rewrite M. cbn. destruct (decide (j = 0%nat)) as [-> |]; [by rewrite decide_False by lia | by rewrite decide_True by lia].
  - pose proof (inv_index _ _ _ I i (or_intror M)) as Ki.
    destruct (workers e !! i) as [w |] eqn:E; [| done].
    assert (inv cfg n (set_main (set_workers e (<[i := destroy w]> (workers e))) (StopWorker (S i)))) as I'.
    { apply (stop_inv _ _ _ _ w); [done | done | | | | | plain_pc | by rewrite M | done | plain_pc].
      * cbn. by rewrite decide_True by lia.
      * intros j Nj _. rewrite M. cbn. destruct (decide (1 <= j < i)%nat); [by rewrite decide_True by lia |].
        rewrite (decide_False (P := j = i)) by done. by rewrite decide_False by lia.
      * by intros (q & L & _).
      * intros k [[= <-] | ?]; [lia | done]. }
    destruct (thread_ w); [| done |]; by intros [= <-].
  - destruct (has_app cfg) eqn:Ap; intros [= <-]; [by apply callback_posted |].
    apply pc_inv; [done | | plain_pc | plain_pc | by rewrite M | done | by rewrite Ap]. intros j _. by rewrite M.
  - destruct (stopped_cb e) eqn:Cb; [| done]. intros [= <-].
    apply pc_inv; [done | | plain_pc | plain_pc | by rewrite M | done | done]. intros j _. by rewrite M.
  - assert (has_app cfg = true -> stopped_cb e = true) as To by (intros Ap; apply (inv_told _ _ _ I Ap); rewrite M; left).
    destruct (workers e !! 0%nat) as [w |] eqn:E; [| apply lookup_ge_None in E; lia].
    assert (has_status Up w) as (A & B & C & D & T) by (apply (status_at cfg n e 0%nat w I E); by rewrite M).
    rewrite A. intros [= <-].
    apply (stop_inv _ _ _ _ w); [done | done | | | done | plain_pc | plain_pc | by rewrite M | done | by intros ? _; apply To].
    + cbn. split_and!; try done. cbn. congruence.
    + intros j Nj _. rewrite M. cbn. by rewrite !decide_False by done.
  - assert (has_app cfg = true -> stopped_cb e = true) as To by (intros Ap; apply (inv_told _ _ _ I Ap); rewrite M; right; left).
    destruct (workers e !! 0%nat) as [w |] eqn:E; [| done].
    assert (inv cfg n (set_main (set_workers e (<[0%nat := destroy w]> (workers e))) Over)) as I'.
    { apply (stop_inv _ _ _ _ w); [done | done | done | | by intros (q & L & _) | plain_pc | plain_pc | by rewrite M | done | by intros ? _; apply To].
      intros j Nj _. rewrite M. cbn. by rewrite decide_False by done. }
    destruct (thread_ w); [| done |]; by intros [= <-].
  - done.
Qed.

Lemma engine_step_inv cfg n e m e' : inv cfg n e -> step cfg e m = Some e' -> inv cfg n e'.
Proof. intros I. destruct m; [by apply main_inv | ..]; by apply env_inv. Qed.

Lemma engine_run_inv cfg n l : forall e e', inv cfg n e -> run cfg e l = Some e' -> inv cfg n e'.
Proof.
  induction l as [| m l IH]; cbn; intros e e' I E; [by simplify_eq |].
  apply bind_Some in E as (e1 & E1 & E). eapply IH, E. by eapply engine_step_inv.
Qed.

(* ------------------------------------------------------------------ *)
(** ** The shutdown ends *)

(** A bound on the steps the main thread has left: each round of the drain
    phase ends at least a millisecond nearer to the deadline. *)
Definition rank (cfg : setting) (n : Z) (e : engine) : Z :=
  let rounds t := Z.max 0 (deadline e - t) * (2 * n + 4) in
  let left_ i := Z.max 0 (n - Z.of_nat i) in
  match main e with
  | StopAccepting i => 11 + 5 * n + Z.max 0 (shutdownDrainTimeout cfg) * (2 * n + 4) + left_ i
  | Query i _ => 9 + 3 * n + rounds (clock e) + 2 * left_ i
  | Await i _ => 10 + 3 * n + rounds (clock e) + 2 * left_ (S i)
  | Decide _ => 8 + 3 * n + rounds (clock e)
  | Sleep t => 10 + 5 * n + rounds t
  | ForceClose i => 6 + 2 * n + left_ i
  | Linger _ => 5 + 2 * n
  | StopWorker i => 5 + 2 * left_ i
  | Join i => 6 + 2 * left_ (S i)
  | ServerStop => 4
  | AwaitStop => 3
  | StopWorker0 => 2
  | Join0 => 1
  | Over => 0
  end.

Definition rank_of (cfg : setting) (n : Z) (p : pc) (t d : Z) : Z :=
  rank cfg n (mk_engine [] p t d 0 None false false).

Lemma rank_eq cfg n e : rank cfg n e = rank_of cfg n (main e) (clock e) (deadline e).
Proof. done. Qed.

Lemma post_time e i t : main (post e i t) = main e /\ clock (post e i t) = clock e /\ deadline (post e i t) = deadline e.
Proof. unfold post. destruct (workers e !! i) as [w |]; [| done]. by destruct (eventLoop_ w). Qed.

Lemma requests_time e i :
  (clock (requestStopAccepting e i) = clock e /\ deadline (requestStopAccepting e i) = deadline e) /\
  (clock (requestCloseAllSessions e i) = clock e /\ deadline (requestCloseAllSessions e i) = deadline e).
Proof.
  unfold requestStopAccepting, requestCloseAllSessions. destruct (workers e !! i) as [w |]; [| done].
  destruct (eventLoop_ w), (sessionManager_ w); try done; split; try done; apply post_time.
Qed.

Lemma mul_round a b k : 0 <= k -> a <= b - 1 -> a * k <= b * k - k.
Proof. nia. Qed.

Lemma rank_nonneg cfg n e : 0 <= n -> 0 <= rank cfg n e.
Proof. intros H. unfold rank. destruct (main e); nia. Qed.

Lemma main_rank cfg n late e e' : inv cfg n e -> 0 <= shutdownDrainTimeout cfg -> 1 <= shutdownPollInterval cfg ->
  main_step cfg late e = Some e' -> rank cfg (Z.of_nat n) e' < rank cfg (Z.of_nat n) e.
Proof.
  intros I D P. pose proof (inv_n _ _ _ I) as Ln. pose proof (inv_pos _ _ _ I) as Pn.
  unfold main_step. rewrite !rank_eq.
  destruct (main e) as [i | i rem | i rem | rem | t | i | t | i | i | | | | |] eqn:M.
  - destruct (Nat.ltb_spec i (length (workers e))); intros [= <-]; cbn [main clock deadline set_main set_deadline].
    + destruct (proj1 (requests_time e i)) as [-> ->]. unfold rank_of, rank; cbn. lia.
    + unfold rank_of, rank; cbn. replace (clock e + _ - clock e) with (shutdownDrainTimeout cfg) by lia. lia.
  - destruct (workers e !! i) as [w |] eqn:E.
    + pose proof (lookup_lt_Some _ _ _ E). destruct (eventLoop_ w) as [q |], (sessionManager_ w); intros [= <-]; cbn [main clock deadline set_main].
      1: destruct (post_time (fresh e) i (TCount (S (promise e)))) as (_ & -> & ->).
      all: unfold rank_of, rank; cbn; lia.
    + apply lookup_ge_None in E. intros [= <-]. cbn [main clock deadline set_main]. unfold rank_of, rank; cbn. lia.
  - destruct (answer e); [| destruct late; [| done]]; intros [= <-]; unfold rank_of, rank; cbn; lia.
  - destruct (rem =? 0); [| destruct (Z.leb_spec (deadline e) (clock e))]; intros [= <-]; unfold rank_of, rank; cbn [main clock deadline set_main].
    + pose proof (Z.mul_nonneg_nonneg (Z.max 0 (deadline e - clock e)) (2 * Z.of_nat n + 4)). lia.
    + pose proof (Z.mul_nonneg_nonneg (Z.max 0 (deadline e - clock e)) (2 * Z.of_nat n + 4)). lia.
    + pose proof (mul_round (Z.max 0 (deadline e - (clock e + shutdownPollInterval cfg))) (Z.max 0 (deadline e - clock e)) (2 * Z.of_nat n + 4)). lia.
  - destruct (Z.leb_spec t (clock e)); [| done]. intros [= <-]. unfold rank_of, rank; cbn [main clock deadline set_main].
    pose proof (Z.mul_le_mono_nonneg_r (Z.max 0 (deadline e - clock e)) (Z.max 0 (deadline e - t)) (2 * Z.of_nat n + 4)). lia.
  - destruct (Nat.ltb_spec i (length (workers e))); intros [= <-]; cbn [main clock deadline set_main].
    + destruct (proj2 (requests_time e i)) as [-> ->]. unfold rank_of, rank; cbn. lia.
    + unfold rank_of, rank; cbn. lia.
  - destruct (_ <=? _); [| done]. intros [= <-]. unfold rank_of, rank; cbn. lia.
  - destruct (workers e !! i) as [w |] eqn:E.
    + pose proof (lookup_lt_Some _ _ _ E). destruct (initialized_ w); intros [= <-]; unfold rank_of, rank; cbn; lia.
    + intros [= <-]; unfold rank_of, rank; cbn; lia.
  - destruct (workers e !! i) as [w |] eqn:E; [| done]. destruct (thread_ w); [| done |]; intros [= <-]; unfold rank_of, rank; cbn; lia.
  - destruct (has_app cfg); intros [= <-]; unfold rank_of, rank; cbn; lia.
  - destruct (stopped_cb e); [| done]; intros [= <-]; unfold rank_of, rank; cbn; lia.
  - destruct (workers e !! 0%nat) as [w |]; [destruct (initialized_ w) |]; intros [= <-]; unfold rank_of, rank; cbn; lia.
  - destruct (workers e !! 0%nat) as [w |]; [| done]. destruct (thread_ w); [| done |]; intros [= <-]; unfold rank_of, rank; cbn; lia.
  - done.
Qed.

Lemma posts_time js : forall e, let e' := foldl (fun e j => post e j TApp) e js in
  main e' = main e /\ clock e' = clock e /\ deadline e' = deadline e.
Proof.
  induction js as [| j js IH]; intros e; cbn; [done |]. destruct (IH (post e j TApp)) as (A & B & C).
  destruct (post_time e j TApp) as (A' & B' & C'). split_and!; congruence.
Qed.

(** Nobody else moves the main thread, and time only helps. *)
Lemma env_rank cfg n e m e' : (forall late, m <> MMain late) -> step cfg e m = Some e' -> 0 <= n -> rank cfg n e' <= rank cfg n e.
Proof.
  intros Nm H Pn. rewrite !rank_eq.
  enough (main e' = main e /\ clock e <= clock e' /\ deadline e' = deadline e) as (-> & C & ->).
  { unfold rank_of, rank; cbn [main clock deadline]. destruct (main e); try lia.
    all: pose proof (Z.mul_le_mono_nonneg_r (Z.max 0 (deadline e - clock e')) (Z.max 0 (deadline e - clock e)) (2 * n + 4)); lia. }
  revert H. destruct m as [late | i | i | i | i | d]; cbn; [by destruct (Nm late) | ..].
  5:{ destruct (Z.leb_spec 0 d); [| done]. intros [= <-]. cbn. split_and!; done || lia. }
  all: destruct (workers e !! i) as [w |]; [| done]; destruct (thread_ w); try done.
  - destruct (eventLoop_ w) as [[| t q] |]; try done. intros [= <-].
    destruct t; cbn; try (split_and!; done || lia).
    + destruct (_ =? _)%nat; cbn; split_and!; done || lia.
    + set (e1 := set_workers _ _). destruct (posts_time (stop_posts cfg) e1) as (-> & -> & ->). cbn. split_and!; done || lia.
  - destruct (acceptor_ w), (sessionManager_ w); try done. intros [= <-]. cbn. split_and!; done || lia.
  - destruct (sessionManager_ w); [| done]. destruct (0 <? _); [| done]. intros [= <-]. cbn. split_and!; done || lia.
  - destruct (running_ w); [done |]. intros [= <-]. cbn. split_and!; done || lia.
Qed.

Definition is_main (m : move) : bool := match m with MMain _ => true | _ => false end.

(** The steps of the main thread in a run. *)
Definition main_steps (l : list move) : Z := zlen (filter (fun m => is_main m = true) l).

Lemma run_rank cfg n l : 0 <= shutdownDrainTimeout cfg -> 1 <= shutdownPollInterval cfg -> forall e e',
  inv cfg n e -> run cfg e l = Some e' -> main_steps l + rank cfg (Z.of_nat n) e' <= rank cfg (Z.of_nat n) e.
Proof.
  intros D P. unfold main_steps. induction l as [| m l IH]; cbn [run]; intros e e' I E; [simplify_eq; rewrite filter_nil, zlen_nil; lia |].
  apply bind_Some in E as (e1 & E1 & E). pose proof (IH e1 e' (engine_step_inv _ _ _ _ _ I E1) E) as H.
  rewrite filter_cons. destruct (decide _) as [M | M].
  - destruct m; try discriminate M. pose proof (main_rank cfg n late e e1 I D P E1). rewrite zlen_cons. lia.
  - pose proof (env_rank cfg (Z.of_nat n) e m e1 ltac:(by intros late ->) E1 ltac:(lia)). lia.
Qed.

(** Moves of the workers and of time, without the clients and the main thread. *)
Definition unasked (m : move) : bool := match m with MTask _ | MExit _ | MTime _ => true | _ => false end.

(** The main thread can make its next step, after finitely many moves that
    happen by themselves. *)
Definition can_move (cfg : setting) (e : engine) : Prop :=
  exists l late e', Forall unasked l /\ run cfg e (l ++ [MMain late]) = Some e'.

Lemma move_now cfg e late e' : main_step cfg late e = Some e' -> can_move cfg e.
Proof. intros H. exists [], late, e'. split; [constructor |]. cbn. by rewrite H. Qed.

Lemma move_any cfg e late : is_Some (main_step cfg late e) -> can_move cfg e.
Proof. intros [e' H]. by eapply move_now. Qed.

Lemma move_after cfg e m e1 : unasked m = true -> step cfg e m = Some e1 -> can_move cfg e1 -> can_move cfg e.
Proof.
  intros U S (l & late & e' & F & R). exists (m :: l), late, e'. split; [constructor; [by apply Is_true_true | done] |].
  cbn. by rewrite S.
Qed.

(** The callback comes to its turn in the queue of worker 0. *)
Lemma callback_comes cfg n q : forall e w, inv cfg n e -> main e = AwaitStop -> workers e !! 0%nat = Some w ->
  eventLoop_ w = Some q -> TServerStop ∈ q -> can_move cfg e.
Proof.
  induction q as [| t q IH]; intros e w I M E L T; [by apply elem_of_nil in T |].
  assert (has_status Up w) as (_ & _ & _ & _ & Th) by (apply (status_at cfg n e 0%nat w I E); by rewrite M).
  assert (step cfg e (MTask 0) = Some (run_task cfg (set_workers e (<[0%nat := set_queue w q]> (workers e))) 0 (set_queue w q) t)) as S
    by (cbn; by rewrite E, Th, L).
  pose proof (engine_step_inv _ _ _ _ _ I S) as I'. eapply (move_after _ _ (MTask 0)); [done | exact S |].
  assert (forall x, <[0%nat := x]> (<[0%nat := set_queue w q]> (workers e)) !! 0%nat = Some x) as Lk.
  { intros x. rewrite list_lookup_insert_eq; [done |]. rewrite length_insert. by eapply lookup_lt_Some. }
  assert (<[0%nat := set_queue w q]> (workers e) !! 0%nat = Some (set_queue w q)) as Lk1
    by (rewrite list_lookup_insert_eq; [done | by eapply lookup_lt_Some]).
  apply elem_of_cons in T as [<- | T].
  - eapply (move_now _ _ false). unfold main_step. cbn. set (e1 := set_workers _ _).
    destruct (posts_time (stop_posts cfg) e1) as (-> & _). cbn. by rewrite M.
  - destruct t; cbn [run_task] in *.
    + by eapply (IH _ (cleanupListenerInWorkerThread_ (set_queue w q))); [done | done | apply Lk | done | done].
    + destruct (_ =? _)%nat; by eapply (IH _ (set_queue w q)).
    + by eapply (IH _ (closeAll (set_queue w q))); [done | done | apply Lk | done | done].
    + eapply (move_now _ _ false). unfold main_step. cbn. set (e1 := set_workers _ _).
      destruct (posts_time (stop_posts cfg) e1) as (-> & _). cbn. by rewrite M.
    + by eapply (IH _ (set_queue w q)).
Qed.

(** Waiting for a thread that has been told to stop. *)
Lemma join_comes cfg n e i w p : inv cfg n e -> workers e !! i = Some w -> status_of (main e) i = Stopping ->
  (forall e1 w1, main e1 = main e -> workers e1 !! i = Some w1 -> thread_ w1 <> Running -> main_step cfg false e1 = Some (p e1 w1)) ->
  can_move cfg e.
Proof.
  intros I E S H. destruct (status_at cfg n e i w I E _ S) as (_ & _ & _ & R & _).
  destruct (decide (thread_ w = Running)) as [T | T]; [| eapply (move_now _ _ false), H; done].
  eapply (move_after _ _ (MExit i)); [done | cbn; by rewrite E, T, R |]. eapply (move_now _ _ false), H; [done | |].
  - cbn. rewrite list_lookup_insert_eq; [done | by eapply lookup_lt_Some].
  - done.
Qed.

Lemma progress cfg n e : inv cfg n e -> main e <> Over -> can_move cfg e.
Proof.
  intros I N. pose proof (inv_n _ _ _ I) as Ln. pose proof (inv_pos _ _ _ I) as Pn.
  destruct (main e) as [i | i rem | i rem | rem | t | i | t | i | i | | | | |] eqn:M; [..| done].
  1,4,6,10: eapply (move_any _ _ false); unfold main_step; rewrite M; repeat case_match; by eexists.
  - eapply (move_any _ _ false). unfold main_step. rewrite M. destruct (workers e !! i) as [w |]; [| done].
    destruct (eventLoop_ w), (sessionManager_ w); done.
  - eapply (move_any _ _ true). unfold main_step. rewrite M. by destruct (answer e).
  - eapply (move_after _ _ (MTime (Z.max 0 (t - clock e)))); [done | cbn; by rewrite (proj2 (Z.leb_le _ _)) by lia |].
    eapply (move_any _ _ false). unfold main_step. cbn. rewrite M. by rewrite (proj2 (Z.leb_le _ _)) by lia.
  - eapply (move_after _ _ (MTime (Z.max 0 (t - clock e)))); [done | cbn; by rewrite (proj2 (Z.leb_le _ _)) by lia |].
    eapply (move_any _ _ false). unfold main_step. cbn. rewrite M. by rewrite (proj2 (Z.leb_le _ _)) by lia.
  - eapply (move_any _ _ false). unfold main_step. rewrite M. destruct (workers e !! i) as [w |]; [destruct (initialized_ w) |]; done.
  - destruct (lookup_lt_is_Some_2 (workers e) i) as [w E]; [pose proof (inv_join _ _ _ I i M); lia |].
    apply (join_comes cfg n e i w (fun e1 w1 => set_main (set_workers e1 (<[i := destroy w1]> (workers e1))) (StopWorker (S i)))); [done | done | |].
    + rewrite M. cbn. rewrite decide_False by lia. by rewrite decide_True.
    + intros e1 w1 M1 E1 T1. unfold main_step. rewrite M1, M, E1. by destruct (thread_ w1).
  - destruct (inv_wait _ _ _ I M) as [C | (w & q & E & L & T)]; [| by eapply callback_comes].
    eapply (move_any _ _ false). unfold main_step. by rewrite M, C.
  - eapply (move_any _ _ false). unfold main_step. rewrite M. destruct (workers e !! 0%nat) as [w |]; [destruct (initialized_ w) |]; done.
  - destruct (lookup_lt_is_Some_2 (workers e) 0%nat) as [w E]; [lia |].
    apply (join_comes cfg n e 0%nat w (fun e1 w1 => set_main (set_workers e1 (<[0%nat := destroy w1]> (workers e1))) Over)); [done | done | by rewrite M |].
    intros e1 w1 M1 E1 T1. unfold main_step. rewrite M1, M, E1. by destruct (thread_ w1).
Qed.

(** All workers run. *)
Definition serving (ws : list worker) : Prop :=
  ws <> [] /\ Forall (fun w => has_status Up w /\ ~ has_callback w) ws.

Lemma entering_inv cfg ws now : serving ws -> inv cfg (length ws) (entering ws now).
Proof.
  intros [N F]. rewrite Forall_lookup in F. split; cbn [entering workers main stopped_cb dangling]; try done.
  - destruct ws; [done | cbn; lia].
  - intros i w E. by apply (F i w E).
  - by intros k [? | ?].
  - intros [(i & w & q & E & L & T) |]; [| done]. destruct (F i w E) as [_ H]. destruct H. by exists q.
  - intros _ Q. rewrite !elem_of_cons, elem_of_nil in Q. by destruct Q as [Q | [Q | [Q | Q]]].
Qed.


(** [WorkerControllerAppBase::onServerStop] posts to every worker.  With more
    than one worker every shutdown that completes uses the loop of a worker
    that the third phase destroyed. *)
Theorem server_stop_uses_dead_loop cfg ws now l e :
  serving ws -> has_app cfg = true -> stop_posts cfg = List.seq 0 (length ws) -> (1 < length ws)%nat ->
  run cfg (entering ws now) l = Some e -> main e = Over -> dangling e = true.
Proof.
  intros S A P N R M. pose proof (engine_run_inv _ _ _ _ _ (entering_inv cfg ws now S) R) as I.
  apply (inv_away _ _ _ I).
  - split; [done |]. exists 1%nat. split; [| lia]. rewrite P. apply elem_of_seq. lia.
  - apply (inv_told _ _ _ I A). rewrite M. right; right; left.
Qed.

(** When a listener cannot be installed, [startWorkers_] shuts all workers down
    and throws, and the handler of [run] starts the shutdown a second time: it
    posts the application's callback to the destroyed loop of worker 0. *)
Theorem failed_start_uses_dead_loop cfg now : has_app cfg = true ->
  let '(ws, thrown) := startWorkers_ [true; false] [create true; create true] in
  thrown = true /\ exists e, run cfg (entering ws now) (replicate 10 (MMain false)) = Some e /\ dangling e = true.
Proof.
  destruct cfg as [d p [] sp]; [intros _ | done].
  split; [done |]. eexists. split; [vm_compute; reflexivity | done].
Qed.

(** ** A shutdown of two workers *)

Definition demo_workers : list worker := fst (startWorkers_ [true; true] [create true; create true]).
Definition demo_setting : setting := mk_setting 50 10 true [0%nat].
Definition mains (k : nat) : list move := replicate k (MMain false).

(** A client connects, the drain finds it once, it leaves during the sleep. *)
Definition demo_moves : list move :=
  [MOpen 1; MMain false; MMain false; MMain false; MTask 0; MTask 1; MMain false; MTask 0; MMain false;
   MMain false; MTask 1; MMain false; MMain false; MMain false; MClose 1; MTime 10; MMain false;
   MMain false; MTask 0; MMain false; MMain false; MTask 1; MMain false; MMain false;
   MMain false; MMain false; MExit 1; MMain false; MMain false; MMain false; MTask 0; MTask 0; MMain false; MMain false; MExit 0; MMain false].

Lemma demo_serving : serving demo_workers.
Proof. split; [done |]. vm_compute. repeat constructor; try (by eexists); intros (q & [= <-] & []%elem_of_nil). Qed.


(** The same run with the callback of the three programs. *)
Lemma server_stop_uses_dead_loop_witness :
  exists e, run (mk_setting 50 10 true [0; 1]%nat) (entering demo_workers 0) demo_moves = Some e /\ main e = Over /\ dangling e = true.
Proof.
  eexists. split; [vm_compute; reflexivity |]. split; [done |].
  apply (server_stop_uses_dead_loop (mk_setting 50 10 true [0; 1]%nat) demo_workers 0 demo_moves);
    [apply demo_serving | done | done | cbn; lia | vm_compute; reflexivity | done].
Defined.

End Lifecycle.
