(* ===== verification/EngineRun.v ===== *)
(** * EngineRun: the main thread, signals and calls of [stop]

    Models [Engine::run], [initSignalWait_], [resetForRun_], [waitForStop_],
    [requestStop_] and [stop] at the level of the single atomic accesses: the
    main thread, any number of threads that call [stop], and signals from
    outside take turns in any order.  Starting the workers and the shutdown
    are one step each here; [Lifecycle] models them in detail, and
    [HttpStatus] the server behind [metricsServer_].

    Signals are blocked once [initSignalWait_] has run, and then stay pending
    until [sigwait] takes them; a pending signal is not queued twice.  Before
    that their default action ends the process. *)

From S2P Require Import Prelude.

Module EngineRun.

(* ------------------------------------------------------------------ *)
(** ** State *)

Inductive EngineState := Stopped | Running | Stopping.
Inductive StopSource := NoSource | Api | Signal.
Inductive signal := SIGINT | SIGTERM | SIGQUIT | SIGUSR1.

#[export] Instance EngineState_eq_dec : EqDecision EngineState.
Proof. solve_decision. Defined.
#[export] Instance StopSource_eq_dec : EqDecision StopSource.
Proof. solve_decision. Defined.
#[export] Instance signal_eq_dec : EqDecision signal.
Proof. solve_decision. Defined.

Definition kWakeSignal : signal := SIGUSR1.
Definition signo (s : signal) : Z := match s with SIGINT => 2 | SIGQUIT => 3 | SIGUSR1 => 10 | SIGTERM => 15 end.

(** Where a thread is in [requestStop_]. *)
Inductive request := Cas | StoreSignal | StoreState | StoreRunning | LoadMetrics | UseMetrics.

(** Where a caller of [stop] is. *)
Inductive caller := Requesting (r : request) | CheckTid | Kill | Finished.

#[export] Instance request_eq_dec : EqDecision request.
Proof. solve_decision. Defined.
#[export] Instance caller_eq_dec : EqDecision caller.
Proof. solve_decision. Defined.

(** Where the main thread is in [run]; [threw]: it came through a handler. *)
Inductive pc :=
| Enter
| Init
| Reset (k : nat)
| StartMetrics
| StartServer
| StartWorkers
| Check
| Wait
| Woken (s : signal)
| Request (s : signal) (r : request)
| Handler
| Shutdown (threw : bool)
| StopMetrics (threw : bool)
| StoreStopped (threw : bool)
| Unready (threw : bool)
| Returned (threw : bool).

Record engine := mk_engine {
  main : pc;
  callers : list caller;
  running_ : bool;
  state_ : EngineState;
  stopSource_ : StopSource;
  stopSignal_ : Z;
  mainTidReady_ : bool;
  metricsServer_ : bool;          (** the pointer is set *)
  blocked : bool;
  pending : list signal;
  killed : bool;                  (** the process was ended by a signal *)
  use_after_free : bool           (** a destroyed server was called *)
}.

Definition set_main e p := mk_engine p (callers e) (running_ e) (state_ e) (stopSource_ e) (stopSignal_ e) (mainTidReady_ e) (metricsServer_ e) (blocked e) (pending e) (killed e) (use_after_free e).
Definition set_callers e l := mk_engine (main e) l (running_ e) (state_ e) (stopSource_ e) (stopSignal_ e) (mainTidReady_ e) (metricsServer_ e) (blocked e) (pending e) (killed e) (use_after_free e).
Definition set_running e b := mk_engine (main e) (callers e) b (state_ e) (stopSource_ e) (stopSignal_ e) (mainTidReady_ e) (metricsServer_ e) (blocked e) (pending e) (killed e) (use_after_free e).
Definition set_state e s := mk_engine (main e) (callers e) (running_ e) s (stopSource_ e) (stopSignal_ e) (mainTidReady_ e) (metricsServer_ e) (blocked e) (pending e) (killed e) (use_after_free e).
Definition set_source e s := mk_engine (main e) (callers e) (running_ e) (state_ e) s (stopSignal_ e) (mainTidReady_ e) (metricsServer_ e) (blocked e) (pending e) (killed e) (use_after_free e).
Definition set_signal e n := mk_engine (main e) (callers e) (running_ e) (state_ e) (stopSource_ e) n (mainTidReady_ e) (metricsServer_ e) (blocked e) (pending e) (killed e) (use_after_free e).
Definition set_ready e b := mk_engine (main e) (callers e) (running_ e) (state_ e) (stopSource_ e) (stopSignal_ e) b (metricsServer_ e) (blocked e) (pending e) (killed e) (use_after_free e).
Definition set_metrics e b := mk_engine (main e) (callers e) (running_ e) (state_ e) (stopSource_ e) (stopSignal_ e) (mainTidReady_ e) b (blocked e) (pending e) (killed e) (use_after_free e).
Definition set_blocked e := mk_engine (main e) (callers e) (running_ e) (state_ e) (stopSource_ e) (stopSignal_ e) (mainTidReady_ e) (metricsServer_ e) true (pending e) (killed e) (use_after_free e).
Definition set_pending e l := mk_engine (main e) (callers e) (running_ e) (state_ e) (stopSource_ e) (stopSignal_ e) (mainTidReady_ e) (metricsServer_ e) (blocked e) l (killed e) (use_after_free e).
Definition set_killed e := mk_engine (main e) (callers e) (running_ e) (state_ e) (stopSource_ e) (stopSignal_ e) (mainTidReady_ e) (metricsServer_ e) (blocked e) (pending e) true (use_after_free e).
Definition set_freed_use e := mk_engine (main e) (callers e) (running_ e) (state_ e) (stopSource_ e) (stopSignal_ e) (mainTidReady_ e) (metricsServer_ e) (blocked e) (pending e) (killed e) true.

(** The members' initial values. *)
Definition fresh : engine := mk_engine Enter [] false Stopped NoSource 0 false false false [] false false.

(* ------------------------------------------------------------------ *)
(** ** Steps *)

(** A signal arrives: pending once, or the default action. *)
Definition raise (e : engine) (s : signal) : engine :=
  if blocked e then set_pending e (if decide (s ∈ pending e) then pending e else pending e ++ [s]) else set_killed e.

(** One access of [requestStop_(src, n)]; [None]: it has returned. *)
Definition request_step (src : StopSource) (n : Z) (r : request) (e : engine) : engine * option request :=
  match r with
  | Cas => if decide (stopSource_ e = NoSource) then (set_source e src, Some StoreSignal) else (e, None)
  | StoreSignal => (set_signal e n, Some StoreState)
  | StoreState => (set_state e Stopping, Some StoreRunning)
  | StoreRunning => (set_running e false, Some LoadMetrics)
  | LoadMetrics => (e, if metricsServer_ e then Some UseMetrics else None)
  | UseMetrics => (if metricsServer_ e then e else set_freed_use e, None)
  end.

(** One access of [stop], by the caller at [c]. *)
Definition caller_step (c : caller) (e : engine) : option (engine * caller) :=
  match c with
  | Requesting r =>
      let '(e, r') := request_step Api 0 r e in
      Some (e, match r' with Some r' => Requesting r' | None => CheckTid end)
  | CheckTid => Some (e, if mainTidReady_ e then Kill else Finished)
  | Kill => Some (raise e kWakeSignal, Finished)
  | Finished => None
  end.

(** [resetForRun_], one store after the other (the reset of the counters has no
    part here). *)
Definition resetForRun_ (k : nat) (e : engine) : engine :=
  match k with
  | 0%nat => set_source e NoSource
  | 1%nat => set_signal e 0
  | 2%nat => set_state e Running
  | _ => set_running e true
  end.

(** What may go wrong while starting: an exception, or one that passes
    [startWorkers_], which then has stored two members. *)
Inductive fault := NoFault | Throws | StartFails.

(** A step of the main thread other than [sigwait].  [metrics]: a port is
    configured. *)
Definition main_step (metrics : bool) (bad : fault) (e : engine) : option engine :=
  match main e with
  | Enter => Some (set_main (set_ready e true) Init)
  | Init => Some (set_main (set_blocked e) (Reset 0))
  | Reset k => Some (set_main (resetForRun_ k e) (if (k <? 3)%nat then Reset (S k) else StartMetrics))
  | StartMetrics =>
      if metrics then
        match bad with
        | NoFault => Some (set_main (set_metrics e true) StartServer)
        | _ => Some (set_main e Handler)
        end
      else Some (set_main e StartWorkers)
  | StartServer =>
      match bad with
      | NoFault => Some (set_main e StartWorkers)
      | _ => Some (set_main (set_metrics e false) Handler)
      end
  | StartWorkers =>
      match bad with
      | NoFault => Some (set_main e Check)
      | Throws => Some (set_main e Handler)
      | StartFails => Some (set_main (set_state (set_running e false) Stopped) Handler)
      end
  | Check => Some (set_main e (if running_ e then Wait else Shutdown false))
  | Wait => None
  | Woken s =>
      if decide (s = kWakeSignal) then Some (set_main e (if running_ e then Wait else Shutdown false))
      else Some (set_main e (Request s Cas))
  | Request s r =>
      let '(e, r') := request_step Signal (signo s) r e in
      Some (set_main e (match r' with Some r' => Request s r' | None => Shutdown false end))
  | Handler => Some (set_main (set_running e false) (Shutdown true))
  | Shutdown t => Some (set_main e (StopMetrics t))
  | StopMetrics t => Some (set_main (set_metrics e false) (StoreStopped t))
  | StoreStopped t => Some (set_main (set_state e Stopped) (Unready t))
  | Unready t => Some (set_main (set_ready e false) (Returned t))
  | Returned _ => None
  end.

Inductive move :=
| MMain (bad : fault)
| MSigwait (s : signal)           (** [sigwait] returns the pending signal [s] *)
| MStop                           (** another thread calls [stop] *)
| MCaller (i : nat)
| MSignal (s : signal).           (** from outside *)

Definition step (metrics : bool) (e : engine) (m : move) : option engine :=
  if killed e then None else
  match m with
  | MMain bad => main_step metrics bad e
  | MSigwait s =>
      match main e with
      | Wait => if decide (s ∈ pending e) then Some (set_main (set_pending e (filter (fun x => x <> s) (pending e))) (Woken s)) else None
      | _ => None
      end
  | MStop => Some (set_callers e (callers e ++ [Requesting Cas]))
  | MCaller i =>
      c ← callers e !! i;
      '(e, c) ← caller_step c e;
      Some (set_callers e (<[i := c]> (callers e)))
  | MSignal s => Some (raise e s)
  end.

Fixpoint run (metrics : bool) (e : engine) (l : list move) : option engine :=
  match l with
  | [] => Some e
  | m :: l => e ← step metrics e m; run metrics e l
  end.

(* ------------------------------------------------------------------ *)
(** ** Invariant of a run after the reset *)

(** A caller that has won the race and not yet cleared [running_]; a caller that
    will send the wake-up signal. *)
Definition clearing (c : caller) : bool :=
  match c with Requesting StoreSignal | Requesting StoreState | Requesting StoreRunning => true | _ => false end.
Definition waking (c : caller) : bool :=
  match c with Requesting LoadMetrics | Requesting UseMetrics | CheckTid | Kill => true | _ => false end.

(** Positions of the main thread. *)
Definition past_reset (p : pc) : bool := match p with Enter | Init | Reset _ => false | _ => true end.
Definition up (p : pc) : bool := match p with Returned _ => false | _ => true end.
Definition about_to_clear (p : pc) : bool :=
  match p with Request _ StoreSignal | Request _ StoreState | Request _ StoreRunning | Handler => true | _ => false end.
Definition failing (p : pc) : bool :=
  match p with Handler | Shutdown true | StopMetrics true | StoreStopped true | Unready true | Returned true => true | _ => false end.

(** The main thread left [waitForStop_]. *)
Definition told (p : pc) : bool :=
  match p with Shutdown false | StopMetrics false | StoreStopped false | Unready false | Returned false => true
  | Request _ r => negb (bool_decide (r = Cas)) | _ => false end.

Record inv (e : engine) : Prop := {
  inv_killed : killed e = false;
  inv_blocked : blocked e = true;
  inv_past : past_reset (main e) = true;
  inv_ready : up (main e) = true -> mainTidReady_ e = true;
  inv_wait : main e = Wait -> running_ e = true \/ kWakeSignal ∈ pending e \/ Exists (fun c => waking c = true) (callers e);
  inv_source : stopSource_ e <> NoSource -> running_ e = false \/ Exists (fun c => clearing c = true) (callers e) \/ about_to_clear (main e) = true;
  inv_told : told (main e) = true -> stopSource_ e <> NoSource;
  inv_running : running_ e = false -> stopSource_ e <> NoSource \/ failing (main e) = true;
  inv_clearing : Exists (fun c => clearing c = true) (callers e) -> stopSource_ e <> NoSource
}.

(** The engine after [resetForRun_], when no call of [stop] is in flight. *)
Record ready_to_serve (e : engine) : Prop := {
  rs_main : main e = StartMetrics;
  rs_callers : Forall (fun c => c = Finished) (callers e);
  rs_running : running_ e = true;
  rs_source : stopSource_ e = NoSource;
  rs_ready : mainTidReady_ e = true;
  rs_blocked : blocked e = true;
  rs_killed : killed e = false
}.

Lemma ready_inv e : ready_to_serve e -> inv e.
Proof.
  intros [M C R S T B K]. split; rewrite ?M, ?S, ?R; try done.
  rewrite Exists_exists. intros (c & Hc & Cl). rewrite Forall_forall in C. by rewrite (C c Hc) in Cl.
Qed.

Lemma Exists_insert {A} (P : A -> Prop) l i x y : l !! i = Some x -> (P x -> P y) -> Exists P l -> Exists P (<[i := y]> l).
Proof.
  intros E H. rewrite !Exists_exists. intros (z & (j & Ej)%list_elem_of_lookup & Pz).
  destruct (decide (j = i)) as [-> | N].
  - simplify_eq. exists y. split; [| auto]. apply list_elem_of_lookup. exists i. apply list_lookup_insert_eq. by eapply lookup_lt_Some.
  - exists z. split; [| done]. apply list_elem_of_lookup. exists j. by rewrite list_lookup_insert_ne.
Qed.

Lemma Exists_at {A} (P : A -> Prop) l i x y : l !! i = Some x -> P y -> Exists P (<[i := y]> l).
Proof.
  intros E H. apply Exists_exists. exists y. split; [| done]. apply list_elem_of_lookup. exists i.
  apply list_lookup_insert_eq. by eapply lookup_lt_Some.
Qed.

Lemma Exists_insert_inv {A} (P : A -> Prop) l i y : Exists P (<[i := y]> l) -> P y \/ Exists P l.
Proof.
  rewrite !Exists_exists. intros (z & (j & Ej)%list_elem_of_lookup & Pz).
  apply list_lookup_insert_Some in Ej as [(-> & -> & _) | [_ Ej]]; [by left |]. right. exists z. split; [| done]. by eapply list_elem_of_lookup_2.
Qed.

Ltac settle := split; cbn; try done; try (intuition (done || congruence)).

Lemma raise_inv e s : inv e -> inv (raise e s).
Proof.
  intros [K B P T W S D R C]. unfold raise. rewrite B. split; cbn; try done.
  intros M. destruct (W M) as [? | [Hp | ?]]; auto. right; left. destruct (decide _); [done |]. apply elem_of_app. by left.
Qed.

Lemma main_thread_inv metrics bad e e' : inv e -> main_step metrics bad e = Some e' -> inv e'.
Proof.
  intros [K B P T W S D R C]. unfold main_step. destruct e as [m cs rn st so sn rd ms bl pe ki uf]; cbn in *.
  destruct m as [| | k | | | | | | s | s r | | [] | [] | [] | [] | []]; cbn in *; try done.
  7-15: by intros [= <-]; settle.
  - destruct metrics, bad; intros [= <-]; settle.
  - destruct bad; intros [= <-]; settle.
  - destruct bad; intros [= <-]; settle.
  - intros [= <-]. destruct rn; settle.
  - destruct (decide (s = kWakeSignal)); intros [= <-]; [destruct rn |]; settle.
  - destruct r; cbn; [destruct (decide (so = NoSource)) | | | | destruct ms | destruct ms]; intros [= <-]; settle.
Qed.

Lemma sigwait_inv e s : inv e -> main e = Wait -> inv (set_main (set_pending e (filter (fun x => x <> s) (pending e))) (Woken s)).
Proof. intros [K B P T W S D R C] M. rewrite M in *. settle. Qed.

Lemma call_inv e : inv e -> inv (set_callers e (callers e ++ [Requesting Cas])).
Proof.
  intros [K B P T W S D R C]. split; cbn; try done; rewrite ?Exists_app, ?Exists_cons, ?Exists_nil; try (intuition done).
Qed.

Lemma caller_inv e e' i c c' : inv e -> callers e !! i = Some c -> caller_step c e = Some (e', c') ->
  inv (set_callers e' (<[i := c']> (callers e'))).
Proof.
  intros I E H.
  assert (callers e' = callers e /\ main e' = main e) as [Ce Me].
  { revert H. unfold caller_step, request_step, raise. destruct c as [[] | | |]; cbn; repeat case_match; intros [= <- <-]; simplify_eq; done. }
  assert (forall P : caller -> Prop, P c' -> Exists P (<[i := c']> (callers e))) as At by (intros P; by eapply Exists_at).
  assert (forall P : caller -> Prop, (P c -> P c') -> Exists P (callers e) -> Exists P (<[i := c']> (callers e))) as Keep by (intros P; by eapply Exists_insert).
  assert (clearing c = true -> stopSource_ e <> NoSource) as Hc.
  { intros Hc. apply (inv_clearing _ I), Exists_exists. exists c. split; [by eapply list_elem_of_lookup_2 | done]. }
  pose proof (raise_inv e kWakeSignal I) as Ir.
  destruct I as [K B P T W S D R C]. rewrite Ce.
  assert (forall Q : caller -> Prop, (Q c -> Q c') -> (Q c' -> Q c) -> (Exists Q (<[i := c']> (callers e)) <-> Exists Q (callers e))) as Same.
  { intros Q H1 H2. split; [| by apply Keep]. intros [? | ?]%Exists_insert_inv; [| done]. apply Exists_exists. exists c.
    split; [by eapply list_elem_of_lookup_2 | auto]. }
  destruct c as [[] | | |]; cbn in H, Hc; cbn [caller_step] in H.
  - destruct (decide (stopSource_ e = NoSource)) as [N | N]; simplify_eq; split; cbn; try done.
    + by rewrite Same.
    + intros _. right; left. by apply At.
    + by left.
    + intros _. right; right. by apply At.
    + by rewrite Same.
  - simplify_eq. split; cbn; rewrite ?Same; done.
  - simplify_eq. split; cbn; rewrite ?Same; done.
  - simplify_eq. split; cbn; try done; auto.
  - destruct (metricsServer_ e); simplify_eq; split; cbn; rewrite ?Same; done.
  - destruct (metricsServer_ e); simplify_eq; split; cbn; rewrite ?Same; done.
  - destruct (mainTidReady_ e) eqn:Rd; simplify_eq; split; cbn; try done;
      try (intros M; rewrite M in T; by discriminate (T eq_refl)); by rewrite ?Same.
  - simplify_eq. destruct Ir as [K' B' P' T' W' S' D' R' C']. rewrite Ce in *. split; cbn; try done.
    + intros M. right; left. unfold raise. rewrite B. cbn. destruct (decide _); [done |]. apply elem_of_app. right. by left.
    + by rewrite Same.
    + by rewrite Same.
  - done.
Qed.

Lemma protocol_step_inv metrics e m e' : inv e -> step metrics e m = Some e' -> inv e'.
Proof.
  intros I. unfold step. rewrite (inv_killed _ I). destruct m as [bad | s | | i | s].
  - by apply main_thread_inv.
  - destruct (main e) eqn:M; try done. destruct (decide (s ∈ pending e)); [| done]. intros [= <-]. by apply sigwait_inv.
  - intros [= <-]. by apply call_inv.
  - destruct (callers e !! i) as [c |] eqn:E; [| done]. cbn. destruct (caller_step c e) as [[e1 c1] |] eqn:C; [| done].
    cbn. intros [= <-]. by eapply caller_inv.
  - intros [= <-]. by apply raise_inv.
Qed.

Lemma protocol_run_inv metrics l : forall e e', inv e -> run metrics e l = Some e' -> inv e'.
Proof.
  induction l as [| m l IH]; cbn; intros e e' I E; [by simplify_eq |].
  apply bind_Some in E as (e1 & E1 & E). eapply IH, E. by eapply protocol_step_inv.
Qed.

(** The first request stays the recorded one. *)
Lemma request_source src n r e : stopSource_ e <> NoSource -> stopSource_ (fst (request_step src n r e)) = stopSource_ e.
Proof. intros N. destruct r; cbn; try done; [by rewrite decide_False | by destruct (metricsServer_ e)]. Qed.

Lemma step_source metrics e m e' : inv e -> step metrics e m = Some e' -> stopSource_ e <> NoSource -> stopSource_ e' = stopSource_ e.
Proof.
  intros I. pose proof (inv_past _ I) as P. unfold step. rewrite (inv_killed _ I). intros H N. revert H.
  destruct m as [bad | s | | i | s].
  - unfold main_step. pose proof (fun s r => request_source Signal (signo s) r e N) as Rq.
    destruct (main e) as [| | | | | | | | s | s r | | | | | |] eqn:M; try done; try (by intros [= <-]).
    + destruct metrics, bad; by intros [= <-].
    + destruct bad; by intros [= <-].
    + destruct bad; by intros [= <-].
    + destruct (decide (s = kWakeSignal)); by intros [= <-].
    + specialize (Rq s r). destruct (request_step Signal (signo s) r e) as [e1 r']. by intros [= <-].
  - destruct (main e); try done. destruct (decide (s ∈ pending e)); [| done]. by intros [= <-].
  - by intros [= <-].
  - destruct (callers e !! i) as [c |]; [| done]. cbn. destruct c as [r | | |]; cbn.
    + pose proof (request_source Api 0 r e N) as Rq. destruct (request_step Api 0 r e) as [e1 r']. cbn. by intros [= <-].
    + by intros [= <-].
    + intros [= <-]. unfold raise. cbn. by destruct (blocked e).
    + done.
  - intros [= <-]. unfold raise. by destruct (blocked e).
Qed.

Lemma run_source metrics l : forall e e', inv e -> run metrics e l = Some e' -> stopSource_ e <> NoSource -> stopSource_ e' = stopSource_ e.
Proof.
  induction l as [| m l IH]; cbn; intros e e' I E N; [by simplify_eq |].
  apply bind_Some in E as (e1 & E1 & E). pose proof (step_source _ _ _ _ I E1 N) as S1.
  rewrite (IH e1 e'); [done | by eapply protocol_step_inv | done | congruence].
Qed.

(* ------------------------------------------------------------------ *)
(** ** Getting to the end *)

(** Moves of the engine's own threads, with nothing from outside. *)
Definition own (m : move) : bool := match m with MMain NoFault | MSigwait _ | MCaller _ => true | _ => false end.

Definition left_of (c : caller) : nat :=
  match c with
  | Requesting Cas => 8 | Requesting StoreSignal => 7 | Requesting StoreState => 6 | Requesting StoreRunning => 5
  | Requesting LoadMetrics => 4 | Requesting UseMetrics => 3 | CheckTid => 2 | Kill => 1 | Finished => 0
  end.

Lemma caller_moves c e : c <> Finished -> exists e' c', caller_step c e = Some (e', c') /\ (left_of c' < left_of c)%nat /\ callers e' = callers e /\ main e' = main e.
Proof.
  intros N. destruct c as [r | | |]; [| | | done].
  - destruct r; cbn; [destruct (decide _) | | | | destruct (metricsServer_ e) | destruct (metricsServer_ e)];
      do 2 eexists; (split; [reflexivity |]); cbn; split_and!; done || lia.
  - cbn. do 2 eexists. split; [reflexivity |]. destruct (mainTidReady_ e); cbn; split_and!; done || lia.
  - cbn. do 2 eexists. split; [reflexivity |]. unfold raise. destruct (blocked e); cbn; split_and!; done || lia.
Qed.

Definition all_left (e : engine) : nat := sum_list_with left_of (callers e).

Lemma sum_callers l i c c' : l !! i = Some c -> (sum_list_with left_of (<[i := c']> l) + left_of c = sum_list_with left_of l + left_of c')%nat.
Proof. revert i. induction l as [| x l IH]; intros [| i] E; simplify_eq/=; [lia |]. specialize (IH i E). lia. Qed.

(** All calls of [stop] in flight can finish, without the main thread. *)
Lemma finish_callers metrics n : forall e, inv e -> (all_left e <= n)%nat ->
  exists l e', Forall own l /\ run metrics e l = Some e' /\ Forall (fun c => c = Finished) (callers e') /\ main e' = main e.
Proof.
  induction n as [| n IH]; intros e I L.
  all: destruct (decide (Forall (fun c => c = Finished) (callers e))) as [F | F]; [by exists [], e; split_and! |].
  all: apply not_Forall_Exists in F; [| intros c; apply _].
  all: apply Exists_exists in F as (c & (i & E)%list_elem_of_lookup & N).
  all: destruct (caller_moves c e N) as (e1 & c1 & S & D & Ce & Me).
  all: pose proof (sum_callers (callers e) i c c1 E) as Q; unfold all_left in *.
  1: lia.
  assert (step metrics e (MCaller i) = Some (set_callers e1 (<[i := c1]> (callers e1)))) as S1.
  { unfold step. rewrite (inv_killed _ I), E. cbn. by rewrite S. }
  destruct (IH _ (protocol_step_inv _ _ _ _ I S1)) as (l & e' & Ol & R & Fe & M'); [cbn; rewrite Ce; lia |].
  exists (MCaller i :: l), e'. split_and!; [by constructor | cbn; by rewrite S1 | done | by rewrite M'; cbn].
Qed.

Definition main_left (p : pc) : nat :=
  match p with
  | Enter | Init | Reset _ => 30
  | StartMetrics => 21 | StartServer => 20 | StartWorkers => 19 | Check => 18 | Wait => 17 | Woken _ => 16
  | Request _ Cas => 15 | Request _ StoreSignal => 14 | Request _ StoreState => 13 | Request _ StoreRunning => 12
  | Request _ LoadMetrics => 11 | Request _ UseMetrics => 10
  | Handler => 9 | Shutdown _ => 8 | StopMetrics _ => 7 | StoreStopped _ => 6 | Unready _ => 5 | Returned _ => 0
  end.

Lemma quiet_running e : inv e -> Forall (fun c => c = Finished) (callers e) -> stopSource_ e <> NoSource -> about_to_clear (main e) = false ->
  running_ e = false /\ (main e = Wait -> kWakeSignal ∈ pending e).
Proof.
  intros I F N L.
  assert (forall f : caller -> bool, f Finished = false -> ~ Exists (fun c => f c = true) (callers e)) as No.
  { intros f Hf (c & Hc & Hx)%Exists_exists. rewrite Forall_forall in F. rewrite (F c Hc) in Hx. congruence. }
  destruct (inv_source _ I N) as [R | [X | X]]; [| by destruct (No clearing eq_refl) | congruence].
  split; [done |]. intros M. destruct (inv_wait _ I M) as [? | [? | X]]; [congruence | done | by destruct (No waking eq_refl)].
Qed.

(** The main thread has stored [Stopped]. *)
Definition finishing (p : pc) : bool := match p with Unready _ | Returned _ => true | _ => false end.

(** With no call in flight and a stop requested, the main thread comes nearer to
    its end with each step. *)
Lemma main_closer metrics e : inv e -> Forall (fun c => c = Finished) (callers e) -> stopSource_ e <> NoSource -> up (main e) = true ->
  exists m e', own m = true /\ step metrics e m = Some e' /\ callers e' = callers e /\ (main_left (main e') < main_left (main e))%nat /\
    (finishing (main e') = true -> state_ e' = Stopped \/ (finishing (main e) = true /\ state_ e' = state_ e)).
Proof.
  intros I F N U. pose proof (inv_past _ I) as P. pose proof (quiet_running e I F N) as Q.
  unfold step. rewrite (inv_killed _ I).
  assert (forall s r, exists e1 r', request_step Signal (signo s) r e = (e1, r') /\ callers e1 = callers e /\
    (main_left (match r' with Some r' => Request s r' | None => Shutdown false end) < main_left (Request s r))%nat) as Rq.
  { intros s r. destruct r; cbn; [destruct (decide _) | | | | destruct (metricsServer_ e) | destruct (metricsServer_ e)];
      do 2 eexists; (split; [reflexivity |]); cbn; split; done || lia. }
  destruct (main e) as [| | k | | | | | | s | s r | | t | t | t | t | t] eqn:M; try done.
  7:{ destruct (Rq s r) as (e1 & r' & E & Ce & L). exists (MMain NoFault). unfold main_step. rewrite M, E.
      eexists. split_and!; [done | reflexivity | done | done | by destruct r']. }
  6:{ destruct (Q eq_refl) as [R _]. exists (MMain NoFault). unfold main_step. rewrite M, R.
      destruct (decide (s = kWakeSignal)); eexists; (split_and!; [done | reflexivity | done | cbn; lia | done]). }
  5:{ destruct (Q eq_refl) as [_ W]. exists (MSigwait kWakeSignal). rewrite decide_True by auto.
      eexists. split_and!; [done | reflexivity | done | cbn; lia | done]. }
  4:{ destruct (Q eq_refl) as [R _]. exists (MMain NoFault). unfold main_step. rewrite M, R.
      eexists. split_and!; [done | reflexivity | done | cbn; lia | done]. }
  all: exists (MMain NoFault); unfold main_step; rewrite M; try destruct metrics; eexists; (split_and!; [done | reflexivity | done | cbn; lia | cbn; auto]).
Qed.

Lemma finish_main metrics n : forall e, inv e -> Forall (fun c => c = Finished) (callers e) -> stopSource_ e <> NoSource -> (main_left (main e) <= n)%nat ->
  exists l e', Forall own l /\ run metrics e l = Some e' /\ Forall (fun c => c = Finished) (callers e') /\ up (main e') = false /\
    (state_ e' = Stopped \/ (finishing (main e) = true /\ state_ e' = state_ e)).
Proof.
  induction n as [| n IH]; intros e I F N L.
  all: destruct (up (main e)) eqn:U; [| exists [], e; split_and!; try done; right; by destruct (main e)].
  all: destruct (main_closer metrics e I F N U) as (m & e1 & O & S & Ce & D & St).
  1: lia.
  assert (stopSource_ e1 <> NoSource) as N1 by (rewrite (step_source _ _ _ _ I S N); done).
  destruct (IH e1) as (l & e' & Ol & R & Fe & U' & Se); [by eapply protocol_step_inv | by rewrite Ce | done | lia |].
  exists (m :: l), e'. split_and!; [constructor; [by rewrite O | done] | cbn; by rewrite S | done | done |].
  destruct Se as [? | [F1 ->]]; [by left | by apply St].
Qed.

Lemma engine_run_app metrics l1 : forall e l2, run metrics e (l1 ++ l2) = (e1 ← run metrics e l1; run metrics e1 l2).
Proof. induction l1 as [| m l1 IH]; intros e l2; [done |]. cbn. destruct (step metrics e m); [apply IH | done]. Qed.


(* ------------------------------------------------------------------ *)
(** ** Runs *)

Definition mains (n : nat) : list move := replicate n (MMain NoFault).
Definition steps_of (i n : nat) : list move := replicate n (MCaller i).

(** A server with metrics; one thread calls [stop] while the main thread
    waits, a second one loses the race; the main thread is woken by both. *)
Definition demo_moves : list move :=
  mains 4 ++ [MStop; MStop] ++ steps_of 0 2 ++ steps_of 1 3 ++ [MSigwait SIGUSR1; MMain NoFault] ++ steps_of 0 6 ++ [MSigwait SIGUSR1] ++ mains 3.

Lemma demo_ready e : run true fresh (mains 6) = Some e -> ready_to_serve e.
Proof. vm_compute. intros [= <-]. split; done. Qed.


(** [mainTidReady_] is set before the signals are blocked: a call of [stop] in
    between ends the process by the default action of [SIGUSR1]. *)
Theorem early_stop_kills_process metrics : exists e,
  run metrics fresh (mains 1 ++ [MStop] ++ steps_of 0 7) = Some e /\ killed e = true.
Proof. eexists. split; [by destruct metrics; vm_compute; reflexivity | done]. Qed.

(** A call of [stop] that falls between the first and the last store of
    [resetForRun_] is overwritten but stays recorded, so that no later call of
    [stop] has any effect: without a signal from outside [run] never returns. *)
Record deaf (e : engine) : Prop := {
  deaf_source : stopSource_ e = Api;
  deaf_running : running_ e = true;
  deaf_blocked : blocked e = true;
  deaf_callers : Forall (fun c => clearing c = false) (callers e);
  deaf_main : match main e with StartMetrics | StartServer | StartWorkers | Check | Wait => True | Woken s => s = kWakeSignal | _ => False end;
  deaf_pending : Forall (fun s => s = kWakeSignal) (pending e)
}.

(** Calls of [stop] and the engine's own threads. *)
Definition inner (m : move) : bool := match m with MStop => true | m => own m end.

Lemma deaf_step metrics e m e' : deaf e -> inner m = true -> step metrics e m = Some e' -> deaf e'.
Proof.
  intros [S R B C M P] Hm. unfold step. destruct (killed e); [done |].
  destruct m as [[] | s | | i | s]; try done.
  - unfold main_step. destruct (main e) as [| | | | | | | | s | | | | | | |] eqn:Me; try done.
    + destruct metrics; intros [= <-]; by split.
    + intros [= <-]. by split.
    + intros [= <-]. by split.
    + intros [= <-]. rewrite R. by split.
    + rewrite decide_True by done. intros [= <-]. rewrite R. by split.
  - destruct (main e) eqn:Me; try done. destruct (decide (s ∈ pending e)) as [In |]; [| done]. intros [= <-]. split; cbn; try done.
    + rewrite Forall_forall in P. auto.
    + apply Forall_forall. intros x [_ Hx]%list_elem_of_filter. rewrite Forall_forall in P. auto.
  - intros [= <-]. split; cbn; try done. apply Forall_app. split; [done |]. by constructor.
  - destruct (callers e !! i) as [c |] eqn:E; [| done]. pose proof (proj1 (Forall_lookup _ _) C i c E) as Nc. cbn in Nc.
    destruct c as [[] | | |]; try done; cbn; [rewrite decide_False by congruence | destruct (metricsServer_ e) | destruct (metricsServer_ e) | destruct (mainTidReady_ e) | unfold raise; rewrite B];
      cbn; intros [= <-]; split; cbn; try done; try (apply Forall_insert; done).
    destruct (decide _); [done |]. apply Forall_app. split; [done |]. by constructor.
Qed.

Theorem stop_during_reset_is_lost metrics : exists e,
  run metrics fresh (mains 3 ++ [MStop] ++ steps_of 0 4 ++ mains 3) = Some e /\
  forall l e', Forall inner l -> run metrics e l = Some e' -> up (main e') = true.
Proof.
  eexists. split; [destruct metrics; vm_compute; reflexivity |]. intros l e' F R.
  match type of R with run _ ?e0 _ = _ => assert (deaf e0) as D by (split; cbn; by repeat constructor); revert D R; generalize e0 end.
  clear - F. induction l as [| m l IH]; cbn; intros e D R.
  - simplify_eq. destruct D as [_ _ _ _ M _]. by destruct (main e').
  - apply bind_Some in R as (e1 & E1 & R). inversion F; subst. eapply IH; [done | | exact R]. eapply deaf_step; [done | | done]. by apply Is_true_true.
Qed.

(** A signal lets the main thread finish while a call of [stop] is still in
    flight: the call then uses the destroyed status server, or stores
    [Stopping] after the main thread has stored [Stopped]. *)
Theorem stop_races_teardown : exists e,
  run true fresh (mains 10 ++ [MStop] ++ steps_of 0 5 ++ [MSignal SIGINT; MSigwait SIGINT] ++ mains 4 ++ steps_of 0 1) = Some e /\ use_after_free e = true.
Proof. eexists. split; [vm_compute; reflexivity | done]. Qed.

Theorem state_can_stay_stopping : exists e,
  run true fresh (mains 10 ++ [MStop] ++ steps_of 0 2 ++ [MSignal SIGINT; MSigwait SIGINT] ++ mains 6 ++ steps_of 0 4) = Some e /\
  main e = Returned false /\ Forall (fun c => c = Finished) (callers e) /\ state_ e = Stopping.
Proof. eexists. split; [vm_compute; reflexivity |]. split_and!; [done | by repeat constructor | done]. Qed.

End EngineRun.
