(* ===== verification/Program.v ===== *)
(** * Program: from the command line to the engine and the exit code

    Models [ServerBuilder], [Server], the constructor of [Engine] and the
    [main] functions of the three programs, over [Config], [Logger] and the
    outcome of [Engine::run]. *)

From stdpp Require Import strings.
From S2P Require Import Prelude Config Logger.
Import Config.

Module Program.

Section Program.
Context {App : Type} (hw : Z).

(** What a configuration's level is for the logger. *)
Definition level_of (l : LogLevel) : Logger.LogLevel :=
  match l with
  | Trace => Logger.Trace | Debug => Logger.Debug | Info => Logger.Info
  | Warn => Logger.Warn | Error => Logger.Error | Fatal => Logger.Fatal
  end.

(** [Engine(config, app)]; [opens]: which log files can be opened. *)
Record Engine := mk_engine_object { engine_config : EngineConfig; engine_app : option App }.

Definition new_engine (opens : string -> bool) (cfg : EngineConfig) (app : option App) (g : Logger.global)
    : result (Engine * Logger.global) :=
  _ <-- validateEngineConfig hw cfg;
  match Logger.applyLoggingConfig (logFilePath cfg) (level_of (logLevel cfg)) (opens (logFilePath cfg)) g with
  | Some g => Ok (mk_engine_object cfg app, g)
  | None => Throw (RuntimeError ("[LoggingConfig] failed to open log file: " +:+ logFilePath cfg))
  end.

(** [ServerBuilder]. *)
Record ServerBuilder := mk_builder { config_ : EngineConfig; app_ : option App }.

Definition new_builder : ServerBuilder := mk_builder EngineConfig_default None.
Definition config (cfg : EngineConfig) (b : ServerBuilder) : ServerBuilder := mk_builder cfg (app_ b).
Definition application (app : option App) (b : ServerBuilder) : ServerBuilder := mk_builder (config_ b) app.
Definition makeApplication (app : App) (b : ServerBuilder) : ServerBuilder := mk_builder (config_ b) (Some app).

(** [build]; the [Server] it returns owns the engine. *)
Definition build (opens : string -> bool) (b : ServerBuilder) (g : Logger.global) : result (Engine * Logger.global) :=
  match app_ b with
  | None => Throw (InvalidArgument "hypernet::runtime::ServerBuilder: application is null")
  | Some app => _ <-- validateEngineConfig hw (config_ b); new_engine opens (config_ b) (Some app) g
  end.

(** [main]: the exit code, and the engine that was run with the logger's
    state.  [make]: the application from its part of the configuration;
    [throws]: [run] ends with an exception. *)
Definition main (exists_ : string -> bool) (parse_file : string -> string + table) (opens : string -> bool)
    (make : GlobalConfig -> App) (throws : bool) (args : list (option string)) : Z * option (Engine * Logger.global) :=
  match load hw exists_ parse_file args with
  | Exit => (0, None)
  | Throw _ => (1, None)
  | Ok cfg =>
      match build opens (makeApplication (make cfg) (config (engine cfg) new_builder)) Logger.globals with
      | Ok server => (if throws then 1 else 0, Some server)
      | Throw _ => (1, None)
      | Exit => (0, None)
      end
  end.

(** What [load] returns has passed [validateEngineConfig]. *)
Lemma loaded_validates exists_ parse_file args cfg :
  load hw exists_ parse_file args = Ok cfg -> validateEngineConfig hw (engine cfg) = Ok tt.
Proof.
  unfold load. destruct (existsb _ _); [done |]. destruct (scanCliForConfigPath args) as [[path |] | |]; try done; cbn [rbind].
  destruct (negb _); [done |]. destruct (parse_file path) as [| root]; [done |].
  destruct (applyEngineToml _ _) as [c1 | |]; try done; cbn [rbind]. destruct (applyAppToml _ _) as [c2 | |]; try done; cbn [rbind].
  destruct (validateFailFast hw c2 root) as [[] | |] eqn:V; try done; cbn [rbind]. intros [= <-]. revert V. unfold validateFailFast.
  destruct (_ <? _); [done |]. destruct (as_table _); [| done]. by do 2 (destruct (_ && _); [done |]).
Qed.

(** The process ends with 0 for a request for help, with 1 and no engine
    when the configuration cannot be loaded or the log file cannot be opened,
    and otherwise runs one engine, with the loaded configuration, which is
    valid, the application made from it and a logger whose filters both have
    the configured level; nothing else can fail on the way, and the exit code
    then says whether [run] ended with an exception. *)
Theorem main_runs_loaded_config exists_ parse_file opens make throws args :
  let outcome := main exists_ parse_file opens make throws args in
  match load hw exists_ parse_file args with
  | Exit => outcome = (0, None)
  | Throw _ => outcome = (1, None)
  | Ok cfg =>
      if bool_decide (logFilePath (engine cfg) = "") || opens (logFilePath (engine cfg)) then
        validateEngineConfig hw (engine cfg) = Ok tt /\
        exists g, outcome = (if throws then 1 else 0, Some (mk_engine_object (engine cfg) (Some (make cfg)), g)) /\
          Logger.instance g = Some (level_of (logLevel (engine cfg))) /\ Logger.fast g = level_of (logLevel (engine cfg))
      else outcome = (1, None)
  end.
Proof.
  unfold main. destruct (load hw exists_ parse_file args) as [cfg | |] eqn:L; [| done | done].
  pose proof (loaded_validates _ _ _ _ L) as V. unfold build, new_engine. cbn [app_ config_ makeApplication config].
  rewrite V. cbn [rbind]. unfold Logger.applyLoggingConfig.
  destruct (String.eqb_spec (logFilePath (engine cfg)) "") as [E | E].
  - rewrite bool_decide_true by done. split; [done |]. by eexists.
  - rewrite bool_decide_false by done. destruct (opens _); [| done]. split; [done |]. by eexists.
Qed.

End Program.

End Program.
