(* ===== verification/SignalHandler.v ===== *)
(** * SignalHandler: installing handlers, and the flags they set

    Models core/SignalHandler.{hpp,cpp}: the handlers of the two signals are
    installed with a roll-back when a call fails and removed again; the flags
    are set by a signal handler that interrupts the thread that reads them
    between any two accesses.  The class stands by itself: [Engine] waits for
    signals with sigwait. *)

From stdpp Require Import strings.
From S2P Require Import Prelude.

Module SignalHandler.

(* ------------------------------------------------------------------ *)
(** ** Installing *)

Definition SIGINT : Z := 2.
Definition SIGTERM : Z := 15.
Definition kSignals : list Z := [SIGINT; SIGTERM].

(** What the process does on a signal; [Ours]: [handleSignal]. *)
Inductive action := Default | Ignore | Ours | Other (n : Z).

#[export] Instance action_eq_dec : EqDecision action.
Proof. solve_decision. Defined.

(** [answers]: the calls of [sigaction] to come, an error number where one
    fails; beyond the list they succeed. *)
Record kernel := mk_kernel { disposition : gmap Z action; answers : list (option Z); errno : Z }.

Definition sigaction (signo : Z) (act : action) (k : kernel) : option action * kernel :=
  match answers k with
  | Some e :: rest => (None, mk_kernel (disposition k) rest e)
  | _ => (Some (default Default (disposition k !! signo)), mk_kernel (<[signo := act]> (disposition k)) (tail (answers k)) (errno k))
  end.

(** The members. *)
Record handler := mk_handler { oldActions_ : list action; installed_ : bool }.

(** Handlers are put back in the order of the signals; errors are ignored. *)
Fixpoint restore (l : list (Z * action)) (k : kernel) : kernel :=
  match l with
  | [] => k
  | (signo, old) :: l => restore l (sigaction signo old k).2
  end.

(** The loop of [installOrThrow]; [done]: signals with their old actions. *)
Fixpoint install_from (todo : list Z) (done : list (Z * action)) (k : kernel) : (list action + Z) * kernel :=
  match todo with
  | [] => (inl (done.*2), k)
  | signo :: todo =>
      match sigaction signo Ours k with
      | (Some old, k) => install_from todo (done ++ [(signo, old)]) k
      | (None, k) => let k := restore done k in (inr (errno k), k)
      end
  end.

(** [inr]: the error number of the exception. *)
Definition installOrThrow (h : handler) (k : kernel) : (handler + Z) * kernel :=
  if installed_ h then (inl h, k)
  else match install_from kSignals [] k with
       | (inl olds, k) => (inl (mk_handler olds true), k)
       | (inr e, k) => (inr e, k)
       end.

Definition uninstall (h : handler) (k : kernel) : handler * kernel :=
  if installed_ h then (mk_handler (oldActions_ h) false, restore (zip kSignals (oldActions_ h)) k) else (h, k).

Definition signalName (signo : Z) : string :=
  if signo =? SIGINT then "SIGINT" else if signo =? SIGTERM then "SIGTERM" else "UNKNOWN".

(** The same action for every signal. *)
Definition acts_as (k k' : kernel) : Prop :=
  forall s, default Default (disposition k !! s) = default Default (disposition k' !! s).

#[export] Instance acts_as_equivalence : Equivalence acts_as.
Proof.
  split.
  - by intros k s.
  - intros k k' H s. symmetry. apply H.
  - intros k k' k'' H H' s. etransitivity; [apply H | apply H'].
Qed.

(** At most one of the calls fails. *)
Definition one_failure (k : kernel) : Prop :=
  forall i j e e', answers k !! i = Some (Some e) -> answers k !! j = Some (Some e') -> i = j.

Lemma both_installed (m : gmap Z action) s :
  <[SIGTERM := Ours]> (<[SIGINT := Ours]> m) !! s = if decide (s ∈ kSignals) then Some Ours else m !! s.
Proof.
  destruct (decide (s = SIGTERM)) as [-> | N1]; [by rewrite lookup_insert_eq |]. rewrite lookup_insert_ne by done.
  destruct (decide (s = SIGINT)) as [-> | N2]; [by rewrite lookup_insert_eq |]. rewrite lookup_insert_ne by done.
  rewrite decide_False; [done |]. unfold kSignals. set_solver.
Qed.

Lemma first_restored (m : gmap Z action) a e b e' :
  acts_as (mk_kernel (<[SIGINT := default Default (m !! SIGINT)]> (<[SIGINT := Ours]> m)) a e) (mk_kernel m b e').
Proof. intros s. cbn. destruct (decide (s = SIGINT)) as [-> | N]; [by rewrite lookup_insert_eq | by rewrite !lookup_insert_ne]. Qed.

Lemma both_restored (m : gmap Z action) a e b e' :
  acts_as (mk_kernel (<[SIGTERM := default Default (<[SIGINT := Ours]> m !! SIGTERM)]>
    (<[SIGINT := default Default (m !! SIGINT)]> (<[SIGTERM := Ours]> (<[SIGINT := Ours]> m)))) a e) (mk_kernel m b e').
Proof.
  intros s. cbn. destruct (decide (s = SIGTERM)) as [-> | N1]; [by rewrite lookup_insert_eq, lookup_insert_ne |].
  rewrite lookup_insert_ne by done. destruct (decide (s = SIGINT)) as [-> | N2]; [by rewrite lookup_insert_eq |].
  by rewrite !lookup_insert_ne.
Qed.

(** The handlers are installed whole or not at all: after success both signals
    have the class's handler and no other signal has changed, and removing it
    while the kernel co-operates restores every action; after a failure of one
    call every action is as before, and the exception carries the error of
    that call. *)
Theorem handlers_installed_or_restored k :
  match installOrThrow (mk_handler [] false) k with
  | (inl h, k1) =>
      (forall s, disposition k1 !! s = if decide (s ∈ kSignals) then Some Ours else disposition k !! s) /\
      (answers k1 = [] -> acts_as (uninstall h k1).2 k)
  | (inr e, k1) => one_failure k -> acts_as k1 k /\ Some e ∈ answers k
  end.
Proof.
  destruct k as [m [| [e1 |] [| [e2 |] [| [e3 |] l]]] e]; cbn;
    try (split; [apply both_installed | intros ?; simplify_eq; apply both_restored]);
    intros F; try (by discriminate (F 1%nat 2%nat e2 e3 eq_refl eq_refl)); (split; [first [apply first_restored | by intros s] |]); set_solver.
Qed.

(** When the roll-back fails as well, the exception carries its error and the
    first handler stays. *)
Theorem failed_rollback_leaves_handler m e2 e3 e :
  let '(r, k) := installOrThrow (mk_handler [] false) (mk_kernel m [None; Some e2; Some e3] e) in
  r = inr e3 /\ disposition k !! SIGINT = Some Ours.
Proof. cbn. split; [done | apply lookup_insert_eq]. Qed.

(* ------------------------------------------------------------------ *)
(** ** The flags *)

(** Where a call of [consumeStopRequest] is: before its test, after it, after
    the request is taken down, after the number is read. *)
Inductive consumer := Idle | Tested | Lowered | Read (signo : Z).

(** Running calls of [handleSignal]: before the first and before the second
    store. *)
Inductive raising := Raise (signo : Z) | Note (signo : Z).

(** [results]: what calls of [consumeStopRequest] returned; [unseen]: signals
    whose request no call has taken yet, oldest first. *)
Record flags := mk_flags {
  g_stopRequested : bool;
  g_lastSignal : Z;
  caller : consumer;
  running : list raising;
  results : list (option Z);
  unseen : list Z
}.

Definition set_caller f c := mk_flags (g_stopRequested f) (g_lastSignal f) c (running f) (results f) (unseen f).
Definition set_running f l := mk_flags (g_stopRequested f) (g_lastSignal f) (caller f) l (results f) (unseen f).

Definition isStopRequested (f : flags) : bool := g_stopRequested f.
Definition reset (f : flags) : flags := mk_flags false 0 (caller f) (running f) (results f) [].

(** One access of [handleSignal]. *)
Definition handle_step (r : raising) (f : flags) : flags * option raising :=
  match r with
  | Raise s => (mk_flags true (g_lastSignal f) (caller f) (running f) (results f) (unseen f ++ [s]), Some (Note s))
  | Note s => (mk_flags (g_stopRequested f) s (caller f) (running f) (results f) (unseen f), None)
  end.

(** One access of [consumeStopRequest]. *)
Definition consume_step (f : flags) : flags :=
  match caller f with
  | Idle => if g_stopRequested f then set_caller f Tested
            else mk_flags (g_stopRequested f) (g_lastSignal f) Idle (running f) (results f ++ [None]) (unseen f)
  | Tested => mk_flags false (g_lastSignal f) Lowered (running f) (results f) []
  | Lowered => set_caller f (Read (g_lastSignal f))
  | Read s => mk_flags (g_stopRequested f) 0 Idle (running f) (results f ++ [Some s]) (unseen f)
  end.

Inductive move := MSignal (signo : Z) | MHandle (i : nat) | MConsume.

Definition step (f : flags) (m : move) : option flags :=
  match m with
  | MSignal s => Some (set_running f (running f ++ [Raise s]))
  | MHandle i =>
      r ← running f !! i;
      let '(f, r) := handle_step r f in
      Some (set_running f (match r with Some r => <[i := r]> (running f) | None => delete i (running f) end))
  | MConsume => Some (consume_step f)
  end.

Fixpoint run (f : flags) (l : list move) : option flags :=
  match l with [] => Some f | m :: l => f ← step f m; run f l end.

Definition quiet_flags : flags := mk_flags false 0 Idle [] [] [].

(** The flag is up exactly while a request is unseen, and a call past its test
    returns a request. *)
Definition flags_ok (f : flags) : Prop := g_stopRequested f = bool_decide (unseen f <> []) /\ (caller f = Tested -> unseen f <> []).

Lemma flags_run l : forall f f', flags_ok f -> run f l = Some f' -> flags_ok f'.
Proof.
  induction l as [| m l IH]; cbn; intros f f' I E; [by simplify_eq |]. apply bind_Some in E as (f1 & E1 & E). eapply IH, E. clear E IH.
  destruct I as [U T]. destruct m as [s | i |]; cbn in E1; [by simplify_eq | |].
  - destruct (running f !! i) as [[s | s] |]; cbn in E1; simplify_eq; [| done].
    split; cbn; [rewrite bool_decide_true; [done |] | intros _]; by destruct (unseen f).
  - unfold consume_step in E1. destruct (caller f) eqn:C; simplify_eq; [| done | |]; cbn.
    + destruct (g_stopRequested f) eqn:G; (split; cbn; [congruence | try done]). intros _. symmetry in U. by apply bool_decide_eq_true in U.
    + by split.
    + by split.
Qed.

(** No request is lost: whenever a handler has raised the flag and no call has
    taken it down since, the next call returns a request. *)
Theorem request_is_reported l f : run quiet_flags l = Some f ->
  isStopRequested f = bool_decide (unseen f <> []) /\
  (caller f = Idle -> unseen f <> [] -> exists f' s, run f [MConsume; MConsume; MConsume; MConsume] = Some f' /\
     results f' = results f ++ [Some s] /\ unseen f' = []).
Proof.
  intros R. destruct (flags_run l quiet_flags f) as [U _]; [by split | done |]. split; [done |]. intros C N.
  assert (g_stopRequested f = true) as G by (rewrite U; by apply bool_decide_true).
  do 2 eexists. cbn [run step]. unfold consume_step at 4. rewrite C, G. cbn. split; [reflexivity |]. done.
Qed.

(** The number of a signal that arrives while a call is between its accesses
    is lost: the request is still reported, as signal 0. *)
Theorem signal_number_can_be_lost : exists f,
  run quiet_flags [MSignal SIGINT; MHandle 0; MHandle 0; MConsume; MConsume; MConsume; MSignal SIGTERM; MHandle 0; MHandle 0; MConsume;
    MConsume; MConsume; MConsume; MConsume] = Some f /\ results f = [Some SIGINT; Some 0] /\ signalName 0 = "UNKNOWN"%string.
Proof. eexists. split; [reflexivity | done]. Qed.

End SignalHandler.
