(* ===== verification/Session.v ===== *)
(** * Session: connections and their manager

    The operations of [net/Session.cpp] and [net/SessionManager.cpp] on the
    state of [World]: receiving and framing, sending with back-pressure,
    closing, timeouts, accept, dispatch and shutdown.

    Closing a session calls the application, which may send to or close other
    sessions, which may close them in turn.  Every operation therefore takes
    the close operation it uses as [close]; [beginClose_ d] ties the knot with
    at most [d] nested closes.  A nested close always works on a table with
    one session less, so the number of live sessions is enough. *)

From S2P Require Import Prelude RingBuffer Message Framer Handle World.
Import Message Handle World.

Module Session.

Section Ops.
Context {St : Type}.

Definition isNormalCloseReason (reason : string) : bool :=
  bool_decide (reason ∈ ["peer_close"; "worker_shutdown"; "epoll_hup"; "epoll_rdhup";
                         "idle_timeout"; "heartbeat_timeout"]).

Definition sessions (w : world St) : gset Z := sessions_ (mgr w).

Definition is_connected (s : World.Session) : bool := bool_decide (state_ s = Connected).

(** [makeHandle_]. *)
Definition makeHandle_ (m : Manager St) (id : Z) : SessionHandle :=
  mk_handle id (ownerWorkerId_ m) (Some (ownerWorkerId_ m)).

(** [Session::closeFromManager_]. *)
Definition closeFromManager_ (sid : Z) : M St unit :=
  assertInOwnerThread_ ;;;
  s <-- obj sid ;;
  if bool_decide (state_ s = Closed) then ret tt else
  update sid (fun s => set_state_ s Closing) ;;;
  (if 0 <=? fd_ s then removeFd (fd_ s) else ret false) ;;;
  update sid (fun s => set_state_ (set_fd_ s (-1)) Closed).

(** Operations that may close a session; [close sid reason err] closes it. *)
Section Closing.
Variable close : Z -> string -> Z -> M St unit.

(** [SessionManager::closeByPolicy_]. *)
Definition closeByPolicy_ (id : Z) (reason : string) (err : Z) : M St unit :=
  assertInOwnerThread_ ;;;
  tbl <-- gets sessions ;;
  if bool_decide (id ∈ tbl) then close id reason err else ret tt.

(* ------------------------------------------------------------------ *)
(** ** Sending *)

(** [while (n > 0) { v = readView(n); if (v.empty()) break; n -= v.size(); }] *)
Fixpoint consume (fuel : nat) (rb : RingBuffer.t) (n : Z) : RingBuffer.t :=
  match fuel with
  | O => rb
  | S fuel' =>
      if n <=? 0 then rb else
      let '(rb', v) := RingBuffer.readView rb n in
      if RingBuffer.view_empty v then rb' else consume fuel' rb' (size_sub n (RingBuffer.vsize v))
  end.

Definition consume_ring (rb : RingBuffer.t) (n : Z) : RingBuffer.t := consume (S (Z.to_nat n)) rb n.

Definition setWriteInterest_ (sid : Z) (enable : bool) : M St unit :=
  s <-- obj sid ;;
  if negb (is_connected s) then ret tt else
  let desired := if enable then Z.lor baseEpollMask_ EPOLLOUT else baseEpollMask_ in
  if currentEpollMask_ s =? desired then ret tt else
  if fd_ s <? 0 then ret tt else
  r <-- updateFd (fd_ s) desired ;;
  match r with
  | Some e => close sid "epoll_mod_failed" e
  | None => update sid (fun s => set_mask_ s desired)
  end.

(** [return state_ == SessionState::Connected;] *)
Definition still_connected (sid : Z) : M St bool := s <-- obj sid ;; ret (is_connected s).

(** The loop of [flushSend_]. *)
Fixpoint flush_loop (fuel : nat) (sid fd : Z) : M St bool :=
  match fuel with
  | O => no_fuel
  | S fuel' =>
      s <-- obj sid ;;
      match sendRing_ s with
      | None => still_connected sid
      | Some rb =>
          if RingBuffer.empty rb then still_connected sid else
          match RingBuffer.peekIov rb (Some RingBuffer.null_iov2) (RingBuffer.available rb) with
          | (iovcnt, Some iov) =>
              if iovcnt =? 0 then still_connected sid else
              r <-- sendmsg fd (RingBuffer.gather rb iov) ;;
              match r with
              | inl n =>
                  if 0 <? n then
                    update sid (fun s => set_sendRing_ s (consume_ring rb n)) ;;;
                    flush_loop fuel' sid fd
                  else close sid "send_zero" 0 ;;; ret false
              | inr e =>
                  if e =? EINTR then flush_loop fuel' sid fd else
                  if e =? EAGAIN then still_connected sid else
                  close sid "send_failed" e ;;; ret false
              end
          | (_, None) => still_connected sid
          end
      end
  end.

Definition flushSend_ (sid : Z) : M St bool :=
  s <-- obj sid ;;
  if negb (is_connected s) then ret false else
  n <-- gets (fun w => length (o_send w)) ;;
  flush_loop (S n) sid (fd_ s).

Definition enqueueSendNoFlush_ (sid : Z) (data : option (list byte)) (len : Z) : M St bool :=
  assertInOwnerThread_ ;;;
  s <-- obj sid ;;
  if negb (is_connected s) then ret false else
  match data with
  | None => ret true
  | Some _ =>
      if len =? 0 then ret true else
      match sendRing_ s with
      | None => close sid "send_ring_missing" 0 ;;; ret false
      | Some rb =>
          if RingBuffer.freeSpace rb <? len then close sid "send_overflow" 0 ;;; ret false else
          let '(rb', written) := RingBuffer.write rb data len in
          update sid (fun s => set_sendRing_ s rb') ;;;
          if negb (written =? len) then close sid "send_ring_write_mismatch" 0 ;;; ret false else
          still_connected sid
      end
  end.

(** [Seg]: a pointer and a length. *)
Definition Seg : Type := option (list byte) * Z.

Definition seg_bytes (g : Seg) : list byte :=
  match g.1 with Some p => ztake g.2 p | None => [] end.

(** The lambda [enqueueRemainder]. *)
Fixpoint enqueueRemainder (sid skip : Z) (segs : list Seg) : M St bool :=
  match segs with
  | [] => ret true
  | (p, n) :: rest =>
      if n =? 0 then enqueueRemainder sid skip rest else
      if n <=? skip then enqueueRemainder sid (size_sub skip n) rest else
      ok <-- enqueueSendNoFlush_ sid (zdrop skip <$> p) (size_sub n skip) ;;
      if ok then enqueueRemainder sid 0 rest else ret false
  end.

(** The ring's pieces that go in front of the new message: their bytes and
    [ringAvail]. *)
Definition ring_pieces (rb : RingBuffer.t) : list byte * Z :=
  if RingBuffer.empty rb then ([], 0) else
  match RingBuffer.peekIov rb (Some RingBuffer.null_iov2) (RingBuffer.available rb) with
  | (_, Some iov) =>
      (RingBuffer.gather rb iov,
       size_add (RingBuffer.iov_len iov.1) (RingBuffer.iov_len iov.2))
  | (_, None) => ([], 0)
  end.

(** What follows a partial or complete send of [n] bytes. *)
Definition after_send (sid n ringAvail : Z) (rb : RingBuffer.t) (segs : list Seg) (bodyLen : Z)
  : M St bool :=
  let sentFromRing := if n <=? ringAvail then n else ringAvail in
  (if 0 <? sentFromRing
   then update sid (fun s => set_sendRing_ s (consume_ring rb sentFromRing)) else ret tt) ;;;
  let sent := if 0 <? sentFromRing then size_sub n sentFromRing else n in
  let newTotal := size_add 6 bodyLen in
  ok <-- (if sent <? newTotal then
            ok <-- enqueueRemainder sid sent segs ;;
            if ok then flushSend_ sid else ret false
          else flushSend_ sid ;;; ret true) ;;
  if negb ok then ret false else
  s <-- obj sid ;;
  match sendRing_ s with
  | None => abort
  | Some rb' => setWriteInterest_ sid (negb (RingBuffer.empty rb')) ;;; still_connected sid
  end.

Fixpoint coalesced_loop (fuel : nat) (sid fd : Z) (segs : list Seg) (bodyLen : Z) : M St bool :=
  match fuel with
  | O => no_fuel
  | S fuel' =>
      s <-- obj sid ;;
      match sendRing_ s with
      | None => abort
      | Some rb =>
          let '(ringBytes, ringAvail) := ring_pieces rb in
          r <-- sendmsg fd (ringBytes ++ concat (seg_bytes <$> segs)) ;;
          match r with
          | inl n =>
              if 0 <? n then after_send sid n ringAvail rb segs bodyLen
              else close sid "send_zero" 0 ;;; ret false
          | inr e =>
              if e =? EINTR then coalesced_loop fuel' sid fd segs bodyLen else
              if e =? EAGAIN then
                ok <-- enqueueRemainder sid 0 segs ;;
                if ok then setWriteInterest_ sid true ;;; still_connected sid else ret false
              else close sid "send_failed" e ;;; ret false
          end
      end
  end.

Definition enqueuePacketU16Coalesced (sid : Z) (lenHdr4 opHdr2 : list byte)
    (body : option (list byte)) (bodyLen : Z) : M St bool :=
  assertInOwnerThread_ ;;;
  s <-- obj sid ;;
  if negb (is_connected s) then ret false else
  match sendRing_ s with
  | None => close sid "send_ring_missing" 0 ;;; ret false
  | Some _ =>
      if (0 <? bodyLen) && negb (bool_decide (is_Some body))
      then close sid "send_invalid_body" 0 ;;; ret false else
      let segs := [(Some lenHdr4, 4); (Some opHdr2, 2); (body, bodyLen)] in
      n <-- gets (fun w => length (o_send w)) ;;
      coalesced_loop (S n) sid (fd_ s) segs bodyLen
  end.

(** [SessionManager::sendPacketU16]. *)
Definition sendPacketU16 (id opcode : Z) (body : option (list byte)) (bodyLen : Z) : M St bool :=
  assertInOwnerThread_ ;;;
  let payloadLen := payloadLenForBody bodyLen in
  if kMaxPayloadLenU64 <? payloadLen then ret false else
  tbl <-- gets sessions ;;
  if negb (bool_decide (id ∈ tbl)) then ret false else
  let hdr := mk_header (u32 payloadLen) opcode in
  enqueuePacketU16Coalesced id (encodeLen hdr) (encodeOpcode hdr) body bodyLen.

(** [PerWorkerSessionSender::sendPacketU16], which a handle calls. *)
Definition sender_sendPacketU16 (id opcode : Z) (body : option (list byte)) (bodyLen : Z) : M St bool :=
  own <-- gets isInOwnerThread ;;
  if own then sendPacketU16 id opcode body bodyLen else ret false.

(* ------------------------------------------------------------------ *)
(** ** The application *)

(** Runs a callback; the result says whether it threw. *)
Fixpoint run_prog (p : prog St) : M St bool :=
  match p with
  | PRet => ret false
  | PThrow => ret true
  | PGet k => s <-- gets app_state ;; run_prog (k s)
  | PPut s k => modify (fun w => set_app w s) ;;; run_prog k
  | PSend id op body k =>
      ok <-- sender_sendPacketU16 id op (Some body) (zlen body) ;;
      emit (EvSend id op body ok) ;;; run_prog (k ok)
  | PClose id reason err k => closeByPolicy_ id reason err ;;; run_prog k
  end.

(** [SessionManager::onSessionClosed]. *)
Definition onSessionClosed (id : Z) : M St unit :=
  assertInOwnerThread_ ;;;
  tbl <-- gets sessions ;;
  if negb (bool_decide (id ∈ tbl)) then ret tt else
  s <-- obj id ;;
  modify (fun w => set_mgr w (set_sessions (mgr w) (sessions w ∖ {[id]}))) ;;;
  onConnectionClosed ;;;
  emit (EvEnd (handle_ s)) ;;;
  m <-- gets mgr ;;
  match app_ m with
  | None => ret tt
  | Some app => run_prog (onSessionEnd app (handle_ s)) ;;; ret tt
  end.

(** [Session::beginClose_]. *)
Definition beginClose_body (sid : Z) (reason : string) (err : Z) : M St unit :=
  assertInOwnerThread_ ;;;
  s <-- obj sid ;;
  if bool_decide (state_ s = Closed) then ret tt else
  if bool_decide (state_ s = Closing) then ret tt else
  update sid (fun s => set_state_ s Closing) ;;;
  (if 0 <=? fd_ s then removeFd (fd_ s) else ret false) ;;;
  update sid (fun s => set_state_ (set_fd_ s (-1)) Closed) ;;;
  (if negb (err =? 0) || negb (isNormalCloseReason reason) then onError else ret tt) ;;;
  onSessionClosed (id_ (handle_ s)).

(** [SessionManager::dispatchOnMessage].  It is [noexcept]: a handler that
    throws ends the process. *)
Definition dispatchOnMessage (session : SessionHandle) (message : MessageView) : M St unit :=
  assertInOwnerThread_ ;;;
  onRxMessage ;;;
  match splitOpcodeU16Be message with
  | Undefined => abort
  | Failed => closeByPolicy_ (id_ session) "invalid_opcode_prefix" 0
  | Done (opcode, body) _ =>
      if opcode =? kOpcodePing then
        ok <-- sendPacketU16 (id_ session) kOpcodePong None 0 ;;
        emit (EvSend (id_ session) kOpcodePong [] ok)
      else if opcode =? kOpcodePong then ret tt
      else
        m <-- gets mgr ;;
        let '(p, handled) := dispatch (dispatcher_ m) opcode session body PRet in
        if handled then threw <-- run_prog p ;; if threw then abort else ret tt
        else closeByPolicy_ (id_ session) "unknown_opcode" 0
  end.

(** [SessionManager::dispatchInjected]. *)
Definition dispatchInjected (session : SessionHandle) (opcode : Z) (body : list byte) : M St unit :=
  assertInOwnerThread_ ;;;
  tbl <-- gets sessions ;;
  if negb (bool_decide (id_ session ∈ tbl)) then ret tt else
  m <-- gets mgr ;;
  let view := match body with [] => mk_view None 0 | _ => mk_view (Some body) (zlen body) end in
  let '(p, handled) := dispatch (dispatcher_ m) opcode session view PRet in
  if handled then threw <-- run_prog p ;; if threw then abort else ret tt
  else closeByPolicy_ (id_ session) "unknown_injected_opcode" 0.

(* ------------------------------------------------------------------ *)
(** ** Receiving *)

(** [processRecvFrames_]. *)
Fixpoint frames_loop (fuel : nat) (sid : Z) : M St bool :=
  match fuel with
  | O => no_fuel
  | S fuel' =>
      s <-- obj sid ;;
      m <-- gets mgr ;;
      match recvRing_ s with
      | None => abort
      | Some rb =>
          let '(f, rb', msgView, r) := Framer.tryFrame (framer_ m) rb in
          modify (fun w => set_mgr w (set_framer (mgr w) f)) ;;;
          update sid (fun s => set_recvRing_ s rb') ;;;
          match r with
          | Framer.NeedMore => ret true
          | Framer.Invalid => close sid "framer_invalid" 0 ;;; ret false
          | Framer.Framed =>
              emit (EvMessage (id_ (handle_ s)) (view_bytes msgView)) ;;;
              dispatchOnMessage (handle_ s) msgView ;;;
              ok <-- still_connected sid ;;
              if ok then frames_loop fuel' sid else ret false
          end
      end
  end.

Definition ring_size (s : World.Session) : Z :=
  match recvRing_ s with Some rb => RingBuffer.size rb | None => 0 end.

Definition processRecvFrames_ (sid : Z) : M St bool :=
  s <-- obj sid ;; frames_loop (S (Z.to_nat (ring_size s))) sid.

Definition touchRx_ (sid : Z) : M St unit :=
  now <-- clock_now ;; update sid (fun s => set_lastRx_ s now).

(** The loop of [onReadable_]. *)
Fixpoint recv_loop (fuel : nat) (sid fd : Z) : M St unit :=
  match fuel with
  | O => no_fuel
  | S fuel' =>
      s <-- obj sid ;;
      match recvRing_ s with
      | None => abort
      | Some rb =>
          match RingBuffer.writeIov rb (Some RingBuffer.null_iov2) (RingBuffer.freeSpace rb) with
          | (iovcnt, Some iov) =>
              if iovcnt =? 0 then close sid "recv_overflow" 0 else
              r <-- recvmsg fd (RingBuffer.iov_len iov.1 + RingBuffer.iov_len iov.2) ;;
              match r with
              | inl bytes =>
                  if 0 <? zlen bytes then
                    update sid (fun s => set_recvRing_ s
                      (RingBuffer.commitWrite (RingBuffer.scatter rb iov bytes) (zlen bytes))) ;;;
                    touchRx_ sid ;;;
                    ok <-- processRecvFrames_ sid ;;
                    if ok then recv_loop fuel' sid fd else ret tt
                  else close sid "peer_close" 0
              | inr e =>
                  if e =? EINTR then recv_loop fuel' sid fd else
                  if e =? EAGAIN then ret tt else
                  close sid "recv_error" e
              end
          | (_, None) => abort
          end
      end
  end.

Definition onReadable_ (sid : Z) : M St unit :=
  s <-- obj sid ;;
  if negb (is_connected s) then ret tt else
  match recvRing_ s with
  | None => close sid "recv_ring_null" 0
  | Some _ =>
      n <-- gets (fun w => length (o_recv w)) ;;
      recv_loop (S n) sid (fd_ s)
  end.

Definition onWritable_ (sid : Z) : M St unit :=
  s <-- obj sid ;;
  if negb (is_connected s) then ret tt else
  match sendRing_ s with
  | None => close sid "send_ring_missing" 0
  | Some _ =>
      ok <-- flushSend_ sid ;;
      if negb ok then ret tt else
      s <-- obj sid ;;
      match sendRing_ s with
      | None => abort
      | Some rb => setWriteInterest_ sid (negb (RingBuffer.empty rb))
      end
  end.

Definition onError_ (sid events : Z) : M St unit :=
  s <-- obj sid ;;
  if negb (is_connected s) then ret tt else
  if has_flag events EPOLLERR then close sid "epoll_err" 0 else
  if has_flag events (Z.lor EPOLLHUP EPOLLRDHUP)
  then close sid (if has_flag events EPOLLRDHUP then "epoll_rdhup" else "epoll_hup") 0
  else close sid "epoll_unknown" 0.

(** [Session::handleEvent]. *)
Definition handleEvent (sid events : Z) : M St unit :=
  s <-- obj sid ;;
  if bool_decide (state_ s = Closed) then ret tt else
  (if has_flag events EPOLLIN then onReadable_ sid else ret tt) ;;;
  c1 <-- (if has_flag events EPOLLIN then still_connected sid else ret true) ;;
  if negb c1 then ret tt else
  (if has_flag events EPOLLOUT then onWritable_ sid else ret tt) ;;;
  c2 <-- (if has_flag events EPOLLOUT then still_connected sid else ret true) ;;
  if negb c2 then ret tt else
  if has_flag events (Z.lor EPOLLERR (Z.lor EPOLLHUP EPOLLRDHUP)) then onError_ sid events else ret tt.

(* ------------------------------------------------------------------ *)
(** ** Timeouts *)

Definition armIdleTimerAfter_ (sid delay : Z) : M St unit :=
  s <-- obj sid ;;
  if (s_idleTimeoutMs_ s =? 0) || negb (is_connected s) || idleTimerArmed_ s then ret tt else
  update sid (fun s => set_idleArmed_ s true) ;;;
  addTimer delay (IdleTimer sid).

Definition armHeartbeatTimerAfter_ (sid delay : Z) : M St unit :=
  s <-- obj sid ;;
  if (s_heartbeatIntervalMs_ s =? 0) || negb (is_connected s) || heartbeatTimerArmed_ s then ret tt else
  update sid (fun s => set_heartbeatArmed_ s true) ;;;
  addTimer delay (HeartbeatTimer sid).

Definition startTimeouts_ (sid idleTimeoutMs heartbeatIntervalMs : Z) : M St unit :=
  update sid (fun s => set_timeouts_ s idleTimeoutMs heartbeatIntervalMs) ;;;
  now <-- clock_now ;;
  update sid (fun s => set_lastRx_ s now) ;;;
  (if 0 <? idleTimeoutMs then armIdleTimerAfter_ sid idleTimeoutMs else ret tt) ;;;
  (if 0 <? heartbeatIntervalMs then armHeartbeatTimerAfter_ sid heartbeatIntervalMs else ret tt).

(** [duration_cast<milliseconds>(now - lastRxAt_)]. *)
Definition elapsed_ms (now lastRx : Z) : Z := Z.quot (now - lastRx) 1000000.

Definition onIdleTimer_ (sid : Z) : M St unit :=
  update sid (fun s => set_idleArmed_ s false) ;;;
  s <-- obj sid ;;
  if (s_idleTimeoutMs_ s =? 0) || negb (is_connected s) then ret tt else
  now <-- clock_now ;;
  let elapsed := elapsed_ms now (lastRxAt_ s) in
  if s_idleTimeoutMs_ s <=? elapsed then close sid "idle_timeout" 0 else
  let remaining := s_idleTimeoutMs_ s - elapsed in
  armIdleTimerAfter_ sid (if remaining <=? 0 then 1 else remaining).

Definition kMaxMissed : Z := 2.

Definition onHeartbeatTimer_ (sid : Z) : M St unit :=
  update sid (fun s => set_heartbeatArmed_ s false) ;;;
  s <-- obj sid ;;
  if (s_heartbeatIntervalMs_ s =? 0) || negb (is_connected s) then ret tt else
  now <-- clock_now ;;
  let elapsed := elapsed_ms now (lastRxAt_ s) in
  let interval := s_heartbeatIntervalMs_ s in
  let timeout := interval * kMaxMissed in
  if timeout <=? elapsed then close sid "heartbeat_timeout" 0 else
  if interval <=? elapsed then
    ok <-- sendPacketU16 (id_ (handle_ s)) kOpcodePing None 0 ;;
    emit (EvSend (id_ (handle_ s)) kOpcodePing [] ok) ;;;
    let remainToTimeout := timeout - elapsed in
    let next := if remainToTimeout <? interval then remainToTimeout else interval in
    armHeartbeatTimerAfter_ sid (if next <=? 0 then 1 else next)
  else
    let remaining := interval - elapsed in
    armHeartbeatTimerAfter_ sid (if remaining <=? 0 then 1 else remaining).

(** A timer callback: [weak.lock()] succeeds while the manager owns the
    object. *)
Definition run_timer (cb : timer_cb) : M St unit :=
  tbl <-- gets sessions ;;
  match cb with
  | IdleTimer sid => if bool_decide (sid ∈ tbl) then onIdleTimer_ sid else ret tt
  | HeartbeatTimer sid => if bool_decide (sid ∈ tbl) then onHeartbeatTimer_ sid else ret tt
  end.

(* ------------------------------------------------------------------ *)
(** ** Manager operations *)

(** [Session::create]: [None] when a ring cannot be allocated. *)
Definition create (m : Manager St) (handle : SessionHandle) (fd now : Z) : option World.Session :=
  match RingBuffer.create (recvRingCapacity_ m), RingBuffer.create (sendRingCapacity_ m) with
  | inr r, inr s =>
      Some (mk_session handle fd Connected (Some r) (Some s) baseEpollMask_ 0 0 now false false)
  | _, _ => None
  end.

(** [SessionManager::onAccepted] for the accepted descriptor [fd].  Were the
    id taken, [emplace] would keep the old session and the new object would
    die with its registration in place; [Handle.session_ids_unique] excludes
    it below [2^32] sessions. *)
Definition onAccepted (fd : Z) : M St SessionHandle :=
  assertInOwnerThread_ ;;;
  m <-- gets mgr ;;
  let '(id, k) := nextSessionId (ownerWorkerId_ m) (localCounter_ m) in
  modify (fun w => set_mgr w (set_counter (mgr w) k)) ;;;
  let handle := makeHandle_ m id in
  now <-- clock_now ;;
  match create m handle fd now with
  | None => onError ;;; ret null_handle
  | Some s =>
      tbl <-- gets sessions ;;
      if bool_decide (id ∈ tbl) then abort else
      let mask := makeEventMask [EPOLLIN; EPOLLET; EPOLLERR; EPOLLHUP; EPOLLRDHUP] in
      r <-- addFd fd mask (HSession id) ;;
      match r with
      | Some _ => onError ;;; ret null_handle
      | None =>
          modify (fun w => set_heap w (<[id := s]> (heap w))) ;;;
          modify (fun w => set_mgr w (set_sessions (mgr w) ({[id]} ∪ sessions w))) ;;;
          startTimeouts_ id (idleTimeoutMs_ m) (heartbeatIntervalMs_ m) ;;;
          onConnectionOpened ;;;
          emit (EvStart handle) ;;;
          match app_ m with
          | None => ret handle
          | Some app => run_prog (onSessionStart app handle) ;;; ret handle
          end
      end
  end.

(** The constructor; [setApplication] follows it. *)
Definition create_manager (ownerWorkerId recvRingCapacity sendRingCapacity framerMaxPayloadLen : Z)
  : Manager St :=
  mk_mgr ownerWorkerId recvRingCapacity sendRingCapacity 1 0 0 None
    (Framer.create framerMaxPayloadLen) dispatcher_init ∅.

(** [closeAllByPolicy]: the ids are copied first. *)
Fixpoint close_ids (ids : list Z) (reason : string) (err : Z) : M St unit :=
  match ids with
  | [] => ret tt
  | id :: rest => closeByPolicy_ id reason err ;;; close_ids rest reason err
  end.

Definition closeAllByPolicy (reason : string) (err : Z) : M St unit :=
  assertInOwnerThread_ ;;;
  tbl <-- gets sessions ;;
  close_ids (elements tbl) reason err.

(** The part of [shutdownInOwnerThread] about sessions. *)
Fixpoint shutdown_ids (ids : list Z) : M St unit :=
  match ids with
  | [] => ret tt
  | id :: rest => closeFromManager_ id ;;; shutdown_ids rest
  end.

Definition shutdownInOwnerThread : M St unit :=
  assertInOwnerThread_ ;;;
  tbl <-- gets sessions ;;
  shutdown_ids (elements tbl) ;;;
  modify (fun w => set_mgr w (set_sessions (mgr w) ∅)).

Definition configureTimeouts (idle heartbeat : Z) : M St unit :=
  assertInOwnerThread_ ;;;
  modify (fun w => let m := mgr w in set_mgr w
    (mk_mgr (ownerWorkerId_ m) (recvRingCapacity_ m) (sendRingCapacity_ m) (localCounter_ m)
       idle heartbeat (app_ m) (framer_ m) (dispatcher_ m) (sessions_ m))).

Definition setApplication (app : option (Application St)) : M St unit :=
  modify (fun w => let m := mgr w in
    let d := match app with
             | None => Message.clear (dispatcher_ m)
             | Some a => registerHandlers a (Message.clear (dispatcher_ m))
             end in
    set_mgr w (mk_mgr (ownerWorkerId_ m) (recvRingCapacity_ m) (sendRingCapacity_ m) (localCounter_ m)
       (idleTimeoutMs_ m) (heartbeatIntervalMs_ m) app (framer_ m) d (sessions_ m))).

End Closing.

(** [Session::beginClose_] with at most [d] closes nested inside it. *)
Fixpoint beginClose_ (d : nat) (sid : Z) (reason : string) (err : Z) : M St unit :=
  beginClose_body (match d with O => fun _ _ _ => no_fuel | S d' => beginClose_ d' end) sid reason err.

End Ops.

End Session.
