(* ===== verification/SessionInv.v ===== *)
(** * SessionInv: the invariant of a worker and the promises of its operations

    A weakest-precondition calculus for the effects of [World], the invariant
    [inv] that ties the session table, the heap, the descriptor registry, the
    kernel's send streams, the metrics and the trace together, and the
    relation [evo] between the states before and after any operation that
    does not read from a socket.

    [close_ok] is the contract between the operations and the close operation
    they are given; [beginClose_] is shown to satisfy it. *)

From S2P Require Import Prelude RingBuffer Message Framer Handle World Session.
Import Message Handle World Session.

Module SessionInv.

(* ------------------------------------------------------------------ *)
(** ** Weakest preconditions *)

(** [m] returns from [w], in a state and with a result that satisfy [Q]. *)
Definition wp {St A} (m : M St A) (Q : A -> world St -> Prop) (w : world St) : Prop :=
  match m w with
  | Ok a w' => Q a w'
  | Abort => False
  | NoFuel => False
  end.

Section WP.
Context {St : Type}.
Implicit Types w : world St.

Lemma wp_bind {A B} (m : M St A) (f : A -> M St B) Q w :
  wp m (fun a w' => wp (f a) Q w') w -> wp (bind m f) Q w.
Proof. unfold wp, bind. by destruct (m w). Qed.

Lemma wp_mono {A} (m : M St A) (P Q : A -> world St -> Prop) w :
  wp m P w -> (forall a w', P a w' -> Q a w') -> wp m Q w.
Proof. unfold wp. destruct (m w); auto. Qed.

Lemma wp_ret {A} (a : A) (Q : A -> world St -> Prop) w : Q a w -> wp (ret a) Q w.
Proof. done. Qed.

Lemma wp_gets {A} (f : world St -> A) Q w : Q (f w) w -> wp (gets f) Q w.
Proof. done. Qed.

Lemma wp_modify (f : world St -> world St) Q w : Q tt (f w) -> wp (modify f) Q w.
Proof. done. Qed.

Lemma wp_obj sid s Q w : heap w !! sid = Some s -> Q s w -> wp (obj sid) Q w.
Proof. intros E H. unfold wp, obj. by rewrite E. Qed.

Lemma wp_update sid f s Q w :
  heap w !! sid = Some s -> Q tt (set_heap w (<[sid := f s]> (heap w))) -> wp (update sid f) Q w.
Proof. intros E H. unfold wp, update. by rewrite E. Qed.

Lemma wp_owner Q w : isInOwnerThread w = true -> Q tt w -> wp assertInOwnerThread_ Q w.
Proof. intros E H. unfold wp, assertInOwnerThread_, bind, gets. by rewrite E. Qed.

Lemma wp_run {A} (m : M St A) Q w : wp m Q w -> exists a w', m w = Ok a w' /\ Q a w'.
Proof. unfold wp. destruct (m w) as [a w' | |]; [eauto | done | done]. Qed.

End WP.

(** Steps through the effects that have one outcome. *)
Ltac wp1 :=
  cbv beta iota zeta;
  lazymatch goal with
  | |- wp (bind _ _) _ _ => apply wp_bind
  | |- wp (ret _) _ _ => apply wp_ret
  | |- wp (gets _) _ _ => apply wp_gets
  | |- wp (modify _) _ _ => apply wp_modify
  | |- wp (emit _) _ _ => apply wp_modify
  | |- wp onError _ _ => apply wp_modify
  | |- wp onRxMessage _ _ => apply wp_modify
  | |- wp onConnectionOpened _ _ => apply wp_modify
  | |- wp onConnectionClosed _ _ => apply wp_modify
  | |- wp (obj _) _ _ => eapply wp_obj; [eassumption |]
  | |- wp (update _ _) _ _ => eapply wp_update; [eassumption |]
  | |- wp assertInOwnerThread_ _ _ => apply wp_owner; [eassumption |]
  end.

Ltac wps := repeat wp1.

(* ------------------------------------------------------------------ *)
(** ** Traces *)

(** The sessions that are open after a trace; [None] when the trace ends a
    session that is not open, starts one twice, or delivers a message to or
    accepts a packet for a session that is not open. *)
Definition trace_step (live : option (gset Z)) (e : event) : option (gset Z) :=
  live ← live;
  match e with
  | EvStart h => if decide (id_ h ∈ live) then None else Some ({[id_ h]} ∪ live)
  | EvEnd h => if decide (id_ h ∈ live) then Some (live ∖ {[id_ h]}) else None
  | EvMessage sid _ => if decide (sid ∈ live) then Some live else None
  | EvSend sid _ _ ok => if ok then if decide (sid ∈ live) then Some live else None else Some live
  end.

Definition trace_live (tr : list event) : option (gset Z) := fold_left trace_step tr (Some ∅).

(** The bytes of the packets accepted for a session, in order. *)
Definition sent_frame (sid : Z) (e : event) : option (list byte) :=
  match e with
  | EvSend i op body true => if i =? sid then Some (frame op body) else None
  | _ => None
  end.

Definition sent_frames (sid : Z) (tr : list event) : list byte := concat (omap (sent_frame sid) tr).

(** The payloads delivered from a session, in order. *)
Definition message_of (sid : Z) (e : event) : option (list byte) :=
  match e with
  | EvMessage i p => if i =? sid then Some p else None
  | _ => None
  end.

Definition messages (sid : Z) (tr : list event) : list (list byte) := omap (message_of sid) tr.

Definition is_message (e : event) : bool := match e with EvMessage _ _ => true | _ => false end.
Definition is_start (e : event) : bool := match e with EvStart _ => true | _ => false end.

Lemma trace_live_snoc tr e : trace_live (tr ++ [e]) = trace_step (trace_live tr) e.
Proof. unfold trace_live. by rewrite fold_left_app. Qed.

Lemma sent_frames_snoc sid tr e :
  sent_frames sid (tr ++ [e]) = sent_frames sid tr ++ default [] (sent_frame sid e).
Proof.
  unfold sent_frames. rewrite omap_app, concat_app. f_equal. simpl.
  destruct (sent_frame sid e); simpl; [by rewrite app_nil_r | done].
Qed.

(* ------------------------------------------------------------------ *)
(** ** Programs an application may run *)

(** Packet bodies are objects of this address space; [throws] says whether
    the program may end by throwing. *)
Fixpoint prog_ok {St} (throws : bool) (p : prog St) : Prop :=
  match p with
  | PRet => True
  | PThrow => throws = true
  | PGet k => forall s, prog_ok throws (k s)
  | PPut _ k => prog_ok throws k
  | PSend _ op body k => 0 <= op < U16 /\ zlen body <= VEC_MAX /\ forall b, prog_ok throws (k b)
  | PClose _ _ _ k => prog_ok throws k
  end.

(** The callbacks of the application; handlers run inside a [noexcept]
    function and must not throw. *)
Record app_ok {St} (m : Manager St) : Prop := {
  ao_handlers : forall op h s v, handlers_ (dispatcher_ m) !! op = Some h ->
                  zlen (view_bytes v) <= VEC_MAX -> prog_ok false (h s v PRet);
  ao_end : forall a h, app_ m = Some a -> prog_ok true (onSessionEnd a h);
  ao_start : forall a h, app_ m = Some a -> prog_ok true (onSessionStart a h)
}.

(* ------------------------------------------------------------------ *)
(** ** Invariant *)

Section Inv.
Context {St : Type}.
(** Connections of the process that belong to other workers. *)
Context {others : Z}.
Implicit Types (w : world St) (s : World.Session).

(** A session the manager owns. *)
Record sess_ok w (sid : Z) (s : World.Session) : Prop := {
  so_state : state_ s = Connected;
  so_fd : 0 <= fd_ s;
  so_id : id_ (handle_ s) = sid;
  so_reg : fdContexts_ w !! fd_ s = Some (mk_fdctx (HSession sid) (currentEpollMask_ s));
  so_kern : is_Some (kern w !! fd_ s);
  so_recv : exists rb, recvRing_ s = Some rb /\ RingBuffer.wf rb /\
              RingBuffer.capacity_ rb = recvRingCapacity_ (mgr w);
  so_send : exists rb, sendRing_ s = Some rb /\ RingBuffer.wf rb
}.

Lemma sess_ok_ext w w' sid s :
  fdContexts_ w' = fdContexts_ w -> kern w' = kern w -> recvRingCapacity_ (mgr w') = recvRingCapacity_ (mgr w) ->
  sess_ok w sid s -> sess_ok w' sid s.
Proof. intros Hf Hk Hm []. split; try done; by rewrite ?Hf, ?Hk, ?Hm. Qed.

Lemma sess_all_ext w w' :
  heap w' = heap w -> sessions w' = sessions w ->
  fdContexts_ w' = fdContexts_ w -> kern w' = kern w -> recvRingCapacity_ (mgr w') = recvRingCapacity_ (mgr w) ->
  (forall sid, sid ∈ sessions w -> exists s, heap w !! sid = Some s /\ sess_ok w sid s) ->
  forall sid, sid ∈ sessions w' -> exists s, heap w' !! sid = Some s /\ sess_ok w' sid s.
Proof.
  intros Hh Hs Hf Hk Hm H sid. rewrite Hs, Hh. intros Hin. destruct (H sid Hin) as (s & E & O).
  exists s. split; [done |]. by eapply sess_ok_ext.
Qed.

(** What was handed to the kernel and what waits in the ring. *)
Definition stream w (sid : Z) : option (list byte) :=
  s ← heap w !! sid; c ← kern w !! fd_ s; rb ← sendRing_ s;
  Some (tx_wire c ++ RingBuffer.contents rb).

(** Write readiness is asked for exactly while bytes wait in the ring. *)
Definition interest_mask (rb : RingBuffer.t) : Z :=
  if RingBuffer.empty rb then baseEpollMask_ else Z.lor baseEpollMask_ EPOLLOUT.

Definition interest_ok w (sid : Z) : Prop :=
  exists s rb, heap w !! sid = Some s /\ sendRing_ s = Some rb /\ currentEpollMask_ s = interest_mask rb.

(** The invariant, but for the send stream of session [ex] (one whose packet
    is being queued) and its write interest. *)
Record inv (ex : option Z) w : Prop := {
  i_owner : isInOwnerThread w = true;
  i_sess : forall sid, sid ∈ sessions w -> exists s, heap w !! sid = Some s /\ sess_ok w sid s;
  i_dead : forall sid s, heap w !! sid = Some s -> ~ sid ∈ sessions w ->
             state_ s = Closed /\ fd_ s = -1 /\ id_ (handle_ s) = sid /\ is_Some (sendRing_ s);
  i_fds : forall fd sid m, fdContexts_ w !! fd = Some (mk_fdctx (HSession sid) m) ->
            sid ∈ sessions w /\ exists s, heap w !! sid = Some s /\ fd_ s = fd;
  i_stream : forall sid, sid ∈ sessions w -> ex <> Some sid ->
               stream w sid = Some (sent_frames sid (trace w));
  i_interest : forall sid, sid ∈ sessions w -> ex <> Some sid -> interest_ok w sid;
  i_worker : 0 <= ownerWorkerId_ (mgr w) < 2 ^ 31;
  i_counter : 1 <= localCounter_ (mgr w);
  i_ids : forall sid, is_Some (heap w !! sid) ->
            exists j, sid = ownerWorkerId_ (mgr w) * U32 + j /\ 1 <= j < localCounter_ (mgr w);
  i_sent : forall sid, heap w !! sid = None -> sent_frames sid (trace w) = [];
  i_live : trace_live (trace w) = Some (sessions w);
  i_gauge : currentConnections_ (metrics w) = others + Z.of_nat (size (sessions w));
  i_app : app_ok (mgr w);
  i_max : 0 <= Framer.maxPayloadLen_ (framer_ (mgr w)) < U32
}.

(** Fields of a session that only reads, timers and accept change. *)
Definition same_rx (s s' : World.Session) : Prop :=
  handle_ s' = handle_ s /\ recvRing_ s' = recvRing_ s /\
  s_idleTimeoutMs_ s' = s_idleTimeoutMs_ s /\ s_heartbeatIntervalMs_ s' = s_heartbeatIntervalMs_ s /\
  lastRxAt_ s' = lastRxAt_ s /\ idleTimerArmed_ s' = idleTimerArmed_ s /\
  heartbeatTimerArmed_ s' = heartbeatTimerArmed_ s.

(** What sending and closing leave alone. *)
Record evo w w' : Prop := {
  ev_cw : cw w' = cw w;
  ev_mgr : mgr w' = set_sessions (mgr w) (sessions w');
  ev_sub : sessions w' ⊆ sessions w;
  ev_heap : forall sid s, heap w !! sid = Some s -> exists s', heap w' !! sid = Some s' /\
              same_rx s s' /\ (sid ∈ sessions w' -> fd_ s' = fd_ s);
  ev_dead : forall sid, ~ sid ∈ sessions w -> heap w' !! sid = heap w !! sid;
  ev_recv : o_recv w' = o_recv w;
  ev_rx : forall fd, rx_queue <$> kern w' !! fd = rx_queue <$> kern w !! fd;
  ev_wire : forall fd, (forall sid m, ~ fdContexts_ w !! fd = Some (mk_fdctx (HSession sid) m)) ->
              kern w' !! fd = kern w !! fd;
  ev_fds : forall fd, (forall sid m, ~ fdContexts_ w !! fd = Some (mk_fdctx (HSession sid) m)) ->
              fdContexts_ w' !! fd = fdContexts_ w !! fd;
  ev_trace : exists evs, trace w' = trace w ++ evs /\
               Forall (fun e => is_message e = false /\ is_start e = false) evs;
  ev_time : timers w' = timers w /\ o_clock w' = o_clock w /\ now_ w' = now_ w
}.

(* ------------------------------------------------------------------ *)
(** ** Basic lemmas *)

Lemma set_sessions_same (m : Manager St) : set_sessions m (sessions_ m) = m.
Proof. by destruct m. Qed.

Lemma same_rx_refl s : same_rx s s.
Proof. unfold same_rx. done. Qed.

Lemma same_rx_trans s1 s2 s3 : same_rx s1 s2 -> same_rx s2 s3 -> same_rx s1 s3.
Proof. unfold same_rx. intros (?&?&?&?&?&?&?) (?&?&?&?&?&?&?). split_and!; congruence. Qed.

Lemma evo_refl w : evo w w.
Proof.
  split; try done.
  - unfold sessions. by rewrite set_sessions_same.
  - intros sid s E. exists s. split_and!; [done | apply same_rx_refl | done].
  - exists []. by rewrite app_nil_r.
Qed.

Lemma evo_trans w1 w2 w3 : evo w1 w2 -> evo w2 w3 -> evo w1 w3.
Proof.
  intros [c1 m1 u1 h1 d1 r1 x1 k1 f1 t1 z1] [c2 m2 u2 h2 d2 r2 x2 k2 f2 t2 z2]. split.
  - congruence.
  - rewrite m2, m1. done.
  - set_solver.
  - intros sid s E. destruct (h1 sid s E) as (s1 & E1 & Hs1 & Hf1).
    destruct (h2 sid s1 E1) as (s2 & E2 & Hs2 & Hf2). exists s2.
    split_and!; [done | by eapply same_rx_trans |].
    intros Hin. rewrite Hf2 by done. apply Hf1. set_solver.
  - intros sid Hni. rewrite d2 by set_solver. by apply d1.
  - congruence.
  - intros fd. by rewrite x2, x1.
  - intros fd Hfd. rewrite k2; [by apply k1 |]. by rewrite f1.
  - intros fd Hfd. rewrite f2; [by apply f1 |]. by rewrite f1.
  - destruct t1 as (e1 & T1 & F1), t2 as (e2 & T2 & F2). exists (e1 ++ e2).
    rewrite T2, T1, app_assoc. split; [done |]. by apply Forall_app.
  - destruct z1 as (?&?&?), z2 as (?&?&?). split_and!; congruence.
Qed.

Lemma inv_weaken ex w : inv None w -> inv ex w.
Proof. intros []. split; try done; intros sid Hin _; auto. Qed.

Lemma inv_dead_ex sid w : inv (Some sid) w -> ~ sid ∈ sessions w -> inv None w.
Proof. intros [] Hni. split; try done; intros x Hin _; [apply i_stream0 | apply i_interest0]; congruence. Qed.

Lemma inv_restore sid w :
  inv (Some sid) w -> stream w sid = Some (sent_frames sid (trace w)) -> interest_ok w sid -> inv None w.
Proof.
  intros [] Hs Hm. split; try done; intros x Hin _; (destruct (decide (x = sid)) as [-> |]; [done |]);
    [apply i_stream0 | apply i_interest0]; congruence.
Qed.

(** Two open sessions do not share a descriptor. *)
Lemma fd_distinct ex w sid1 sid2 s1 s2 :
  inv ex w -> sid1 ∈ sessions w -> sid2 ∈ sessions w ->
  heap w !! sid1 = Some s1 -> heap w !! sid2 = Some s2 -> sid1 <> sid2 -> fd_ s1 <> fd_ s2.
Proof.
  intros H H1 H2 E1 E2 Hne Hfd. destruct (i_sess _ _ H sid1 H1) as (x1 & X1 & O1).
  destruct (i_sess _ _ H sid2 H2) as (x2 & X2 & O2). simplify_eq.
  pose proof (so_reg _ _ _ O1) as R1. pose proof (so_reg _ _ _ O2) as R2.
  rewrite Hfd in R1. congruence.
Qed.

(** An operation that changes one open session's send side, its descriptor's
    registration and kernel stream, and nothing else. *)
Record tx_step w (sid : Z) (s : World.Session) w' (s' : World.Session) : Prop := {
  tx_cw : cw w' = cw w;
  tx_mgr : mgr w' = mgr w;
  tx_trace : trace w' = trace w;
  tx_metrics : metrics w' = metrics w;
  tx_time : timers w' = timers w /\ o_clock w' = o_clock w /\ now_ w' = now_ w;
  tx_orecv : o_recv w' = o_recv w;
  tx_heap : heap w' = <[sid := s']> (heap w);
  tx_same : same_rx s s';
  tx_fd : fd_ s' = fd_ s;
  tx_fds : forall fd, fd <> fd_ s -> fdContexts_ w' !! fd = fdContexts_ w !! fd;
  tx_kern : forall fd, fd <> fd_ s -> kern w' !! fd = kern w !! fd;
  tx_rx : rx_queue <$> kern w' !! fd_ s = rx_queue <$> kern w !! fd_ s;
  tx_ok : sess_ok w' sid s'
}.

(** Changing a session leaves the streams of the others. *)
Lemma stream_other w w' sid x s' fd :
  heap w' = <[sid := s']> (heap w) -> x <> sid ->
  (forall f, f <> fd -> kern w' !! f = kern w !! f) ->
  (forall sx, heap w !! x = Some sx -> fd_ sx <> fd) -> stream w' x = stream w x.
Proof.
  intros Hh Hx Hk Hf. unfold stream. rewrite Hh, lookup_insert_ne by done.
  destruct (heap w !! x) as [sx |] eqn:E; [| done]. simpl. rewrite Hk; [done |]. by apply Hf.
Qed.

Lemma tx_step_inv w sid s w' s' :
  inv (Some sid) w -> sid ∈ sessions w -> heap w !! sid = Some s -> tx_step w sid s w' s' ->
  inv (Some sid) w' /\ evo w w' /\ sid ∈ sessions w' /\ heap w' !! sid = Some s'.
Proof.
  intros H Hin E T. pose proof T as []. assert (Hse : sessions w' = sessions w) by (unfold sessions; congruence).
  assert (Hl : heap w' !! sid = Some s') by (rewrite tx_heap0; apply lookup_insert_eq).
  pose proof (i_sess _ _ H sid Hin) as (s0 & E0 & O0). rewrite E in E0. injection E0 as <-.
  split_and!; [| | by rewrite Hse | done].
  - split.
    + unfold isInOwnerThread. rewrite tx_cw0, tx_mgr0. apply H.
    + rewrite Hse. intros x Hx. destruct (decide (x = sid)) as [-> | Hne]; [by exists s' |].
      destruct (i_sess _ _ H x Hx) as (sx & Ex & Ox). exists sx.
      rewrite tx_heap0, lookup_insert_ne by done. split; [done |].
      assert (fd_ sx <> fd_ s) by (by eapply (fd_distinct _ w x sid)).
      destruct Ox. split; try done; rewrite ?tx_fds0, ?tx_kern0, ?tx_mgr0 by done; done.
    + rewrite Hse, tx_heap0. intros x sx. rewrite lookup_insert_Some.
      intros [[<- <-] | [Hne Ex]] Hni; [done |]. by eapply H.
    + rewrite Hse, tx_heap0. intros fd x m Hfd.
      destruct (decide (fd = fd_ s)) as [-> | Hne].
      * rewrite <- tx_fd0, (so_reg _ _ _ tx_ok0) in Hfd. injection Hfd as <- _.
        split; [done |]. exists s'. rewrite lookup_insert_eq. split; congruence.
      * rewrite tx_fds0 in Hfd by done. destruct (i_fds _ _ H fd x m Hfd) as (Hx & sx & Ex & Hf).
        split; [done |]. destruct (decide (x = sid)) as [-> |]; [congruence |].
        exists sx. by rewrite lookup_insert_ne by done.
    + rewrite Hse, tx_trace0. intros x Hx Hex. assert (Hne : x <> sid) by congruence.
      rewrite <- (i_stream _ _ H x Hx Hex). eapply stream_other; [done | done | done |].
      intros sx Ex. by eapply (fd_distinct _ w x sid).
    + rewrite Hse. intros x Hx Hex. destruct (i_interest _ _ H x Hx Hex) as (sx & rb & Ex & Hr & Hm).
      exists sx, rb. rewrite tx_heap0, lookup_insert_ne by congruence. done.
    + rewrite tx_mgr0. apply H.
    + rewrite tx_mgr0. apply H.
    + rewrite tx_mgr0, tx_heap0. intros x Hx. apply H. destruct (decide (x = sid)) as [-> |]; [by eexists |].
      by rewrite lookup_insert_ne in Hx by done.
    + rewrite tx_heap0, tx_trace0. intros x. rewrite lookup_insert_None. intros [? _]. by apply H.
    + rewrite tx_trace0, Hse. apply H.
    + rewrite tx_metrics0, Hse. apply H.
    + rewrite tx_mgr0. apply H.
    + rewrite tx_mgr0. apply H.
  - split; try done.
    + by rewrite Hse, tx_mgr0, set_sessions_same.
    + by rewrite Hse.
    + intros x sx Ex. destruct (decide (x = sid)) as [-> | Hne].
      * rewrite E in Ex. injection Ex as <-. by exists s'.
      * exists sx. rewrite tx_heap0, lookup_insert_ne by done. split_and!; [done | apply same_rx_refl | done].
    + intros x Hx. rewrite tx_heap0, lookup_insert_ne; [done |]. congruence.
    + intros fd. destruct (decide (fd = fd_ s)) as [-> | Hne]; [done |]. by rewrite tx_kern0.
    + intros fd Hfd. apply tx_kern0. intros ->. eapply Hfd, O0.
    + intros fd Hfd. apply tx_fds0. intros ->. eapply Hfd, O0.
    + exists []. rewrite app_nil_r. done.
Qed.

(* ------------------------------------------------------------------ *)
(** ** The contract of close *)

(** From a state of the invariant with at most [n] open sessions, [close]
    returns, the session is closed and gone from the table, and the kernel
    keeps what it had been given for it. *)
Definition close_ok (n : nat) (close : Z -> string -> Z -> M St unit) : Prop :=
  forall sid reason err w s,
    inv (Some sid) w -> (size (sessions w) <= n)%nat -> heap w !! sid = Some s ->
    wp (close sid reason err) (fun _ w' =>
      inv None w' /\ evo w w' /\ ~ sid ∈ sessions w' /\ kern w' !! fd_ s = kern w !! fd_ s) w.

(** During a send on session [sid] that started in [w0]: the session is open
    and its stream is [st] ... *)
Definition alive w0 (sid fd : Z) (st : list byte) w' : Prop :=
  inv (Some sid) w' /\ evo w0 w' /\ sid ∈ sessions w' /\ stream w' sid = Some st /\
  (exists s, heap w' !! sid = Some s /\ fd_ s = fd) /\ trace w' = trace w0.

(** ... or it is closed and the kernel was given a prefix of [st]. *)
Definition dead w0 (sid fd : Z) (st : list byte) w' : Prop :=
  inv None w' /\ evo w0 w' /\ ~ sid ∈ sessions w' /\ is_Some (heap w' !! sid) /\
  (exists c, kern w' !! fd = Some c /\ tx_wire c `prefix_of` st).

Definition tx_post w0 sid fd st (ok : bool) w' : Prop :=
  if ok then alive w0 sid fd st w' else dead w0 sid fd st w'.

Lemma dead_more w0 sid fd st st' w' : dead w0 sid fd st w' -> dead w0 sid fd (st ++ st') w'.
Proof. intros (?&?&?&?&c&?&?). split_and!; try done. exists c. split; [done |]. by apply prefix_app_inv. Qed.

(** The parts of an open session in the middle of a send. *)
Lemma alive_parts w0 sid fd st w :
  alive w0 sid fd st w -> exists s c rb, heap w !! sid = Some s /\ fd_ s = fd /\ sess_ok w sid s /\
    kern w !! fd = Some c /\ sendRing_ s = Some rb /\ RingBuffer.wf rb /\
    st = tx_wire c ++ RingBuffer.contents rb /\ is_connected s = true.
Proof.
  intros (Hi & _ & Hin & Hst & (s & Es & Hfd) & _). destruct (i_sess _ _ Hi sid Hin) as (s0 & E0 & O).
  rewrite Es in E0. injection E0 as <-. pose proof O as []. destruct so_kern0 as [c Ec], so_send0 as (rb & Er & Hwf).
  exists s, c, rb. unfold stream in Hst. rewrite Es in Hst. simpl in Hst. rewrite Ec in Hst. simpl in Hst.
  rewrite Er in Hst. simpl in Hst. injection Hst as <-. rewrite <- Hfd.
  split_and!; try done. unfold is_connected. by apply bool_decide_eq_true.
Qed.

Lemma alive_self w0 sid fd st w : alive w0 sid fd st w -> alive w sid fd st w.
Proof. intros (?&?&?&?&?&?). split_and!; try done. apply evo_refl. Qed.

(** A step on the session's send side keeps it open, with a new stream. *)
Lemma alive_step w0 sid fd st w s w' s' st' :
  alive w0 sid fd st w -> heap w !! sid = Some s -> tx_step w sid s w' s' ->
  stream w' sid = Some st' -> alive w0 sid fd st' w'.
Proof.
  intros (Hi & He & Hin & _ & (s0 & E0 & Hfd) & Htr) E T Hst. rewrite E in E0. injection E0 as <-.
  destruct (tx_step_inv w sid s w' s' Hi Hin E T) as (Hi' & He' & Hin' & E').
  split_and!; [done | by eapply evo_trans | done | done | | by rewrite (tx_trace _ _ _ _ _ T)].
  exists s'. split; [done |]. by rewrite (tx_fd _ _ _ _ _ T).
Qed.

Section Sending.
Context (n : nat) (close : Z -> string -> Z -> M St unit) (Hclose : close_ok n close).

Lemma evo_size w w' : evo w w' -> (size (sessions w) <= n)%nat -> (size (sessions w') <= n)%nat.
Proof. intros He Hn. etrans; [| exact Hn]. apply subseteq_size, He. Qed.

Lemma alive_size w0 sid fd st w : alive w0 sid fd st w -> (size (sessions w0) <= n)%nat -> (size (sessions w) <= n)%nat.
Proof. intros (_ & He & _). by apply evo_size. Qed.

Lemma close_dead w0 sid fd st w reason err :
  alive w0 sid fd st w -> (size (sessions w0) <= n)%nat ->
  wp (close sid reason err) (fun _ w' => dead w0 sid fd st w') w.
Proof.
  intros Ha Hn. destruct (alive_parts _ _ _ _ _ Ha) as (s & c & rb & Es & Hfd & O & Ec & Er & Hwf & -> & _).
  pose proof (alive_size _ _ _ _ _ Ha Hn) as Hn'. destruct Ha as (Hi & He & Hin & _).
  eapply wp_mono; [by apply (Hclose sid reason err w s) |]. intros _ w' (Hi' & He' & Hni & Hk).
  rewrite Hfd in Hk. split_and!; [done | by eapply evo_trans | done | |].
  { destruct (ev_heap _ _ He' sid s Es) as (s' & ? & _). by exists s'. }
  exists c. split; [congruence |].
  by exists (RingBuffer.contents rb).
Qed.

(** [close(...); return false;], with [extra] bytes still to be queued. *)
Lemma close_false_more w0 sid fd st extra w reason err :
  alive w0 sid fd st w -> (size (sessions w0) <= n)%nat ->
  wp (close sid reason err ;;; ret false)%eff (tx_post w0 sid fd (st ++ extra)) w.
Proof.
  intros Ha Hn. apply wp_bind. eapply wp_mono; [by eapply close_dead |]. intros [] w' Hd. by apply wp_ret, dead_more.
Qed.

Lemma close_false w0 sid fd st w reason err :
  alive w0 sid fd st w -> (size (sessions w0) <= n)%nat ->
  wp (close sid reason err ;;; ret false)%eff (tx_post w0 sid fd st) w.
Proof. intros Ha Hn. rewrite <- (app_nil_r st) at 1. by apply close_false_more. Qed.

Lemma connected_alive w0 sid fd st w :
  alive w0 sid fd st w -> wp (still_connected sid) (tx_post w0 sid fd st) w.
Proof.
  intros Ha. destruct (alive_parts _ _ _ _ _ Ha) as (s & c & rb & Es & Hfd & O & Ec & Er & Hwf & -> & Hc).
  unfold still_connected. wps. by rewrite Hc.
Qed.

End Sending.

(** Steps of the send side. *)

Lemma sess_ok_same w w' sid s s' :
  sess_ok w sid s -> mgr w' = mgr w -> state_ s' = state_ s -> fd_ s' = fd_ s -> handle_ s' = handle_ s ->
  recvRing_ s' = recvRing_ s ->
  fdContexts_ w' !! fd_ s = Some (mk_fdctx (HSession sid) (currentEpollMask_ s')) ->
  is_Some (kern w' !! fd_ s) -> (exists rb, sendRing_ s' = Some rb /\ RingBuffer.wf rb) ->
  sess_ok w' sid s'.
Proof.
  intros [] Hm Hs Hf Hh Hr Hreg Hk Hsr. split; rewrite ?Hs, ?Hf, ?Hh, ?Hr, ?Hm; done.
Qed.

Lemma step_sendRing w sid s rb :
  sess_ok w sid s -> RingBuffer.wf rb ->
  tx_step w sid s (set_heap w (<[sid := set_sendRing_ s rb]> (heap w))) (set_sendRing_ s rb).
Proof.
  intros O Hwf. split; try done. eapply sess_ok_same; try done; try apply O. by exists rb.
Qed.

Lemma step_sent w sid s rest c c' :
  sess_ok w sid s -> heap w !! sid = Some s -> kern w !! fd_ s = Some c -> rx_queue c' = rx_queue c ->
  tx_step w sid s (set_kern (set_send w rest) (<[fd_ s := c']> (kern w))) s.
Proof.
  intros O E Ec Hrx. split; try done.
  - cbn. by rewrite insert_id.
  - intros fd Hne. cbn. by rewrite lookup_insert_ne.
  - cbn. rewrite lookup_insert_eq, Ec. cbn. by rewrite Hrx.
  - eapply sess_ok_same; try done; try apply O. cbn. rewrite lookup_insert_eq. by eexists.
Qed.

Lemma step_oracle w sid s rest :
  sess_ok w sid s -> heap w !! sid = Some s -> tx_step w sid s (set_send w rest) s.
Proof.
  intros O E. split; try done; [cbn; by rewrite insert_id |].
  eapply sess_ok_same; try done; apply O.
Qed.

Lemma step_ctl w sid s rest :
  sess_ok w sid s -> heap w !! sid = Some s -> tx_step w sid s (set_ctl w rest) s.
Proof.
  intros O E. split; try done; [cbn; by rewrite insert_id |].
  eapply sess_ok_same; try done; apply O.
Qed.

Lemma step_mask w sid s mask :
  sess_ok w sid s ->
  tx_step w sid s (set_heap (set_fds w (<[fd_ s := mk_fdctx (HSession sid) mask]> (fdContexts_ w)))
                     (<[sid := set_mask_ s mask]> (heap w))) (set_mask_ s mask).
Proof.
  intros O. split; try done.
  - intros fd Hne. cbn. by rewrite lookup_insert_ne.
  - eapply sess_ok_same; try done; try apply O. cbn. by rewrite lookup_insert_eq.
Qed.

(** The stream seen through the parts. *)
Lemma stream_parts w sid s c rb :
  heap w !! sid = Some s -> kern w !! fd_ s = Some c -> sendRing_ s = Some rb ->
  stream w sid = Some (tx_wire c ++ RingBuffer.contents rb).
Proof. intros E1 E2 E3. unfold stream. rewrite E1. simpl. rewrite E2. simpl. by rewrite E3. Qed.

(** The answers of a send on a known connection. *)
Lemma wp_sendmsg fd bytes c Q w :
  kern w !! fd = Some c ->
  (o_send w = [] -> Q (inr EAGAIN) w) ->
  (forall e r rest, o_send w = r :: rest -> Q (inr e) (set_send w rest)) ->
  (forall k r rest, o_send w = r :: rest -> 0 <= k <= zlen bytes ->
     Q (inl k) (set_kern (set_send w rest) (<[fd := mk_conn (rx_queue c) (tx_wire c ++ ztake k bytes)]> (kern w)))) ->
  wp (sendmsg fd bytes) Q w.
Proof.
  intros Ec He Hr Hs. unfold wp, sendmsg. destruct (o_send w) as [| r rest] eqn:Eo; [auto |].
  rewrite Ec. destruct r as [k | e]; [| by eapply Hr].
  eapply Hs; [done |]. pose proof (zlen_nonneg bytes). lia.
Qed.

End Inv.

End SessionInv.
