(* ===== verification/SessionSend.v ===== *)
(** * SessionSend: the send path keeps the byte stream

    For every operation of the send path of [Session] (the flush loop, the
    queueing of a packet behind a backlog, the write-interest switch): however
    the kernel answers, the bytes handed over and the bytes that wait are
    together the old stream and the new packet, or the session is closed and
    the kernel has got a prefix of them. *)

From S2P Require Import Prelude Endian RingBuffer Message Framer Handle World Session SessionInv.
Import Endian Message Handle World Session SessionInv.

Module SessionSend.

(** Consuming sent bytes. *)
Lemma consume_spec fuel rb k :
  RingBuffer.wf rb -> 0 <= k <= RingBuffer.size_ rb -> (Z.to_nat k < fuel)%nat ->
  RingBuffer.wf (consume fuel rb k) /\
  RingBuffer.contents (consume fuel rb k) = zdrop k (RingBuffer.contents rb).
Proof.
  revert rb k. induction fuel as [| fuel IH]; intros rb k Hwf Hk Hf; [lia |].
  cbn [consume]. destruct (Z.leb_spec k 0); [by replace k with 0 by lia |].
  destruct (RingBuffer.readView_spec rb k Hwf ltac:(lia)) as (Hw & Hv & _ & Hc & Hcap & Hs & _ & H0).
  destruct (RingBuffer.readView rb k) as [rb' v]; cbn [fst snd] in *.
  pose proof (RingBuffer.wf_cap rb Hwf). pose proof (RingBuffer.wf_head rb Hwf).
  pose proof (RingBuffer.wf_size rb Hwf).
  set (j := Z.min k (Z.min (RingBuffer.size_ rb) (RingBuffer.capacity_ rb - RingBuffer.head_ rb))) in *.
  assert (0 < j) by lia. unfold RingBuffer.view_empty. rewrite Hv. zb_eval.
  rewrite size_sub_small by lia. destruct (IH rb' (k - j) Hw) as [Hw' Hc']; [lia | lia |].
  split; [done |]. rewrite Hc', Hc, zdrop_zdrop by lia. f_equal. lia.
Qed.

Lemma consume_ring_spec rb k :
  RingBuffer.wf rb -> 0 <= k <= RingBuffer.size_ rb ->
  RingBuffer.wf (consume_ring rb k) /\
  RingBuffer.contents (consume_ring rb k) = zdrop k (RingBuffer.contents rb).
Proof. intros Hwf Hk. apply consume_spec; [done | done | lia]. Qed.

Section Send.
Context {St : Type} {others : Z}.
Context (n : nat) (close : Z -> string -> Z -> M St unit).
Context (Hclose : close_ok (others := others) n close).
Implicit Types w : world St.

Local Abbreviation inv := (@SessionInv.inv St others).
Local Abbreviation alive := (@SessionInv.alive St others).
Local Abbreviation dead := (@SessionInv.dead St others).
Local Abbreviation tx_post := (@SessionInv.tx_post St others).

(** Names the parts of the open session in the middle of a send. *)
Ltac parts Ha s c rb :=
  let Es := fresh "Es" in let Hfd := fresh "Hfd" in let O := fresh "O" in let Ec := fresh "Ec" in
  let Er := fresh "Er" in let Hwf := fresh "Hwf" in let Hst := fresh "Hst" in let Hcon := fresh "Hcon" in
  destruct (alive_parts _ _ _ _ _ Ha) as (s & c & rb & Es & Hfd & O & Ec & Er & Hwf & Hst & Hcon).

(** [peekIov] over everything the ring holds. *)
Lemma peek_all rb :
  RingBuffer.wf rb -> RingBuffer.empty rb = false ->
  exists cnt iov, RingBuffer.peekIov rb (Some RingBuffer.null_iov2) (RingBuffer.available rb) = (cnt, Some iov) /\
    cnt <> 0 /\ RingBuffer.gather rb iov = RingBuffer.contents rb /\
    RingBuffer.iov_len iov.1 + RingBuffer.iov_len iov.2 = RingBuffer.size_ rb /\
    0 < RingBuffer.iov_len iov.1 /\ 0 <= RingBuffer.iov_len iov.2.
Proof.
  intros Hwf He. unfold RingBuffer.empty in He. apply Z.eqb_neq in He.
  pose proof (RingBuffer.wf_size rb Hwf). unfold RingBuffer.available.
  destruct (RingBuffer.peekIov_spec rb RingBuffer.null_iov2 (RingBuffer.size_ rb) Hwf)
    as (cnt & iov & E & H0 & _ & Hd); [lia |].
  exists cnt, iov. destruct Hd as (Hg & Hl & H1 & H2 & _); [rewrite H0; lia |].
  rewrite E. split_and!; try done; [rewrite H0; lia | | lia].
  rewrite Hg. apply ztake_ge. rewrite RingBuffer.contents_len by done. lia.
Qed.

Lemma empty_contents rb : RingBuffer.wf rb -> RingBuffer.empty rb = true -> RingBuffer.contents rb = [].
Proof.
  intros Hwf He. apply Z.eqb_eq in He. apply zlen_zero_nil. by rewrite RingBuffer.contents_len.
Qed.

Lemma flush_loop_spec fuel w0 sid fd st w :
  alive w0 sid fd st w -> (size (sessions w0) <= n)%nat -> (length (o_send w) < fuel)%nat ->
  wp (flush_loop close fuel sid fd) (tx_post w0 sid fd st) w.
Proof.
  intros Ha Hn. revert w Ha. induction fuel as [| fuel IH]; intros w Ha Hf; [lia |].
  cbn [flush_loop]. parts Ha s c rb. wps. rewrite Er.
  destruct (RingBuffer.empty rb) eqn:Eemp; [by apply connected_alive |].
  destruct (peek_all rb Hwf Eemp) as (cnt & iov & -> & Hcnt & Hg & Hl & _).
  rewrite (proj2 (Z.eqb_neq cnt 0)) by done. rewrite Hg. apply wp_bind.
  subst fd. eapply wp_sendmsg; [done | | |].
  - intros _. change (EAGAIN =? EINTR) with false. change (EAGAIN =? EAGAIN) with true. cbv iota.
    by apply connected_alive.
  - intros e r rest Eo.
    assert (Ha' : alive w0 sid (fd_ s) st (set_send w rest)).
    { eapply alive_step; [done | done | by apply step_oracle |]. rewrite Hst. by apply (stream_parts _ sid s c rb). }
    destruct (e =? EINTR); [apply IH; [done |]; cbn; rewrite Eo in Hf; cbn in Hf; lia |].
    destruct (e =? EAGAIN); [by apply connected_alive |]. by apply (close_false n).
  - intros k r rest Eo Hk. rewrite RingBuffer.contents_len in Hk by done.
    set (c' := mk_conn _ _). set (w1 := set_kern _ _).
    assert (T1 : tx_step w sid s w1 s) by (by eapply step_sent).
    assert (Ec1 : kern w1 !! fd_ s = Some c') by apply lookup_insert_eq.
    destruct (Z.ltb_spec 0 k) as [Hk0 | Hk0].
    + destruct (consume_ring_spec rb k Hwf Hk) as [Hwf' Hc']. wps.
      set (rb' := consume_ring rb k) in *. set (w2 := set_heap _ _).
      assert (Ha1 : alive w0 sid (fd_ s) (tx_wire c' ++ RingBuffer.contents rb) w1).
      { eapply alive_step; [exact Ha | done | done |]. by apply (stream_parts _ sid s). }
      assert (Ha2 : alive w0 sid (fd_ s) st w2).
      { eapply alive_step; [exact Ha1 | done | apply step_sendRing; [apply T1 | done] |].
        rewrite (stream_parts w2 sid (set_sendRing_ s rb') c' rb');
          [| apply lookup_insert_eq | done | done].
        rewrite Hc', Hst. unfold c'; cbn. by rewrite <- app_assoc, ztake_zdrop. }
      apply IH; [done |]. cbn. rewrite Eo in Hf. cbn in Hf. lia.
    + apply (close_false n); [done | | done].
      eapply alive_step; [exact Ha | done | exact T1 |].
      rewrite (stream_parts w1 sid s c' rb); [| done | done | done]. rewrite Hst. unfold c'; cbn.
      by replace k with 0 by lia; rewrite ztake_0, app_nil_r.
Qed.

Lemma flushSend_spec w0 sid fd st w :
  alive w0 sid fd st w -> (size (sessions w0) <= n)%nat ->
  wp (flushSend_ close sid) (tx_post w0 sid fd st) w.
Proof.
  intros Ha Hn. unfold flushSend_. parts Ha s c rb. wps. rewrite Hcon. cbn [negb]. wps. rewrite Hfd.
  apply flush_loop_spec; [done | done | lia].
Qed.

(** The answers of [updateFd] on an open session's descriptor. *)
Lemma wp_updateFd sid s mask Q w :
  inv (Some sid) w -> sid ∈ sessions w -> heap w !! sid = Some s -> sess_ok w sid s ->
  (forall e w1, tx_step w sid s w1 s -> stream w1 sid = stream w sid -> Q (Some e) w1) ->
  (forall w1, tx_step w sid s w1 s -> stream w1 sid = stream w sid ->
     Q None (set_fds w1 (<[fd_ s := mk_fdctx (HSession sid) mask]> (fdContexts_ w1)))) ->
  wp (updateFd (fd_ s) mask) Q w.
Proof.
  intros Hi Hin E O Hf Hok. unfold updateFd. apply wp_bind, wp_owner; [apply Hi |].
  rewrite (proj2 (Z.ltb_ge (fd_ s) 0)) by apply O. wps. rewrite (so_reg _ _ _ O).
  apply wp_bind. unfold modifyFd. rewrite (proj2 (Z.ltb_ge (fd_ s) 0)) by apply O.
  unfold epoll_ctl, wp at 1. destruct (o_ctl w) as [| r rest].
  - wps. apply Hok; [| done].
    split; try done; [by rewrite insert_id].
  - pose proof (step_ctl w sid s rest O E) as T. destruct r as [e |]; wps; [by apply Hf |].
    by apply (Hok (set_ctl w rest)).
Qed.

(** The session's registration after [setWriteInterest_(enable)], with its
    ring as it was. *)
Definition mask_is w w' (sid : Z) (enable : bool) : Prop :=
  exists s s', heap w !! sid = Some s /\ heap w' !! sid = Some s' /\ sendRing_ s' = sendRing_ s /\
    currentEpollMask_ s' = if enable then Z.lor baseEpollMask_ EPOLLOUT else baseEpollMask_.

Lemma setWriteInterest_spec w0 sid fd st enable w :
  alive w0 sid fd st w -> (size (sessions w0) <= n)%nat ->
  wp (setWriteInterest_ close sid enable) (fun _ w' =>
    (alive w0 sid fd st w' /\ mask_is w w' sid enable) \/ dead w0 sid fd st w') w.
Proof.
  intros Ha Hn. unfold setWriteInterest_. parts Ha s c rb. wps. rewrite Hcon. cbn [negb].
  set (desired := if enable then _ else _).
  destruct (Z.eqb_spec (currentEpollMask_ s) desired); [wps; left; split; [done |]; by exists s, s |].
  rewrite (proj2 (Z.ltb_ge (fd_ s) 0)) by apply O. apply wp_bind.
  pose proof Ha as (Hi & _ & Hin & Hst' & _).
  apply (wp_updateFd sid s); [done | done | done | done | |].
  - intros e w1 T Hs1. eapply wp_mono; [eapply (close_dead n); [done | | done] | by right].
    eapply alive_step; [exact Ha | done | exact T |]. congruence.
  - intros w1 T Hs1. assert (Ha1 : alive w0 sid fd st w1).
    { eapply alive_step; [exact Ha | done | exact T |]. congruence. }
    assert (E1 : heap w1 !! sid = Some s) by (rewrite (tx_heap _ _ _ _ _ T); apply lookup_insert_eq).
    eapply wp_update; [exact E1 |]. left.
    split; [| exists s, (set_mask_ s desired); split_and!; [done | apply lookup_insert_eq | done | done]].
    eapply alive_step; [exact Ha1 | exact E1 | exact (step_mask w1 sid s desired (tx_ok _ _ _ _ _ T)) |].
    destruct (alive_parts _ _ _ _ _ Ha1) as (s1 & c1 & rb1 & Es1 & Hf1 & _ & Ec1 & Er1 & _ & Hst1 & _).
    rewrite E1 in Es1. injection Es1 as <-. rewrite Hst1.
    apply (stream_parts _ sid (set_mask_ s desired)); [apply lookup_insert_eq | cbn; by rewrite Hf1 | done].
Qed.

(** The end of a send: the session is open and registered for what waits, or
    closed. *)
Definition tx_done w0 sid fd st (ok : bool) w' : Prop :=
  tx_post w0 sid fd st ok w' /\ (ok = true -> interest_ok w' sid).

Lemma connected_dead w0 sid fd st w :
  dead w0 sid fd st w -> wp (still_connected sid) (tx_done w0 sid fd st) w.
Proof.
  intros Hd. pose proof Hd as (Hi & _ & Hni & [s Es] & _). unfold still_connected. wps.
  destruct (i_dead _ _ Hi sid s Es Hni) as (Hc & _). unfold is_connected. rewrite Hc. split; done.
Qed.

(** [setWriteInterest_(...); return state_ == Connected;] *)
Lemma interest_then_connected w0 sid fd st s rb enable w :
  alive w0 sid fd st w -> (size (sessions w0) <= n)%nat -> heap w !! sid = Some s -> sendRing_ s = Some rb ->
  enable = negb (RingBuffer.empty rb) ->
  wp (setWriteInterest_ close sid enable ;;; still_connected sid)%eff (tx_done w0 sid fd st) w.
Proof.
  intros Ha Hn E Er Hen. apply wp_bind. eapply wp_mono; [by apply setWriteInterest_spec |].
  intros [] w' [[Ha' (s0 & s' & E0 & E' & Hr & Hm)] | Hd].
  - destruct (alive_parts _ _ _ _ _ Ha') as (s1 & c1 & rb1 & E1 & _ & _ & _ & _ & _ & _ & Hcon).
    unfold still_connected. wps. rewrite Hcon. split; [done |]. intros _. exists s', rb.
    rewrite E in E0. injection E0 as <-. rewrite Hr, Hm, Hen. split_and!; [done | done |].
    unfold interest_mask. by destruct (RingBuffer.empty rb).
  - by apply connected_dead.
Qed.

Lemma interest_dead w0 sid fd st enable w :
  dead w0 sid fd st w ->
  wp (setWriteInterest_ close sid enable ;;; still_connected sid)%eff (tx_done w0 sid fd st) w.
Proof.
  intros Hd. pose proof Hd as (Hi & _ & Hni & [s Es] & _). apply wp_bind. unfold setWriteInterest_. wps.
  destruct (i_dead _ _ Hi sid s Es Hni) as (Hc & _).
  assert (Hcon : is_connected s = false) by (unfold is_connected; by rewrite Hc). rewrite Hcon. cbn [negb]. wps.
  by apply connected_dead.
Qed.

(* ------------------------------------------------------------------ *)
(** ** Queueing *)

Lemma enqueueSendNoFlush_spec w0 sid fd st d len w :
  alive w0 sid fd st w -> (size (sessions w0) <= n)%nat -> 0 < len <= zlen d ->
  wp (enqueueSendNoFlush_ close sid (Some d) len)
     (fun ok w' => tx_post w0 sid fd (st ++ ztake len d) ok w' /\ (ok = true -> kern w' = kern w)) w.
Proof.
  intros Ha Hn Hlen. unfold enqueueSendNoFlush_. pose proof Ha as (Hi & _).
  apply wp_bind, wp_owner; [apply Hi |]. parts Ha s c rb. wps. rewrite Hcon, Er. cbn [negb].
  rewrite (proj2 (Z.eqb_neq len 0)) by lia.
  destruct (Z.ltb_spec (RingBuffer.freeSpace rb) len) as [Hov | Hroom].
  { apply wp_bind. eapply wp_mono; [by eapply (close_dead n close Hclose) |]. intros [] w' Hd. wps.
    split; [by apply dead_more | done]. }
  destruct (RingBuffer.write_spec rb d len Hwf) as (Hwf' & Hwr & Hc' & _); [lia |].
  destruct (RingBuffer.write rb (Some d) len) as [rb' written]; cbn [fst snd] in *.
  rewrite Z.min_l in * by done. subst written. wps. rewrite Z.eqb_refl. cbn [negb].
  unfold still_connected. eapply wp_bind, wp_obj; [apply lookup_insert_eq |]. wps. cbn [is_connected set_sendRing_].
  assert (Ha' : alive w0 sid fd (st ++ ztake len d) (set_heap w (<[sid := set_sendRing_ s rb']> (heap w)))).
  { eapply alive_step; [exact Ha | done | by apply step_sendRing |].
    rewrite (stream_parts _ sid (set_sendRing_ s rb') c rb');
      [| apply lookup_insert_eq | cbn; by rewrite Hfd | done].
    by rewrite Hc', Hst, app_assoc. }
  change (is_connected (set_sendRing_ s rb')) with (is_connected s). rewrite Hcon. split; done.
Qed.

(** A segment whose pointer covers its length. *)
Definition seg_ok (g : Seg) : Prop :=
  match g.1 with Some p => 0 <= g.2 <= zlen p | None => g.2 = 0 end.

Lemma seg_bytes_len g : seg_ok g -> zlen (seg_bytes g) = g.2.
Proof.
  destruct g as [[p |] k]; unfold seg_ok, seg_bytes; cbn [fst snd]; [| intros ->; done].
  intros H. rewrite zlen_ztake; lia.
Qed.

Lemma enqueueRemainder_spec segs w0 sid fd st skip w :
  alive w0 sid fd st w -> (size (sessions w0) <= n)%nat -> Forall seg_ok segs ->
  0 <= skip <= zlen (concat (seg_bytes <$> segs)) -> skip < U64 ->
  zlen (concat (seg_bytes <$> segs)) < U64 ->
  wp (enqueueRemainder close sid skip segs)
     (fun ok w' => tx_post w0 sid fd (st ++ zdrop skip (concat (seg_bytes <$> segs))) ok w' /\
                   (ok = true -> kern w' = kern w)) w.
Proof.
  intros Ha Hn Hok. revert st skip w Ha.
  induction Hok as [| g segs Hg Hok IH]; intros st skip w Ha Hs Hu Ht.
  { cbn [enqueueRemainder]. wps. cbn. unfold zdrop. rewrite drop_nil, app_nil_r. done. }
  pose proof (seg_bytes_len g Hg) as Hlen. rewrite fmap_cons in *. cbn [concat] in *.
  rewrite zlen_app, Hlen in *. pose proof (zlen_nonneg (concat (seg_bytes <$> segs))).
  destruct g as [p k]; cbn [enqueueRemainder fst snd] in *.
  assert (0 <= k) by (rewrite <- Hlen; apply zlen_nonneg).
  destruct (Z.eqb_spec k 0) as [-> | Hk].
  { rewrite (zlen_zero_nil (seg_bytes (p, 0))) by done. cbn [app]. apply IH; [done | lia | done | lia]. }
  destruct (Z.leb_spec k skip) as [Hle | Hlt].
  { rewrite size_sub_small by lia.
    replace (zdrop skip (seg_bytes (p, k) ++ concat (seg_bytes <$> segs)))
      with (zdrop (skip - k) (concat (seg_bytes <$> segs))); [apply IH; [done | lia | lia | lia] |].
    replace skip with (k + (skip - k)) at 2 by lia. rewrite <- zdrop_zdrop by lia. f_equal.
    pose proof (zdrop_app (seg_bytes (p, k)) (concat (seg_bytes <$> segs))) as Hd.
    by rewrite Hlen in Hd. }
  destruct p as [p |]; [| unfold seg_ok in Hg; cbn in Hg; lia]. unfold seg_ok in Hg; cbn [fst snd] in Hg.
  rewrite size_sub_small by lia. apply wp_bind. cbn [fmap option_fmap option_map].
  eapply wp_mono; [apply (enqueueSendNoFlush_spec w0 sid fd st (zdrop skip p) (k - skip)); [done | done |] |].
  { rewrite zlen_zdrop; lia. }
  assert (Hsplit : zdrop skip (seg_bytes (Some p, k) ++ concat (seg_bytes <$> segs)) =
                   ztake (k - skip) (zdrop skip p) ++ zdrop 0 (concat (seg_bytes <$> segs))).
  { rewrite zdrop_app_le by lia. rewrite zdrop_0. f_equal. unfold seg_bytes; cbn [fst snd].
    apply zdrop_ztake. lia. }
  rewrite Hsplit, app_assoc. intros [] w1 [Hp Hk1]; cbn [SessionInv.tx_post] in Hp.
  - eapply wp_mono; [apply IH; [exact Hp | lia | lia | lia] |].
    intros ok w2 [? Hk2]. split; [done |]. intros Hok2. by rewrite Hk2, Hk1.
  - wps. split; [by apply dead_more | done].
Qed.

Lemma ring_pieces_eq rb : RingBuffer.wf rb -> ring_pieces rb = (RingBuffer.contents rb, RingBuffer.size_ rb).
Proof.
  intros Hwf. unfold ring_pieces. pose proof (RingBuffer.wf_size rb Hwf). pose proof (RingBuffer.wf_cap rb Hwf).
  destruct (RingBuffer.empty rb) eqn:E.
  - rewrite (empty_contents rb Hwf E). apply Z.eqb_eq in E. by rewrite E.
  - destruct (peek_all rb Hwf E) as (cnt & iov & -> & _ & Hg & Hl & H1 & H2).
    rewrite Hg, size_add_small by lia. by rewrite Hl.
Qed.

(** The final part of a send: the new message is queued behind the backlog. *)
Lemma send_tail w0 sid fd st bytes segs sent bodyLen w :
  alive w0 sid fd (st ++ ztake sent bytes) w -> (size (sessions w0) <= n)%nat -> Forall seg_ok segs ->
  bytes = concat (seg_bytes <$> segs) -> zlen bytes = 6 + bodyLen -> 0 <= bodyLen -> 6 + bodyLen < U64 ->
  0 <= sent <= zlen bytes ->
  wp (ok <-- (if sent <? size_add 6 bodyLen then
                ok <-- enqueueRemainder close sid sent segs ;;
                if ok then flushSend_ close sid else ret false
              else flushSend_ close sid ;;; ret true) ;;
      if negb ok then ret false else
      s <-- obj sid ;;
      match sendRing_ s with
      | None => abort
      | Some rb' => setWriteInterest_ close sid (negb (RingBuffer.empty rb')) ;;; still_connected sid
      end)%eff (tx_done w0 sid fd (st ++ bytes)) w.
Proof.
  intros Ha Hn Hok Hb Hlen Hb0 Hu Hs. rewrite size_add_small by lia.
  assert (Hfin : forall w', alive w0 sid fd (st ++ bytes) w' \/ dead w0 sid fd (st ++ bytes) w' ->
    wp (s <-- obj sid ;;
        match sendRing_ s with
        | None => abort
        | Some rb' => setWriteInterest_ close sid (negb (RingBuffer.empty rb')) ;;; still_connected sid
        end)%eff (tx_done w0 sid fd (st ++ bytes)) w').
  { intros w' [Ha' | Hd].
    - parts Ha' s c rb. wps. rewrite Er. by eapply interest_then_connected.
    - pose proof Hd as (Hi & _ & Hni & [s Es] & _). wps.
      destruct (i_dead _ _ Hi sid s Es Hni) as (_ & _ & _ & [rb ->]). by apply interest_dead. }
  apply wp_bind. destruct (Z.ltb_spec sent (6 + bodyLen)) as [Hlt | Hge].
  - apply wp_bind. eapply wp_mono; [apply (enqueueRemainder_spec segs w0 sid fd (st ++ ztake sent bytes) sent w);
      [done | done | done | rewrite <- Hb; lia | lia | rewrite <- Hb; lia] |].
    rewrite <- Hb, <- app_assoc, ztake_zdrop. intros [] w1 [Hp _]; cbn [SessionInv.tx_post] in Hp.
    + eapply wp_mono; [by apply flushSend_spec |]. intros [] w2 Hp2; cbn [SessionInv.tx_post negb] in *.
      * apply Hfin. by left.
      * wps. split; done.
    + wps. split; done.
  - rewrite (ztake_ge sent bytes) in Ha by lia. apply wp_bind.
    eapply wp_mono; [by apply flushSend_spec |]. intros b w2 Hp2. wps. cbn [negb]. apply Hfin.
    destruct b; [by left | by right].
Qed.

(** [sendmsg] took [k] bytes of the backlog and the new message. *)
Lemma after_send_spec w0 sid s c rb pre segs bytes bodyLen k w :
  alive w0 sid (fd_ s) (tx_wire c ++ RingBuffer.contents rb) w -> (size (sessions w0) <= n)%nat ->
  heap w !! sid = Some s -> kern w !! fd_ s = Some c -> sendRing_ s = Some rb -> RingBuffer.wf rb ->
  tx_wire c = pre ++ ztake k (RingBuffer.contents rb ++ bytes) ->
  Forall seg_ok segs -> bytes = concat (seg_bytes <$> segs) -> zlen bytes = 6 + bodyLen -> 0 <= bodyLen ->
  6 + bodyLen < 2 ^ 63 -> 0 < k <= RingBuffer.size_ rb + zlen bytes ->
  wp (after_send close sid k (RingBuffer.size_ rb) rb segs bodyLen)
     (tx_done w0 sid (fd_ s) (pre ++ RingBuffer.contents rb ++ bytes)) w.
Proof.
  intros Ha Hn Es Ec Er Hwf Hw Hok Hb Hlen Hb0 Hu Hk. unfold after_send.
  pose proof (RingBuffer.wf_size rb Hwf). pose proof (RingBuffer.wf_cap rb Hwf).
  pose proof (RingBuffer.contents_len rb Hwf) as Hcl.
  set (from := if k <=? RingBuffer.size_ rb then k else RingBuffer.size_ rb).
  assert (Hfrom : from = Z.min k (RingBuffer.size_ rb)) by (unfold from; destruct (Z.leb_spec k (RingBuffer.size_ rb)); lia).
  assert (Hsent : (if 0 <? from then size_sub k from else k) = k - from).
  { destruct (Z.ltb_spec 0 from); [rewrite size_sub_small; lia | lia]. }
  rewrite Hsent, app_assoc. destruct (consume_ring_spec rb from Hwf) as [Hwf' Hc']; [lia |].
  assert (Hstream : tx_wire c ++ zdrop from (RingBuffer.contents rb) =
                    (pre ++ RingBuffer.contents rb) ++ ztake (k - from) bytes).
  { rewrite Hw. destruct (Z.le_gt_cases k (RingBuffer.size_ rb)) as [Hle | Hgt].
    - replace from with k by lia. rewrite ztake_app_le, Z.sub_diag, ztake_0, app_nil_r by lia.
      by rewrite <- app_assoc, ztake_zdrop.
    - replace from with (RingBuffer.size_ rb) by lia. rewrite <- Hcl, zdrop_ge, app_nil_r by lia.
      rewrite <- app_assoc. f_equal.
      replace k with (zlen (RingBuffer.contents rb) + (k - zlen (RingBuffer.contents rb))) at 1 by lia.
      rewrite ztake_plus, ztake_app, zdrop_app by (try apply zlen_nonneg; lia). done. }
  apply wp_bind.
  destruct (Z.ltb_spec 0 from) as [Hpos | Hzero]; wp1.
  - eapply send_tail; try done; [| lia | lia]. eapply alive_step; [exact Ha | done | apply step_sendRing; [| done] |].
    + destruct (alive_parts _ _ _ _ _ Ha) as (s1 & ? & ? & E1 & _ & O & _). by simplify_eq.
    + rewrite (stream_parts _ sid (set_sendRing_ s (consume_ring rb from)) c (consume_ring rb from));
        [| apply lookup_insert_eq | done | done]. by rewrite Hc', Hstream.
  - eapply send_tail; try done; [| lia | lia]. rewrite <- Hstream. replace from with 0 by lia. by rewrite zdrop_0.
Qed.

Lemma close_done w0 sid fd st extra w reason err :
  alive w0 sid fd st w -> (size (sessions w0) <= n)%nat ->
  wp (close sid reason err ;;; ret false)%eff (tx_done w0 sid fd (st ++ extra)) w.
Proof.
  intros Ha Hn. apply wp_bind. eapply wp_mono; [by eapply (close_dead n close Hclose) |].
  intros [] w' Hd. wps. split; [by apply dead_more | done].
Qed.

(** [sendmsg] would block: the whole message is queued. *)
Lemma queue_all w0 sid fd st segs bytes bodyLen w :
  alive w0 sid fd st w -> (size (sessions w0) <= n)%nat -> Forall seg_ok segs ->
  bytes = concat (seg_bytes <$> segs) -> zlen bytes = 6 + bodyLen -> 0 <= bodyLen -> 6 + bodyLen < 2 ^ 63 ->
  wp (ok <-- enqueueRemainder close sid 0 segs ;;
      if ok then setWriteInterest_ close sid true ;;; still_connected sid else ret false)%eff
     (tx_done w0 sid fd (st ++ bytes)) w.
Proof.
  intros Ha Hn Hok Hb Hlen Hb0 Hu. parts Ha s c rb. apply wp_bind.
  eapply wp_mono; [apply (enqueueRemainder_spec segs w0 sid fd st 0); try done; rewrite <- Hb; lia |].
  rewrite <- Hb, zdrop_0. intros [] w1 [Hp Hk]; cbn [SessionInv.tx_post] in Hp; [| wps; split; done].
  destruct (alive_parts _ _ _ _ _ Hp) as (s1 & c1 & rb1 & E1 & _ & _ & Ec1 & Er1 & Hwf1 & Hst1 & _).
  eapply interest_then_connected; [done | done | exact E1 | exact Er1 |].
  rewrite Hk, Ec in Ec1 by done. injection Ec1 as <-. rewrite Hst, <- app_assoc in Hst1.
  apply app_inv_head in Hst1. destruct (RingBuffer.empty rb1) eqn:Eemp; [| done].
  rewrite (empty_contents rb1 Hwf1 Eemp) in Hst1. apply app_eq_nil in Hst1 as [_ Hnil]. rewrite Hnil, zlen_nil in Hlen. lia.
Qed.

Lemma coalesced_spec fuel w0 sid fd st segs bytes bodyLen w :
  alive w0 sid fd st w -> (size (sessions w0) <= n)%nat -> (length (o_send w) < fuel)%nat ->
  Forall seg_ok segs -> bytes = concat (seg_bytes <$> segs) -> zlen bytes = 6 + bodyLen -> 0 <= bodyLen ->
  6 + bodyLen < 2 ^ 63 ->
  wp (coalesced_loop close fuel sid fd segs bodyLen) (tx_done w0 sid fd (st ++ bytes)) w.
Proof.
  intros Ha Hn Hf Hok Hb Hlen Hb0 Hu. revert w Ha Hf.
  induction fuel as [| fuel IH]; intros w Ha Hf; [lia |]. cbn [coalesced_loop].
  parts Ha s c rb. wps. rewrite Er, ring_pieces_eq by done. apply wp_bind. rewrite <- Hb. subst fd.
  pose proof (RingBuffer.contents_len rb Hwf) as Hcl.
  eapply wp_sendmsg; [done | | |].
  - intros _. change (EAGAIN =? EINTR) with false. change (EAGAIN =? EAGAIN) with true. cbv iota.
    by eapply queue_all.
  - intros e r rest Eo.
    assert (Ha' : alive w0 sid (fd_ s) st (set_send w rest)).
    { eapply alive_step; [done | done | by apply step_oracle |]. rewrite Hst. by apply (stream_parts _ sid s c rb). }
    destruct (e =? EINTR); [apply IH; [done |]; cbn; rewrite Eo in Hf; cbn in Hf; lia |].
    destruct (e =? EAGAIN); [by eapply queue_all |]. by apply close_done.
  - intros k r rest Eo Hk. rewrite zlen_app, Hcl in Hk. set (c' := mk_conn _ _). set (w1 := set_kern _ _).
    assert (T1 : tx_step w sid s w1 s) by (by eapply step_sent).
    assert (Ec1 : kern w1 !! fd_ s = Some c') by apply lookup_insert_eq.
    assert (Ha1 : alive w0 sid (fd_ s) (tx_wire c' ++ RingBuffer.contents rb) w1).
    { eapply alive_step; [exact Ha | done | done |]. by apply (stream_parts _ sid s). }
    destruct (Z.ltb_spec 0 k) as [Hk0 | Hk0].
    + rewrite Hst, <- app_assoc. apply (after_send_spec w0 sid s c' rb (tx_wire c)); try done. lia.
    + apply close_done; [| done].
      replace st with (tx_wire c' ++ RingBuffer.contents rb); [done |].
      rewrite Hst. unfold c'; cbn. replace k with 0 by lia. by rewrite ztake_0, app_nil_r.
Qed.

(* ------------------------------------------------------------------ *)
(** ** Packets *)

(** The bytes of a packet as [sendPacketU16] is given it. *)
Definition packet_bytes (op : Z) (body : option (list byte)) (bodyLen : Z) : list byte :=
  frame op (ztake bodyLen (default [] body)).

Lemma open_alive w sid s :
  inv None w -> sid ∈ sessions w -> heap w !! sid = Some s ->
  exists st, stream w sid = Some st /\ alive w sid (fd_ s) st w /\ sess_ok w sid s.
Proof.
  intros Hi Hin E. pose proof (i_stream _ _ Hi sid Hin ltac:(done)) as Hst.
  destruct (i_sess _ _ Hi sid Hin) as (s0 & E0 & O). rewrite E in E0. injection E0 as <-.
  exists (sent_frames sid (trace w)). split; [done |]. split; [| done].
  split_and!; [by apply inv_weaken | apply evo_refl | done | done | by exists s | done].
Qed.

(** [sendPacketU16] on an open session, for every answer of the kernel: the
    packet joins the stream, or the session is closed and its peer gets a
    prefix of the stream with the packet. *)
Lemma sendPacketU16_spec w sid s st op body bodyLen :
  inv None w -> (size (sessions w) <= n)%nat -> sid ∈ sessions w -> heap w !! sid = Some s ->
  stream w sid = Some st -> seg_ok (body, bodyLen) -> bodyLen <= 4294967293 -> 0 <= op < U16 ->
  wp (sendPacketU16 close sid op body bodyLen)
     (tx_done w sid (fd_ s) (st ++ packet_bytes op body bodyLen)) w.
Proof.
  intros Hi Hn Hin E Hst Hbody Hlen Hop. destruct (open_alive w sid s Hi Hin E) as (st0 & Hst0 & Ha & O).
  assert (st0 = st) as -> by congruence. clear Hst0.
  assert (Hb0 : 0 <= bodyLen) by (unfold seg_ok in Hbody; destruct body; cbn in Hbody; lia).
  unfold sendPacketU16. wp1. apply wp_owner; [apply Hi |]. unfold payloadLenForBody, kMaxPayloadLenU64.
  change kOpcodeFieldBytes with 2. rewrite size_add_small by lia.
  rewrite (proj2 (Z.ltb_ge 4294967295 (2 + bodyLen))) by lia. wps.
  rewrite bool_decide_eq_true_2 by done. cbn [negb]. set (hdr := mk_header _ _).
  unfold enqueuePacketU16Coalesced. wp1. apply wp_owner; [apply Hi |]. parts Ha s1 c rb.
  assert (s1 = s) as -> by congruence. wps. rewrite Hcon, Er. cbn [negb].
  assert (Hptr : (0 <? bodyLen) && negb (bool_decide (is_Some body)) = false).
  { unfold seg_ok in Hbody; destruct body; cbn in Hbody; [| subst; done].
    rewrite bool_decide_eq_true_2 by done. apply andb_false_r. }
  rewrite Hptr. wps.
  assert (Hbl : zlen (ztake bodyLen (default [] body)) = bodyLen).
  { unfold seg_ok in Hbody; destruct body as [p |]; cbn in *; [rewrite zlen_ztake; lia | subst; done]. }
  assert (Hseg : seg_bytes (body, bodyLen) = ztake bodyLen (default [] body)).
  { unfold seg_bytes; destruct body; cbn; [done |]. unfold ztake. by rewrite take_nil. }
  apply (coalesced_spec _ w sid (fd_ s) st _ (packet_bytes op body bodyLen)); try done; try lia.
  - repeat constructor; unfold seg_ok; cbn; done.
  - rewrite !fmap_cons, Hseg. cbn [concat fmap list_fmap]. rewrite app_nil_r. unfold packet_bytes, frame.
    rewrite Hbl. unfold payloadLenForBody. change kOpcodeFieldBytes with 2. rewrite size_add_small by lia. done.
  - unfold packet_bytes. rewrite frame_eq by lia. rewrite !zlen_app, zlen_storeU32, zlen_storeU16, Hbl. lia.
Qed.

End Send.

End SessionSend.
