(* ===== verification/SessionClose.v ===== *)
(** * SessionClose: callbacks and close

    Application callbacks may send and close from inside a close.  The close
    operation keeps its contract ([close_ok]) through any such nesting: it
    returns, the session has left the table, its end was announced once, and
    every other session is as the invariant says. *)

From S2P Require Import Prelude Endian RingBuffer Message Framer Handle World Session SessionInv SessionSend.
Import Endian Message Handle World Session SessionInv SessionSend.

Module SessionClose.

Section Close.
Context {St : Type} {others : Z}.
Implicit Types w : world St.

Local Abbreviation inv := (@SessionInv.inv St others).
Local Abbreviation alive := (@SessionInv.alive St others).
Local Abbreviation dead := (@SessionInv.dead St others).

(* ------------------------------------------------------------------ *)
(** ** Recording events *)

Lemma inv_add_trace ex w e :
  inv ex w -> trace_step (Some (sessions w)) e = Some (sessions w) ->
  (forall sid, sid ∈ sessions w -> ex <> Some sid -> sent_frame sid e = None) ->
  (forall sid, heap w !! sid = None -> sent_frame sid e = None) -> inv ex (add_trace w e).
Proof.
  intros [] Hs Hf Hn. split; try done; cbn [trace add_trace heap].
  - by apply (sess_all_ext w (add_trace w e)).
  - intros sid Hin Hex. rewrite sent_frames_snoc, Hf by done. rewrite app_nil_r. by apply i_stream0.
  - intros sid E. rewrite sent_frames_snoc, Hn by done. rewrite app_nil_r. by apply i_sent0.
  - by rewrite trace_live_snoc, i_live0.
Qed.

Lemma evo_add_trace w e : is_message e = false -> is_start e = false -> evo w (add_trace w e).
Proof.
  intros Hm Hs. destruct (evo_refl w). split; try done. exists [e]. split; [done |].
  by constructor.
Qed.

Lemma inv_set_app ex w a : inv ex w -> inv ex (set_app w a).
Proof. intros []. split; try done. by apply (sess_all_ext w (set_app w a)). Qed.

Lemma evo_set_app w a : evo w (set_app w a).
Proof. destruct (evo_refl w). split; done. Qed.

Lemma inv_send_refused w id op body : inv None w -> inv None (add_trace w (EvSend id op body false)).
Proof. intros Hi. by apply inv_add_trace. Qed.

(** An accepted packet, recorded. *)
Lemma inv_send_accepted w sid fd op body w' :
  alive w sid fd (sent_frames sid (trace w) ++ frame op body) w' -> interest_ok w' sid ->
  inv None (add_trace w' (EvSend sid op body true)).
Proof.
  intros (Hi & _ & Hin & Hst & (s & Es & _) & Htr) Hm. eapply (inv_restore sid).
  - apply inv_add_trace; [done | cbn; by rewrite decide_True | |]; cbn.
    + intros x Hx Hne. rewrite (proj2 (Z.eqb_neq sid x)); [done | congruence].
    + intros x Ex. rewrite (proj2 (Z.eqb_neq sid x)); [done | congruence].
  - cbn [trace add_trace]. rewrite sent_frames_snoc, Htr. cbn. rewrite Z.eqb_refl. exact Hst.
  - exact Hm.
Qed.

Section Callbacks.
Context (n : nat) (close : Z -> string -> Z -> M St unit).
Context (Hclose : close_ok (others := others) n close).

(** [sendPacketU16] for any id and body, with its result recorded. *)
Lemma send_logged w id op body len bytes :
  inv None w -> (size (sessions w) <= n)%nat -> seg_ok (body, len) -> len <= VEC_MAX -> 0 <= op < U16 ->
  bytes = ztake len (default [] body) ->
  wp (sendPacketU16 close id op body len)
     (fun ok w' => inv None (add_trace w' (EvSend id op bytes ok)) /\ evo w (add_trace w' (EvSend id op bytes ok))) w.
Proof.
  intros Hi Hn Hb Hl Hop ->.
  assert (Hb0 : 0 <= len) by (unfold seg_ok in Hb; destruct body; cbn in Hb; lia).
  assert (Hrefuse : forall a, a = false -> inv None (add_trace w (EvSend id op (ztake len (default [] body)) a)) /\
            evo w (add_trace w (EvSend id op (ztake len (default [] body)) a))).
  { intros a ->. split; [by apply inv_send_refused | by apply evo_add_trace]. }
  destruct (decide (id ∈ sessions w /\ len <= 4294967293)) as [[Hin Hlen] | Hno].
  - destruct (i_sess _ _ Hi id Hin) as (s & Es & O).
    pose proof (i_stream _ _ Hi id Hin ltac:(done)) as Hst.
    eapply wp_mono; [by apply (sendPacketU16_spec n close Hclose w id s (sent_frames id (trace w)) op body len) |].
    intros [] w' [Hp Hm]; cbn [SessionInv.tx_post] in Hp; unfold packet_bytes in Hp.
    + split; [eapply inv_send_accepted; [done | by apply Hm] |].
      eapply evo_trans; [apply Hp | by apply evo_add_trace].
    + destruct Hp as (Hi' & He' & _). split; [by apply inv_send_refused |].
      eapply evo_trans; [done | by apply evo_add_trace].
  - unfold sendPacketU16. wp1. apply wp_owner; [apply Hi |]. unfold payloadLenForBody, kMaxPayloadLenU64.
    change kOpcodeFieldBytes with 2. rewrite size_add_small by lia.
    destruct (Z.ltb_spec 4294967295 (2 + len)); [wps; by apply Hrefuse |]. wps.
    rewrite bool_decide_eq_false_2; [cbn [negb]; wps; by apply Hrefuse |].
    change (~ id ∈ sessions w). intros Hin. apply Hno. split; [done | lia].
Qed.

Lemma closeByPolicy_spec w id reason err :
  inv None w -> (size (sessions w) <= n)%nat ->
  wp (closeByPolicy_ close id reason err) (fun _ w' => inv None w' /\ evo w w' /\ ~ id ∈ sessions w') w.
Proof.
  intros Hi Hn. unfold closeByPolicy_. wp1. apply wp_owner; [apply Hi |]. wps.
  case_bool_decide as Hin; [| by wps; split_and!; [| apply evo_refl |]].
  destruct (i_sess _ _ Hi id Hin) as (s & Es & O).
  eapply wp_mono; [apply (Hclose id reason err w s); [by apply inv_weaken | done | done] |].
  intros [] w' (? & ? & ? & _). done.
Qed.

(** Running a callback keeps the invariant. *)
Lemma run_prog_spec throws p w :
  prog_ok throws p -> inv None w -> (size (sessions w) <= n)%nat ->
  wp (run_prog close p) (fun t w' => inv None w' /\ evo w w' /\ (throws = false -> t = false)) w.
Proof.
  revert w. induction p as [| | k IH | s k IH | id op body k IH | id reason err k IH]; intros w Hp Hi Hn;
    cbn [run_prog prog_ok] in *.
  - wps. split_and!; [done | apply evo_refl | done].
  - wps. split_and!; [done | apply evo_refl | congruence].
  - wps. by apply IH.
  - wps. eapply wp_mono; [apply IH; [done | by apply inv_set_app | done] |].
    intros t w' (? & ? & ?). split_and!; [done | | done]. eapply evo_trans; [apply evo_set_app | done].
  - destruct Hp as (Hop & Hb & Hk). unfold sender_sendPacketU16. wps. rewrite (i_owner _ _ Hi).
    eapply wp_mono; [apply (send_logged w id op (Some body) (zlen body) body); try done |].
    + unfold seg_ok; cbn. pose proof (zlen_nonneg body). lia.
    + cbn. by rewrite ztake_ge.
    + intros ok w1 [Hi1 He1]. wps. eapply wp_mono; [apply IH; [done | done | by eapply evo_size] |].
      intros t w' (? & ? & ?). split_and!; [done | by eapply evo_trans | done].
  - wps. eapply wp_mono; [by apply closeByPolicy_spec |]. intros [] w1 (Hi1 & He1 & _).
    eapply wp_mono; [apply IH; [done | done | by eapply evo_size] |].
    intros t w' (? & ? & ?). split_and!; [done | by eapply evo_trans | done].
Qed.

End Callbacks.

(* ------------------------------------------------------------------ *)
(** ** Closing *)

(** The state after [beginClose_] has taken the session out of every table,
    before the application hears of it. *)
Definition detached w (sid : Z) (s : World.Session) w' : Prop :=
  cw w' = cw w /\ mgr w' = set_sessions (mgr w) (sessions w ∖ {[sid]}) /\
  heap w' = <[sid := set_state_ (set_fd_ s (-1)) Closed]> (heap w) /\
  fdContexts_ w' = delete (fd_ s) (fdContexts_ w) /\ kern w' = kern w /\
  currentConnections_ (metrics w') = currentConnections_ (metrics w) - 1 /\
  timers w' = timers w /\ o_recv w' = o_recv w /\ o_clock w' = o_clock w /\ now_ w' = now_ w /\
  trace w' = trace w ++ [EvEnd (handle_ s)].

Lemma detached_inv w sid s w' :
  inv (Some sid) w -> sid ∈ sessions w -> heap w !! sid = Some s -> detached w sid s w' ->
  inv None w' /\ evo w w' /\ sessions w' = sessions w ∖ {[sid]} /\
  (forall x m, ~ fdContexts_ w' !! fd_ s = Some (mk_fdctx (HSession x) m)).
Proof.
  intros Hi Hin E (Hcw & Hm & Hh & Hfd & Hk & Hg & Ht & Hor & Hoc & Hnow & Htr).
  destruct (i_sess _ _ Hi sid Hin) as (s0 & E0 & O). rewrite E in E0. injection E0 as <-.
  assert (Hse : sessions w' = sessions w ∖ {[sid]}) by (unfold sessions at 1; by rewrite Hm).
  assert (Hoth : forall x sx, x ∈ sessions w' -> heap w !! x = Some sx -> x <> sid /\ fd_ sx <> fd_ s).
  { intros x sx Hx Ex. rewrite Hse in Hx. assert (x <> sid) by set_solver. split; [done |].
    eapply (fd_distinct _ w x sid); [done | set_solver | done..]. }
  split_and!; [| | done |].
  - destruct Hi. split; rewrite ?Hm; cbn [ownerWorkerId_ localCounter_ set_sessions framer_]; try done.
    + unfold isInOwnerThread in *. by rewrite Hcw, Hm.
    + intros x Hx. destruct (i_sess0 x) as (sx & Ex & Ox); [set_solver |].
      destruct (Hoth x sx Hx Ex) as [Hne Hf]. exists sx. rewrite Hh, lookup_insert_ne by done.
      split; [done |]. destruct Ox. split; try done; rewrite ?Hfd, ?Hk, ?Hm; try done.
      by rewrite lookup_delete_ne by done.
    + intros x sx. rewrite Hh, lookup_insert_Some. intros [[<- <-] | [Hne Ex]] Hni.
      * cbn. destruct O as [_ _ ? _ _ _ (rb & -> & _)]. split_and!; try done; by eexists.
      * apply i_dead0; [done |]. set_solver.
    + intros fd x m. rewrite Hfd, lookup_delete_Some. intros [Hne Hc].
      destruct (i_fds0 fd x m Hc) as (Hx & sx & Ex & Hf). assert (x <> sid) by congruence.
      split; [set_solver |]. exists sx. rewrite Hh, lookup_insert_ne by done. done.
    + intros x Hx _. rewrite Htr, sent_frames_snoc. cbn. rewrite app_nil_r.
      destruct (i_sess0 x) as (sx & Ex & _); [set_solver |]. destruct (Hoth x sx Hx Ex) as [Hne Hf].
      rewrite <- i_stream0 by (set_solver || congruence). unfold stream.
      by rewrite Hh, lookup_insert_ne, Hk by done.
    + intros x Hx _. assert (x <> sid) by set_solver.
      destruct (i_interest0 x) as (sx & rb & Ex & Hr & Hmk); [set_solver | congruence |].
      exists sx, rb. by rewrite Hh, lookup_insert_ne by done.
    + intros x [sx Hx]. apply i_ids0. rewrite Hh in Hx. apply lookup_insert_Some in Hx as [[<- _] | [_ Hx]]; by eexists.
    + intros x. rewrite Hh, lookup_insert_None, Htr, sent_frames_snoc. intros [Hx _]. cbn. rewrite app_nil_r. by apply i_sent0.
    + rewrite Htr, trace_live_snoc, i_live0, Hse. cbn. rewrite (so_id _ _ _ O), decide_True by done. done.
    + rewrite Hg, i_gauge0, Hse. rewrite size_difference by set_solver. rewrite size_singleton.
      assert (size (sessions w) <> 0%nat) by (intros H0%size_empty_inv; set_solver). lia.
    + destruct i_app0. split; done.
  - split; rewrite ?Hse; try done.
    + set_solver.
    + intros x sx Ex. rewrite Hh. destruct (decide (x = sid)) as [-> | Hne].
      * rewrite E in Ex. injection Ex as <-. eexists. rewrite lookup_insert_eq. split; [done |].
        split; [done | set_solver].
      * exists sx. rewrite lookup_insert_ne by done. split_and!; [done | apply same_rx_refl | done].
    + intros x Hx. rewrite Hh, lookup_insert_ne; [done |]. set_solver.
    + intros fd. by rewrite Hk.
    + intros fd _. by rewrite Hk.
    + intros fd Hf. rewrite Hfd, lookup_delete_ne; [done |]. intros <-. eapply Hf, O.
    + exists [EvEnd (handle_ s)]. split; [done |]. by repeat constructor.
  - intros x m. rewrite Hfd, lookup_delete_eq. done.
Qed.

(** The part of [onSessionClosed] after the lookup. *)
Lemma onSessionClosed_spec n close w sid s w1 :
  close_ok (others := others) n close -> inv (Some sid) w -> (size (sessions w) <= S n)%nat ->
  sid ∈ sessions w -> heap w !! sid = Some s -> isInOwnerThread w1 = true -> sessions w1 = sessions w ->
  heap w1 !! sid = Some (set_state_ (set_fd_ s (-1)) Closed) ->
  detached w sid s (add_trace (set_metrics (set_mgr w1 (set_sessions (mgr w1) (sessions w1 ∖ {[sid]})))
    (mk_metrics (currentConnections_ (metrics w1) - 1) (rxMessagesTotal_ (metrics w1)) (errorsTotal_ (metrics w1))))
    (EvEnd (handle_ s))) ->
  wp (onSessionClosed close sid) (fun _ w' =>
    inv None w' /\ evo w w' /\ ~ sid ∈ sessions w' /\ kern w' !! fd_ s = kern w !! fd_ s) w1.
Proof.
  intros Hclose Hi Hn Hin E Hown Hse E1 Hdet. unfold onSessionClosed. wp1. apply wp_owner; [done |]. wps.
  rewrite bool_decide_eq_true_2 by (change (sid ∈ sessions w1); by rewrite Hse). cbn [negb]. wps.
  pose proof Hdet as (_ & _ & _ & _ & Hk & _). cbn [kern add_trace set_metrics set_mgr] in Hk.
  destruct (detached_inv w sid s _ Hi Hin E Hdet) as (Hi2 & He2 & Hs2 & Hf2).
  set (w2 := add_trace _ _) in *. cbn [handle_ set_state_ set_fd_]. fold w2.
  assert (Hn2 : (size (sessions w2) <= n)%nat).
  { rewrite Hs2, size_difference, size_singleton by set_solver. lia. }
  change (mgr (add_trace _ _)) with (mgr w2).
  assert (Hk2 : kern w2 !! fd_ s = kern w !! fd_ s) by (cbn; by rewrite Hk).
  destruct (app_ (mgr w2)) as [a |] eqn:Ea; wps; [| split_and!; [done | done | set_solver | done]].
  eapply wp_mono; [apply (run_prog_spec n close Hclose true);
    [by apply (ao_end _ (i_app _ _ Hi2)) | done | done] |].
  intros t w3 (Hi3 & He3 & _). wps. split_and!; [done | by eapply evo_trans | |].
  - intros H3%(ev_sub _ _ He3). set_solver.
  - by rewrite (ev_wire _ _ He3).
Qed.

(** [removeFd] on a descriptor takes its registration out. *)
Lemma wp_removeFd fd Q w :
  isInOwnerThread w = true -> 0 <= fd ->
  (forall b l, Q b (set_fds (set_ctl w l) (delete fd (fdContexts_ w)))) -> wp (removeFd fd) Q w.
Proof.
  intros Ho Hf HQ. unfold removeFd, unregisterFd. wps. rewrite (proj2 (Z.ltb_ge fd 0)) by done. wp1.
  unfold epoll_ctl, wp at 1. destruct (o_ctl w) as [| r rest] eqn:Eo; wps.
  - specialize (HQ true []). rewrite <- Eo in HQ. by destruct w.
  - apply HQ.
Qed.

(** Closing, when closes nested in it are on a smaller table. *)
Lemma beginClose_body_ok n close sid reason err w s :
  (n = O \/ exists n', n = S n' /\ close_ok (others := others) n' close) ->
  inv (Some sid) w -> (size (sessions w) <= n)%nat -> heap w !! sid = Some s ->
  wp (beginClose_body close sid reason err) (fun _ w' =>
    inv None w' /\ evo w w' /\ ~ sid ∈ sessions w' /\ kern w' !! fd_ s = kern w !! fd_ s) w.
Proof.
  intros Hn0 Hi Hn E. unfold beginClose_body. wp1. apply wp_owner; [apply Hi |]. wps.
  destruct (decide (sid ∈ sessions w)) as [Hin | Hni].
  2: { destruct (i_dead _ _ Hi sid s E Hni) as (-> & _). cbn. wps.
       split_and!; [by eapply inv_dead_ex | apply evo_refl | done | done]. }
  destruct Hn0 as [-> | (n' & -> & Hclose)].
  { apply Nat.le_0_r, size_empty_inv in Hn. set_solver. }
  destruct (i_sess _ _ Hi sid Hin) as (s0 & E0 & O). rewrite E in E0. injection E0 as <-.
  pose proof (so_fd _ _ _ O) as Hfd. rewrite (so_state _ _ _ O). do 2 (rewrite bool_decide_eq_false_2 by done). cbv iota.
  wps. rewrite (proj2 (Z.leb_le 0 (fd_ s))) by done. apply wp_removeFd; [apply Hi | done |]. intros b l.
  eapply wp_bind, wp_update; [apply lookup_insert_eq |]. cbn [handle_ set_state_].
  rewrite (so_id _ _ _ O). wp1.
  set (w1 := set_heap _ _).
  assert (Hend : forall w2, (w2 = w1 \/ exists k, w2 = set_metrics w1 (mk_metrics (currentConnections_ (metrics w1)) (rxMessagesTotal_ (metrics w1)) k)) ->
     wp (onSessionClosed close sid) (fun _ w' =>
       inv None w' /\ evo w w' /\ ~ sid ∈ sessions w' /\ kern w' !! fd_ s = kern w !! fd_ s) w2).
  { intros w2 Hw2. apply (onSessionClosed_spec n'); try done.
    - destruct Hw2 as [-> | [k ->]]; apply Hi.
    - by destruct Hw2 as [-> | [k ->]].
    - destruct Hw2 as [-> | [k ->]]; apply lookup_insert_eq.
    - unfold detached. destruct Hw2 as [-> | [k ->]]; split_and!; try done; cbn; by rewrite insert_insert_eq. }
  destruct (negb (err =? 0) || negb (isNormalCloseReason reason)); wps; apply Hend; [right; by eexists | by left].
Qed.

(** [beginClose_ d] keeps the contract for tables of at most [d] sessions. *)
Lemma beginClose_ok d : close_ok (St := St) (others := others) d (beginClose_ d).
Proof.
  induction d as [| d IH]; intros sid reason err w s Hi Hn E; cbn [beginClose_].
  - apply (beginClose_body_ok 0); [by left | done..].
  - apply (beginClose_body_ok (S d)); [right; by exists d | done..].
Qed.

End Close.

End SessionClose.
