(* ===== verification/SessionRecv.v ===== *)
(** * SessionRecv: the receive path delivers the frames of the byte stream

    Reading takes bytes from the kernel in any pieces, frames them and runs
    the handlers, which may send and close.  The payloads delivered are the
    frames of the bytes received, in order and without loss, until the session
    is closed; the close for a full receive buffer cannot happen. *)

From S2P Require Import Prelude Endian RingBuffer Message Framer Handle World Session SessionInv SessionSend.
From S2P Require Import SessionClose.
Import Endian Message Handle World Session SessionInv SessionSend SessionClose.

Module SessionRecv.

Section Recv.
Context {St : Type} {others : Z}.
Implicit Types w : world St.

Local Abbreviation inv := (@SessionInv.inv St others).

(* ------------------------------------------------------------------ *)
(** ** Steps on the receive side *)

(** A change of one session's receive side, of its receive queue in the
    kernel, of the framer's scratch buffer and of the clock. *)
Record rx_step w (sid : Z) (s : World.Session) w' (s' : World.Session) : Prop := {
  rx_cw : cw w' = cw w;
  rx_mgr : exists f, mgr w' = set_framer (mgr w) f /\
             Framer.maxPayloadLen_ f = Framer.maxPayloadLen_ (framer_ (mgr w));
  rx_heap : heap w' = <[sid := s']> (heap w);
  rx_handle : handle_ s' = handle_ s;
  rx_fd : fd_ s' = fd_ s;
  rx_state : state_ s' = state_ s;
  rx_sendRing : sendRing_ s' = sendRing_ s;
  rx_mask : currentEpollMask_ s' = currentEpollMask_ s;
  rx_ring : exists rb, recvRing_ s' = Some rb /\ RingBuffer.wf rb /\
              RingBuffer.capacity_ rb = recvRingCapacity_ (mgr w);
  rx_fds : fdContexts_ w' = fdContexts_ w;
  rx_kern : forall fd, fd <> fd_ s -> kern w' !! fd = kern w !! fd;
  rx_tx : tx_wire <$> kern w' !! fd_ s = tx_wire <$> kern w !! fd_ s;
  rx_gauge : currentConnections_ (metrics w') = currentConnections_ (metrics w);
  rx_trace : trace w' = trace w
}.

Lemma rx_step_inv w sid s w' s' :
  inv None w -> sid ∈ sessions w -> heap w !! sid = Some s -> rx_step w sid s w' s' -> inv None w'.
Proof.
  intros Hi Hin E []. destruct rx_mgr0 as (f & Hm & Hmax).
  assert (Hse : sessions w' = sessions w) by (unfold sessions; by rewrite Hm).
  destruct (i_sess _ _ Hi sid Hin) as (s0 & E0 & O). rewrite E in E0. injection E0 as <-.
  assert (Hl : heap w' !! sid = Some s') by (rewrite rx_heap0; apply lookup_insert_eq).
  split; rewrite ?Hse, ?rx_trace0, ?rx_gauge0, ?Hm;
    cbn [ownerWorkerId_ localCounter_ set_framer framer_]; try apply Hi.
  - unfold isInOwnerThread. rewrite rx_cw0, Hm. apply Hi.
  - intros x Hx. destruct (decide (x = sid)) as [-> | Hne].
    + exists s'. split; [done |]. destruct O. split; rewrite ?rx_state0, ?rx_fd0, ?rx_handle0, ?rx_fds0,
        ?rx_mask0, ?rx_sendRing0, ?Hm; try done.
      destruct so_kern0 as [c Ec]. rewrite Ec in rx_tx0. destruct (kern w' !! fd_ s); [by eexists | done].
    + destruct (i_sess _ _ Hi x Hx) as (sx & Ex & Ox). exists sx. rewrite rx_heap0, lookup_insert_ne by done.
      split; [done |]. assert (fd_ sx <> fd_ s) by (by eapply (fd_distinct _ w x sid)).
      destruct Ox. split; try done; by rewrite ?rx_fds0, ?rx_kern0, ?Hm.
  - intros x sx. rewrite rx_heap0, lookup_insert_Some. intros [[<- <-] | [Hne Ex]] Hni; [done |]. by apply Hi.
  - intros fd x m. rewrite rx_fds0. intros Hc. destruct (i_fds _ _ Hi fd x m Hc) as (Hx & sx & Ex & Hf).
    split; [done |]. rewrite rx_heap0. destruct (decide (x = sid)) as [-> | Hne].
    + exists s'. rewrite lookup_insert_eq. split; [done |]. congruence.
    + exists sx. by rewrite lookup_insert_ne.
  - intros x Hx _. rewrite <- (i_stream _ _ Hi x Hx) by done. destruct (decide (x = sid)) as [-> | Hne].
    + unfold stream. rewrite Hl, E. cbn. rewrite rx_fd0, rx_sendRing0.
      destruct (kern w' !! fd_ s) as [c' |], (kern w !! fd_ s) as [c |]; try done.
      cbn in *. injection rx_tx0 as ->. done.
    + eapply stream_other; [done | done | done |]. intros sx Ex. by eapply (fd_distinct _ w x sid).
  - intros x Hx _. destruct (i_interest _ _ Hi x Hx) as (sx & rb & Ex & Hr & Hmk); [done |].
    unfold interest_ok. rewrite rx_heap0. destruct (decide (x = sid)) as [-> | Hne].
    + rewrite E in Ex. injection Ex as <-. exists s', rb. rewrite lookup_insert_eq, rx_sendRing0, rx_mask0. done.
    + exists sx, rb. by rewrite lookup_insert_ne.
  - intros x [sx Hx]. rewrite rx_heap0 in Hx. apply Hi.
    apply lookup_insert_Some in Hx as [[<- _] | [_ Hx]]; by eexists.
  - intros x. rewrite rx_heap0, lookup_insert_None. intros [Hx _]. by apply Hi.
  - destruct (i_app _ _ Hi). split; done.
  - rewrite Hmax. apply Hi.
Qed.

(* ------------------------------------------------------------------ *)
(** ** What reading from session [sid] may change *)

(** [ms] are the payloads delivered meanwhile. *)
Record rd (sid : Z) w w' (ms : list (list byte)) : Prop := {
  rd_mgr : exists f, mgr w' = set_framer (set_sessions (mgr w) (sessions w')) f /\
             Framer.maxPayloadLen_ f = Framer.maxPayloadLen_ (framer_ (mgr w));
  rd_sub : sessions w' ⊆ sessions w;
  rd_heap : forall x s, heap w !! x = Some s -> exists s', heap w' !! x = Some s' /\
              (x <> sid -> recvRing_ s' = recvRing_ s) /\ (x ∈ sessions w' -> fd_ s' = fd_ s);
  rd_trace : exists evs, trace w' = trace w ++ evs /\ messages sid evs = ms /\
               (forall x, x <> sid -> messages x evs = []) /\ Forall (fun e => is_start e = false) evs
}.

Lemma set_framer_same (m : Manager St) : set_framer m (framer_ m) = m.
Proof. by destruct m. Qed.

Lemma no_messages x evs :
  Forall (fun e => is_message e = false /\ is_start e = false) evs -> messages x evs = [].
Proof. induction 1 as [| e evs [H _] _ IH]; [done |]. unfold messages in *. cbn. by destruct e. Qed.

Lemma evo_rd sid w w' : evo w w' -> rd sid w w' [].
Proof.
  intros []. split; [| done | |].
  - exists (framer_ (mgr w)). rewrite ev_mgr0 at 1. done.
  - intros x s E. destruct (ev_heap0 x s E) as (s' & E' & (_ & ? & _) & Hf). by exists s'.
  - destruct ev_trace0 as (evs & -> & Hf). exists evs. split_and!; [done | by apply no_messages | |].
    + intros x _. by apply no_messages.
    + eapply Forall_impl; [done |]. by intros e [].
Qed.

Lemma rx_step_rd w sid s w' s' : heap w !! sid = Some s -> rx_step w sid s w' s' -> rd sid w w' [].
Proof.
  intros E []. destruct rx_mgr0 as (f & Hm & Hmax).
  assert (Hse : sessions w' = sessions w) by (unfold sessions; by rewrite Hm). split.
  - exists f. split; [| done]. rewrite Hse, Hm. unfold sessions. by rewrite set_sessions_same.
  - by rewrite Hse.
  - intros x sx Ex. rewrite rx_heap0. destruct (decide (x = sid)) as [-> | Hne].
    + exists s'. rewrite lookup_insert_eq. rewrite E in Ex. injection Ex as <-. done.
    + exists sx. by rewrite lookup_insert_ne.
  - exists []. rewrite app_nil_r. done.
Qed.

Lemma messages_app x e1 e2 : messages x (e1 ++ e2) = messages x e1 ++ messages x e2.
Proof. apply omap_app. Qed.

Lemma rd_trans sid w1 w2 w3 m1 m2 : rd sid w1 w2 m1 -> rd sid w2 w3 m2 -> rd sid w1 w3 (m1 ++ m2).
Proof.
  intros [(f1 & M1 & X1) S1 H1 (e1 & T1 & A1 & B1 & C1)] [(f2 & M2 & X2) S2 H2 (e2 & T2 & A2 & B2 & C2)]. split.
  - exists f2. rewrite M2, X2, M1. split; [done |]. by rewrite <- X1.
  - set_solver.
  - intros x s E. destruct (H1 x s E) as (s1 & E1 & R1 & F1). destruct (H2 x s1 E1) as (s2 & E2 & R2 & F2).
    exists s2. split; [done |]. split; [intros Hne; rewrite R2, R1; done |].
    intros Hx. rewrite F2, F1; [done | set_solver | done].
  - exists (e1 ++ e2). rewrite T2, T1, app_assoc, !messages_app, A1, A2. split_and!; try done.
    + intros x Hx. rewrite messages_app, B1, B2 by done. done.
    + by apply Forall_app.
Qed.

Lemma rd_trans0 sid w1 w2 w3 m : rd sid w1 w2 [] -> rd sid w2 w3 m -> rd sid w1 w3 m.
Proof. apply (rd_trans sid w1 w2 w3 [] m). Qed.

(** Delivery of a message. *)
Lemma message_rd w sid p : rd sid w (add_trace w (EvMessage sid p)) [p].
Proof.
  destruct (evo_rd sid w w (evo_refl w)) as [(f & M & X) ? ? _]. split; [by exists f | done | done |].
  exists [EvMessage sid p]. split_and!; [done | | |]; cbn.
  - by rewrite Z.eqb_refl.
  - intros x Hx. by rewrite (proj2 (Z.eqb_neq sid x)).
  - by repeat constructor.
Qed.

Lemma message_inv w sid p : inv None w -> sid ∈ sessions w -> inv None (add_trace w (EvMessage sid p)).
Proof. intros Hi Hin. apply inv_add_trace; try done. cbn. by rewrite decide_True. Qed.

(* ------------------------------------------------------------------ *)
(** ** Dispatch *)

Section Dispatching.
Context (n : nat) (close : Z -> string -> Z -> M St unit).
Context (Hclose : close_ok (others := others) n close).

Lemma policy_evo w id reason err :
  inv None w -> (size (sessions w) <= n)%nat ->
  wp (closeByPolicy_ close id reason err) (fun _ w' => inv None w' /\ evo w w') w.
Proof. intros Hi Hn. eapply wp_mono; [by apply (closeByPolicy_spec n close Hclose) |]. intros [] w' (? & ? & _). done. Qed.

Lemma handler_spec w p :
  inv None w -> (size (sessions w) <= n)%nat -> prog_ok false p ->
  wp (threw <-- run_prog close p ;; if threw then abort else ret tt)%eff (fun _ w' => inv None w' /\ evo w w') w.
Proof.
  intros Hi Hn Hp. wp1. eapply wp_mono; [by apply (run_prog_spec n close Hclose false) |].
  intros t w' (? & ? & ->); [| done]. by wps.
Qed.

Lemma rx_metric_inv ex w k : inv ex w -> inv ex (set_metrics w (mk_metrics (currentConnections_ (metrics w)) k (errorsTotal_ (metrics w)))).
Proof. intros []. split; try done. by eapply (sess_all_ext w). Qed.

Lemma rx_metric_evo w m : evo w (set_metrics w m).
Proof. destruct (evo_refl w). split; done. Qed.

Lemma view_bytes_len v : view_ok v -> zlen (view_bytes v) <= mv_size v.
Proof.
  unfold view_ok, view_bytes. destruct (mv_data v); [| intros ->; done]. intros H. rewrite zlen_ztake; lia.
Qed.

Lemma split_body_len p op body : split_payload p = Some (op, body) -> zlen body <= zlen p.
Proof.
  unfold split_payload. intros H. if_cases; simplify_eq. rewrite zlen_zdrop by lia. lia.
Qed.

Lemma dispatchOnMessage_spec w h v :
  inv None w -> (size (sessions w) <= n)%nat -> view_ok v -> mv_size v <= VEC_MAX ->
  wp (dispatchOnMessage close h v) (fun _ w' => inv None w' /\ evo w w') w.
Proof.
  intros Hi Hn Hv Hs. unfold dispatchOnMessage. wp1. apply wp_owner; [apply Hi |]. do 2 wp1.
  set (w1 := set_metrics _ _). assert (Hi1 : inv None w1) by (by apply rx_metric_inv).
  assert (He1 : evo w w1) by apply rx_metric_evo.
  assert (Hgo : forall (m : M St unit), wp m (fun _ w' => inv None w' /\ evo w1 w') w1 ->
                wp m (fun _ w' => inv None w' /\ evo w w') w1).
  { intros m Hm. eapply wp_mono; [exact Hm |]. intros [] w' []. split; [done |]. by eapply evo_trans. }
  apply Hgo. pose proof (splitOpcode_spec v Hv ltac:(lia)) as Hsplit.
  destruct (split_payload (view_bytes v)) as [[op body] |] eqn:Esp.
  - destruct Hsplit as (bv & -> & _ & Hbody). apply split_body_len in Esp. pose proof (view_bytes_len v Hv). destruct (op =? kOpcodePing).
    + wp1. eapply wp_mono; [apply (send_logged n close Hclose w1 (id_ h) kOpcodePong None 0 []); done |].
      intros ok w2 [? ?]. by wps.
    + destruct (op =? kOpcodePong); [wps; split; [done | apply evo_refl] |]. wps. unfold dispatch.
      destruct (handlers_ (dispatcher_ (mgr w1)) !! op) as [hd |] eqn:Eh.
      * apply handler_spec; [done | done |]. eapply (ao_handlers _ (i_app _ _ Hi1)); [done |]. rewrite Hbody. lia.
      * by apply policy_evo.
  - rewrite Hsplit. by apply policy_evo.
Qed.

(* ------------------------------------------------------------------ *)
(** ** Framing *)

(** Nothing was received meanwhile. *)
Definition quiet w w' : Prop :=
  o_recv w' = o_recv w /\ forall fd, rx_queue <$> kern w' !! fd = rx_queue <$> kern w !! fd.

Lemma quiet_trans w1 w2 w3 : quiet w1 w2 -> quiet w2 w3 -> quiet w1 w3.
Proof. intros [H1 K1] [H2 K2]. split; [congruence |]. intros fd. by rewrite K2, K1. Qed.

Lemma evo_quiet w w' : evo w w' -> quiet w w'.
Proof. intros []. by split. Qed.

Lemma wp_still_connected sid s Q w :
  inv None w -> heap w !! sid = Some s -> Q (bool_decide (sid ∈ sessions w)) w -> wp (still_connected sid) Q w.
Proof.
  intros Hi E HQ. unfold still_connected. wps. unfold is_connected.
  destruct (decide (sid ∈ sessions w)) as [Hin | Hni].
  - destruct (i_sess _ _ Hi sid Hin) as (s0 & E0 & O). rewrite E in E0. injection E0 as <-.
    rewrite (so_state _ _ _ O). by rewrite !bool_decide_eq_true_2 in * by done.
  - destruct (i_dead _ _ Hi sid s E Hni) as (-> & _). by rewrite !bool_decide_eq_false_2 in * by done.
Qed.

(** The state after [tryFrame] has been stored back. *)
Lemma framed_step w sid s f rb :
  heap w !! sid = Some s -> RingBuffer.wf rb -> RingBuffer.capacity_ rb = recvRingCapacity_ (mgr w) ->
  Framer.maxPayloadLen_ f = Framer.maxPayloadLen_ (framer_ (mgr w)) ->
  rx_step w sid s
    (set_heap (set_mgr w (set_framer (mgr w) f)) (<[sid := set_recvRing_ s rb]> (heap w))) (set_recvRing_ s rb).
Proof. intros E Hwf Hcap Hmax. split; try done; [by exists f | by exists rb]. Qed.

(** What the frames of a buffer [r] become: all are delivered and the rest
    stays in the ring, or the session ends after some of them. *)
Definition frames_post (sid : Z) w (r : list byte) (ok : bool) w' : Prop :=
  inv None w' /\ quiet w w' /\ exists ms ps r' bad, rd sid w w' ms /\
    Framer.frames_of (Framer.maxPayloadLen_ (framer_ (mgr w))) (recvRingCapacity_ (mgr w)) r = Some (ps, r', bad) /\
    if ok then sid ∈ sessions w' /\ bad = false /\ ms = ps /\
      exists s' rb', heap w' !! sid = Some s' /\ recvRing_ s' = Some rb' /\ RingBuffer.contents rb' = r'
    else ~ sid ∈ sessions w' /\ ms `prefix_of` ps.

Lemma frames_post_step sid w w' r r1 p ok w'' :
  rd sid w w' [p] -> quiet w w' ->
  Framer.parse_one (Framer.maxPayloadLen_ (framer_ (mgr w))) (recvRingCapacity_ (mgr w)) r = Framer.PFrame p r1 ->
  frames_post sid w' r1 ok w'' -> frames_post sid w r ok w''.
Proof.
  intros Hrd Hq Hp (Hi & Hq' & ms & ps & r' & bad & Hrd' & Hfr & Hok).
  split; [done |]. split; [by eapply quiet_trans |]. exists (p :: ms), (p :: ps), r', bad.
  split; [by apply (rd_trans sid w w' w'' [p] ms) |]. split.
  - rewrite (Framer.frames_of_frame _ _ _ _ _ Hp). destruct Hrd as [(f & Hm & Hmax) _ _ _].
    rewrite Hm in Hfr. cbn [framer_ set_framer set_sessions recvRingCapacity_] in Hfr. rewrite Hmax in Hfr. by rewrite Hfr.
  - destruct ok; destruct Hok as [? Hok].
    + destruct Hok as (-> & -> & Hok). done.
    + split; [done |]. by apply prefix_cons.
Qed.

Lemma frames_loop_spec fuel w sid s rb :
  inv None w -> (size (sessions w) <= n)%nat -> sid ∈ sessions w -> heap w !! sid = Some s ->
  recvRing_ s = Some rb -> (length (RingBuffer.contents rb) < fuel)%nat ->
  wp (frames_loop close fuel sid) (frames_post sid w (RingBuffer.contents rb)) w.
Proof.
  revert w s rb. induction fuel as [| fuel IH]; intros w s rb Hi Hn Hin E Er Hf; [lia |].
  destruct (i_sess _ _ Hi sid Hin) as (s0 & E0 & O). rewrite E in E0. injection E0 as <-.
  destruct (so_recv _ _ _ O) as (rb0 & Er0 & Hwf & Hcap). rewrite Er in Er0. injection Er0 as <-.
  cbn [frames_loop]. wps. rewrite Er.
  pose proof (Framer.tryFrame_spec (framer_ (mgr w)) rb Hwf) as Ht. rewrite Hcap in Ht.
  set (mx := Framer.maxPayloadLen_ (framer_ (mgr w))) in *. set (cap := recvRingCapacity_ (mgr w)) in *.
  set (r := RingBuffer.contents rb) in *.
  destruct (Framer.parse_one mx cap r) as [| | p r1] eqn:Ep.
  - rewrite Ht. wps. set (w1 := set_heap _ _).
    assert (T : rx_step w sid s w1 (set_recvRing_ s rb)) 
      by exact (framed_step w sid s (Framer.mk mx _ _) rb E Hwf Hcap eq_refl).
    split; [by eapply rx_step_inv |]. split; [done |]. exists [], [], r, false.
    split; [by eapply rx_step_rd |]. split; [unfold Framer.frames_of; cbn; fold mx cap; by rewrite Ep |].
    split_and!; [done | done | done |]. exists (set_recvRing_ s rb), rb. split; [apply lookup_insert_eq | done].
  - destruct Ht as [reason ->]. wps. set (w1 := set_heap _ _).
    assert (T : rx_step w sid s w1 (set_recvRing_ s rb)) 
      by exact (framed_step w sid s (Framer.mk mx _ _) rb E Hwf Hcap eq_refl).
    assert (Hi1 : inv None w1) by (by eapply rx_step_inv).
    eapply wp_mono; [apply (Hclose sid "framer_invalid" 0 w1 (set_recvRing_ s rb));
      [by apply inv_weaken | done | apply lookup_insert_eq] |].
    intros [] w2 (Hi2 & He2 & Hni & _). wps. split; [done |].
    split; [eapply quiet_trans; [| by apply evo_quiet]; done |]. exists [], [], r, true.
    split; [eapply rd_trans0; [by eapply rx_step_rd | by apply evo_rd] |].
    split; [unfold Framer.frames_of; cbn; fold mx cap; by rewrite Ep | done].
  - destruct (Framer.tryFrame (framer_ (mgr w)) rb) as [[[f rb1] v] res].
    destruct Ht as [Hres Hwf1 Hcap1 Hrest Hv Hpay Hsz Hmax _]; cbn [fst snd] in *. subst res. wps.
    set (w1 := set_heap _ _). cbn [Framer.maxPayloadLen_] in Hmax.
    assert (T : rx_step w sid s w1 (set_recvRing_ s rb1)) 
      by (refine (framed_step w sid s f rb1 E Hwf1 _ Hmax); by rewrite Hcap1).
    assert (Hi1 : inv None w1) by (by eapply rx_step_inv). rewrite (so_id _ _ _ O), Hpay.
    assert (Hi2 : inv None (add_trace w1 (EvMessage sid p))) by (by apply message_inv).
    eapply wp_mono; [by apply (dispatchOnMessage_spec _ (handle_ s) v Hi2 Hn Hv ltac:(lia)) |].
    intros [] w3 [Hi3 He3]. set (w2 := add_trace w1 _) in *.
    assert (Hrd : rd sid w w3 [p]).
    { eapply rd_trans0; [by eapply rx_step_rd |]. apply (rd_trans sid w1 w2 w3 [p] []); [apply message_rd | by apply evo_rd]. }
    assert (Hq : quiet w w3) by (eapply quiet_trans; [| by apply evo_quiet]; done).
    assert (E2 : heap w2 !! sid = Some (set_recvRing_ s rb1)) by apply lookup_insert_eq.
    destruct (ev_heap _ _ He3 sid _ E2) as (s3 & E3 & (_ & Hr3 & _) & _).
    wp1. eapply wp_still_connected; [done | exact E3 |]. case_bool_decide as Hin3.
    + eapply wp_mono; [eapply (IH w3 s3 rb1); try done |].
      * by eapply evo_size.
      * rewrite Hrest. pose proof (Framer.parse_one_shrinks _ _ _ _ _ Ep). lia.
      * intros ok w4 Hp. rewrite Hrest in Hp. by eapply frames_post_step.
    + wps. eapply frames_post_step; [exact Hrd | exact Hq | exact Ep |]. split; [done |]. split; [done |].
      destruct (Framer.parse_all_total (Framer.maxPayloadLen_ (framer_ (mgr w3))) (recvRingCapacity_ (mgr w3)) r1)
        as [[[ps r'] bad] Hps].
      exists [], ps, r', bad. split; [apply evo_rd, evo_refl |]. split; [done |]. split; [done |]. apply prefix_nil.
Qed.

(* ------------------------------------------------------------------ *)
(** ** The read loop *)

Lemma wp_clock Q w : (forall t l, Q t (set_clock w l t)) -> wp clock_now Q w.
Proof.
  intros HQ. unfold wp, clock_now. destruct (o_clock w) as [| d rest] eqn:Eo; [| apply HQ].
  specialize (HQ (now_ w) []). rewrite <- Eo in HQ. by destruct w.
Qed.

Lemma wp_recvmsg fd space c Q w :
  kern w !! fd = Some c ->
  (o_recv w = [] -> Q (inr EAGAIN) w) ->
  (forall e x rest, o_recv w = x :: rest -> Q (inr e) (set_recv w rest)) ->
  (forall x rest, o_recv w = x :: rest -> Q (inl []) (set_recv w rest)) ->
  (forall k x rest, o_recv w = x :: rest -> 0 < k <= space -> k <= zlen (rx_queue c) ->
     Q (inl (ztake k (rx_queue c)))
       (set_kern (set_recv w rest) (<[fd := mk_conn (zdrop k (rx_queue c)) (tx_wire c)]> (kern w)))) ->
  wp (recvmsg fd space) Q w.
Proof.
  intros Ec He Hr Hz Hs. unfold wp, recvmsg. destruct (o_recv w) as [| x rest] eqn:Eo; [auto |].
  rewrite Ec. destruct x as [k | | e]; [| by eapply Hz | by eapply Hr].
  destruct (Z.leb_spec (Z.min k (Z.min space (zlen (rx_queue c)))) 0); [by eapply Hr |].
  eapply Hs; [done | lia | lia].
Qed.

Lemma recv_oracle_step w sid s rest :
  sess_ok w sid s -> heap w !! sid = Some s -> rx_step w sid s (set_recv w rest) s.
Proof.
  intros O E. split; try done.
  - exists (framer_ (mgr w)). cbn. by rewrite set_framer_same.
  - cbn. by rewrite insert_id.
  - apply O.
Qed.

(** Received bytes stored in the ring, with the time of arrival. *)
Lemma recv_data_step w sid s c c' rest rb l t :
  heap w !! sid = Some s -> kern w !! fd_ s = Some c -> tx_wire c' = tx_wire c ->
  RingBuffer.wf rb -> RingBuffer.capacity_ rb = recvRingCapacity_ (mgr w) ->
  rx_step w sid s
    (set_heap (set_clock (set_heap (set_kern (set_recv w rest) (<[fd_ s := c']> (kern w)))
                 (<[sid := set_recvRing_ s rb]> (heap w))) l t)
       (<[sid := set_lastRx_ (set_recvRing_ s rb) t]> (<[sid := set_recvRing_ s rb]> (heap w))))
    (set_lastRx_ (set_recvRing_ s rb) t).
Proof.
  intros E Ec Htx Hwf Hcap. split; try done; cbn.
  - exists (framer_ (mgr w)). by rewrite set_framer_same.
  - by rewrite insert_insert_eq.
  - by exists rb.
  - intros fd Hne. by rewrite lookup_insert_ne.
  - rewrite lookup_insert_eq, Ec. cbn. by rewrite Htx.
Qed.

(** What a read of session [sid] on descriptor [fd] with [r] in its ring does:
    [got] bytes leave the kernel's queue; the payloads delivered are the
    frames of [r ++ got], or the first of them if the session ended. *)
Definition recv_post (sid fd : Z) w (r : list byte) w' : Prop :=
  inv None w' /\ exists got q ms ps r' bad, rd sid w w' ms /\
    rx_queue <$> kern w !! fd = Some (got ++ q) /\ rx_queue <$> kern w' !! fd = Some q /\
    Framer.frames_of (Framer.maxPayloadLen_ (framer_ (mgr w))) (recvRingCapacity_ (mgr w)) (r ++ got) =
      Some (ps, r', bad) /\
    (sid ∈ sessions w' -> bad = false /\ ms = ps /\
       exists s' rb', heap w' !! sid = Some s' /\ recvRing_ s' = Some rb' /\ RingBuffer.contents rb' = r') /\
    ms `prefix_of` ps.

(** Reading stops without having received anything more. *)
Lemma recv_post_stop sid fd w c r w' :
  inv None w' -> rd sid w w' [] -> quiet w w' \/ (rx_queue <$> kern w' !! fd = rx_queue <$> kern w !! fd) ->
  kern w !! fd = Some c ->
  Framer.frames_of (Framer.maxPayloadLen_ (framer_ (mgr w))) (recvRingCapacity_ (mgr w)) r = Some ([], r, false) ->
  (sid ∈ sessions w' -> exists s' rb', heap w' !! sid = Some s' /\ recvRing_ s' = Some rb' /\ RingBuffer.contents rb' = r) ->
  recv_post sid fd w r w'.
Proof.
  intros Hi Hrd Hq Ec Hfr Hring. split; [done |]. exists [], (rx_queue c), [], [], r, false.
  assert (Hq' : rx_queue <$> kern w' !! fd = rx_queue <$> kern w !! fd) by (destruct Hq as [[_ Hq] | Hq]; [apply Hq | done]).
  rewrite Hq', Ec, app_nil_r. split_and!; [done | done | done | done | auto | apply prefix_nil].
Qed.

(** A chunk, its frames, and what follows. *)
Lemma recv_post_chunk sid fd w w1 r r1 got1 q1 ms1 w2 :
  rd sid w w1 ms1 -> rx_queue <$> kern w !! fd = Some (got1 ++ q1) -> rx_queue <$> kern w1 !! fd = Some q1 ->
  Framer.frames_of (Framer.maxPayloadLen_ (framer_ (mgr w))) (recvRingCapacity_ (mgr w)) (r ++ got1) =
    Some (ms1, r1, false) ->
  recv_post sid fd w1 r1 w2 -> recv_post sid fd w r w2.
Proof.
  intros Hrd Hq1 Hq1' Hfr (Hi & got & q & ms & ps & r' & bad & Hrd2 & Hg & Hq & Hfr2 & Hring & Hpre).
  assert (q1 = got ++ q) as -> by congruence. split; [done |].
  exists (got1 ++ got), q, (ms1 ++ ms), (ms1 ++ ps), r', bad. split_and!.
  - by eapply rd_trans.
  - by rewrite Hq1, app_assoc.
  - done.
  - destruct Hrd as [(f & Hm & Hmax) _ _ _]. rewrite Hm in Hfr2.
    cbn [framer_ set_framer set_sessions recvRingCapacity_] in Hfr2. rewrite Hmax in Hfr2.
    rewrite app_assoc, (Framer.frames_of_app _ _ _ got _ _ _ Hfr), Hfr2. done.
  - intros Hin. destruct (Hring Hin) as (-> & -> & Hx). done.
  - by apply prefix_app.
Qed.

Lemma recv_post_ext sid fd w1 w r w' :
  rd sid w w1 [] -> rx_queue <$> kern w1 !! fd = rx_queue <$> kern w !! fd ->
  recv_post sid fd w1 r w' -> recv_post sid fd w r w'.
Proof.
  intros Hrd Hq (Hi & got & q & ms & ps & r' & bad & Hrd2 & Hg & Hq2 & Hfr & Hring & Hpre).
  split; [done |]. exists got, q, ms, ps, r', bad. split_and!; try done.
  - by eapply rd_trans0.
  - congruence.
  - destruct Hrd as [(f & Hm & Hmax) _ _ _]. rewrite Hm in Hfr.
    cbn [framer_ set_framer set_sessions recvRingCapacity_] in Hfr. by rewrite Hmax in Hfr.
Qed.

(** A close in the middle of a read. *)
Lemma recv_close sid fd w0 w s rb reason err :
  inv None w -> rd sid w0 w [] -> (size (sessions w) <= n)%nat -> heap w !! sid = Some s ->
  recvRing_ s = Some rb -> rx_queue <$> kern w !! fd = rx_queue <$> kern w0 !! fd -> is_Some (kern w0 !! fd) ->
  Framer.frames_of (Framer.maxPayloadLen_ (framer_ (mgr w0))) (recvRingCapacity_ (mgr w0))
    (RingBuffer.contents rb) = Some ([], RingBuffer.contents rb, false) ->
  wp (close sid reason err) (fun _ => recv_post sid fd w0 (RingBuffer.contents rb)) w.
Proof.
  intros Hi Hrd Hn E Er Hq [c Ec] Hfr.
  eapply wp_mono; [apply (Hclose sid reason err w s); [by apply inv_weaken | done | done] |].
  intros [] w' (Hi' & He & Hni & _). eapply recv_post_stop; [done | | | done | done | done].
  - eapply rd_trans0; [done | by apply evo_rd].
  - right. by rewrite (ev_rx _ _ He).
Qed.

Lemma ring_room rb :
  RingBuffer.wf rb ->
  exists cnt iov, RingBuffer.writeIov rb (Some RingBuffer.null_iov2) (RingBuffer.freeSpace rb) = (cnt, Some iov) /\
    (cnt <> 0 -> RingBuffer.iov_len iov.1 + RingBuffer.iov_len iov.2 = RingBuffer.freeSpace rb).
Proof.
  intros Hwf. pose proof (RingBuffer.freeSpace_eq rb Hwf) as Hfs. pose proof (RingBuffer.wf_size rb Hwf).
  destruct (decide (RingBuffer.freeSpace rb = 0)) as [Hz | Hnz].
  - unfold RingBuffer.writeIov. rewrite Hz. cbn. by eexists _, _.
  - destruct (RingBuffer.recv_is_write rb RingBuffer.null_iov2 [z2b 0] Hwf) as (cnt & iov & Ew & _ & Hl & _).
    + change (zlen [z2b 0]) with 1. lia.
    + rewrite Ew. by eexists _, _.
Qed.

Lemma recv_loop_spec fuel w sid fd s rb :
  inv None w -> (size (sessions w) <= n)%nat -> sid ∈ sessions w -> heap w !! sid = Some s -> fd_ s = fd ->
  recvRing_ s = Some rb -> (length (o_recv w) < fuel)%nat ->
  Framer.frames_of (Framer.maxPayloadLen_ (framer_ (mgr w))) (recvRingCapacity_ (mgr w))
    (RingBuffer.contents rb) = Some ([], RingBuffer.contents rb, false) ->
  wp (recv_loop close fuel sid fd) (fun _ => recv_post sid fd w (RingBuffer.contents rb)) w.
Proof.
  revert w s rb. induction fuel as [| fuel IH]; intros w s rb Hi Hn Hin E Hfd Er Hf Hfr; [lia |].
  destruct (i_sess _ _ Hi sid Hin) as (s0 & E0 & O). rewrite E in E0. injection E0 as <-.
  destruct (so_recv _ _ _ O) as (rb0 & Er0 & Hwf & Hcap). rewrite Er in Er0. injection Er0 as <-.
  destruct (so_kern _ _ _ O) as [c Ec]. rewrite Hfd in Ec. cbn [recv_loop]. wps. rewrite Er.
  destruct (ring_room rb Hwf) as (cnt & iov & Ew & Hspace). rewrite Ew.
  destruct (Z.eqb_spec cnt 0) as [Hz | Hcnt].
  { eapply recv_close; first [done | by apply evo_rd, evo_refl | by eexists]. }
  rewrite Hspace by done. apply wp_bind.
  assert (Hstep : forall x rest, o_recv w = x :: rest -> rx_step w sid s (set_recv w rest) s)
    by (intros; by apply recv_oracle_step).
  assert (Hagain : forall w1, rd sid w w1 [] -> inv None w1 -> kern w1 = kern w -> heap w1 = heap w ->
    sessions w1 = sessions w -> recv_post sid fd w (RingBuffer.contents rb) w1).
  { intros w1 Hrd1 Hi1 Hk1 Hh1 Hs1. eapply recv_post_stop; try done.
    - right. by rewrite Hk1.
    - intros _. exists s, rb. by rewrite Hh1. }
  eapply wp_recvmsg; [exact Ec | | | |].
  - intros _. change (EAGAIN =? EINTR) with false. change (EAGAIN =? EAGAIN) with true. cbv iota. wps.
    apply Hagain; try done. apply evo_rd, evo_refl.
  - intros e x rest Eo. specialize (Hstep x rest Eo). set (w1 := set_recv w rest) in *.
    assert (Hi1 : inv None w1) by (by eapply rx_step_inv).
    assert (Hrd1 : rd sid w w1 []) by (by eapply rx_step_rd).
    destruct (e =? EINTR).
    { eapply wp_mono; [apply (IH w1 s rb); try done; cbn; rewrite Eo in Hf; cbn in Hf; lia |].
      intros [] w2 Hp. by eapply recv_post_ext. }
    destruct (e =? EAGAIN); [wps; by apply Hagain |].
    eapply recv_close; first [done | by eexists].
  - intros x rest Eo. specialize (Hstep x rest Eo). cbn [zlen length]. change (0 <? 0) with false. cbv iota.
    eapply recv_close; first [done | by eapply rx_step_inv | by eapply rx_step_rd | by eexists].
  - intros k x rest Eo Hk Hkq. rewrite zlen_ztake by lia. rewrite (Z.min_l k) by lia.
    rewrite (proj2 (Z.ltb_lt 0 k)) by lia.
    set (got := ztake k (rx_queue c)). set (q1 := zdrop k (rx_queue c)).
    assert (Hgl : zlen got = k) by (unfold got; rewrite zlen_ztake; lia).
    destruct (RingBuffer.recv_is_write rb RingBuffer.null_iov2 got Hwf) as (cnt' & iov' & Ew' & _ & _ & Hcommit); [lia |].
    rewrite Ew in Ew'. injection Ew' as <- <-. rewrite Hgl in Hcommit. rewrite Hcommit.
    destruct (RingBuffer.write_spec rb got k Hwf) as (Hwf1 & _ & Hc1 & Hcap1); [lia |].
    rewrite Z.min_l in Hc1 by lia. rewrite (ztake_ge k got) in Hc1 by lia.
    set (rb1 := (RingBuffer.write rb (Some got) k).1) in *. wps. unfold touchRx_. wp1. apply wp_clock. intros t l.
    eapply wp_update; [apply lookup_insert_eq |].
    pose proof (recv_data_step w sid s c (mk_conn q1 (tx_wire c)) rest rb1 l t E) as T.
    rewrite Hfd in T. specialize (T Ec eq_refl Hwf1 ltac:(by rewrite Hcap1)). cbn [heap set_kern set_recv set_clock set_heap] in *.
    set (w1 := set_heap _ _) in *. set (s1 := set_lastRx_ _ t) in *.
    assert (Hi1 : inv None w1) by (by eapply rx_step_inv).
    assert (Hrd1 : rd sid w w1 []) by (by eapply rx_step_rd).
    assert (E1 : heap w1 !! sid = Some s1) by apply lookup_insert_eq.
    unfold processRecvFrames_. wps. unfold ring_size. cbn [recvRing_ s1 set_lastRx_ set_recvRing_].
    eapply wp_mono; [apply (frames_loop_spec _ w1 sid s1 rb1); try done |].
    { pose proof (RingBuffer.contents_len rb1 Hwf1). unfold zlen, RingBuffer.size in *. lia. }
    rewrite Hc1. intros ok w2 (Hi2 & Hq2 & ms & ps & r2 & bad & Hrd2 & Hfr2 & Hok).
    change (mgr w1) with (mgr w) in Hfr2.
    assert (Hqw : rx_queue <$> kern w !! fd = Some (got ++ q1)) by (rewrite Ec; cbn; unfold got, q1; by rewrite ztake_zdrop).
    assert (Hqw2 : rx_queue <$> kern w2 !! fd = Some q1).
    { rewrite (proj2 Hq2). cbn. by rewrite lookup_insert_eq. }
    assert (Hrdw2 : rd sid w w2 ms) by (by eapply rd_trans0).
    destruct ok.
    + destruct Hok as (Hin2 & -> & -> & s2 & rb2 & E2 & Er2 & Hc2). wps.
      eapply wp_mono; [apply (IH w2 s2 rb2); try done |].
      * by eapply Nat.le_trans; [apply subseteq_size, (rd_sub _ _ _ _ Hrdw2) |].
      * destruct (rd_heap _ _ _ _ Hrdw2 sid s E) as (s2' & E2' & _ & Hf2). rewrite E2 in E2'. injection E2' as <-.
        by rewrite Hf2.
      * rewrite (proj1 Hq2). cbn. rewrite Eo in Hf. cbn in Hf. lia.
      * destruct Hrdw2 as [(f & Hm & Hmax) _ _ _]. rewrite Hm. cbn [framer_ set_framer set_sessions recvRingCapacity_].
        rewrite Hmax, Hc2. apply Framer.frames_of_waits in Hfr2. unfold Framer.frames_of. cbn [Framer.parse_all].
        by rewrite Hfr2.
      * intros [] w3 Hp. rewrite Hc2 in Hp. by eapply recv_post_chunk.
    + destruct Hok as [Hni Hpre]. wps. split; [done |]. exists got, q1, ms, ps, r2, bad. split_and!; try done.
Qed.

End Dispatching.

End Recv.

End SessionRecv.
