(* ===== verification/Worker.v ===== *)
(** * Worker: any sequence of events, timers, tasks and accepts

    The top of the session code: what the event loop, the timer wheel and the
    task queue of a worker call, in any order and with any behaviour of the
    kernel, the peers and the application.  [run_worker] executes such a
    sequence; the theorems show that it never aborts, never uses a dead
    session and keeps the invariant of [SessionInv], and state what reading,
    sending, closing and the timeouts achieve. *)

From S2P Require Import Prelude Endian RingBuffer Message Framer Handle World Session SessionInv SessionSend.
From S2P Require Import SessionClose SessionRecv.
Import Endian Message Handle World Session SessionInv SessionSend SessionClose SessionRecv.

Module Worker.

Section Ops.
Context {St : Type} {others : Z}.
Implicit Types w : world St.

Local Abbreviation inv := (@SessionInv.inv St others).

(** The receive ring of every open session holds an incomplete frame. *)
Definition waits w (r : list byte) : Prop :=
  Framer.parse_one (Framer.maxPayloadLen_ (framer_ (mgr w))) (recvRingCapacity_ (mgr w)) r = Framer.PNeedMore.

Definition waiting w : Prop :=
  forall sid s rb, sid ∈ sessions w -> heap w !! sid = Some s -> recvRing_ s = Some rb ->
    waits w (RingBuffer.contents rb).

(** Between two calls of the event loop. *)
Record worker_ok w : Prop := {
  wo_inv : inv None w;
  wo_waiting : waiting w;
  wo_caps : 0 <= recvRingCapacity_ (mgr w) /\ 0 <= sendRingCapacity_ (mgr w)
}.

(** Calls other than accept: the sessions can only become fewer, and the
    configuration stays. *)
Record keeps w w' : Prop := {
  ke_ok : worker_ok w';
  ke_sub : sessions w' ⊆ sessions w;
  ke_owner : ownerWorkerId_ (mgr w') = ownerWorkerId_ (mgr w);
  ke_counter : localCounter_ (mgr w') = localCounter_ (mgr w)
}.

Lemma keeps_refl w : worker_ok w -> keeps w w.
Proof. by split. Qed.

Lemma keeps_trans w1 w2 w3 : keeps w1 w2 -> keeps w2 w3 -> keeps w1 w3.
Proof. intros [] []. split; [done | set_solver | congruence | congruence]. Qed.

Lemma rd_keeps sid w w' ms :
  worker_ok w -> inv None w' -> rd sid w w' ms ->
  (sid ∈ sessions w' -> exists s rb, heap w' !! sid = Some s /\ recvRing_ s = Some rb /\ waits w (RingBuffer.contents rb)) ->
  keeps w w'.
Proof.
  intros [Hi Hw Hc] Hi' [(f & Hm & Hmax) Hsub Hh _] Hsid. split; [split; [done | |] | done | by rewrite Hm | by rewrite Hm].
  - intros x s' rb Hx Ex Er. unfold waits. rewrite Hm. cbn [framer_ set_framer set_sessions recvRingCapacity_].
    rewrite Hmax. destruct (decide (x = sid)) as [-> | Hne].
    + destruct (Hsid Hx) as (s & rb' & Es & Er' & Hwt). rewrite Ex in Es. injection Es as <-.
      rewrite Er in Er'. injection Er' as <-. exact Hwt.
    + destruct (i_sess _ _ Hi x) as (s & Es & O); [set_solver |].
      destruct (Hh x s Es) as (s2 & E2 & Hr & _). rewrite Ex in E2. injection E2 as <-.
      eapply (Hw x s rb); [set_solver | done |]. by rewrite <- Hr.
  - by rewrite Hm.
Qed.

Lemma evo_keeps w w' : worker_ok w -> inv None w' -> evo w w' -> keeps w w'.
Proof.
  intros Hok Hi' He. destruct (decide (sessions w' = ∅)) as [Hem | Hne].
  - apply (rd_keeps 0 w w' []); [done | done | by apply evo_rd | set_solver].
  - destruct (set_choose_L _ Hne) as [sid Hin]. apply (rd_keeps sid w w' []); [done | done | by apply evo_rd |].
    intros _. assert (Hin0 : sid ∈ sessions w) by (by apply (ev_sub _ _ He)).
    destruct (i_sess _ _ (wo_inv _ Hok) sid Hin0) as (s & Es & O).
    destruct (ev_heap _ _ He sid s Es) as (s' & Es' & (_ & Hr & _) & _).
    destruct (so_recv _ _ _ O) as (rb & Er & _). exists s', rb. rewrite Hr. split_and!; [done | done |].
    by eapply (wo_waiting _ Hok).
Qed.

(** A change of a session's clock and timer flags. *)
Lemma timer_step w sid s w' s' :
  worker_ok w -> sid ∈ sessions w -> heap w !! sid = Some s ->
  cw w' = cw w -> mgr w' = mgr w -> fdContexts_ w' = fdContexts_ w -> kern w' = kern w ->
  metrics w' = metrics w -> trace w' = trace w -> heap w' = <[sid := s']> (heap w) ->
  handle_ s' = handle_ s -> fd_ s' = fd_ s -> state_ s' = state_ s -> sendRing_ s' = sendRing_ s ->
  currentEpollMask_ s' = currentEpollMask_ s -> recvRing_ s' = recvRing_ s -> keeps w w'.
Proof.
  intros Hok Hin E Hcw Hm Hf Hk Hmt Htr Hh H1 H2 H3 H4 H5 H6. pose proof (wo_inv _ Hok) as Hi.
  destruct (i_sess _ _ Hi sid Hin) as (s0 & E0 & O). rewrite E in E0. injection E0 as <-.
  assert (T : rx_step w sid s w' s').
  { split; try done; rewrite ?Hm, ?Hk, ?Hmt, ?H6; try done.
    - exists (framer_ (mgr w)). by rewrite set_framer_same.
    - apply O. }
  apply (rd_keeps sid w w' []); [done | by eapply rx_step_inv | by eapply rx_step_rd |].
  intros _. destruct (so_recv _ _ _ O) as (rb & Er & _). exists s', rb.
  rewrite Hh, lookup_insert_eq, H6. split_and!; [done | done |]. by eapply (wo_waiting _ Hok).
Qed.

(* ------------------------------------------------------------------ *)
(** ** Events *)

Section Calls.
Context (n : nat) (close : Z -> string -> Z -> M St unit).
Context (Hclose : close_ok (others := others) n close).

Lemma keeps_size w w' : keeps w w' -> (size (sessions w) <= n)%nat -> (size (sessions w') <= n)%nat.
Proof. intros Hk Hn. etrans; [| exact Hn]. apply subseteq_size, Hk. Qed.

Lemma close_keeps w sid s reason err :
  worker_ok w -> (size (sessions w) <= n)%nat -> heap w !! sid = Some s ->
  wp (close sid reason err) (fun _ w' => keeps w w' /\ evo w w' /\ ~ sid ∈ sessions w') w.
Proof.
  intros Hok Hn E. eapply wp_mono; [apply (Hclose sid reason err w s); [apply inv_weaken, Hok | done | done] |].
  intros [] w' (? & ? & ? & _). split_and!; [by apply evo_keeps | done | done].
Qed.

Lemma onReadable_spec w sid s rb :
  worker_ok w -> (size (sessions w) <= n)%nat -> sid ∈ sessions w -> heap w !! sid = Some s ->
  recvRing_ s = Some rb ->
  wp (onReadable_ close sid) (fun _ w' => keeps w w' /\ recv_post (others := others) sid (fd_ s) w (RingBuffer.contents rb) w') w.
Proof.
  intros Hok Hn Hin E Er. pose proof (wo_inv _ Hok) as Hi.
  destruct (i_sess _ _ Hi sid Hin) as (s0 & E0 & O). rewrite E in E0. injection E0 as <-.
  unfold onReadable_. wps. unfold is_connected. rewrite (so_state _ _ _ O), bool_decide_eq_true_2 by done.
  cbn [negb]. rewrite Er. wps.
  assert (Hw : waits w (RingBuffer.contents rb)) by (by eapply (wo_waiting _ Hok)).
  eapply wp_mono; [apply (recv_loop_spec n close Hclose _ w sid (fd_ s) s rb); try done; [lia |] |].
  { unfold Framer.frames_of. cbn [Framer.parse_all]. unfold waits in Hw. by rewrite Hw. }
  intros [] w' Hp. split; [| done]. destruct Hp as (Hi' & got & q & ms & ps & r' & bad & Hrd & _ & _ & Hfr & Hring & _).
  apply (rd_keeps sid w w' ms); [done | done | done |]. intros Hin'.
  destruct (Hring Hin') as (-> & _ & s' & rb' & E' & Er' & <-). exists s', rb'. split_and!; [done | done |].
  by eapply Framer.frames_of_waits.
Qed.

Lemma onWritable_spec w sid s :
  worker_ok w -> (size (sessions w) <= n)%nat -> sid ∈ sessions w -> heap w !! sid = Some s ->
  wp (onWritable_ close sid) (fun _ w' => keeps w w' /\ evo w w') w.
Proof.
  intros Hok Hn Hin E. pose proof (wo_inv _ Hok) as Hi.
  destruct (open_alive w sid s Hi Hin E) as (st & Hst & Ha & O).
  pose proof (i_stream _ _ Hi sid Hin ltac:(done)) as Hsent. rewrite Hst in Hsent. injection Hsent as ->.
  unfold onWritable_. wps. unfold is_connected. rewrite (so_state _ _ _ O), bool_decide_eq_true_2 by done.
  cbn [negb]. destruct (so_send _ _ _ O) as (rb & -> & _). wps.
  eapply wp_mono; [by apply (flushSend_spec n close Hclose w sid (fd_ s)) |].
  intros [] w1 Hp; cbn [SessionInv.tx_post negb] in *.
  2: { wps. destruct Hp as (? & ? & _). split; [by apply evo_keeps | done]. }
  destruct (alive_parts _ _ _ _ _ Hp) as (s1 & c1 & rb1 & E1 & _ & _ & Ec1 & Er1 & _). wps. rewrite Er1.
  eapply wp_mono; [by apply (setWriteInterest_spec n close Hclose w) |].
  intros [] w2 [[Ha2 (s0 & s2 & E0 & E2 & Hr & Hm)] | (Hi2 & He2 & _)]; [| split; [by apply evo_keeps | done]].
  pose proof Ha2 as (Hi2 & He2 & Hin2 & Hst2 & _ & Htr2).
  assert (Hinv : inv None w2).
  { apply (inv_restore sid); [done | by rewrite Htr2 |]. exists s2, rb1. simplify_eq. rewrite Hr, Hm, Er1.
    split_and!; [done | done |]. unfold interest_mask. by destruct (RingBuffer.empty rb1). }
  split; [by apply evo_keeps | done].
Qed.

Lemma onError_spec w sid s events :
  worker_ok w -> (size (sessions w) <= n)%nat -> heap w !! sid = Some s ->
  wp (onError_ close sid events) (fun _ w' => keeps w w') w.
Proof.
  intros Hok Hn E. unfold onError_. wps.
  destruct (is_connected s); cbn [negb]; [| wps; by apply keeps_refl].
  repeat match goal with |- context [if ?b then close _ _ _ else _] => destruct b end;
    (eapply wp_mono; [by apply (close_keeps w sid s) | by intros [] w' [? _]]).
Qed.

(** After a part of [handleEvent] on session [sid], the rest of it. *)
Lemma event_rest w0 w sid s (m : M St unit) :
  keeps w0 w -> heap w !! sid = Some s ->
  (sid ∈ sessions w -> wp m (fun _ w' => keeps w w') w) ->
  wp (c <-- still_connected sid ;; if negb c then ret tt else m)%eff (fun _ w' => keeps w0 w') w.
Proof.
  intros Hk E Hm. wp1. eapply wp_still_connected; [apply (ke_ok _ _ Hk) | done |].
  case_bool_decide as Hin; cbn [negb]; [| by wps].
  eapply wp_mono; [by apply Hm |]. intros [] w' Hk'. by eapply keeps_trans.
Qed.

(** The last part of [handleEvent]. *)
Definition event_close (sid events : Z) : M St unit :=
  if has_flag events (Z.lor EPOLLERR (Z.lor EPOLLHUP EPOLLRDHUP)) then onError_ close sid events else ret tt.

(** Its second and last part. *)
Definition event_out (sid events : Z) : M St unit :=
  (if has_flag events EPOLLOUT then onWritable_ close sid else ret tt) ;;;
  c2 <-- (if has_flag events EPOLLOUT then still_connected sid else ret true) ;;
  if negb c2 then ret tt else event_close sid events.

Lemma event_close_spec w sid s events :
  worker_ok w -> (size (sessions w) <= n)%nat -> heap w !! sid = Some s ->
  wp (event_close sid events) (fun _ w' => keeps w w') w.
Proof.
  intros Hok Hn E. unfold event_close. destruct (has_flag _ _); [by eapply onError_spec |].
  wps. by apply keeps_refl.
Qed.

Lemma event_out_spec w sid s events :
  worker_ok w -> (size (sessions w) <= n)%nat -> sid ∈ sessions w -> heap w !! sid = Some s ->
  wp (event_out sid events) (fun _ w' => keeps w w') w.
Proof.
  intros Hok Hn Hin E. unfold event_out. destruct (has_flag events EPOLLOUT).
  - wp1. eapply wp_mono; [by apply (onWritable_spec w sid s) |]. intros [] w1 [Hk He].
    destruct (ev_heap _ _ He sid s E) as (s1 & E1 & _). eapply event_rest; [done | exact E1 |].
    intros _. eapply event_close_spec; [apply (ke_ok _ _ Hk) | by eapply keeps_size | exact E1].
  - wps. cbn [negb]. by eapply event_close_spec.
Qed.

Lemma handleEvent_spec w sid events :
  worker_ok w -> (size (sessions w) <= n)%nat -> sid ∈ sessions w ->
  wp (handleEvent close sid events) (fun _ w' => keeps w w') w.
Proof.
  intros Hok Hn Hin. destruct (i_sess _ _ (wo_inv _ Hok) sid Hin) as (s & E & O).
  destruct (so_recv _ _ _ O) as (rb & Er & _).
  unfold handleEvent. wps. rewrite (so_state _ _ _ O), bool_decide_eq_false_2 by done.
  destruct (has_flag events EPOLLIN).
  - wp1. eapply wp_mono; [by apply (onReadable_spec w sid s rb) |].
    intros [] w1 [Hk (_ & got & q & ms & ps & r' & bad & Hrd & _)].
    destruct (rd_heap _ _ _ _ Hrd sid s E) as (s1 & E1 & _). eapply event_rest; [done | exact E1 |].
    intros Hin1. eapply event_out_spec; [apply (ke_ok _ _ Hk) | by eapply keeps_size | done | exact E1].
  - wps. cbn [negb]. by eapply event_out_spec.
Qed.

(* ------------------------------------------------------------------ *)
(** ** Tasks *)

Lemma dispatchInjected_spec w h op body :
  worker_ok w -> (size (sessions w) <= n)%nat -> zlen body <= VEC_MAX ->
  wp (dispatchInjected close h op body) (fun _ w' => keeps w w') w.
Proof.
  intros Hok Hn Hb. pose proof (wo_inv _ Hok) as Hi. unfold dispatchInjected. wp1. apply wp_owner; [apply Hi |]. wps.
  case_bool_decide; cbn [negb]; [| wps; by apply keeps_refl]. wps. unfold dispatch.
  destruct (handlers_ (dispatcher_ (mgr w)) !! op) as [hd |] eqn:Eh.
  - eapply wp_mono; [apply (handler_spec n close Hclose); [done | done |] |].
    + eapply (ao_handlers _ (i_app _ _ Hi)); [done |]. destruct body; [done |].
      unfold view_bytes; cbn [mv_data mv_size]. by rewrite ztake_ge.
    + intros [] w' [? ?]. by apply evo_keeps.
  - eapply wp_mono; [by apply (policy_evo n close Hclose) |]. intros [] w' [? ?]. by apply evo_keeps.
Qed.

Lemma close_policy_keeps w id reason err :
  worker_ok w -> (size (sessions w) <= n)%nat ->
  wp (closeByPolicy_ close id reason err) (fun _ w' => keeps w w' /\ ~ id ∈ sessions w') w.
Proof.
  intros Hok Hn. eapply wp_mono; [apply (closeByPolicy_spec n close Hclose); [apply Hok | done] |].
  intros [] w' (? & ? & ?). split; [by apply evo_keeps | done].
Qed.

Lemma close_ids_spec ids w reason err :
  worker_ok w -> (size (sessions w) <= n)%nat ->
  wp (close_ids close ids reason err) (fun _ w' => keeps w w' /\ forall x, x ∈ ids -> ~ x ∈ sessions w') w.
Proof.
  revert w. induction ids as [| id ids IH]; intros w Hok Hn; cbn [close_ids].
  - wps. split; [by apply keeps_refl |]. set_solver.
  - wp1. eapply wp_mono; [by apply close_policy_keeps |]. intros [] w1 [Hk Hni].
    eapply wp_mono; [apply IH; [apply Hk | by eapply keeps_size] |]. intros [] w2 [Hk2 Hids].
    split; [by eapply keeps_trans |]. intros x Hx. apply elem_of_cons in Hx as [-> | Hx]; [| by apply Hids].
    intros Hin%(ke_sub _ _ Hk2). done.
Qed.

Lemma closeAllByPolicy_spec w reason err :
  worker_ok w -> (size (sessions w) <= n)%nat ->
  wp (closeAllByPolicy close reason err) (fun _ w' => keeps w w' /\ sessions w' = ∅) w.
Proof.
  intros Hok Hn. unfold closeAllByPolicy. wp1. apply wp_owner; [apply Hok |]. wps.
  eapply wp_mono; [by apply close_ids_spec |]. intros [] w' [Hk Hids]. split; [done |].
  apply set_eq. intros x. split; [| set_solver]. intros Hin. exfalso. apply (Hids x); [| done].
  apply elem_of_elements. by apply (ke_sub _ _ Hk).
Qed.

Lemma send_task_spec w id op body :
  worker_ok w -> (size (sessions w) <= n)%nat -> zlen body <= VEC_MAX -> 0 <= op < U16 ->
  wp (run_prog close (PSend id op body (fun _ => PRet))) (fun _ w' => keeps w w') w.
Proof.
  intros Hok Hn Hb Hop. eapply wp_mono; [apply (run_prog_spec n close Hclose false); [cbn | apply Hok | done] |].
  - split_and!; [lia | lia | done | done].
  - intros t w' (? & ? & _). by apply evo_keeps.
Qed.

(* ------------------------------------------------------------------ *)
(** ** Timers *)

(** The session objects of the timer code: open sessions keep theirs. *)
Lemma open_obj w sid : worker_ok w -> sid ∈ sessions w ->
  exists s, heap w !! sid = Some s /\ sess_ok w sid s /\ is_connected s = true.
Proof.
  intros Hok Hin. destruct (i_sess _ _ (wo_inv _ Hok) sid Hin) as (s & E & O). exists s. split_and!; try done.
  unfold is_connected. by rewrite (so_state _ _ _ O).
Qed.

Lemma arm_idle_spec w sid s delay :
  worker_ok w -> sid ∈ sessions w -> heap w !! sid = Some s -> s_idleTimeoutMs_ s <> 0 -> idleTimerArmed_ s = false ->
  wp (armIdleTimerAfter_ sid delay) (fun _ w' => keeps w w' /\ sessions w' = sessions w /\ now_ w' = now_ w /\
    trace w' = trace w /\ timers w' = timers w ++ [(delay, IdleTimer sid)] /\
    heap w' = <[sid := set_idleArmed_ s true]> (heap w)) w.
Proof.
  intros Hok Hin E Ht Ha. unfold armIdleTimerAfter_. wps.
  destruct (open_obj w sid Hok Hin) as (s0 & E0 & _ & Hcon). rewrite E in E0. injection E0 as <-.
  rewrite Hcon, Ha, (proj2 (Z.eqb_neq _ _)) by done. cbn [negb orb]. wps. unfold addTimer. wp1.
  apply wp_owner; [apply (i_owner _ _ (wo_inv _ Hok)) |]. wps. split_and!; try done. by eapply timer_step.
Qed.

Lemma arm_heartbeat_spec w sid s delay :
  worker_ok w -> sid ∈ sessions w -> heap w !! sid = Some s -> s_heartbeatIntervalMs_ s <> 0 ->
  heartbeatTimerArmed_ s = false ->
  wp (armHeartbeatTimerAfter_ sid delay) (fun _ w' => keeps w w' /\ sessions w' = sessions w /\ now_ w' = now_ w /\
    trace w' = trace w /\ timers w' = timers w ++ [(delay, HeartbeatTimer sid)] /\
    heap w' = <[sid := set_heartbeatArmed_ s true]> (heap w)) w.
Proof.
  intros Hok Hin E Ht Ha. unfold armHeartbeatTimerAfter_. wps.
  destruct (open_obj w sid Hok Hin) as (s0 & E0 & _ & Hcon). rewrite E in E0. injection E0 as <-.
  rewrite Hcon, Ha, (proj2 (Z.eqb_neq _ _)) by done. cbn [negb orb]. wps. unfold addTimer. wp1.
  apply wp_owner; [apply (i_owner _ _ (wo_inv _ Hok)) |]. wps. split_and!; try done. by eapply timer_step.
Qed.

(** [w] with a timer flag of [sid] cleared, at a later time. *)
Lemma flag_step w sid s s1 l t :
  worker_ok w -> sid ∈ sessions w -> heap w !! sid = Some s ->
  s1 = set_idleArmed_ s false \/ s1 = set_heartbeatArmed_ s false ->
  let w1 := set_clock (set_heap w (<[sid := s1]> (heap w))) l t in keeps w w1 /\ sessions w1 = sessions w.
Proof.
  intros Hok Hin E Hs1 w1. split; [| done].
  destruct Hs1 as [-> | ->]; by eapply (timer_step w sid s).
Qed.

(** The idle check: the session is closed when nothing was received for the
    configured time, and otherwise checked again exactly when that time will
    be over. *)
Definition idle_post w (sid : Z) (s : World.Session) w' : Prop :=
  let elapsed := elapsed_ms (now_ w') (lastRxAt_ s) in
  if s_idleTimeoutMs_ s <=? elapsed then ~ sid ∈ sessions w'
  else sessions w' = sessions w /\ trace w' = trace w /\
    timers w' = timers w ++ [(s_idleTimeoutMs_ s - elapsed, IdleTimer sid)] /\
    exists s', heap w' !! sid = Some s' /\ idleTimerArmed_ s' = true /\ lastRxAt_ s' = lastRxAt_ s.

Lemma onIdleTimer_spec w sid s :
  worker_ok w -> (size (sessions w) <= n)%nat -> sid ∈ sessions w -> heap w !! sid = Some s -> s_idleTimeoutMs_ s <> 0 ->
  wp (onIdleTimer_ close sid) (fun _ w' => keeps w w' /\ idle_post w sid s w') w.
Proof.
  intros Hok Hn Hin E Ht. destruct (open_obj w sid Hok Hin) as (s0 & E0 & _ & Hcon). rewrite E in E0. injection E0 as <-.
  unfold onIdleTimer_. wps. eapply wp_obj; [apply lookup_insert_eq |]. cbn [s_idleTimeoutMs_ set_idleArmed_].
  change (is_connected (set_idleArmed_ s false)) with (is_connected s).
  rewrite Hcon, (proj2 (Z.eqb_neq _ _)) by done. cbn [negb orb]. wp1. apply wp_clock. intros t l.
  cbn [lastRxAt_ set_idleArmed_]. set (s1 := set_idleArmed_ s false).
  destruct (flag_step w sid s s1 l t Hok Hin E ltac:(by left)) as [Hk Hs]. set (w1 := set_clock _ l t) in *.
  assert (E1 : heap w1 !! sid = Some s1) by apply lookup_insert_eq. unfold idle_post.
  destruct (Z.leb_spec (s_idleTimeoutMs_ s) (elapsed_ms t (lastRxAt_ s))) as [Hle | Hgt].
  - eapply wp_mono; [apply (close_keeps w1 sid s1); [apply Hk | by rewrite Hs | done] |].
    intros [] w2 (Hk2 & He2 & Hni). split; [by eapply keeps_trans |].
    destruct (ev_time _ _ He2) as (_ & _ & ->). cbn [now_ w1 set_clock]. by rewrite (proj2 (Z.leb_le _ _)).
  - rewrite (proj2 (Z.leb_gt _ 0)) by lia.
    eapply wp_mono; [apply (arm_idle_spec w1 sid s1); [apply Hk | by rewrite Hs | done | done | done] |].
    intros [] w2 (Hk2 & Hs2 & Hn2 & Htr2 & Htm2 & Hh2). split; [by eapply keeps_trans |].
    rewrite Hn2. cbn [now_ w1 set_clock]. rewrite (proj2 (Z.leb_gt _ _)) by lia.
    split_and!; [done | done | done |]. exists (set_idleArmed_ s1 true). rewrite Hh2. split; [apply lookup_insert_eq | done].
Qed.

(** The heartbeat check: closed after two silent intervals; one ping after
    one silent interval; and always checked again in time. *)
Definition heartbeat_post w (sid : Z) (s : World.Session) w' : Prop :=
  let elapsed := elapsed_ms (now_ w') (lastRxAt_ s) in
  let interval := s_heartbeatIntervalMs_ s in
  if interval * 2 <=? elapsed then ~ sid ∈ sessions w'
  else if interval <=? elapsed then
    ~ sid ∈ sessions w' \/
    (timers w' = timers w ++ [(Z.min (interval * 2 - elapsed) interval, HeartbeatTimer sid)] /\
     trace w' = trace w ++ [EvSend sid kOpcodePing [] true])
  else sessions w' = sessions w /\ trace w' = trace w /\
    timers w' = timers w ++ [(interval - elapsed, HeartbeatTimer sid)].

(** The ping of a heartbeat: accepted and the session open, or closed. *)
Lemma ping_spec w sid s :
  worker_ok w -> (size (sessions w) <= n)%nat -> sid ∈ sessions w -> heap w !! sid = Some s ->
  wp (sendPacketU16 close sid kOpcodePing None 0) (fun ok w1 =>
    let w' := add_trace w1 (EvSend sid kOpcodePing [] ok) in
    keeps w w' /\ timers w' = timers w /\ now_ w' = now_ w /\
    exists s', heap w' !! sid = Some s' /\ same_rx s s' /\
      (~ sid ∈ sessions w' \/ trace w' = trace w ++ [EvSend sid kOpcodePing [] true])) w.
Proof.
  intros Hok Hn Hin E. pose proof (wo_inv _ Hok) as Hi.
  destruct (open_alive w sid s Hi Hin E) as (st & Hst & _ & O).
  pose proof (i_stream _ _ Hi sid Hin ltac:(done)) as Hsent. rewrite Hst in Hsent. injection Hsent as ->.
  eapply wp_mono; [by apply (sendPacketU16_spec n close Hclose w sid s (sent_frames sid (trace w)) kOpcodePing None 0) |].
  intros ok w1 [Hp Hint] w'. cbn [timers add_trace now_ heap trace w'].
  assert (Hboth : inv None (add_trace w1 (EvSend sid kOpcodePing [] ok)) /\ evo w w1).
  { destruct ok; cbn [SessionInv.tx_post] in Hp.
    - split; [by eapply inv_send_accepted; [exact Hp | apply Hint] | apply Hp].
    - split; [apply inv_send_refused, Hp | apply Hp]. }
  destruct Hboth as [Hinv He].
  assert (Hk : keeps w (add_trace w1 (EvSend sid kOpcodePing [] ok))).
  { apply evo_keeps; [done | done |]. eapply evo_trans; [done | by apply evo_add_trace]. }
  destruct (ev_time _ _ He) as (Htm & _ & Hnow). split_and!; [done | done | done |].
  destruct (ev_heap _ _ He sid s E) as (s1 & E1 & Hrx & _). exists s1. split_and!; [done | done |].
  destruct ok; cbn [SessionInv.tx_post] in Hp; [right | left].
  - destruct Hp as (_ & _ & _ & _ & _ & ->). done.
  - apply Hp.
Qed.

Lemma onHeartbeatTimer_spec w sid s :
  worker_ok w -> (size (sessions w) <= n)%nat -> sid ∈ sessions w -> heap w !! sid = Some s ->
  s_heartbeatIntervalMs_ s <> 0 ->
  wp (onHeartbeatTimer_ close sid) (fun _ w' => keeps w w' /\ heartbeat_post w sid s w') w.
Proof.
  intros Hok Hn Hin E Ht. destruct (open_obj w sid Hok Hin) as (s0 & E0 & O & Hcon). rewrite E in E0. injection E0 as <-.
  unfold onHeartbeatTimer_. wps. eapply wp_obj; [apply lookup_insert_eq |]. cbn [s_heartbeatIntervalMs_ set_heartbeatArmed_].
  change (is_connected (set_heartbeatArmed_ s false)) with (is_connected s).
  rewrite Hcon, (proj2 (Z.eqb_neq _ _)) by lia. cbn [negb orb]. wp1. apply wp_clock. intros t l.
  cbn [lastRxAt_ set_heartbeatArmed_ handle_]. set (s1 := set_heartbeatArmed_ s false). rewrite (so_id _ _ _ O).
  destruct (flag_step w sid s s1 l t Hok Hin E ltac:(by right)) as [Hk Hs]. set (w1 := set_clock _ l t) in *.
  assert (E1 : heap w1 !! sid = Some s1) by apply lookup_insert_eq. unfold heartbeat_post.
  set (el := elapsed_ms t (lastRxAt_ s)). set (iv := s_heartbeatIntervalMs_ s) in *. change (iv * kMaxMissed) with (iv * 2).
  assert (Hin1 : sid ∈ sessions w1) by (by rewrite Hs). assert (Hn1 : (size (sessions w1) <= n)%nat) by (by rewrite Hs).
  destruct (Z.leb_spec (iv * 2) el) as [Hle | Hgt].
  - eapply wp_mono; [apply (close_keeps w1 sid s1); [apply Hk | done | done] |].
    intros [] w2 (Hk2 & He2 & Hni). split; [by eapply keeps_trans |].
    destruct (ev_time _ _ He2) as (_ & _ & ->). change (now_ w1) with t. fold el. by rewrite (proj2 (Z.leb_le _ _)).
  - destruct (Z.leb_spec iv el) as [Hle1 | Hgt1].
    + wp1. eapply wp_mono; [apply (ping_spec w1 sid s1); [apply Hk | done | done | done] |].
      intros ok w2 (Hk2 & Htm2 & Hn2 & s2 & E2 & Hrx & Hcase). wps.
      set (w3 := add_trace w2 _) in *. change (now_ w1) with t in Hn2.
      assert (Hmin : (if iv * 2 - el <? iv then iv * 2 - el else iv) = Z.min (iv * 2 - el) iv)
        by (destruct (Z.ltb_spec (iv * 2 - el) iv); lia).
      rewrite Hmin, (proj2 (Z.leb_gt _ 0)) by lia.
      destruct (decide (sid ∈ sessions w3)) as [Hin3 | Hni3].
      * destruct Hcase as [? | Htr]; [done |]. destruct Hrx as (_ & _ & _ & Hiv & _ & _ & Harm).
        eapply wp_mono; [apply (arm_heartbeat_spec w3 sid s2); [apply Hk2 | done | done | | by rewrite Harm] |].
        { rewrite Hiv. change (iv <> 0). lia. }
        intros [] w4 (Hk4 & Hs4 & Hn4 & Htr4 & Htm4 & _).
        split; [eapply keeps_trans; [done | by eapply keeps_trans] |]. rewrite Hn4, Hn2. fold el.
        rewrite (proj2 (Z.leb_gt _ _)), (proj2 (Z.leb_le _ _)) by lia. right. by rewrite Htm4, Htr4, Htm2, Htr.
      * unfold armHeartbeatTimerAfter_. wps.
        destruct (i_dead _ _ (wo_inv _ (ke_ok _ _ Hk2)) sid s2 E2 Hni3) as (Hc & _).
        assert (Hcon2 : is_connected s2 = false) by (unfold is_connected; by rewrite Hc).
        rewrite Hcon2, orb_true_r. cbn [orb]. wps.
        split; [by eapply keeps_trans |]. rewrite Hn2. fold el.
        rewrite (proj2 (Z.leb_gt _ _)), (proj2 (Z.leb_le _ _)) by lia. by left.
    + rewrite (proj2 (Z.leb_gt _ 0)) by lia.
      eapply wp_mono; [apply (arm_heartbeat_spec w1 sid s1); [apply Hk | done | done | | done] |].
      { change (iv <> 0). lia. }
      intros [] w2 (Hk2 & Hs2 & Hn2 & Htr2 & Htm2 & _). split; [by eapply keeps_trans |].
      rewrite Hn2. change (now_ w1) with t. fold el. do 2 (rewrite (proj2 (Z.leb_gt _ _)) by lia). done.
Qed.

Lemma run_timer_spec w cb :
  worker_ok w -> (size (sessions w) <= n)%nat ->
  wp (run_timer close cb) (fun _ w' => keeps w w') w.
Proof.
  intros Hok Hn. unfold run_timer. wps.
  destruct cb as [sid | sid]; (case_bool_decide as Hin; [| wps; by apply keeps_refl]);
    destruct (open_obj w sid Hok Hin) as (s & E & _ & Hcon).
  - destruct (decide (s_idleTimeoutMs_ s = 0)) as [Hz | Hnz].
    + unfold onIdleTimer_. wps. eapply wp_obj; [apply lookup_insert_eq |]. cbn [s_idleTimeoutMs_ set_idleArmed_].
      rewrite Hz. cbn. wps. by eapply (timer_step w sid s).
    + eapply wp_mono; [by apply (onIdleTimer_spec w sid s) |]. by intros [] w' [? _].
  - destruct (decide (s_heartbeatIntervalMs_ s = 0)) as [Hz | Hnz].
    + unfold onHeartbeatTimer_. wps. eapply wp_obj; [apply lookup_insert_eq |].
      cbn [s_heartbeatIntervalMs_ set_heartbeatArmed_]. rewrite Hz. cbn. wps. by eapply (timer_step w sid s).
    + eapply wp_mono; [by apply (onHeartbeatTimer_spec w sid s) |]. by intros [] w' [? _].
Qed.

End Calls.

(* ------------------------------------------------------------------ *)
(** ** Accept *)

(** The kernel's promise about an accepted descriptor: it is not one that is
    in use, and nothing was sent on it. *)
Definition fresh_fd w (fd : Z) : Prop :=
  0 <= fd /\ fdContexts_ w !! fd = None /\ exists q, kern w !! fd = Some (mk_conn q []).

(** The state in which the application hears of a new session. *)
Definition accepted w (id fd : Z) (s : World.Session) w' : Prop :=
  cw w' = cw w /\
  mgr w' = set_sessions (set_counter (mgr w) (localCounter_ (mgr w) + 1)) ({[id]} ∪ sessions w) /\
  heap w' = <[id := s]> (heap w) /\
  fdContexts_ w' = <[fd := mk_fdctx (HSession id) baseEpollMask_]> (fdContexts_ w) /\
  kern w' = kern w /\ currentConnections_ (metrics w') = currentConnections_ (metrics w) + 1 /\
  trace w' = trace w ++ [EvStart (handle_ s)].

(** A session object as [Session::create] makes it, but for the timers. *)
Definition new_session w (id fd : Z) (s : World.Session) : Prop :=
  id_ (handle_ s) = id /\ fd_ s = fd /\ state_ s = Connected /\ currentEpollMask_ s = baseEpollMask_ /\
  (exists rb, recvRing_ s = Some rb /\ RingBuffer.wf rb /\ RingBuffer.capacity_ rb = recvRingCapacity_ (mgr w) /\
     RingBuffer.contents rb = []) /\
  (exists rb, sendRing_ s = Some rb /\ RingBuffer.wf rb /\ RingBuffer.contents rb = []).

Lemma fresh_id w :
  inv None w -> heap w !! (ownerWorkerId_ (mgr w) * U32 + localCounter_ (mgr w)) = None.
Proof.
  intros Hi. apply eq_None_not_Some. intros H. destruct (i_ids _ _ Hi _ H) as (j & Hj & Hr). lia.
Qed.

Lemma empty_ring_mask rb : RingBuffer.wf rb -> RingBuffer.contents rb = [] -> interest_mask rb = baseEpollMask_.
Proof.
  intros Hwf Hc. unfold interest_mask, RingBuffer.empty. rewrite <- RingBuffer.contents_len, Hc by done. done.
Qed.

Lemma accepted_inv w id fd s w' :
  inv None w -> id = ownerWorkerId_ (mgr w) * U32 + localCounter_ (mgr w) -> fresh_fd w fd ->
  new_session w id fd s -> accepted w id fd s w' -> inv None w' /\ sessions w' = {[id]} ∪ sessions w.
Proof.
  intros Hi Hid (Hfd0 & Hfree & q & Hk0) (Hsid & Hsfd & Hst & Hmask & (rr & Hrr & Hwr & Hcap & _) & (sr & Hsr & Hws & Hse0))
    (Hcw & Hm & Hh & Hfds & Hk & Hg & Htr).
  assert (Hnone : heap w !! id = None) by (rewrite Hid; by apply fresh_id).
  assert (Hni : ~ id ∈ sessions w).
  { intros Hin. destruct (i_sess _ _ Hi id Hin) as (? & ? & _). congruence. }
  assert (Hse : sessions w' = {[id]} ∪ sessions w) by (unfold sessions at 1; by rewrite Hm).
  assert (Hold : forall x sx, x ∈ sessions w -> heap w !! x = Some sx -> x <> id /\ fd_ sx <> fd).
  { intros x sx Hx Ex. split; [congruence |]. intros Hf. destruct (i_sess _ _ Hi x Hx) as (s0 & E0 & O).
    simplify_eq. pose proof (so_reg _ _ _ O). congruence. }
  split; [| done]. destruct Hi. split; rewrite ?Hse, ?Hm; cbn [ownerWorkerId_ localCounter_ set_sessions set_counter framer_]; try done.
  - unfold isInOwnerThread in *. by rewrite Hcw, Hm.
  - intros x Hx. destruct (decide (x = id)) as [-> | Hne].
    + exists s. rewrite Hh, lookup_insert_eq. split; [done |].
      split; rewrite ?Hfds, ?Hk, ?Hm, ?Hsfd, ?Hmask, ?lookup_insert_eq; try done.
      * by exists rr.
      * by exists sr.
    + destruct (i_sess0 x) as (sx & Ex & Ox); [set_solver |]. destruct (Hold x sx) as [_ Hf]; [set_solver | done |].
      exists sx. rewrite Hh, lookup_insert_ne by done. split; [done |].
      destruct Ox. split; try done; rewrite ?Hfds, ?Hk, ?Hm; try done. by rewrite lookup_insert_ne by done.
  - intros x sx. rewrite Hh, lookup_insert_Some. intros [[<- _] | [Hne Ex]] Hx; [set_solver |].
    apply i_dead0; [done | set_solver].
  - intros f x m. rewrite Hfds, Hh, lookup_insert_Some. intros [[<- [= <- _]] | [Hne Hc]].
    + split; [set_solver |]. exists s. by rewrite lookup_insert_eq.
    + destruct (i_fds0 f x m Hc) as (Hx & sx & Ex & Hf). split; [set_solver |]. exists sx.
      rewrite lookup_insert_ne by congruence. done.
  - intros x Hx _. rewrite Htr, sent_frames_snoc. cbn [sent_frame default]. rewrite app_nil_r.
    destruct (decide (x = id)) as [-> | Hne].
    + rewrite i_sent0 by done. unfold stream. rewrite Hh, lookup_insert_eq. cbn. rewrite Hk, Hsfd, Hk0. cbn.
      rewrite Hsr. cbn. by rewrite Hse0.
    + rewrite <- i_stream0 by (set_solver || done). unfold stream. by rewrite Hh, lookup_insert_ne, Hk by done.
  - intros x Hx _. unfold interest_ok. rewrite Hh. destruct (decide (x = id)) as [-> | Hne].
    + exists s, sr. rewrite lookup_insert_eq. split_and!; [done | done |]. by rewrite empty_ring_mask.
    + destruct (i_interest0 x) as (sx & rb & Ex & Hr & Hmk); [set_solver | done |]. exists sx, rb.
      by rewrite lookup_insert_ne by done.
  - lia.
  - intros x [sx Hx]. rewrite Hh in Hx. apply lookup_insert_Some in Hx as [[<- _] | [_ Hx]].
    + exists (localCounter_ (mgr w)). split; [done | lia].
    + destruct (i_ids0 x) as (j & ? & ?); [by eexists |]. exists j. split; [done | lia].
  - intros x. rewrite Hh, lookup_insert_None, Htr, sent_frames_snoc. intros [Hx _]. cbn. rewrite app_nil_r. by apply i_sent0.
  - rewrite Htr, trace_live_snoc, i_live0. cbn. by rewrite Hsid, decide_False.
  - rewrite Hg, i_gauge0, size_union, size_singleton by set_solver. lia.
  - destruct i_app0. split; done.
Qed.

(** Changes of the clock, the timers and one session's timer fields. *)
Record tstep w (sid : Z) w' : Prop := {
  ts_cw : cw w' = cw w;
  ts_mgr : mgr w' = mgr w;
  ts_fds : fdContexts_ w' = fdContexts_ w;
  ts_kern : kern w' = kern w;
  ts_metrics : metrics w' = metrics w;
  ts_trace : trace w' = trace w;
  ts_heap : forall s, heap w !! sid = Some s -> exists s', heap w' = <[sid := s']> (heap w) /\
    handle_ s' = handle_ s /\ fd_ s' = fd_ s /\ state_ s' = state_ s /\ sendRing_ s' = sendRing_ s /\
    currentEpollMask_ s' = currentEpollMask_ s /\ recvRing_ s' = recvRing_ s
}.

Lemma tstep_trans w1 w2 w3 sid s :
  heap w1 !! sid = Some s -> tstep w1 sid w2 -> tstep w2 sid w3 -> tstep w1 sid w3.
Proof.
  intros E [a1 b1 c1 d1 e1 f1 g1] [a2 b2 c2 d2 e2 f2 g2]. split; try congruence.
  intros s0 E0. rewrite E in E0. injection E0 as <-. destruct (g1 s E) as (s1 & H1 & X1).
  destruct (g2 s1) as (s2 & H2 & X2); [rewrite H1; apply lookup_insert_eq |].
  exists s2. rewrite H2, H1, insert_insert_eq. destruct X1 as (?&?&?&?&?&?), X2 as (?&?&?&?&?&?).
  split_and!; congruence.
Qed.

Lemma tstep_update w sid (s : World.Session) f l t tm :
  heap w !! sid = Some s ->
  handle_ (f s) = handle_ s -> fd_ (f s) = fd_ s -> state_ (f s) = state_ s -> sendRing_ (f s) = sendRing_ s ->
  currentEpollMask_ (f s) = currentEpollMask_ s -> recvRing_ (f s) = recvRing_ s ->
  tstep w sid (set_timers (set_clock (set_heap w (<[sid := f s]> (heap w))) l t) tm).
Proof. intros E ? ? ? ? ? ?. split; try done. intros s0 E0. rewrite E in E0. injection E0 as <-. by exists (f s). Qed.

Lemma tstep_obj w sid s w' : heap w !! sid = Some s -> tstep w sid w' ->
  exists s', heap w' !! sid = Some s' /\ is_connected s' = is_connected s.
Proof.
  intros E T. destruct (ts_heap _ _ _ T s E) as (s' & -> & _ & _ & Hs & _). exists s'.
  rewrite lookup_insert_eq. unfold is_connected. by rewrite Hs.
Qed.

Lemma arm_tstep w sid s delay (idle : bool) :
  heap w !! sid = Some s -> isInOwnerThread w = true ->
  wp (if idle then armIdleTimerAfter_ sid delay else armHeartbeatTimerAfter_ sid delay)
     (fun _ w' => w' = w \/ tstep w sid w') w.
Proof.
  intros E Ho. destruct idle; [unfold armIdleTimerAfter_ | unfold armHeartbeatTimerAfter_]; wps;
    (match goal with |- wp (if ?b then _ else _) _ _ => destruct b end; [wps; by left |]); wps;
    unfold addTimer; wp1; (apply wp_owner; [done |]); wps; right;
    [ eapply (tstep_update w sid s (fun s => set_idleArmed_ s true) (o_clock w) (now_ w)) |
      eapply (tstep_update w sid s (fun s => set_heartbeatArmed_ s true) (o_clock w) (now_ w)) ]; done.
Qed.

Lemma startTimeouts_spec w sid s idle hb :
  heap w !! sid = Some s -> isInOwnerThread w = true ->
  wp (startTimeouts_ sid idle hb) (fun _ w' => tstep w sid w') w.
Proof.
  intros E Ho. unfold startTimeouts_. wps. apply wp_clock. intros t l. wp1.
  eapply wp_update; [apply lookup_insert_eq |]. set (s2 := set_lastRx_ _ t). set (w2 := set_heap _ _).
  assert (T2 : tstep w sid w2).
  { split; try done. intros s0 E0. rewrite E in E0. injection E0 as <-. exists s2.
    split; [apply insert_insert_eq | done]. }
  assert (Hgo : forall w3 (idle' : bool) c delay, tstep w sid w3 -> isInOwnerThread w3 = true ->
     wp (if c : bool then if idle' then armIdleTimerAfter_ sid delay else armHeartbeatTimerAfter_ sid delay else ret tt)
        (fun _ w' => tstep w sid w') w3).
  { intros w3 idle' c delay T3 Ho3. destruct c; [| by wps].
    destruct (tstep_obj w sid s w3 E T3) as (s3 & E3 & _).
    eapply wp_mono; [by apply (arm_tstep w3 sid s3) |]. intros [] w4 [-> | T4]; [done |]. by eapply tstep_trans. }
  wp1. eapply wp_mono; [apply (Hgo w2 true); done |]. intros [] w3 T3. apply (Hgo w3 false); [done |].
  unfold isInOwnerThread. by rewrite (ts_cw _ _ _ T3), (ts_mgr _ _ _ T3).
Qed.

(** The parts of the state the invariant does not read. *)
Lemma worker_ok_side w w' :
  worker_ok w -> cw w' = cw w -> heap w' = heap w -> fdContexts_ w' = fdContexts_ w -> kern w' = kern w ->
  currentConnections_ (metrics w') = currentConnections_ (metrics w) -> trace w' = trace w ->
  (exists k, localCounter_ (mgr w) <= k /\ mgr w' = set_counter (mgr w) k) -> worker_ok w'.
Proof.
  intros [Hi Hw Hc] Hcw Hh Hf Hk Hg Htr (k & Hle & Hm).
  assert (Hse : sessions w' = sessions w) by (unfold sessions; by rewrite Hm).
  split.
  - destruct Hi. split; rewrite ?Hse, ?Hh, ?Hf, ?Htr, ?Hg, ?Hm; try done.
    + unfold isInOwnerThread. by rewrite Hcw, Hm.
    + intros x Hx. destruct (i_sess0 x Hx) as (sx & Ex & Ox). exists sx. split; [done |].
      eapply sess_ok_ext; [| | | done]; [done | done | by rewrite Hm].
    + intros x Hx Hex. rewrite <- i_stream0 by done. unfold stream. by rewrite Hh, Hk.
    + intros x Hx Hex. destruct (i_interest0 x Hx Hex) as (sx & rb & ?). exists sx, rb. by rewrite Hh.
    + cbn. lia.
    + intros x Hx. cbn. destruct (i_ids0 x Hx) as (j & ? & ?). exists j. split; [done | lia].
    + destruct i_app0. by split.
  - intros x s rb. rewrite Hse, Hh. unfold waits. rewrite Hm. apply Hw.
  - by rewrite Hm.
Qed.

(** Rings that could be allocated. *)
Lemma create_session w id fd t s :
  worker_ok w -> create (mgr w) (makeHandle_ (mgr w) id) fd t = Some s -> new_session w id fd s /\
    handle_ s = makeHandle_ (mgr w) id.
Proof.
  intros Hok Hc. unfold create in Hc. destruct (wo_caps _ Hok) as [H1 H2].
  destruct (RingBuffer.create (recvRingCapacity_ (mgr w))) as [| rr] eqn:Er; [done |].
  destruct (RingBuffer.create (sendRingCapacity_ (mgr w))) as [| sr] eqn:Es; [done |]. injection Hc as <-.
  destruct (RingBuffer.create_wf _ _ Er H1) as (Hw1 & Hc1 & Hcap1).
  destruct (RingBuffer.create_wf _ _ Es H2) as (Hw2 & Hc2 & _).
  split; [| done]. split_and!; try done; [by exists rr | by exists sr].
Qed.

Lemma new_waits w r : r = [] -> waits w r.
Proof. intros ->. done. Qed.

(** What accepting leaves: the counter moved, and at most the new session was
    added. *)
Record accept_post w (id : Z) w' : Prop := {
  ap_ok : worker_ok w';
  ap_owner : ownerWorkerId_ (mgr w') = ownerWorkerId_ (mgr w);
  ap_counter : localCounter_ (mgr w') = localCounter_ (mgr w) + 1;
  ap_sub : sessions w' ⊆ {[id]} ∪ sessions w
}.

Lemma accepted_ok w id fd s w' :
  worker_ok w -> id = ownerWorkerId_ (mgr w) * U32 + localCounter_ (mgr w) -> fresh_fd w fd ->
  new_session w id fd s -> accepted w id fd s w' -> accept_post w id w'.
Proof.
  intros Hok Hid Hf Hn Ha. destruct (accepted_inv w id fd s w' (wo_inv _ Hok) Hid Hf Hn Ha) as [Hi' Hse].
  destruct Ha as (_ & Hm & Hh & _). split; rewrite ?Hm; [| done | done |].
  - split; [done | |].
    + intros x sx rb. rewrite Hse, Hh. intros Hx Ex Er. unfold waits. rewrite Hm.
      apply lookup_insert_Some in Ex as [[<- <-] | [Hne Ex]].
      * destruct Hn as (_ & _ & _ & _ & (rr & Hrr & _ & _ & Hc) & _). rewrite Er in Hrr. injection Hrr as ->.
        rewrite Hc. done.
      * eapply (wo_waiting _ Hok x sx rb); [| done | done].
        apply elem_of_union in Hx as [Hx%elem_of_singleton | Hx]; [congruence | done].
    + rewrite Hm. apply Hok.
  - unfold sessions at 1. rewrite Hm. done.
Qed.

Lemma refused_ok w id w' :
  worker_ok w -> cw w' = cw w -> heap w' = heap w -> fdContexts_ w' = fdContexts_ w -> kern w' = kern w ->
  currentConnections_ (metrics w') = currentConnections_ (metrics w) -> trace w' = trace w ->
  mgr w' = set_counter (mgr w) (localCounter_ (mgr w) + 1) -> accept_post w id w'.
Proof.
  intros Hok Hcw Hh Hf Hk Hg Htr Hm. split; rewrite ?Hm; try done.
  - eapply (worker_ok_side w); try done. exists (localCounter_ (mgr w) + 1). split; [lia | done].
  - unfold sessions at 1. rewrite Hm. cbn. set_solver.
Qed.

(** [addFd] on a descriptor, and its failure. *)
Lemma wp_addFd fd mask h Q w :
  isInOwnerThread w = true -> 0 <= fd ->
  (forall e l, Q (Some e) (set_ctl w l)) ->
  (forall l, Q None (set_fds (set_ctl w l) (<[fd := mk_fdctx h mask]> (fdContexts_ w)))) -> wp (addFd fd mask h) Q w.
Proof.
  intros Ho Hf He Hok. unfold addFd, registerFd. wp1. apply wp_owner; [done |]. rewrite (proj2 (Z.ltb_ge fd 0)) by done. wp1.
  unfold epoll_ctl, wp at 1. destruct (o_ctl w) as [| [e |] rest] eqn:Eo; wps.
  - specialize (Hok []). rewrite <- Eo in Hok. by destruct w.
  - apply He.
  - apply Hok.
Qed.

Lemma onAccepted_spec n close w fd :
  close_ok (others := others) n close -> worker_ok w -> (S (size (sessions w)) <= n)%nat ->
  localCounter_ (mgr w) < U32 -> fresh_fd w fd ->
  wp (onAccepted close fd) (fun h w' =>
    accept_post w (ownerWorkerId_ (mgr w) * U32 + localCounter_ (mgr w)) w') w.
Proof.
  intros Hclose Hok Hn Hlt Hf. pose proof (wo_inv _ Hok) as Hi. pose proof (i_worker _ _ Hi). pose proof (i_counter _ _ Hi).
  unfold onAccepted. wp1. apply wp_owner; [apply Hi |]. wps. rewrite nextSessionId_small by lia.
  set (id := ownerWorkerId_ (mgr w) * U32 + localCounter_ (mgr w)). wps. apply wp_clock. intros t l.
  destruct (create (mgr w) (makeHandle_ (mgr w) id) fd t) as [s |] eqn:Ec; [| wps; by apply refused_ok].
  destruct (create_session w id fd t s Hok Ec) as [Hnew Hh]. wps.
  assert (Hni : ~ id ∈ sessions w).
  { intros Hin. destruct (i_sess _ _ Hi id Hin) as (? & E & _). pose proof (fresh_id w Hi). unfold id in E. congruence. }
  rewrite bool_decide_eq_false_2 by done. wp1. apply wp_addFd; [apply Hi | apply Hf | |].
  { intros e l'. wps. by apply refused_ok. }
  intros l'. wps. set (w1 := set_mgr _ _).
  assert (E1 : heap w1 !! id = Some s) by apply lookup_insert_eq.
  eapply wp_mono; [apply (startTimeouts_spec w1 id s); [done | apply Hi] |].
  intros [] w2 T2. destruct (ts_heap _ _ _ T2 s E1) as (s' & Hh2 & X1 & X2 & X3 & X4 & X5 & X6). wps.
  set (w3 := add_trace _ _).
  assert (Hacc : accepted w id fd s' w3).
  { unfold accepted, w3. cbn [cw mgr heap fdContexts_ kern metrics currentConnections_ trace add_trace set_metrics].
    rewrite (ts_cw _ _ _ T2), (ts_mgr _ _ _ T2), (ts_fds _ _ _ T2), (ts_kern _ _ _ T2), (ts_metrics _ _ _ T2),
      (ts_trace _ _ _ T2), Hh2, X1, Hh. split_and!; try done. cbn. by rewrite insert_insert_eq. }
  assert (Hnew' : new_session w id fd s') by (unfold new_session in *; rewrite X1, X2, X3, X4, X5, X6; done).
  pose proof (accepted_ok w id fd s' w3 Hok eq_refl Hf Hnew' Hacc) as Hap.
  destruct (app_ (mgr w)) as [app |] eqn:Ea; wps; [| done].
  assert (Ha3 : app_ (mgr w3) = Some app) by (destruct Hacc as (_ & -> & _); done).
  eapply wp_mono; [apply (run_prog_spec n close Hclose true) |].
  - apply (ao_start _ (i_app _ _ (wo_inv _ (ap_ok _ _ _ Hap)))). done.
  - apply (wo_inv _ (ap_ok _ _ _ Hap)).
  - etrans; [apply subseteq_size, (ap_sub _ _ _ Hap) |]. rewrite size_union, size_singleton by set_solver. lia.
  - intros b w4 (Hi4 & He4 & _). wps. pose proof (evo_keeps w3 w4 (ap_ok _ _ _ Hap) Hi4 He4) as Hk4.
    split; [apply Hk4 | | |].
    + by rewrite (ke_owner _ _ Hk4), (ap_owner _ _ _ Hap).
    + by rewrite (ke_counter _ _ Hk4), (ap_counter _ _ _ Hap).
    + etrans; [apply Hk4 | apply Hap].
Qed.

(* ------------------------------------------------------------------ *)
(** ** Runs *)

(** What the kernel and the peers do before a call: bytes arrive, and the
    answers of the system calls to come are chosen. *)
Record env := mk_env {
  e_arrivals : list (Z * list byte);
  e_recv : list recv_res;
  e_send : list send_res;
  e_ctl : list (option Z);
  e_clock : list Z
}.

Definition arrive (k : gmap Z conn) (a : Z * list byte) : gmap Z conn :=
  match k !! a.1 with
  | None => k
  | Some c => <[a.1 := mk_conn (rx_queue c ++ a.2) (tx_wire c)]> k
  end.

Definition apply_env w (e : env) : world St :=
  set_kern (set_clock (set_ctl (set_send (set_recv w (e_recv e)) (e_send e)) (e_ctl e)) (e_clock e) (now_ w))
    (fold_left arrive (e_arrivals e) (kern w)).

(** The calls a worker's event loop makes. *)
Inductive worker_op :=
| WAccept (fd : Z)
| WEvent (fd events : Z)
| WTimer (cb : timer_cb)
| WSend (id op : Z) (body : list byte)
| WInject (session : SessionHandle) (op : Z) (body : list byte)
| WClose (id : Z) (reason : string) (err : Z)
| WCloseAll (reason : string) (err : Z)
| WTimeouts (idle heartbeat : Z).

(** Bodies are objects of the address space and opcodes 16-bit. *)
Definition op_ok (o : worker_op) : Prop :=
  match o with
  | WSend _ op body => zlen body <= VEC_MAX /\ 0 <= op < U16
  | WInject _ _ body => zlen body <= VEC_MAX
  | _ => True
  end.

(** A new connection in the kernel. *)
Definition open_conn w (fd : Z) : world St := set_kern w (<[fd := mk_conn [] []]> (kern w)).

(** One call.  The kernel only accepts into a free descriptor; an event is
    looked up by descriptor as [EventLoop::runOnce] does. *)
Definition worker_step (eo : env * worker_op) : M St unit := fun w0 =>
  let w := apply_env w0 eo.1 in
  let close := beginClose_ (S (size (sessions w))) in
  match eo.2 with
  | WAccept fd =>
      if decide (0 <= fd /\ fdContexts_ w !! fd = None)
      then (onAccepted close fd ;;; ret tt)%eff (open_conn w fd) else Ok tt w
  | WEvent fd events =>
      match fdContexts_ w !! fd with
      | Some (mk_fdctx (HSession sid) _) => handleEvent close sid events w
      | _ => Ok tt w
      end
  | WTimer cb => run_timer close cb w
  | WSend id op body => (run_prog close (PSend id op body (fun _ => PRet)) ;;; ret tt)%eff w
  | WInject h op body => dispatchInjected close h op body w
  | WClose id reason err => closeByPolicy_ close id reason err w
  | WCloseAll reason err => closeAllByPolicy close reason err w
  | WTimeouts a b => configureTimeouts a b w
  end.

Fixpoint run_worker (steps : list (env * worker_op)) : M St unit :=
  match steps with
  | [] => ret tt
  | eo :: rest => worker_step eo ;;; run_worker rest
  end.

Lemma arrive_tx k a fd : tx_wire <$> arrive k a !! fd = tx_wire <$> k !! fd.
Proof.
  unfold arrive. destruct (k !! a.1) as [c |] eqn:E; [| done]. destruct (decide (fd = a.1)) as [-> | Hne].
  - by rewrite lookup_insert_eq, E.
  - by rewrite lookup_insert_ne.
Qed.

Lemma arrivals_tx l k fd : tx_wire <$> fold_left arrive l k !! fd = tx_wire <$> k !! fd.
Proof. revert k. induction l as [| a l IH]; intros k; [done |]. cbn. by rewrite IH, arrive_tx. Qed.

(** The kernel may change anything but what was sent on open connections. *)
Lemma kernel_ok w w' :
  worker_ok w -> cw w' = cw w -> heap w' = heap w -> fdContexts_ w' = fdContexts_ w -> mgr w' = mgr w ->
  metrics w' = metrics w -> trace w' = trace w ->
  (forall fd sid m, fdContexts_ w !! fd = Some (mk_fdctx (HSession sid) m) ->
     tx_wire <$> kern w' !! fd = tx_wire <$> kern w !! fd) -> worker_ok w'.
Proof.
  intros [Hi Hw Hc] Hcw Hh Hf Hm Hg Htr Hk.
  assert (Hse : sessions w' = sessions w) by (unfold sessions; by rewrite Hm).
  split.
  - destruct Hi. split; rewrite ?Hse, ?Hh, ?Hf, ?Htr, ?Hg, ?Hm; try done.
    + unfold isInOwnerThread. by rewrite Hcw, Hm.
    + intros x Hx. destruct (i_sess0 x Hx) as (sx & Ex & Ox). exists sx. split; [done |].
      destruct Ox. split; rewrite ?Hf, ?Hm; try done. specialize (Hk _ _ _ so_reg0). destruct so_kern0 as [c Ec].
      rewrite Ec in Hk. destruct (kern w' !! fd_ sx); [by eexists | done].
    + intros x Hx Hex. rewrite <- i_stream0 by done. destruct (i_sess0 x Hx) as (sx & Ex & Ox).
      specialize (Hk _ _ _ (so_reg _ _ _ Ox)). unfold stream. rewrite Hh, Ex. cbn.
      destruct (kern w' !! fd_ sx) as [c' |], (kern w !! fd_ sx) as [c |]; try done. cbn in *. by injection Hk as ->.
    + intros x Hx Hex. destruct (i_interest0 x Hx Hex) as (sx & rb & ?). exists sx, rb. by rewrite Hh.
  - intros x s rb. rewrite Hse, Hh. unfold waits. rewrite Hm. apply Hw.
  - by rewrite Hm.
Qed.

Lemma apply_env_ok w e : worker_ok w -> worker_ok (apply_env w e).
Proof. intros Hok. eapply (kernel_ok w); try done. intros fd sid m _. cbn. apply arrivals_tx. Qed.

Lemma open_conn_ok w fd : worker_ok w -> fdContexts_ w !! fd = None -> worker_ok (open_conn w fd).
Proof.
  intros Hok Hn. eapply (kernel_ok w); try done. intros fd' sid m Hf. cbn.
  rewrite lookup_insert_ne; [done |]. congruence.
Qed.

Lemma worker_step_ok eo w :
  worker_ok w -> op_ok eo.2 -> localCounter_ (mgr w) < U32 ->
  wp (worker_step eo) (fun _ w' => worker_ok w' /\ localCounter_ (mgr w') <= localCounter_ (mgr w) + 1) w.
Proof.
  intros Hok0 Hop Hlt. pose proof (apply_env_ok w eo.1 Hok0) as Hok. unfold worker_step, wp.
  set (w1 := apply_env w eo.1) in *. set (n := S (size (sessions w1))).
  assert (Hn : (size (sessions w1) <= n)%nat) by lia.
  pose proof (beginClose_ok (St := St) (others := others) n) as Hclose.
  assert (Hk : forall (m : M St unit), wp m (fun _ w' => keeps w1 w') w1 ->
    match m w1 with
    | Ok _ w' => worker_ok w' /\ localCounter_ (mgr w') <= localCounter_ (mgr w) + 1
    | _ => False
    end).
  { intros m Hm. unfold wp in Hm. destruct (m w1); [| done | done]. destruct Hm. split; [done |].
    rewrite ke_counter0. cbn. lia. }
  assert (Hsame : worker_ok w1 /\ localCounter_ (mgr w1) <= localCounter_ (mgr w) + 1) by (split; [done | cbn; lia]).
  destruct eo.2 as [fd | fd events | cb | id op body | h op body | id reason err | reason err | a b].
  - destruct (decide _) as [[Hf0 Hf] | _]; [| done].
    assert (Hoc : worker_ok (open_conn w1 fd)) by (by apply open_conn_ok).
    assert (Hff : fresh_fd (open_conn w1 fd) fd).
    { split_and!; [done | done |]. eexists. apply lookup_insert_eq. }
    pose proof (onAccepted_spec n (beginClose_ n) (open_conn w1 fd) fd Hclose Hoc (le_n _) Hlt Hff) as Ha.
    unfold wp in Ha. unfold bind. destruct (onAccepted (beginClose_ n) fd (open_conn w1 fd)) as [h w2 | |]; [| done | done].
    destruct Ha. split; [done |]. rewrite ap_counter0. cbn. lia.
  - destruct (fdContexts_ w1 !! fd) as [[[sid | ?] mask] |] eqn:Ef; [| done | done].
    apply Hk. apply (handleEvent_spec n); [done | done | done |]. by eapply (i_fds _ _ (wo_inv _ Hok)).
  - apply Hk. by apply (run_timer_spec n).
  - apply (Hk (run_prog (beginClose_ n) (PSend id op body (fun _ => PRet)) ;;; ret tt)%eff).
    wp1. eapply wp_mono; [by apply (send_task_spec n (beginClose_ n) Hclose w1); [..| apply Hop | apply Hop] |].
    intros t w' ?. by wps.
  - apply Hk. by apply (dispatchInjected_spec n).
  - apply Hk. eapply wp_mono; [by apply (close_policy_keeps n (beginClose_ n) Hclose w1) |]. by intros [] w' [? _].
  - apply Hk. eapply wp_mono; [by apply (closeAllByPolicy_spec n (beginClose_ n) Hclose w1) |]. by intros [] w' [? _].
  - apply Hk. unfold configureTimeouts. wp1. apply wp_owner; [apply (wo_inv _ Hok) |]. wps. set (w2 := set_mgr _ _).
    split; try done. destruct Hok as [Hi Hw Hc]. split; [| done | done]. destruct Hi. split; try done.
    + by eapply (sess_all_ext w1).
    + destruct i_app0. by split.
Qed.

Lemma run_worker_ok steps w :
  worker_ok w -> Forall (fun eo => op_ok eo.2) steps ->
  localCounter_ (mgr w) + zlen steps <= U32 ->
  wp (run_worker steps) (fun _ w' => worker_ok w') w.
Proof.
  intros Hok Hs. revert w Hok. induction Hs as [| eo steps Ho Hs IH]; intros w Hok Hc; cbn [run_worker]; [by wps |].
  rewrite zlen_cons in Hc. pose proof (zlen_nonneg steps). wp1.
  eapply wp_mono; [apply worker_step_ok; [done | done | lia] |]. intros [] w1 [Hok1 Hc1]. apply IH; [done | lia].
Qed.

End Ops.

(* ------------------------------------------------------------------ *)
(** ** Workers from their start *)

Section Theorems.
Context {St : Type}.
Implicit Types w : world St.

Record config := mk_config {
  c_owner : Z; c_recvRing : Z; c_sendRing : Z; c_maxPayload : Z; c_idle : Z; c_heartbeat : Z
}.

Definition config_ok (c : config) : Prop :=
  0 <= c_owner c < 2 ^ 31 /\ 0 <= c_recvRing c /\ 0 <= c_sendRing c /\ 0 <= c_maxPayload c < U32.

(** The application's side: handlers do not throw, bodies are objects. *)
Definition application_ok (app : Application St) : Prop :=
  (forall op h s v, handlers_ (registerHandlers app dispatcher_init) !! op = Some h ->
     zlen (view_bytes v) <= VEC_MAX -> prog_ok false (h s v PRet)) /\
  (forall h, prog_ok true (onSessionEnd app h)) /\ (forall h, prog_ok true (onSessionStart app h)).

(** A worker before any connection: manager built, application set, timeouts
    configured. *)
Definition empty_world (c : config) (st : St) : world St :=
  mk_world (c_owner c) (create_manager (c_owner c) (c_recvRing c) (c_sendRing c) (c_maxPayload c))
    ∅ ∅ ∅ (mk_metrics 0 0 0) [] st [] [] [] [] 0 [].

Definition run_from (c : config) (app : Application St) (st : St) (steps : list (env * worker_op))
  : result St unit :=
  (setApplication (Some app) ;;; configureTimeouts (c_idle c) (c_heartbeat c) ;;; run_worker steps)%eff
    (empty_world c st).

Definition steps_ok (steps : list (env * worker_op)) : Prop :=
  Forall (fun eo => op_ok eo.2) steps /\ 1 + zlen steps < U32.

Definition reachable (c : config) (app : Application St) (st : St) w : Prop :=
  exists steps, steps_ok steps /\ run_from c app st steps = Ok tt w.

Lemma run_from_ok c app st steps :
  config_ok c -> application_ok app -> steps_ok steps ->
  exists w, run_from c app st steps = Ok tt w /\ worker_ok (others := 0) w.
Proof.
  intros (Ho & Hr & Hs & Hm) (Hh & He & Hst) [Hops Hlen].
  assert (H : wp (setApplication (Some app) ;;; configureTimeouts (c_idle c) (c_heartbeat c) ;;; run_worker steps)%eff
                 (fun _ w => worker_ok (others := 0) w) (empty_world c st)).
  { unfold setApplication, configureTimeouts. wps.
    apply wp_owner; [unfold isInOwnerThread; cbn; apply Z.eqb_refl |]. wps. set (w1 := set_mgr _ _).
    apply run_worker_ok; [| done | cbn; lia].
    assert (Hempty : forall sid, ~ sid ∈ sessions w1) by (intros sid; apply not_elem_of_empty).
    assert (Hheap : forall sid, heap w1 !! sid = None) by (intros sid; apply lookup_empty).
    split; [| intros sid s rb Hin; by destruct (Hempty sid) | done]. split; try done.
    - unfold isInOwnerThread. apply Z.eqb_refl.
    - intros sid [s E]. by rewrite Hheap in E.
    - split; [done | |]; intros a h [= <-]; done. }
  apply wp_run in H as ([] & w & H & Hok). by exists w.
Qed.

Lemma reachable_ok c app st w :
  config_ok c -> application_ok app -> reachable c app st w -> worker_ok (others := 0) w.
Proof.
  intros Hc Ha (steps & Hs & Hrun). destruct (run_from_ok c app st steps Hc Ha Hs) as (w' & Hrun' & Hok).
  rewrite Hrun in Hrun'. by injection Hrun' as <-.
Qed.



(** C2: no byte of an accepted packet is lost, repeated or reordered.  In
    every reachable state, for every open session, what the kernel was given
    followed by what waits in the send ring is the concatenation of the
    packets accepted for it, in order, whatever short writes, interruptions
    and blocked sockets occurred. *)
Theorem send_streams_intact (c : config) (app : Application St) (st : St) w (sid : Z) :
  config_ok c -> application_ok app -> reachable c app st w -> sid ∈ sessions w ->
  exists s k rb, heap w !! sid = Some s /\ kern w !! fd_ s = Some k /\ sendRing_ s = Some rb /\
    tx_wire k ++ RingBuffer.contents rb = sent_frames sid (trace w).
Proof.
  intros Hc Ha Hr Hin. pose proof (wo_inv _ (reachable_ok c app st w Hc Ha Hr)) as Hi.
  destruct (i_sess _ _ Hi sid Hin) as (s & E & O). destruct (so_kern _ _ _ O) as [k Ek].
  destruct (so_send _ _ _ O) as (rb & Er & _). exists s, k, rb. split_and!; try done.
  pose proof (i_stream _ _ Hi sid Hin ltac:(done)) as Hst. unfold stream in Hst. rewrite E in Hst. cbn in Hst.
  rewrite Ek in Hst. cbn in Hst. rewrite Er in Hst. cbn in Hst. congruence.
Qed.

(** C24: queued bytes are never forgotten.  In every reachable state an open
    session is registered for write readiness exactly when its send ring is
    not empty, so a backlog is always flushed by a later event and an idle
    socket causes none. *)
Theorem write_interest_iff_backlog (c : config) (app : Application St) (st : St) w (sid : Z) :
  config_ok c -> application_ok app -> reachable c app st w -> sid ∈ sessions w ->
  exists s rb mask, heap w !! sid = Some s /\ sendRing_ s = Some rb /\
    fdContexts_ w !! fd_ s = Some (mk_fdctx (HSession sid) mask) /\
    has_flag mask EPOLLOUT = negb (RingBuffer.empty rb).
Proof.
  intros Hc Ha Hr Hin. pose proof (wo_inv _ (reachable_ok c app st w Hc Ha Hr)) as Hi.
  destruct (i_sess _ _ Hi sid Hin) as (s & E & O). destruct (i_interest _ _ Hi sid Hin) as (s1 & rb & E1 & Er & Hm); [done |].
  rewrite E in E1. injection E1 as <-. exists s, rb, (currentEpollMask_ s). split_and!; [done | done | apply O |].
  rewrite Hm. unfold interest_mask. by destruct (RingBuffer.empty rb).
Qed.

(** C5: every received frame is delivered once and in order.  When an open
    session becomes readable in any reachable state, whatever pieces the
    kernel hands out, the bytes taken from the kernel, behind those already in
    the ring, are framed; the payloads given to the application are exactly
    these frames in order, and the incomplete rest stays in the ring; if the
    session ends during the read they are the first of these frames.  No other
    session gets a message. *)
Theorem receive_delivers_frames (c : config) (app : Application St) (st : St) w (sid : Z)
    (s : World.Session) (rb : RingBuffer.t) (e : env) :
  config_ok c -> application_ok app -> reachable c app st w ->
  sid ∈ sessions w -> heap w !! sid = Some s -> recvRing_ s = Some rb ->
  exists w' got q evs ps rest bad,
    onReadable_ (beginClose_ (S (size (sessions w)))) sid (apply_env w e) = Ok tt w' /\
    rx_queue <$> kern (apply_env w e) !! fd_ s = Some (got ++ q) /\ rx_queue <$> kern w' !! fd_ s = Some q /\
    Framer.frames_of (Framer.maxPayloadLen_ (framer_ (mgr w))) (recvRingCapacity_ (mgr w))
      (RingBuffer.contents rb ++ got) = Some (ps, rest, bad) /\
    trace w' = trace w ++ evs /\ messages sid evs `prefix_of` ps /\
    (forall x, x <> sid -> messages x evs = []) /\
    (sid ∈ sessions w' -> bad = false /\ messages sid evs = ps /\
       exists s' rb', heap w' !! sid = Some s' /\ recvRing_ s' = Some rb' /\ RingBuffer.contents rb' = rest).
Proof.
  intros Hc Ha Hr Hin E Er. pose proof (apply_env_ok w e (reachable_ok c app st w Hc Ha Hr)) as Hok.
  pose proof (onReadable_spec _ _ (beginClose_ok (S (size (sessions w)))) (apply_env w e) sid s rb Hok
                (Nat.le_succ_diag_r _) Hin E Er) as H.
  apply wp_run in H as ([] & w' & Hrun & _ & _ & got & q & ms & ps & rest & bad & Hrd & Hq & Hq' & Hfr & Hring & Hpre).
  destruct (rd_trace _ _ _ _ Hrd) as (evs & Htr & Hms & Hoth & _).
  exists w', got, q, evs, ps, rest, bad. rewrite Hms. split_and!; done.
Qed.


(** C25: closing is final and idempotent.  In every reachable state closing a
    session returns, through any nested sends and closes its end callback
    makes; the session is [Closed], out of the table and unregistered, the
    kernel's copy of its stream is untouched, and closing it again changes
    nothing. *)
Theorem close_is_final (c : config) (app : Application St) (st : St) w (sid err err' : Z)
    (reason reason' : string) (s : World.Session) (e : env) :
  config_ok c -> application_ok app -> reachable c app st w -> heap w !! sid = Some s ->
  exists w' s', let w1 := apply_env w e in
    beginClose_ (S (size (sessions w))) sid reason err w1 = Ok tt w' /\
    heap w' !! sid = Some s' /\ state_ s' = Closed /\ fd_ s' = -1 /\ ~ sid ∈ sessions w' /\
    (forall fd m, ~ fdContexts_ w' !! fd = Some (mk_fdctx (HSession sid) m)) /\
    kern w' !! fd_ s = kern w1 !! fd_ s /\
    forall d, beginClose_ d sid reason' err' w' = Ok tt w'.
Proof.
  intros Hc Ha Hr E. pose proof (apply_env_ok w e (reachable_ok c app st w Hc Ha Hr)) as Hok.
  pose proof (beginClose_ok (others := 0) (S (size (sessions w))) sid reason err (apply_env w e) s
    (inv_weaken _ _ (wo_inv _ Hok)) (Nat.le_succ_diag_r _) E) as H.
  apply wp_run in H as ([] & w' & Hrun & Hi & He & Hni & Hk).
  destruct (ev_heap _ _ He sid s E) as (s' & Es & _). destruct (i_dead _ _ Hi sid s' Es Hni) as (Hcl & Hfd & _).
  exists w', s'. split_and!; try done.
  - intros fd m Hf. by destruct (i_fds _ _ Hi fd sid m Hf).
  - intros d. destruct d; cbn [beginClose_]; unfold beginClose_body, bind, assertInOwnerThread_, bind, gets, obj;
      rewrite (i_owner _ _ Hi); cbn; rewrite Es; cbn; by rewrite Hcl.
Qed.


(* ------------------------------------------------------------------ *)
(** ** Shutdown *)

Lemma closeFromManager_spec w sid s :
  isInOwnerThread w = true -> heap w !! sid = Some s -> state_ s = Connected -> 0 <= fd_ s ->
  wp (closeFromManager_ sid) (fun _ w' => exists l,
    w' = set_heap (set_fds (set_ctl w l) (delete (fd_ s) (fdContexts_ w)))
           (<[sid := set_state_ (set_fd_ s (-1)) Closed]> (heap w))) w.
Proof.
  intros Ho E Hs Hf. unfold closeFromManager_. wps. rewrite Hs, bool_decide_eq_false_2 by done. wps.
  rewrite (proj2 (Z.leb_le 0 (fd_ s))) by done. apply wp_removeFd; [done | done |]. intros b l.
  eapply wp_update; [apply lookup_insert_eq |]. exists l. cbn [heap set_fds set_ctl set_heap]. by rewrite insert_insert_eq.
Qed.

Lemma shutdown_ids_spec ids w :
  isInOwnerThread w = true -> NoDup ids ->
  (forall x, x ∈ ids -> exists s, heap w !! x = Some s /\ state_ s = Connected /\ 0 <= fd_ s) ->
  wp (shutdown_ids ids) (fun _ w' =>
    cw w' = cw w /\ mgr w' = mgr w /\ metrics w' = metrics w /\ trace w' = trace w /\ kern w' = kern w /\
    (forall x, ~ x ∈ ids -> heap w' !! x = heap w !! x) /\
    (forall x, x ∈ ids -> exists s', heap w' !! x = Some s' /\ state_ s' = Closed /\ fd_ s' = -1) /\
    (forall fd k, fdContexts_ w' !! fd = Some k -> fdContexts_ w !! fd = Some k) /\
    (forall x s, x ∈ ids -> heap w !! x = Some s -> fdContexts_ w' !! fd_ s = None)) w.
Proof.
  revert w. induction ids as [| id ids IH]; intros w Ho Hnd Hids; cbn [shutdown_ids].
  - wps. split_and!; try done; intros x; [intros Hx | intros s Hx]; by apply not_elem_of_nil in Hx.
  - apply NoDup_cons in Hnd as [Hni Hnd]. destruct (Hids id) as (s & E & Hst & Hf); [by left |]. wp1.
    eapply wp_mono; [by apply (closeFromManager_spec w id s) |]. intros [] w1 [l Hw1].
    assert (Hh1 : heap w1 = <[id := set_state_ (set_fd_ s (-1)) Closed]> (heap w)) by (by rewrite Hw1).
    assert (Hf1 : fdContexts_ w1 = delete (fd_ s) (fdContexts_ w)) by (by rewrite Hw1).
    eapply wp_mono; [apply (IH w1); [by rewrite Hw1 | done |] |].
    { intros x Hx. rewrite Hh1, lookup_insert_ne by (intros ->; done). apply Hids. by right. }
    intros [] w2 (H1 & H2 & H3 & H4 & H5 & H6 & H7 & H8 & H9).
    split_and!; try (rewrite ?H1, ?H2, ?H3, ?H4, ?H5, Hw1; done).
    + intros x Hx. rewrite H6, Hh1, lookup_insert_ne; [done | |].
      * intros ->. apply Hx. by left.
      * intros Hx'. apply Hx. by right.
    + intros x Hx. destruct (decide (x ∈ ids)) as [Hxi | Hxi]; [by apply H7 |].
      apply elem_of_cons in Hx as [-> | Hx]; [| done].
      rewrite H6, Hh1, lookup_insert_eq by done. by eexists.
    + intros fd k Hk%H8. rewrite Hf1, lookup_delete_Some in Hk. by destruct Hk.
    + intros x sx Hx Ex. destruct (decide (x ∈ ids)) as [Hxi | Hxi].
      * apply (H9 x sx Hxi). rewrite Hh1, lookup_insert_ne; [done |]. intros ->. done.
      * apply elem_of_cons in Hx as [-> | Hx]; [| done]. rewrite E in Ex. injection Ex as <-.
        destruct (fdContexts_ w2 !! fd_ s) eqn:Ef; [| done]. apply H8 in Ef. by rewrite Hf1, lookup_delete_eq in Ef.
Qed.

(** Shutdown.  In every reachable state [shutdownInOwnerThread] closes
    and unregisters every session and empties the table.  It does so without
    the bookkeeping of an ordinary close: no end callback is logged and the
    connection gauge keeps counting the sessions that were open. *)
Theorem shutdown_closes_silently (c : config) (app : Application St) (st : St) w :
  config_ok c -> application_ok app -> reachable c app st w ->
  exists w', shutdownInOwnerThread w = Ok tt w' /\ sessions w' = ∅ /\
    (forall sid s, heap w' !! sid = Some s -> state_ s = Closed /\ fd_ s = -1) /\
    (forall fd sid m, ~ fdContexts_ w' !! fd = Some (mk_fdctx (HSession sid) m)) /\
    trace w' = trace w /\ currentConnections_ (metrics w') = Z.of_nat (size (sessions w)).
Proof.
  intros Hc Ha Hr. pose proof (wo_inv _ (reachable_ok c app st w Hc Ha Hr)) as Hi.
  assert (H : wp shutdownInOwnerThread (fun _ w' => sessions w' = ∅ /\
    (forall sid s, heap w' !! sid = Some s -> state_ s = Closed /\ fd_ s = -1) /\
    (forall fd sid m, ~ fdContexts_ w' !! fd = Some (mk_fdctx (HSession sid) m)) /\
    trace w' = trace w /\ currentConnections_ (metrics w') = Z.of_nat (size (sessions w))) w).
  { unfold shutdownInOwnerThread. wp1. apply wp_owner; [apply Hi |]. wps.
    eapply wp_mono; [apply (shutdown_ids_spec (elements (sessions w)) w); [apply Hi | apply NoDup_elements |] |].
    { intros x Hx%elem_of_elements. destruct (i_sess _ _ Hi x Hx) as (s & E & O). exists s. split_and!; [done | apply O | apply O]. }
    intros [] w1 (_ & _ & H3 & H4 & _ & H6 & H7 & H8 & H9). wps. cbn [heap fdContexts_ trace metrics set_mgr].
    split_and!; [done | | | done |].
    - intros sid s E. destruct (decide (sid ∈ elements (sessions w))) as [Hin | Hni].
      + destruct (H7 sid Hin) as (s' & E' & ?). rewrite E in E'. injection E' as <-. done.
      + rewrite H6 in E by done. rewrite elem_of_elements in Hni. destruct (i_dead _ _ Hi sid s E Hni) as (? & ? & _). done.
    - intros fd sid m Hf. pose proof (H8 _ _ Hf) as Hf0. destruct (i_fds _ _ Hi fd sid m Hf0) as (Hin & s & E & Hfd).
      rewrite <- Hfd, (H9 sid s) in Hf; [done | by apply elem_of_elements | done].
    - rewrite H3, (i_gauge _ _ Hi). lia. }
  apply wp_run in H as ([] & w' & ? & ?). by exists w'.
Qed.

End Theorems.

(* ------------------------------------------------------------------ *)
(** ** An example *)

(** An application that echoes packets 100 as 101, remembers who is there and
    tells the latest one when somebody leaves. *)
Definition demo_app : Application (list Z) :=
  mk_app _
    (fun d => (registerHandler d 100 (Some (fun h v _ => PSend (id_ h) 101 (view_bytes v) (fun _ => PRet)))).1)
    (fun h => PGet (fun l => PPut (id_ h :: l) PRet))
    (fun h => PGet (fun l => match l with other :: _ => PSend other 200 [] (fun _ => PRet) | [] => PThrow end)).

Definition demo_config : config := mk_config 1 64 64 32 1000 500.

Definition bytes (l : list Z) : list byte := z2b <$> l.
Definition calm : env := mk_env [] [] [] [] [].

(** Two clients; the first sends a packet in two pieces and its reply is cut
    short; then it disappears. *)
Definition demo_steps : list (env * worker_op) :=
  [(calm, WAccept 7); (calm, WAccept 8);
   (mk_env [(7, bytes [0; 0; 0; 5; 0])] [RecvSome 9] [] [] [3], WEvent 7 1);
   (mk_env [(7, bytes [100; 65; 66; 67])] [RecvErr EINTR; RecvSome 2; RecvSome 9] [SendSome 4] [] [3], WEvent 7 1)].

(** The state a call returned with. *)
Definition world_of {A} (r : result (list Z) A) : world (list Z) :=
  match r with Ok _ w => w | _ => empty_world demo_config [] end.

Lemma world_of_eq {A} (r : result (list Z) A) a w : r = Ok a w -> w = world_of r.
Proof. by intros ->. Qed.

Definition demo_world : world (list Z) := world_of (run_from demo_config demo_app [] demo_steps).

Lemma demo_config_ok : config_ok demo_config.
Proof. repeat split; vm_compute; congruence. Qed.

Lemma demo_app_ok : application_ok demo_app.
Proof.
  split_and!.
  - intros op h s v. cbn [registerHandlers demo_app]. unfold registerHandler.
    cbn [handlers_ dispatcher_init]. rewrite lookup_empty. cbn [fst handlers_]. rewrite lookup_insert_Some. intros [[_ <-] | [_ H]] Hv; [| by rewrite lookup_empty in H].
    cbn [prog_ok]. split_and!; done.
  - intros h [| x l]; cbn [onSessionEnd demo_app prog_ok]; [done |]. split_and!; done.
  - done.
Qed.

Lemma demo_steps_ok : steps_ok demo_steps.
Proof. split; [repeat constructor | by vm_compute]. Qed.

Lemma demo_reachable : reachable demo_config demo_app [] demo_world.
Proof. exists demo_steps. split; [apply demo_steps_ok |]. vm_compute. reflexivity. Qed.

Definition first_id : Z := 4294967297.

Lemma demo_open : first_id ∈ sessions demo_world.
Proof. apply (bool_decide_eq_true_1 (first_id ∈ sessions demo_world)). by vm_compute. Qed.

Definition demo_session : World.Session :=
  match heap demo_world !! first_id with
  | Some s => s
  | None => mk_session null_handle 0 Closed None None 0 0 0 0 false false
  end.

Lemma demo_session_eq : heap demo_world !! first_id = Some demo_session.
Proof. by vm_compute. Qed.

Definition demo_ring : RingBuffer.t :=
  match recvRing_ demo_session with Some rb => rb | None => RingBuffer.mk [] 0 0 0 0 end.



Lemma send_streams_intact_witness :
  exists s k rb, heap demo_world !! first_id = Some s /\ kern demo_world !! fd_ s = Some k /\
    sendRing_ s = Some rb /\ tx_wire k ++ RingBuffer.contents rb = frame 101 (bytes [65; 66; 67]).
Proof.
  destruct (send_streams_intact demo_config demo_app [] demo_world first_id demo_config_ok demo_app_ok
              demo_reachable demo_open) as (s & k & rb & H1 & H2 & H3 & H4).
  exists s, k, rb. split_and!; [done | done | done |]. rewrite H4. by vm_compute.
Defined.

Lemma write_interest_iff_backlog_witness :
  exists s rb mask, heap demo_world !! first_id = Some s /\ sendRing_ s = Some rb /\
    fdContexts_ demo_world !! fd_ s = Some (mk_fdctx (HSession first_id) mask) /\
    has_flag mask EPOLLOUT = negb (RingBuffer.empty rb).
Proof.
  exact (write_interest_iff_backlog demo_config demo_app [] demo_world first_id demo_config_ok demo_app_ok
           demo_reachable demo_open).
Defined.

(** The second session's peer sends a ping and half a frame. *)
Definition demo_input : env :=
  mk_env [(7, bytes [0; 0; 0; 2; 255; 254; 0; 0])] [RecvSome 3; RecvSome 99] [SendSome 1] [] [].

Lemma receive_delivers_frames_witness :
  exists w' evs, onReadable_ (beginClose_ 3) first_id (apply_env demo_world demo_input) = Ok tt w' /\
    trace w' = trace demo_world ++ evs /\ messages first_id evs `prefix_of` [bytes [255; 254]].
Proof.
  destruct (receive_delivers_frames demo_config demo_app [] demo_world first_id demo_session demo_ring demo_input
              demo_config_ok demo_app_ok demo_reachable demo_open demo_session_eq ltac:(by vm_compute))
    as (w' & got & q & evs & ps & rest & bad & H1 & H2 & H3 & H4 & H5 & H6 & _).
  exists w', evs. split_and!; [exact H1 | exact H5 |].
  assert (Hgot : got = bytes [0; 0; 0; 2; 255; 254; 0; 0]).
  { assert (Hq : Some q = Some []) by (rewrite <- H3, (world_of_eq _ _ _ H1); by vm_compute).
    injection Hq as ->. rewrite app_nil_r in H2.
    assert (Hg : Some got = Some (bytes [0; 0; 0; 2; 255; 254; 0; 0])) by (rewrite <- H2; by vm_compute).
    by injection Hg. }
  subst got. assert (Hp : Some (ps, rest, bad) = Some ([bytes [255; 254]], bytes [0; 0], false))
    by (rewrite <- H4; by vm_compute).
  injection Hp as -> _ _. exact H6.
Defined.


Lemma close_is_final_witness :
  exists w', beginClose_ 3 first_id "peer_close" 0 (apply_env demo_world calm) = Ok tt w' /\
    beginClose_ 0 first_id "peer_close" 0 w' = Ok tt w' /\
    sessions w' = {[first_id + 1]}.
Proof.
  destruct (close_is_final demo_config demo_app [] demo_world first_id 0 0 "peer_close" "peer_close" demo_session calm
              demo_config_ok demo_app_ok demo_reachable demo_session_eq)
    as (w' & s' & H & _ & _ & _ & _ & _ & _ & Hd).
  exists w'. split_and!; [exact H | exact (Hd O) |]. rewrite (world_of_eq _ _ _ H). by vm_compute.
Defined.


Lemma shutdown_closes_silently_witness :
  exists w', shutdownInOwnerThread demo_world = Ok tt w' /\ sessions w' = ∅ /\ currentConnections_ (metrics w') = 2.
Proof.
  destruct (shutdown_closes_silently demo_config demo_app [] demo_world demo_config_ok demo_app_ok demo_reachable)
    as (w' & H & Hs & _ & _ & _ & Hg).
  exists w'. split_and!; [exact H | exact Hs |]. rewrite Hg. by vm_compute.
Defined.

End Worker.
