(* ===== verification/SessionSender.v ===== *)
(** * SessionSender: sending through a handle

    Models [ISessionSender.hpp] as a record with the one operation of the
    interface, the [PerWorkerSessionSender] of [net/SessionManager.cpp] as its
    implementation, and the sends of [SessionHandle] as its client.  What the
    client is proved to do depends only on the laws of [SenderLaws], and the
    implementation keeps them in every state a worker can reach. *)

From S2P Require Import Prelude Message Handle World Session SessionInv SessionSend SessionClose Worker.
Import Message Handle World Session SessionInv SessionSend SessionClose.

Module SessionSender.

(** A sender over a state [W]; [None]: the call does not return. *)
Record ISessionSender (W : Type) := mk_sender {
  send_packet : Z -> Z -> option (list byte) -> Z -> W -> option (bool * W)
}.

Arguments mk_sender {_} _.
Arguments send_packet {_} _ _ _ _ _ _.

(** What a sender promises: called on another thread than its owner's, or for
    a session it does not know, it refuses and changes nothing; and it always
    answers in the states it is meant for. *)
Class SenderLaws {W : Type} (s : ISessionSender W) (fine : W -> Prop) (on_owner : W -> bool) (known : W -> Z -> bool) : Prop := {
  refuses_other_thread id op body len w : on_owner w = false -> send_packet s id op body len w = Some (false, w);
  refuses_unknown id op body len w : known w id = false -> on_owner w = true -> send_packet s id op body len w = Some (false, w);
  always_answers id op body len w : fine w -> 0 <= op < U16 -> seg_ok (body, len) -> len <= 4294967293 ->
    is_Some (send_packet s id op body len w)
}.

Section Client.
Context {W : Type}.

(** [SessionHandle::sendPacketU16]; [sender] is what [sender_.lock()] gives. *)
Definition sendPacketU16 (h : SessionHandle) (sender : option (ISessionSender W)) (opcode : Z) (body : option (list byte)) (bodyLen : Z)
    (w : W) : option (bool * W) :=
  if negb (isValid h) then Some (false, w) else
  match sender with
  | None => Some (false, w)
  | Some s => send_packet s (id_ h) opcode body bodyLen w
  end.

(** [SessionHandle::sendLocalPacketU16]. *)
Definition sendLocalPacketU16 (h : SessionHandle) (sender : option (ISessionSender W)) (opcode : Z) (body : option (list byte)) (bodyLen : Z)
    (w : W) : option (bool * W) :=
  if negb (isValid h) then Some (false, w) else
  match sender with
  | None => Some (false, w)
  | Some s => send_packet s (id_ h) opcode body bodyLen w
  end.

(** The overloads for a [MessageView]. *)
Definition sendPacketU16_view (h : SessionHandle) (sender : option (ISessionSender W)) (opcode : Z) (v : MessageView) (w : W) : option (bool * W) :=
  sendPacketU16 h sender opcode (mv_data v) (mv_size v) w.
Definition sendLocalPacketU16_view (h : SessionHandle) (sender : option (ISessionSender W)) (opcode : Z) (v : MessageView) (w : W) : option (bool * W) :=
  sendLocalPacketU16 h sender opcode (mv_data v) (mv_size v) w.

Context {s : ISessionSender W} {fine : W -> Prop} {on_owner : W -> bool} {known : W -> Z -> bool} {L : SenderLaws s fine on_owner known}.

(** A send through a handle returns; it has an effect only if the handle is
    valid, its sender still exists, the thread is the owner's and the session
    is known. *)
Lemma handle_send_safe (h : SessionHandle) (alive : bool) (op : Z) (v : MessageView) (w : W) :
  fine w -> 0 <= op < U16 -> view_ok v -> mv_size v <= 4294967293 ->
  exists ok w', sendPacketU16_view h (if alive then Some s else None) op v w = Some (ok, w') /\
    sendLocalPacketU16_view h (if alive then Some s else None) op v w = Some (ok, w') /\
    (ok = true \/ w' <> w -> isValid h = true /\ alive = true /\ on_owner w = true /\ known w (id_ h) = true).
Proof.
  intros F O V M. unfold sendPacketU16_view, sendLocalPacketU16_view, sendPacketU16, sendLocalPacketU16.
  destruct (isValid h); cbn [negb]; [| exists false, w; split; [done |]; split; [done | intros [? | ?]; done]].
  destruct alive; [| exists false, w; split; [done |]; split; [done | intros [? | ?]; done]].
  destruct (always_answers (id_ h) op (mv_data v) (mv_size v) w F O) as [[ok w'] E]; [| done |].
  { unfold view_ok, seg_ok in *. destruct v as [[p |] n]; cbn in *; lia. }
  exists ok, w'. split; [done |]. split; [done |]. intros Ef. split; [done |]. split; [done |].
  destruct (on_owner w) eqn:Ow.
  - split; [done |]. destruct (known w (id_ h)) eqn:N; [done |].
    pose proof (refuses_unknown (id_ h) op (mv_data v) (mv_size v) w N Ow) as R. rewrite R in E. injection E as <- <-. destruct Ef; done.
  - pose proof (refuses_other_thread (id_ h) op (mv_data v) (mv_size v) w Ow) as R. rewrite R in E. injection E as <- <-. destruct Ef; done.
Qed.

End Client.

(* ------------------------------------------------------------------ *)
(** ** The sender of a worker *)

Section PerWorker.
Context {St : Type} {others : Z}.

(** [PerWorkerSessionSender(ownerWorkerId, owner)]: [owner] is not null;
    [depth] bounds nested closes. *)
Definition PerWorkerSessionSender (depth : nat) (owner : bool) : ISessionSender (world St) :=
  mk_sender (fun id opcode body bodyLen w =>
    if negb owner then Some (false, w) else
    match sender_sendPacketU16 (beginClose_ depth) id opcode body bodyLen w with
    | Ok ok w' => Some (ok, w')
    | Abort | NoFuel => None
    end).

(** Between two calls of the loop, with fewer sessions than the depth. *)
Definition ready (depth : nat) (w : world St) : Prop := @Worker.worker_ok St others w /\ (size (sessions w) < depth)%nat.

#[export] Instance per_worker_sender_laws (depth : nat) :
  SenderLaws (PerWorkerSessionSender depth true) (ready depth) isInOwnerThread (fun w id => bool_decide (id ∈ sessions w)).
Proof.
  split; intros id op body len w.
  - intros O. cbn. unfold sender_sendPacketU16, bind, gets. by rewrite O.
  - intros N O. cbn. unfold sender_sendPacketU16, Session.sendPacketU16, assertInOwnerThread_, bind, gets, ret. rewrite O, O.
    destruct (_ <? _); [done |]. by rewrite N.
  - intros [Hok Sz] Op Sg Le. pose proof (Worker.wo_inv _ Hok) as Hi. cbn. unfold sender_sendPacketU16, bind, gets, ret.
    destruct (isInOwnerThread w) eqn:Ow; [| by eauto]. destruct (decide (id ∈ sessions w)) as [Hin | N].
    + destruct (i_sess _ _ Hi id Hin) as (s & Es & _). pose proof (i_stream _ _ Hi id Hin ltac:(done)) as Hst.
      pose proof (sendPacketU16_spec _ _ (beginClose_ok depth) w id s _ op body len Hi ltac:(lia) Hin Es Hst Sg Le Op) as H.
      apply wp_run in H as (ok & w' & -> & _). by eauto.
    + unfold Session.sendPacketU16, assertInOwnerThread_, bind, gets, ret. rewrite Ow. destruct (_ <? _); [by eauto |].
      rewrite bool_decide_eq_false_2 by done. by eauto.
Qed.

End PerWorker.

(** In every state a worker reaches, whatever the kernel does next, a send
    through any handle returns, by either method; it has an effect only if the
    handle is valid, its manager exists, the thread is the owner's and the
    session is in the table. *)
Theorem handle_send_returns {St : Type} (c : Worker.config) (app : Application St) (st : St) (w : world St) (e : Worker.env)
    (h : SessionHandle) (alive : bool) (op : Z) (v : MessageView) :
  Worker.config_ok c -> Worker.application_ok app -> Worker.reachable c app st w ->
  0 <= op < U16 -> view_ok v -> mv_size v <= 4294967293 ->
  let w1 := Worker.apply_env w e in
  let sender := if alive then Some (PerWorkerSessionSender (S (size (sessions w1))) true) else None in
  exists ok w', sendPacketU16_view h sender op v w1 = Some (ok, w') /\ sendLocalPacketU16_view h sender op v w1 = Some (ok, w') /\
    (ok = true \/ w' <> w1 -> isValid h = true /\ alive = true /\ isInOwnerThread w1 = true /\ id_ h ∈ sessions w1).
Proof.
  intros C A R O V M. cbn zeta. pose proof (Worker.apply_env_ok w e (Worker.reachable_ok c app st w C A R)) as Hok.
  destruct (handle_send_safe (L := per_worker_sender_laws (others := 0) (S (size (sessions (Worker.apply_env w e))))) h alive op v (Worker.apply_env w e))
    as (ok & w' & E1 & E2 & Ef); [split; [exact Hok | lia] | done | done | done |].
  exists ok, w'. split; [done |]. split; [done |]. intros X. destruct (Ef X) as (? & ? & ? & D). apply bool_decide_eq_true in D. done.
Qed.

End SessionSender.
