(* ===== verification/WorkerShutdown.v ===== *)
(** * WorkerShutdown: a worker's manager at its end

    [SessionManager::shutdownInOwnerThread] whole: the dials of its
    [ConnectorManager] and its sessions, which [Connector] and [Session] model
    separately, with [assertInOwnerThread_], [connectors] and [beginClose] of
    the manager, and the destructor of a session. *)

From S2P Require Import Prelude Handle World Session SessionInv Connector ConnectorInv Worker.

Module WorkerShutdown.

Section Manager.
Context {St : Type}.

(** The manager's sessions and its connectors. *)
Record manager := mk_both { sessions_part : World.world St; dials_part : Connector.state }.

(** [None]: the process ends. *)
Definition assertInOwnerThread_ (m : manager) : option unit :=
  if World.isInOwnerThread (sessions_part m) then Some tt else None.

Definition connectors (m : manager) : option Connector.state := _ ← assertInOwnerThread_ m; Some (dials_part m).

Definition beginClose (close : Z -> string -> Z -> World.M St unit) (id : Z) (reason : string) (err : Z) : World.M St unit :=
  Session.closeByPolicy_ close id reason err.

(** Dials first, then the sessions. *)
Definition shutdownInOwnerThread (m : manager) : option manager :=
  _ ← assertInOwnerThread_ m;
  let c := Connector.shutdownDialsInOwnerThread (dials_part m) (World.isInOwnerThread (sessions_part m)) in
  match Session.shutdownInOwnerThread (sessions_part m) with
  | World.Ok _ w => Some (mk_both w c)
  | World.Abort | World.NoFuel => None
  end.

(** What a shut down manager holds: nothing. *)
Record released (m : manager) : Prop := {
  re_sessions : Session.sessions (sessions_part m) = ∅;
  re_sockets sid s : World.heap (sessions_part m) !! sid = Some s -> World.fd_ s = -1;
  re_handlers fd sid e : ~ World.fdContexts_ (sessions_part m) !! fd = Some (World.mk_fdctx (World.HSession sid) e);
  re_dials : Connector.dials_ (dials_part m) = ∅;
  re_dial_fds : Connector.fds (dials_part m) = ∅;
  re_dial_sockets : Connector.open (dials_part m) = ∅
}.

Lemma dials_released n down s : ConnectorInv.inv n down s -> Connector.stack s = [] ->
  let s' := Connector.shutdownDialsInOwnerThread s true in
  Connector.dials_ s' = ∅ /\ Connector.fds s' = ∅ /\ Connector.open s' = ∅ /\ Connector.trace s' = Connector.trace s.
Proof.
  intros I Hs. cbn zeta. pose proof (ConnectorInv.shutdown_inv n down s true (ConnectorInv.iv_dial _ _ _ I) (fun _ => Hs)) as D.
  assert (Connector.dials_ (Connector.shutdownDialsInOwnerThread s true) = ∅) as Ed by done.
  assert (Connector.stack (Connector.shutdownDialsInOwnerThread s true) = [] /\
    Connector.trace (Connector.shutdownDialsInOwnerThread s true) = Connector.trace s) as [Es Et].
  { unfold Connector.shutdownDialsInOwnerThread. cbn [negb]. destruct (ConnectorInv.shutdown_fold (map_to_list (Connector.dials_ s)) s) as (A1 & A2 & A3 & A4 & _).
    cbn. split; congruence. }
  split; [done |]. split; [| split; [| done]].
  - apply map_eq. intros fd. rewrite lookup_empty. destruct (Connector.fds _ !! fd) as [id |] eqn:F; [| done].
    destruct (ConnectorInv.di_fds _ _ _ _ D _ _ F) as (d & L & _). by rewrite Ed in L.
  - apply set_eq. intros fd. split; [| set_solver]. intros O.
    destruct (ConnectorInv.di_open _ _ _ _ D _ O) as (_ & [(id & d & L & _) | C]); [by rewrite Ed in L | by rewrite Es in C].
Qed.

(** At the end of a worker thread, between two callbacks, whatever happened
    before: the shutdown returns, every session and every dial is closed and
    unregistered, no descriptor is left to either, and neither the ends of the
    sessions nor the results of the dials are reported. *)
Theorem worker_shutdown_releases (c : Worker.config) (app : World.Application St) (st : St) (m : manager) (xs : list Connector.action) :
  Worker.config_ok c -> Worker.application_ok app -> Worker.reachable c app st (sessions_part m) ->
  zlen xs < U64 - 1 -> Connector.run Connector.init xs = Connector.Step (dials_part m) -> Connector.stack (dials_part m) = [] ->
  exists m', shutdownInOwnerThread m = Some m' /\ released m' /\
    World.trace (sessions_part m') = World.trace (sessions_part m) /\ Connector.trace (dials_part m') = Connector.trace (dials_part m).
Proof.
  intros C A R L E Hs. pose proof (Worker.wo_inv _ (Worker.reachable_ok c app st _ C A R)) as Hi.
  assert (World.isInOwnerThread (sessions_part m) = true) as Ow by (apply Hi).
  destruct (Worker.shutdown_closes_silently c app st _ C A R) as (w' & Ew & S1 & S2 & S3 & S4 & _).
  pose proof (ConnectorInv.conn_run_inv xs 1 false Connector.init ConnectorInv.conn_init_inv ltac:(lia)) as I. rewrite E in I.
  destruct (dials_released _ _ _ I Hs) as (D1 & D2 & D3 & D4).
  unfold shutdownInOwnerThread, assertInOwnerThread_. rewrite Ow. cbn [mbind option_bind]. rewrite Ew. eexists. split; [done |]. split; [| done].
  split; cbn; [done | intros sid s H; by apply (S2 sid) | done | done | done | done].
Qed.

(** [Session::~Session]: closes a socket left open, with a warning; the result
    is the session after it and whether it warns. *)
Definition delete_session (s : World.Session) : World.Session * bool :=
  if 0 <=? World.fd_ s then (World.set_fd_ s (-1), true) else (s, false).

(** In every reachable state a session that is out of the table, and so may be
    destroyed, has its socket closed: its destructor finds nothing to do. *)
Theorem destructor_finds_closed (c : Worker.config) (app : World.Application St) (st : St) (w : World.world St) (sid : Z) (s : World.Session) :
  Worker.config_ok c -> Worker.application_ok app -> Worker.reachable c app st w ->
  sid ∉ Session.sessions w -> World.heap w !! sid = Some s -> delete_session s = (s, false).
Proof.
  intros C A R N E. pose proof (Worker.wo_inv _ (Worker.reachable_ok c app st w C A R)) as Hi.
  destruct (SessionInv.i_dead _ _ Hi sid s E N) as (_ & F & _). unfold delete_session. by rewrite F.
Qed.

End Manager.
End WorkerShutdown.
