(* ===== verification/Runtime.v ===== *)
(** * Runtime: the workers together

    The part of the system in which threads meet.  Models

    - [core/TaskQueue.cpp] and [EventLoop::post]: one FIFO of tasks per worker,
      pushed by any thread and popped by its worker;
    - [net/WorkerSchedulerFactory.cpp] and [net/SessionRouterFactory.cpp]: the
      scheduler and the session router over the workers' loops;
    - [hyperapp/core/OutboundPackets.hpp], [TopicBroadcaster], [SessionService]
      and [AppRuntime]: one shard (registry, guard table, service) per worker
      and the calls that reach sessions of other workers.

    A posted closure is a [task], one constructor per lambda of the source with
    what it captures.  Application code is a program [prog] over the runtime's
    interface.  Every thread has a stack of instructions still to run; one
    [Step] of a thread executes one instruction, which touches the thread's own
    shard and pushes on at most one queue, so that a run is any interleaving
    of the threads at the granularity of the shared queues.  [exec] answers
    [None] when the process aborts: [local_] on a thread that is not a worker,
    an index outside a vector, or a registry used off its worker (the check
    [ensureOwnerThread_], which asserts). *)

From S2P Require Import Prelude Message Handle SessionRegistry.
Import Message Handle.

Module Runtime.

(* ------------------------------------------------------------------ *)
(** ** Packets *)

(** [RoutedPacketU16]; the body is shared, [None] is a null pointer. *)
Record RoutedPacketU16 := mk_packet { rp_opcode : Z; rp_body : option (list byte) }.

Definition view (p : RoutedPacketU16) : MessageView :=
  match rp_body p with
  | None | Some [] => null_message
  | Some b => mk_view (Some b) (zlen b)
  end.

(** The bytes copied out of a view; a null view of size [n] leaves [n] zeros. *)
Definition copy_bytes (v : MessageView) : list byte :=
  match mv_data v with
  | Some p => ztake (mv_size v) p
  | None => replicate (Z.to_nat (mv_size v)) (z2b 0)
  end.

(** [RoutedPacketU16::copy]. *)
Definition copy (opcode : Z) (src : MessageView) : RoutedPacketU16 :=
  if mv_size src =? 0 then mk_packet opcode None else mk_packet opcode (Some (copy_bytes src)).

(** [hyperapp::outbound]. *)
Definition copyPayload (body : MessageView) : option (list byte) :=
  if mv_size body =? 0 then None else Some (copy_bytes body).

Definition makePacket (opcode : Z) (payload : option (list byte)) : RoutedPacketU16 :=
  mk_packet opcode payload.

(* ------------------------------------------------------------------ *)
(** ** Application code and tasks *)

(** The calls of [SessionService] that go to the local registry. *)
Inductive service_call :=
| SubscribeCall (sid w c : Z)
| UnsubscribeCall (sid w c : Z)
| UnsubscribeAllCall (sid : Z)
| SetPrimaryTopicCall (sid w c : Z)
| SetStateCall (sid : Z) (st : SessionRegistry.ConnState)
| SetAuthCall (sid aid pid : Z).

Definition registry_op (o : service_call) : SessionRegistry.op :=
  match o with
  | SubscribeCall sid w c => SessionRegistry.OSubscribe sid w c
  | UnsubscribeCall sid w c => SessionRegistry.OUnsubscribe sid w c
  | UnsubscribeAllCall sid => SessionRegistry.OUnsubscribeAll sid
  | SetPrimaryTopicCall sid w c => SessionRegistry.OSetPrimary sid w c
  | SetStateCall sid st => SessionRegistry.OSetState sid st
  | SetAuthCall sid aid pid => SessionRegistry.OSetAuth sid aid pid
  end.

(** The targets of a broadcast: [snapshotAll], [snapshotScope], [snapshotTopic]. *)
Inductive targets := TAll | TScope (w : Z) | TTopic (w c : Z).

(** What application code does with the runtime. *)
Inductive prog :=
| PDone
| PStart (session : SessionHandle) (w c : Z) (k : prog)
| PEnd (session : SessionHandle) (k : prog)
| PService (o : service_call) (k : SessionRegistry.result -> prog)
| PSendTo (sid opcode : Z) (body : MessageView) (k : bool -> prog)
| PSendToLocal (sid opcode : Z) (body : MessageView) (k : bool -> prog)
| PBroadcast (t : targets) (opcode : Z) (body : MessageView) (exceptSid : Z) (k : prog)
| PMulticast (sids : list Z) (opcode : Z) (body : MessageView) (exceptSid : Z) (k : prog)
| PClose (sid : Z) (reason : string) (err : Z) (k : prog)
| PCloseLocal (sid : Z) (reason : string) (err : Z) (k : prog)
| PRouterSend (target : SessionHandle) (opcode : Z) (body : MessageView) (k : bool -> prog)
| PRouterBroadcast (ts : list SessionHandle) (packet : RoutedPacketU16) (k : prog)
| PPostToWorker (wid : Z) (task : prog) (k : bool -> prog)
| PPostToSessionOwner (sid : Z) (task : prog) (k : bool -> prog)
| PPostToHandleOwner (session : SessionHandle) (task : prog) (k : bool -> prog).

(** The closures the runtime posts. *)
Inductive task :=
| TRegister (session : SessionHandle) (w c : Z)
| TUnregister (owner sid : Z)
| TFan (t : targets) (opcode : Z) (payload : option (list byte)) (exceptSid wid : Z)
| TSendTo (owner sid opcode : Z) (payload : option (list byte))
| TMulticast (owner opcode : Z) (payload : option (list byte)) (ids : list Z)
| TRouterSend (target : SessionHandle) (packet : RoutedPacketU16)
| TRouterBroadcast (group : list SessionHandle) (packet : RoutedPacketU16)
| TClose (sid : Z) (reason : string) (err : Z)
| TUser (p : prog).

(** The scheduler's and the router's [loops_]: which pointers are set. *)
Definition loops : Type := list bool.

(** What a thread still has to run. *)
Inductive instr :=
| KProg (p : prog)
| KTask (t : task)
| KPost (s : loops) (wid : Z) (t : task) (k : bool -> prog)
| KLoopPost (owner : Z) (t : task)
| KSend (h : SessionHandle) (opcode : Z) (v : MessageView) (k : bool -> prog).

(* ------------------------------------------------------------------ *)
(** ** State *)

(** [AppRuntime::WorkerShard]: [sm_allowed_] is the guard table of its state
    machine, [svc_router_] and [svc_scheduler_] the pointers of its service. *)
Record WorkerShard := mk_shard {
  shard_wid : Z;
  shard_reg : SessionRegistry.t;
  sm_allowed_ : gmap Z Z;
  svc_router_ : option loops;
  svc_scheduler_ : option loops
}.

Record TopicBroadcaster := mk_bc {
  bc_router_ : option loops;
  bc_scheduler_ : option loops;
  regs_ : list (option nat)         (* the shard whose registry is meant *)
}.

Record AppRuntime := mk_rt {
  router_ : option loops;
  scheduler_ : option loops;
  jobs_scheduler_ : option loops;
  broadcaster_ : TopicBroadcaster;
  shards_ : list WorkerShard;
  deferredAllowed_ : list (Z * Z)
}.

Inductive event :=
| EvSent (cw : Z) (h : SessionHandle) (opcode : Z) (body : list byte) (ok : bool)
| EvClose (cw sid : Z) (reason : string) (err : Z).

Record cluster := mk_cluster {
  n_workers : Z;
  runtime : AppRuntime;
  queues : gmap Z (list task);
  threads : gmap Z (list instr);
  log : list event
}.

Definition queue (c : cluster) (w : Z) : list task := default [] (queues c !! w).
Definition stack (c : cluster) (t : Z) : list instr := default [] (threads c !! t).

Definition set_queue (c : cluster) (w : Z) (q : list task) : cluster :=
  mk_cluster (n_workers c) (runtime c) (<[w := q]> (queues c)) (threads c) (log c).
Definition set_stack (c : cluster) (t : Z) (s : list instr) : cluster :=
  mk_cluster (n_workers c) (runtime c) (queues c) (<[t := s]> (threads c)) (log c).
Definition add_log (c : cluster) (e : event) : cluster :=
  mk_cluster (n_workers c) (runtime c) (queues c) (threads c) (log c ++ [e]).
Definition set_shards (r : AppRuntime) (l : list WorkerShard) : AppRuntime :=
  mk_rt (router_ r) (scheduler_ r) (jobs_scheduler_ r) (broadcaster_ r) l (deferredAllowed_ r).
Definition set_reg (s : WorkerShard) (r : SessionRegistry.t) : WorkerShard :=
  mk_shard (shard_wid s) r (sm_allowed_ s) (svc_router_ s) (svc_scheduler_ s).
Definition with_shard (c : cluster) (i : nat) (s : WorkerShard) : cluster :=
  mk_cluster (n_workers c) (set_shards (runtime c) (<[i := s]> (shards_ (runtime c))))
    (queues c) (threads c) (log c).

(** [ThreadContext::currentWorkerId]: threads [0 .. n-1] are the workers. *)
Definition worker_of (c : cluster) (t : Z) : Z :=
  if (0 <=? t) && (t <? n_workers c) then t else -1.

(** [v[i]] of a vector; [None] outside of it. *)
Definition at_index {A} (l : list A) (i : Z) : option A :=
  if i <? 0 then None else l !! Z.to_nat i.

(* ------------------------------------------------------------------ *)
(** ** Queues and the scheduler *)

(** [TaskQueue]. *)
Definition push (q : list task) (t : task) : list task := q ++ [t].
Definition tryPop (q : list task) : option (task * list task) :=
  match q with [] => None | t :: rest => Some (t, rest) end.

(** [EventLoop::post] of worker [w]. *)
Definition post (c : cluster) (w : Z) (t : task) : cluster := set_queue c w (push (queue c w) t).

(** [GlobalWorkerScheduler::postToWorker]. *)
Definition postToWorker (s : loops) (c : cluster) (workerId : Z) (t : task) : cluster * bool :=
  if (workerId <? 0) || (zlen s <=? workerId) then (c, false) else
  match at_index s workerId with
  | Some true => (post c workerId t, true)
  | _ => (c, false)
  end.

(* ------------------------------------------------------------------ *)
(** ** The router *)

Definition ignore : bool -> prog := fun _ => PDone.

(** [GlobalSessionRouter::send] of a packet by worker [cw]; [k] receives the
    result. *)
Definition router_send (cw : Z) (r : loops) (c : cluster) (target : SessionHandle)
    (packet : RoutedPacketU16) (k : bool -> prog) : cluster * list instr :=
  if negb (isValid target) then (c, [KProg (k false)]) else
  let owner := ownerWorkerId_ target in
  if (owner <? 0) || (zlen r <=? owner) then (c, [KProg (k false)]) else
  if cw =? owner then (c, [KSend target (rp_opcode packet) (view packet) k]) else
  match at_index r owner with
  | Some true => (post c owner (TRouterSend target packet), [KProg (k true)])
  | _ => (c, [KProg (k false)])
  end.

(** [GlobalSessionRouter::send] of a view. *)
Definition router_send_view (cw : Z) (r : loops) (c : cluster) (target : SessionHandle)
    (opcode : Z) (body : MessageView) (k : bool -> prog) : cluster * list instr :=
  if negb (isValid target) then (c, [KProg (k false)]) else
  let owner := ownerWorkerId_ target in
  if (owner <? 0) || (zlen r <=? owner) then (c, [KProg (k false)]) else
  if cw =? owner then (c, [KSend target opcode body k]) else
  router_send cw r c target (copy opcode body) k.

(** [GlobalSessionRouter::broadcast]: the group of every worker, sent here or
    posted. *)
Definition group_of (ts : list SessionHandle) (owner : Z) : list SessionHandle :=
  filter (fun h => isValid h = true /\ ownerWorkerId_ h = owner) ts.

Definition send_all (g : list SessionHandle) (packet : RoutedPacketU16) : list instr :=
  map (fun h => KSend h (rp_opcode packet) (view packet) ignore) g.

Definition router_group (cw : Z) (r : loops) (ts : list SessionHandle) (packet : RoutedPacketU16)
    (owner : Z) : list instr :=
  let g := group_of ts owner in
  if bool_decide (g = []) then [] else
  if cw =? owner then send_all g packet else
  match at_index r owner with
  | Some true => [KLoopPost owner (TRouterBroadcast g packet)]
  | _ => []
  end.

Definition router_broadcast (cw : Z) (r : loops) (ts : list SessionHandle)
    (packet : RoutedPacketU16) : list instr :=
  if bool_decide (ts = []) then [] else
  mjoin (map (router_group cw r ts packet) (seqZ 0 (zlen r))).

(* ------------------------------------------------------------------ *)
(** ** Shards and registries *)

(** [AppRuntime::localOrNull_] and [local_] ([None]: it aborts). *)
Definition localOrNull_ (cw : Z) (r : AppRuntime) : option WorkerShard :=
  if (cw <? 0) || (zlen (shards_ r) <=? cw) then None else at_index (shards_ r) cw.

Definition local_ (cw : Z) (r : AppRuntime) : option WorkerShard := localOrNull_ cw r.

(** A call on the registry of shard [i] by worker [cw]. *)
Definition on_registry (cw : Z) (c : cluster) (i : Z) (o : SessionRegistry.op)
  : option (cluster * SessionRegistry.result) :=
  match at_index (shards_ (runtime c)) i with
  | None => None
  | Some sh =>
      if negb (SessionRegistry.ensureOwnerThread_ cw (shard_reg sh)) then None else
      let '(reg', res) := SessionRegistry.registry_step (shard_reg sh) (cw, o) in
      Some (with_shard c (Z.to_nat i) (set_reg sh reg'), res)
  end.

(** The registry behind [regs_[wid]]: [None] outside the vector, [Some None] a
    null pointer. *)
Definition registry_at (c : cluster) (wid : Z) : option (option SessionRegistry.t) :=
  match at_index (regs_ (broadcaster_ (runtime c))) wid with
  | None => None
  | Some None => Some None
  | Some (Some i) => Some (shard_reg <$> shards_ (runtime c) !! i)
  end.

Definition makeTargets (cw : Z) (reg : SessionRegistry.t) (t : targets) (exceptSid : Z)
  : list SessionHandle :=
  match t with
  | TAll => SessionRegistry.snapshotAll cw reg exceptSid
  | TScope w => SessionRegistry.snapshotScope cw reg w exceptSid
  | TTopic w c => SessionRegistry.snapshotTopic cw reg w c exceptSid
  end.

(* ------------------------------------------------------------------ *)
(** ** TopicBroadcaster *)

(** [ready_]: the router and scheduler it will use. *)
Definition ready_ (b : TopicBroadcaster) : option (loops * loops) :=
  match bc_router_ b, bc_scheduler_ b with
  | Some r, Some s => if bool_decide (regs_ b = []) then None else Some (r, s)
  | _, _ => None
  end.

(** Work for worker [wid]: run here when it is this one, else posted. *)
Definition here_or_post (cw : Z) (s : loops) (wid : Z) (t : task) : instr :=
  if (0 <=? cw) && (wid =? cw) then KTask t else KPost s wid t ignore.

(** [fanOut_] of [broadcastImpl_]. *)
Definition fanOut_ (cw : Z) (b : TopicBroadcaster) (s : loops) (t : targets) (opcode : Z)
    (payload : option (list byte)) (exceptSid : Z) : list instr :=
  map (fun wid => here_or_post cw s wid (TFan t opcode payload exceptSid wid)) (seqZ 0 (zlen (regs_ b))).

Definition broadcastImpl_ (cw : Z) (b : TopicBroadcaster) (t : targets) (opcode : Z)
    (body : MessageView) (exceptSid : Z) : list instr :=
  match ready_ b with
  | None => []
  | Some (_, s) => fanOut_ cw b s t opcode (copyPayload body) exceptSid
  end.

Definition bc_sendTo (b : TopicBroadcaster) (c : cluster) (sid opcode : Z) (body : MessageView)
  : cluster * bool :=
  match ready_ b with
  | None => (c, false)
  | Some (_, s) =>
      let owner := ownerWorkerFromId sid in
      if (owner <? 0) || (zlen (regs_ b) <=? owner) then (c, false) else
      postToWorker s c owner (TSendTo owner sid opcode (copyPayload body))
  end.

(** [multicast]: the ids of every owner, without 0 and [exceptSid]. *)
Definition bucket (sids : list Z) (exceptSid owner : Z) : list Z :=
  filter (fun sid => sid <> 0 /\ sid <> exceptSid /\ ownerWorkerFromId sid = owner) sids.

Definition multicast (cw : Z) (b : TopicBroadcaster) (sids : list Z) (opcode : Z) (body : MessageView)
    (exceptSid : Z) : list instr :=
  match ready_ b with
  | None => []
  | Some (_, s) =>
      if bool_decide (sids = []) then [] else
      let payload := copyPayload body in
      mjoin (map (fun owner =>
        let ids := bucket sids exceptSid owner in
        if bool_decide (ids = []) then [] else
        [here_or_post cw s owner (TMulticast owner opcode payload ids)]) (seqZ 0 (zlen (regs_ b))))
  end.

(* ------------------------------------------------------------------ *)
(** ** Tasks *)

(** The broadcaster's router, followed without a check. *)
Definition bc_route (c : cluster) : option loops := bc_router_ (broadcaster_ (runtime c)).

(** [SessionService::closeLocal_]: [SessionManager::beginClose] of the calling
    worker. *)
Definition closeLocal_ (cw : Z) (c : cluster) (sid : Z) (reason : string) (err : Z) : cluster :=
  if cw <? 0 then c else add_log c (EvClose cw sid reason err).

Definition run_task (cw : Z) (t : task) (c : cluster) : option (cluster * list instr) :=
  match t with
  | TRegister session w ch =>
      '(c', _) ← on_registry cw c (ownerWorkerId_ session) (SessionRegistry.OAdd session w ch);
      Some (c', [])
  | TUnregister owner sid =>
      '(c', _) ← on_registry cw c owner (SessionRegistry.ORemove sid); Some (c', [])
  | TFan tg opcode payload exceptSid wid =>
      p ← registry_at c wid;
      match p with
      | None => Some (c, [])
      | Some reg =>
          if negb (SessionRegistry.ensureOwnerThread_ cw reg) then None else
          let ts := makeTargets cw reg tg exceptSid in
          if bool_decide (ts = []) then Some (c, []) else
          r ← bc_route c; Some (c, router_broadcast cw r ts (makePacket opcode payload))
      end
  | TSendTo owner sid opcode payload =>
      p ← registry_at c owner;
      match p with
      | None => Some (c, [])
      | Some reg =>
          if negb (SessionRegistry.ensureOwnerThread_ cw reg) then None else
          match SessionRegistry.tryGetHandle cw reg sid with
          | None => Some (c, [])
          | Some h => r ← bc_route c; Some (router_send cw r c h (makePacket opcode payload) ignore)
          end
      end
  | TMulticast owner opcode payload ids =>
      p ← registry_at c owner;
      match p with
      | None => Some (c, [])
      | Some reg =>
          if negb (SessionRegistry.ensureOwnerThread_ cw reg) then None else
          let ts := omap (SessionRegistry.tryGetHandle cw reg) ids in
          if bool_decide (ts = []) then Some (c, []) else
          r ← bc_route c; Some (c, router_broadcast cw r ts (makePacket opcode payload))
      end
  | TRouterSend target packet => Some (c, [KSend target (rp_opcode packet) (view packet) ignore])
  | TRouterBroadcast group packet => Some (c, send_all group packet)
  | TClose sid reason err => Some (closeLocal_ cw c sid reason err, [])
  | TUser p => Some (c, [KProg p])
  end.

(* ------------------------------------------------------------------ *)
(** ** SessionService *)

(** [sendToLocal_] of the service of [sh]. *)
Definition sendToLocal_ (cw : Z) (sh : WorkerShard) (c : cluster) (sid opcode : Z) (body : MessageView)
    (k : bool -> prog) : option (cluster * list instr) :=
  match svc_router_ sh with
  | None => Some (c, [KProg (k false)])
  | Some r =>
      if negb (cw =? shard_wid sh) || negb (ownerWorkerFromId sid =? shard_wid sh)
      then Some (c, [KProg (k false)]) else
      if negb (SessionRegistry.ensureOwnerThread_ cw (shard_reg sh)) then None else
      match SessionRegistry.tryGetHandle cw (shard_reg sh) sid with
      | None => Some (c, [KProg (k false)])
      | Some h => Some (router_send cw r c h (makePacket opcode (copyPayload body)) k)
      end
  end.

(** [sendTo]: local sessions at once, others through the broadcaster. *)
Definition sendTo (cw : Z) (sh : WorkerShard) (c : cluster) (sid opcode : Z) (body : MessageView)
    (k : bool -> prog) : option (cluster * list instr) :=
  match svc_router_ sh with
  | None => Some (c, [KProg (k false)])
  | Some _ =>
      let owner := ownerWorkerFromId sid in
      if owner <? 0 then Some (c, [KProg (k false)]) else
      if cw =? owner then sendToLocal_ cw sh c sid opcode body k else
      let '(c', b) := bc_sendTo (broadcaster_ (runtime c)) c sid opcode body in
      Some (c', [KProg (k b)])
  end.

Definition closeLocal (cw : Z) (sh : WorkerShard) (c : cluster) (sid : Z) (reason : string) (err : Z)
  : cluster :=
  if negb (cw =? shard_wid sh) || negb (ownerWorkerFromId sid =? shard_wid sh) then c
  else closeLocal_ cw c sid reason err.

Definition close (cw : Z) (sh : WorkerShard) (c : cluster) (sid : Z) (reason : string) (err : Z)
  : cluster :=
  let owner := ownerWorkerFromId sid in
  if owner <? 0 then c else
  match svc_scheduler_ sh with
  | None => c
  | Some s =>
      if negb (cw =? owner) then (postToWorker s c owner (TClose sid reason err)).1
      else closeLocal_ cw c sid reason err
  end.

(* ------------------------------------------------------------------ *)
(** ** AppRuntime *)

Definition rt_onSessionStart (cw : Z) (c : cluster) (session : SessionHandle) (w ch : Z)
  : option (cluster * list instr) :=
  if bool_decide (shards_ (runtime c) = []) then Some (c, []) else
  let owner := ownerWorkerId_ session in
  if cw =? owner then
    '(c', _) ← on_registry cw c owner (SessionRegistry.OAdd session w ch); Some (c', [])
  else match scheduler_ (runtime c) with
       | None => Some (c, [])
       | Some s => Some (c, [KPost s owner (TRegister session w ch) ignore])
       end.

Definition rt_onSessionEnd (cw : Z) (c : cluster) (session : SessionHandle)
  : option (cluster * list instr) :=
  if bool_decide (shards_ (runtime c) = []) then Some (c, []) else
  let owner := ownerWorkerId_ session in
  if cw =? owner then
    '(c', _) ← on_registry cw c owner (SessionRegistry.ORemove (id_ session)); Some (c', [])
  else match scheduler_ (runtime c) with
       | None => Some (c, [])
       | Some s => Some (c, [KPost s owner (TUnregister owner (id_ session)) ignore])
       end.

(** [postToSessionOwner]: run at once on the owner, else posted. *)
Definition postToOwner (cw : Z) (c : cluster) (owner : Z) (p : prog) (k : bool -> prog) : list instr :=
  match scheduler_ (runtime c) with
  | None => [KProg (k false)]
  | Some s =>
      if cw =? owner then [KProg p; KProg (k true)] else [KPost s owner (TUser p) k]
  end.

Definition postToSessionOwner (cw : Z) (c : cluster) (sid : Z) (p : prog) (k : bool -> prog) : list instr :=
  postToOwner cw c (ownerWorkerFromId sid) p k.

Definition rt_postToWorker (c : cluster) (wid : Z) (p : prog) (k : bool -> prog) : list instr :=
  match scheduler_ (runtime c) with
  | None => [KProg (k false)]
  | Some s => [KPost s wid (TUser p) k]
  end.

(* ------------------------------------------------------------------ *)
(** ** Threads *)

Definition run_prog (cw : Z) (p : prog) (c : cluster) : option (cluster * list instr) :=
  match p with
  | PDone => Some (c, [])
  | PStart session w ch k =>
      '(c', l) ← rt_onSessionStart cw c session w ch; Some (c', l ++ [KProg k])
  | PEnd session k => '(c', l) ← rt_onSessionEnd cw c session; Some (c', l ++ [KProg k])
  | PService o k =>
      _ ← local_ cw (runtime c);
      '(c', res) ← on_registry cw c cw (registry_op o); Some (c', [KProg (k res)])
  | PSendTo sid opcode body k => sh ← local_ cw (runtime c); sendTo cw sh c sid opcode body k
  | PSendToLocal sid opcode body k =>
      sh ← local_ cw (runtime c); sendToLocal_ cw sh c sid opcode body k
  | PBroadcast t opcode body exceptSid k =>
      sh ← local_ cw (runtime c);
      match svc_router_ sh with
      | None => Some (c, [KProg k])
      | Some _ => Some (c, broadcastImpl_ cw (broadcaster_ (runtime c)) t opcode body exceptSid ++ [KProg k])
      end
  | PMulticast sids opcode body exceptSid k =>
      sh ← local_ cw (runtime c);
      match svc_router_ sh with
      | None => Some (c, [KProg k])
      | Some _ => Some (c, multicast cw (broadcaster_ (runtime c)) sids opcode body exceptSid ++ [KProg k])
      end
  | PClose sid reason err k => sh ← local_ cw (runtime c); Some (close cw sh c sid reason err, [KProg k])
  | PCloseLocal sid reason err k =>
      sh ← local_ cw (runtime c); Some (closeLocal cw sh c sid reason err, [KProg k])
  | PRouterSend target opcode body k =>
      match router_ (runtime c) with
      | None => None
      | Some r => Some (router_send_view cw r c target opcode body k)
      end
  | PRouterBroadcast ts packet k =>
      match router_ (runtime c) with
      | None => None
      | Some r => Some (c, router_broadcast cw r ts packet ++ [KProg k])
      end
  | PPostToWorker wid p k => Some (c, rt_postToWorker c wid p k)
  | PPostToSessionOwner sid p k => Some (c, postToSessionOwner cw c sid p k)
  | PPostToHandleOwner session p k => Some (c, postToOwner cw c (ownerWorkerId_ session) p k)
  end.

(** [SessionHandle::sendLocalPacketU16] by worker [cw]; [b] is what the sender
    answers. *)
Definition sendLocalPacketU16 (cw : Z) (b : bool) (h : SessionHandle) (opcode : Z) (v : MessageView)
    (c : cluster) : cluster * bool :=
  if negb (isValid h) then (c, false) else
  match sender_ h with
  | None => (c, false)
  | Some _ => (add_log c (EvSent cw h opcode (view_bytes v) b), b)
  end.

Definition exec (cw : Z) (b : bool) (i : instr) (c : cluster) : option (cluster * list instr) :=
  match i with
  | KProg p => run_prog cw p c
  | KTask t => run_task cw t c
  | KPost s wid t k => let '(c', ok) := postToWorker s c wid t in Some (c', [KProg (k ok)])
  | KLoopPost owner t => Some (post c owner t, [])
  | KSend h opcode v k =>
      let '(c', ok) := sendLocalPacketU16 cw b h opcode v c in Some (c', [KProg (k ok)])
  end.

(** One move of the system: a thread runs its next instruction (with the
    sender's answer, if it asks), an idle worker takes a task from its queue
    ([drainTasks]), or the engine or another thread enters application code,
    also from within a call. *)
Inductive action :=
| Step (t : Z) (b : bool)
| Take (w : Z)
| Callback (t : Z) (p : prog).

Definition act (c : cluster) (a : action) : option cluster :=
  match a with
  | Step t b =>
      match stack c t with
      | [] => Some c
      | i :: rest => '(c', l) ← exec (worker_of c t) b i c; Some (set_stack c' t (l ++ rest))
      end
  | Take w =>
      if negb (worker_of c w =? w) then Some c else
      match stack c w, tryPop (queue c w) with
      | [], Some (t, q) => Some (set_stack (set_queue c w q) w [KTask t])
      | _, _ => Some c
      end
  | Callback t p => Some (set_stack c t (KProg p :: stack c t))
  end.

Definition run_cluster (c : cluster) (s : list action) : option cluster :=
  fold_left (fun o a => c ← o; act c a) s (Some c).

(* ------------------------------------------------------------------ *)
(** ** Set up *)

Definition new_runtime : AppRuntime := mk_rt None None None (mk_bc None None []) [] [].

Definition svc_setRouter (r : option loops) (s : WorkerShard) : WorkerShard :=
  mk_shard (shard_wid s) (shard_reg s) (sm_allowed_ s) r (svc_scheduler_ s).
Definition svc_setScheduler (s' : option loops) (s : WorkerShard) : WorkerShard :=
  mk_shard (shard_wid s) (shard_reg s) (sm_allowed_ s) (svc_router_ s) s'.

Definition setRouter (rt : AppRuntime) (r : option loops) : AppRuntime :=
  mk_rt r (scheduler_ rt) (jobs_scheduler_ rt)
    (mk_bc r (bc_scheduler_ (broadcaster_ rt)) (regs_ (broadcaster_ rt)))
    (map (svc_setRouter r) (shards_ rt)) (deferredAllowed_ rt).

(** [WorkerShard(w, bc)]. *)
Definition new_shard (w : Z) : WorkerShard := mk_shard w (SessionRegistry.create w) ∅ None None.

Definition rebuildRegistryView_ (rt : AppRuntime) : AppRuntime :=
  mk_rt (router_ rt) (scheduler_ rt) (jobs_scheduler_ rt)
    (mk_bc (bc_router_ (broadcaster_ rt)) (bc_scheduler_ (broadcaster_ rt))
       (map Some (seq 0 (length (shards_ rt)))))
    (shards_ rt) (deferredAllowed_ rt).

(** [SessionStateMachine::setAllowedStates] of a shard. *)
Definition setAllowedStates (s : WorkerShard) (opcode mask : Z) : WorkerShard :=
  mk_shard (shard_wid s) (shard_reg s) (<[opcode := mask]> (sm_allowed_ s)) (svc_router_ s) (svc_scheduler_ s).

Definition applyDeferredAllowedStates_ (rt : AppRuntime) : AppRuntime :=
  set_shards rt (map (fun s => fold_left (fun s '(op, mask) => setAllowedStates s op mask)
                                 (deferredAllowed_ rt) s) (shards_ rt)).

Definition setWorkerScheduler (rt : AppRuntime) (s : option loops) : AppRuntime :=
  match s with
  | None => mk_rt (router_ rt) None (jobs_scheduler_ rt) (broadcaster_ rt) (shards_ rt) (deferredAllowed_ rt)
  | Some l =>
      let b := broadcaster_ rt in
      let rt1 := mk_rt (router_ rt) s s (mk_bc (bc_router_ b) s (regs_ b)) (shards_ rt) (deferredAllowed_ rt) in
      if bool_decide (shards_ rt = []) then
        let shards := map (fun i => svc_setScheduler s (svc_setRouter (router_ rt) (new_shard i)))
                        (seqZ 0 (zlen l)) in
        applyDeferredAllowedStates_ (rebuildRegistryView_ (set_shards rt1 shards))
      else set_shards rt1 (map (svc_setScheduler s) (shards_ rt))
  end.

(** [Engine::start] injects the router and the scheduler over the workers'
    loops, in this order, before the workers run. *)
Definition start (n : nat) : cluster :=
  let l := replicate n true in
  mk_cluster (Z.of_nat n) (setWorkerScheduler (setRouter new_runtime (Some l)) (Some l)) ∅ ∅ [].

End Runtime.
