(* ===== verification/RuntimeInv.v ===== *)
(** * RuntimeInv: what every interleaving of the workers keeps

    The invariant of [Runtime]: registries hold sessions of their own worker
    only, every queued or pending piece of work stands on the worker it needs,
    and every send and close that reached a session manager was made by the
    worker that owns the session.  [act_ok] shows that each move keeps it and
    that none aborts, for application code that follows the rules of
    [prog_ok]. *)

From S2P Require Import Prelude Message Handle SessionRegistry Runtime.
Import Message Handle Runtime.

Module RuntimeInv.

(* ------------------------------------------------------------------ *)
(** ** Rules for application code *)

Section Rules.
Context (n : nat).

(** A handle made by the session manager of a running worker. *)
Definition genuine (h : SessionHandle) : Prop :=
  isValid h = true /\ 0 <= ownerWorkerId_ h < Z.of_nat n /\
  ownerWorkerFromId (id_ h) = ownerWorkerId_ h /\ sender_ h = Some (ownerWorkerId_ h).

Definition handle_ok (h : SessionHandle) : Prop := isValid h = false \/ genuine h.

Definition call_ok (o : service_call) : Prop :=
  match o with SubscribeCall _ _ c => 0 <= c < U32 | _ => True end.

(** Handles come from the engine, topic ids have 32 bits, and the service is
    used on worker threads only. *)
Fixpoint prog_ok (worker : bool) (p : prog) : Prop :=
  match p with
  | PDone => True
  | PStart h _ c k => genuine h /\ 0 <= c < U32 /\ prog_ok worker k
  | PEnd h k => genuine h /\ prog_ok worker k
  | PService o k => worker = true /\ call_ok o /\ forall r, prog_ok worker (k r)
  | PSendTo _ _ _ k | PSendToLocal _ _ _ k => worker = true /\ forall b, prog_ok worker (k b)
  | PBroadcast _ _ _ _ k | PMulticast _ _ _ _ k | PClose _ _ _ k | PCloseLocal _ _ _ k =>
      worker = true /\ prog_ok worker k
  | PRouterSend h _ _ k => handle_ok h /\ forall b, prog_ok worker (k b)
  | PRouterBroadcast ts _ k => Forall handle_ok ts /\ prog_ok worker k
  | PPostToWorker _ p k => prog_ok true p /\ forall b, prog_ok worker (k b)
  | PPostToSessionOwner sid p k =>
      0 <= ownerWorkerFromId sid /\ prog_ok true p /\ forall b, prog_ok worker (k b)
  | PPostToHandleOwner h p k => genuine h /\ prog_ok true p /\ forall b, prog_ok worker (k b)
  end.

Definition action_ok (a : action) : Prop :=
  match a with
  | Callback t p => prog_ok ((0 <=? t) && (t <? Z.of_nat n)) p
  | _ => True
  end.

(* ------------------------------------------------------------------ *)
(** ** The invariant *)

Definition task_ok (w : Z) (t : task) : Prop :=
  match t with
  | TRegister h _ c => genuine h /\ ownerWorkerId_ h = w /\ 0 <= c < U32
  | TUnregister owner _ => owner = w
  | TFan _ _ _ _ wid => wid = w
  | TSendTo owner _ _ _ => owner = w
  | TMulticast owner _ _ _ => owner = w
  | TRouterSend h _ => genuine h /\ ownerWorkerId_ h = w
  | TRouterBroadcast g _ => Forall (fun h => genuine h /\ ownerWorkerId_ h = w) g
  | TClose sid _ _ => ownerWorkerFromId sid = w
  | TUser p => prog_ok true p
  end.

Definition all_loops : loops := replicate n true.

Definition instr_ok (w : Z) (i : instr) : Prop :=
  match i with
  | KProg p => prog_ok (0 <=? w) p
  | KTask t => 0 <= w /\ task_ok w t
  | KPost s wid t k => s = all_loops /\ task_ok wid t /\ forall b, prog_ok (0 <=? w) (k b)
  | KLoopPost owner t => 0 <= owner < Z.of_nat n /\ task_ok owner t
  | KSend h _ _ k => genuine h /\ ownerWorkerId_ h = w /\ forall b, prog_ok (0 <=? w) (k b)
  end.

(** A call that reached a session manager was made on its worker. *)
Definition event_ok (e : event) : Prop :=
  match e with
  | EvSent cw h _ _ _ => sender_ h = Some cw /\ ownerWorkerFromId (id_ h) = cw
  | EvClose cw sid _ _ => 0 <= cw /\ ownerWorkerFromId sid = cw
  end.

Record shard_ok (i : nat) (s : WorkerShard) : Prop := {
  so_wid : shard_wid s = Z.of_nat i;
  so_reg : SessionRegistry.reg_ok (shard_reg s);
  so_owner : SessionRegistry.ownerWorkerId_ (shard_reg s) = Z.of_nat i;
  so_handles : forall sid rec, SessionRegistry.store_ (shard_reg s) !! sid = Some rec ->
    genuine (SessionRegistry.handle rec) /\ ownerWorkerId_ (SessionRegistry.handle rec) = Z.of_nat i;
  so_router : svc_router_ s = Some all_loops;
  so_scheduler : svc_scheduler_ s = Some all_loops
}.

Record rt_ok (r : AppRuntime) : Prop := {
  ro_router : router_ r = Some all_loops;
  ro_scheduler : scheduler_ r = Some all_loops;
  ro_bc : broadcaster_ r = mk_bc (Some all_loops) (Some all_loops) (map Some (seq 0 n));
  ro_length : length (shards_ r) = n;
  ro_shards : forall i s, shards_ r !! i = Some s -> shard_ok i s
}.

Record inv (c : cluster) : Prop := {
  iv_n : n_workers c = Z.of_nat n;
  iv_rt : rt_ok (runtime c);
  iv_queues : forall w t, t ∈ queue c w -> 0 <= w < Z.of_nat n /\ task_ok w t;
  iv_stacks : forall t i, i ∈ stack c t -> instr_ok (worker_of c t) i;
  iv_log : Forall event_ok (log c)
}.

(** A worker id or -1. *)
Definition worker_id (w : Z) : Prop := w = -1 \/ 0 <= w < Z.of_nat n.

Lemma worker_of_id c t : n_workers c = Z.of_nat n -> worker_id (worker_of c t).
Proof. intros H. unfold worker_of, worker_id. rewrite H. destruct (_ && _) eqn:E; [| by left]. b2p. lia. Qed.

(* ------------------------------------------------------------------ *)
(** ** Indices *)

Lemma at_index_Some {A} (l : list A) i x : at_index l i = Some x <-> 0 <= i /\ l !! Z.to_nat i = Some x.
Proof. unfold at_index. destruct (Z.ltb_spec i 0); split; try done; [lia | tauto]. Qed.

Lemma all_loops_at w : 0 <= w < Z.of_nat n -> at_index all_loops w = Some true.
Proof. intros H. apply at_index_Some. split; [lia |]. apply lookup_replicate. split; [done | lia]. Qed.

Lemma zlen_all_loops : zlen all_loops = Z.of_nat n.
Proof. unfold zlen, all_loops. by rewrite length_replicate. Qed.

Section State.
Context (c : cluster) (Hc : inv c).

Lemma shard_at w : 0 <= w < Z.of_nat n ->
  exists s, at_index (shards_ (runtime c)) w = Some s /\ shard_ok (Z.to_nat w) s.
Proof.
  intros Hw. destruct (lookup_lt_is_Some_2 (shards_ (runtime c)) (Z.to_nat w)) as [s Hs].
  { rewrite (ro_length _ (iv_rt c Hc)). lia. }
  exists s. split; [apply at_index_Some; split; [lia | done] |]. by apply (ro_shards _ (iv_rt c Hc)).
Qed.

Lemma registry_at_ok w : 0 <= w < Z.of_nat n ->
  exists s, at_index (shards_ (runtime c)) w = Some s /\ shard_ok (Z.to_nat w) s /\
    registry_at c w = Some (Some (shard_reg s)).
Proof.
  intros Hw. destruct (shard_at w Hw) as (s & Hs & Hok). exists s. split_and!; [done | done |].
  apply at_index_Some in Hs as [_ Hs]. unfold registry_at. rewrite (ro_bc _ (iv_rt c Hc)). cbn [regs_].
  assert (E : at_index (map Some (seq 0 n)) w = Some (Some (Z.to_nat w))).
  { apply at_index_Some. split; [lia |]. rewrite list_lookup_fmap, lookup_seq_lt by lia. done. }
  rewrite E, Hs. done.
Qed.

Lemma local_ok w : 0 <= w < Z.of_nat n ->
  exists s, local_ w (runtime c) = Some s /\ shard_ok (Z.to_nat w) s /\ shard_wid s = w.
Proof.
  intros Hw. destruct (shard_at w Hw) as (s & Hs & Hok). exists s. unfold local_, localOrNull_, zlen.
  rewrite (ro_length _ (iv_rt c Hc)). zb_eval. cbn [orb]. split_and!; [done | done |].
  rewrite (so_wid _ _ Hok). lia.
Qed.

Lemma owner_check w s : 0 <= w -> shard_ok (Z.to_nat w) s ->
  SessionRegistry.ensureOwnerThread_ w (shard_reg s) = true.
Proof.
  intros Hw Hs. unfold SessionRegistry.ensureOwnerThread_. rewrite (so_owner _ _ Hs).
  rewrite Z2Nat.id by lia. by zb_eval.
Qed.

Lemma bc_ready : (0 < n)%nat -> ready_ (broadcaster_ (runtime c)) = Some (all_loops, all_loops).
Proof.
  intros Hn. rewrite (ro_bc _ (iv_rt c Hc)). unfold ready_. cbn.
  rewrite bool_decide_eq_false_2; [done |]. destruct n; [lia | done].
Qed.

Lemma zlen_regs : zlen (regs_ (broadcaster_ (runtime c))) = Z.of_nat n.
Proof. rewrite (ro_bc _ (iv_rt c Hc)). unfold zlen. cbn. by rewrite length_map, length_seq. Qed.

End State.

(* ------------------------------------------------------------------ *)
(** ** State changes *)

Lemma inv_queue c w q :
  inv c -> (forall t, t ∈ q -> 0 <= w < Z.of_nat n /\ task_ok w t) -> inv (set_queue c w q).
Proof.
  intros [H1 H2 H3 H4 H5] Hq. split; [done | done | | done | done].
  intros w' t. unfold queue. cbn [set_queue queues]. destruct (decide (w = w')) as [<- |].
  - rewrite lookup_insert_eq. apply Hq.
  - rewrite lookup_insert_ne by done. apply H3.
Qed.

Lemma inv_post c w t : inv c -> 0 <= w < Z.of_nat n -> task_ok w t -> inv (post c w t).
Proof.
  intros Hc Hw Ht. apply inv_queue; [done |]. intros t'. unfold push. rewrite elem_of_app, list_elem_of_singleton.
  intros [H | ->]; [by apply (iv_queues c Hc) | done].
Qed.

Lemma inv_stack c t l :
  inv c -> Forall (instr_ok (worker_of c t)) l -> inv (set_stack c t l).
Proof.
  intros [H1 H2 H3 H4 H5] Hl. split; [done | done | done | | done].
  intros t' i. unfold stack. cbn [set_stack threads]. destruct (decide (t = t')) as [<- |].
  - rewrite lookup_insert_eq. rewrite Forall_forall in Hl. apply Hl.
  - rewrite lookup_insert_ne by done. apply H4.
Qed.

Lemma inv_log c e : inv c -> event_ok e -> inv (add_log c e).
Proof.
  intros [H1 H2 H3 H4 H5] He. split; [done | done | done | done |].
  apply Forall_app. by split; [| apply Forall_singleton].
Qed.

Lemma inv_shard c i s : inv c -> shard_ok i s -> inv (with_shard c i s).
Proof.
  intros [H1 H2 H3 H4 H5] Hs. split; [done | | done | done | done].
  destruct H2 as [? ? ? Hl Hsh]. split; try done; cbn [with_shard runtime set_shards shards_].
  - by rewrite length_insert.
  - intros j s'. destruct (decide (i = j)) as [<- |].
    + destruct (decide (i < length (shards_ (runtime c)))%nat).
      * rewrite list_lookup_insert_eq by done. intros [= <-]. done.
      * rewrite list_insert_ge by lia. apply Hsh.
    + rewrite list_lookup_insert_ne by done. apply Hsh.
Qed.

End Rules.

(* ------------------------------------------------------------------ *)
(** ** Registries *)

(** The handles of the abstract map are old ones, or the one just added. *)
Lemma spec_handles m o sid rec' T' :
  (SessionRegistry.spec_map_step m o).1 !! sid = Some (rec', T') ->
  (exists rec T, m !! sid = Some (rec, T) /\ SessionRegistry.handle rec' = SessionRegistry.handle rec) \/
  (exists w c, o = SessionRegistry.OAdd (SessionRegistry.handle rec') w c).
Proof.
  destruct o as [h w c | s | s st | s aid pid | s w c | s w c | s | s w c | s w c
                | ex | w ex | w c ex | s | s];
    cbn [SessionRegistry.spec_map_step SessionRegistry.target]; intros E; try (left; by eauto).
  1: { destruct (decide (sid = id_ h)) as [-> |].
       - cbn in E. rewrite lookup_insert_eq in E. simplify_eq/=. right. eauto.
       - cbn in E. rewrite lookup_insert_ne in E by done. left. eauto. }
  all: destruct (m !! s) as [[rec T] |] eqn:Em; [| left; by eauto];
    unfold SessionRegistry.spec_update, SessionRegistry.set_rec in E; cbn [SessionRegistry.target] in E;
    repeat match type of E with context [decide ?P] => destruct (decide P) end; cbn [fst] in E;
    try (left; by eauto).
  1: { apply lookup_delete_Some in E as [_ E]. left. eauto. }
  all: destruct (decide (sid = s)) as [-> |];
    [rewrite lookup_insert_eq in E; simplify_eq/=; left; by eauto
    | rewrite lookup_insert_ne in E by done; left; by eauto].
Qed.

Section Exec.
Context (n : nat).
Local Abbreviation inv := (inv n).
Local Abbreviation instr_ok := (instr_ok n).

Lemma registry_step_handles r cw o sid rec' :
  SessionRegistry.reg_ok r -> SessionRegistry.op_ok (cw, o) ->
  SessionRegistry.ensureOwnerThread_ cw r = true ->
  let r' := (SessionRegistry.registry_step r (cw, o)).1 in
  SessionRegistry.reg_ok r' /\ SessionRegistry.ownerWorkerId_ r' = SessionRegistry.ownerWorkerId_ r /\
  (SessionRegistry.store_ r' !! sid = Some rec' ->
   (exists rec, SessionRegistry.store_ r !! sid = Some rec /\
      SessionRegistry.handle rec' = SessionRegistry.handle rec) \/
   (exists w c, o = SessionRegistry.OAdd (SessionRegistry.handle rec') w c)).
Proof.
  intros Hr Ho Hen r'.
  destruct (SessionRegistry.registry_step_refines r
    (SessionRegistry.mk_spec (SessionRegistry.ownerWorkerId_ r) (SessionRegistry.abs_map r)) (cw, o))
    as [(H1 & H2 & H3) _]; [done | by split |].
  unfold SessionRegistry.spec_step in H2, H3. cbn [SessionRegistry.sp_owner fst snd] in H2, H3.
  unfold SessionRegistry.ensureOwnerThread_ in Hen. rewrite Hen in H2, H3.
  destruct (SessionRegistry.spec_map_step _ _) as [m res] eqn:Em.
  split; [done |]. split; [done |]. intros E.
  destruct (spec_handles (SessionRegistry.abs_map r) o sid rec'
    (SessionRegistry.subs_of (SessionRegistry.subs_ r') sid)) as [(rec & T & Hm & Hh) | Hadd].
  - cbn [SessionRegistry.sp_map fst] in Em, H3. rewrite Em. cbn [fst]. rewrite <- H3.
    rewrite SessionRegistry.abs_lookup. fold r'. by rewrite E.
  - left. rewrite SessionRegistry.abs_lookup in Hm.
    destruct (SessionRegistry.store_ r !! sid) as [rec0 |] eqn:E0; simplify_eq/=. eauto.
  - by right.
Qed.

Lemma on_registry_ok c w i o :
  inv c -> 0 <= w < Z.of_nat n -> i = w -> SessionRegistry.op_ok (w, o) ->
  (forall h ws cs, o = SessionRegistry.OAdd h ws cs -> genuine n h /\ ownerWorkerId_ h = w) ->
  exists c' res, on_registry w c i o = Some (c', res) /\ inv c' /\ threads c' = threads c.
Proof.
  intros Hc Hw -> Ho Hadd. destruct (shard_at n c Hc w Hw) as (s & Hs & Hok).
  unfold on_registry. rewrite Hs, (owner_check n w s) by (done || lia). cbn [negb].
  destruct (SessionRegistry.registry_step (shard_reg s) (w, o)) as [reg' res] eqn:E.
  eexists _, _. split; [done |]. split; [| done]. apply inv_shard; [done |].
  assert (Hen : SessionRegistry.ensureOwnerThread_ w (shard_reg s) = true) by (apply (owner_check n); done || lia).
  pose proof (fun sid rec => registry_step_handles (shard_reg s) w o sid rec (so_reg _ _ _ Hok) Ho Hen) as Hstep.
  rewrite E in Hstep. cbn [fst] in Hstep.
  split; cbn [set_reg shard_wid shard_reg svc_router_ svc_scheduler_]; try apply Hok.
  - by apply (Hstep 0 (SessionRegistry.mk_stored null_handle (SessionRegistry.mk_ctx SessionRegistry.Connected 0 0 0 0))).
  - rewrite <- (so_owner _ _ _ Hok).
    by apply (Hstep 0 (SessionRegistry.mk_stored null_handle (SessionRegistry.mk_ctx SessionRegistry.Connected 0 0 0 0))).
  - intros sid rec Hin. destruct (Hstep sid rec) as (_ & _ & Hh). destruct (Hh Hin) as [(rec0 & E0 & ->) | (a & b & ->)].
    + by apply (so_handles _ _ _ Hok sid).
    + destruct (Hadd _ _ _ eq_refl) as [? ?]. split; [done | lia].
Qed.

(** An instruction of worker [cw] ran: the invariant holds, the stacks are as
    they were, and what is left to run is fit for this thread. *)
Definition fine (cw : Z) (c : cluster) (r : option (cluster * list instr)) : Prop :=
  exists c' l, r = Some (c', l) /\ inv c' /\ threads c' = threads c /\ Forall (instr_ok cw) l.

Lemma fine_same cw c l : inv c -> Forall (instr_ok cw) l -> fine cw c (Some (c, l)).
Proof. intros. by exists c, l. Qed.

Lemma fine_one cw c i : inv c -> instr_ok cw i -> fine cw c (Some (c, [i])).
Proof. intros. apply fine_same; [done |]. by apply Forall_singleton. Qed.

Lemma postToWorker_ok c w t :
  inv c -> task_ok n w t ->
  inv (postToWorker (all_loops n) c w t).1 /\ threads (postToWorker (all_loops n) c w t).1 = threads c.
Proof.
  intros Hc Ht. unfold postToWorker. rewrite zlen_all_loops.
  destruct (Z.ltb_spec w 0), (Z.leb_spec (Z.of_nat n) w); cbn [orb]; try by split.
  rewrite all_loops_at by lia. split; [by apply inv_post | done].
Qed.

Lemma router_send_ok cw c h pk k :
  inv c -> handle_ok n h -> (forall b, prog_ok n (0 <=? cw) (k b)) ->
  fine cw c (Some (router_send cw (all_loops n) c h pk k)).
Proof.
  intros Hc Hh Hk. unfold router_send. destruct (isValid h) eqn:Hv; cbn [negb].
  2: { apply fine_one; [done | apply Hk]. }
  destruct Hh as [? | Hh]; [congruence |]. pose proof Hh as (_ & Hr & _ & _).
  rewrite zlen_all_loops. zb_eval. cbn [orb].
  destruct (Z.eqb_spec cw (ownerWorkerId_ h)) as [-> |].
  - by apply fine_one.
  - rewrite all_loops_at by lia. eexists _, _. split; [done |]. split; [by apply inv_post |].
    split; [done |]. apply Forall_singleton, Hk.
Qed.

Lemma router_send_view_ok cw c h op v k :
  inv c -> handle_ok n h -> (forall b, prog_ok n (0 <=? cw) (k b)) ->
  fine cw c (Some (router_send_view cw (all_loops n) c h op v k)).
Proof.
  intros Hc Hh Hk. unfold router_send_view. destruct (isValid h) eqn:Hv; cbn [negb].
  2: { apply fine_one; [done | apply Hk]. }
  destruct (_ || _); [apply fine_one; [done | apply Hk] |].
  destruct (Z.eqb_spec cw (ownerWorkerId_ h)) as [-> |]; [| by apply router_send_ok].
  destruct Hh as [? | Hh]; [congruence |]. by apply fine_one.
Qed.

Lemma ignore_ok w b : prog_ok n w (ignore b).
Proof. done. Qed.

Lemma send_all_ok cw g pk :
  Forall (fun h => genuine n h /\ ownerWorkerId_ h = cw) g -> Forall (instr_ok cw) (send_all g pk).
Proof.
  intros Hg. apply Forall_fmap. eapply Forall_impl; [done |]. intros h [? ?]. by split_and!.
Qed.

Lemma group_ok ts owner :
  Forall (handle_ok n) ts -> Forall (fun h => genuine n h /\ ownerWorkerId_ h = owner) (group_of ts owner).
Proof.
  intros Hts. apply Forall_forall. intros h [[Hv Ho] Hin]%list_elem_of_filter.
  rewrite Forall_forall in Hts. destruct (Hts h Hin); [congruence | done].
Qed.

Lemma router_broadcast_ok cw ts pk :
  Forall (handle_ok n) ts -> Forall (instr_ok cw) (router_broadcast cw (all_loops n) ts pk).
Proof.
  intros Hts. unfold router_broadcast. case_bool_decide; [constructor |].
  apply Forall_join, Forall_fmap, Forall_forall. intros owner Ho%elem_of_seqZ.
  rewrite zlen_all_loops in Ho. cbn. unfold router_group. case_bool_decide; [constructor |].
  destruct (Z.eqb_spec cw owner) as [-> |]; [by apply send_all_ok, group_ok |].
  rewrite all_loops_at by lia. repeat constructor; [lia | lia |]. by apply group_ok.
Qed.

Lemma tryGetHandle_genuine w s sid h :
  0 <= w -> shard_ok n (Z.to_nat w) s -> SessionRegistry.tryGetHandle w (shard_reg s) sid = Some h ->
  genuine n h /\ ownerWorkerId_ h = w /\ id_ h = sid.
Proof.
  intros Hw Hs. unfold SessionRegistry.tryGetHandle. rewrite (owner_check n w s) by done. cbn [negb].
  destruct (SessionRegistry.store_ _ !! _) as [rec |] eqn:E; [| done].
  destruct (isValid _); [| done]. intros [= <-].
  destruct (so_handles _ _ _ Hs sid rec E) as [? ?]. split_and!; [done | lia |].
  by apply (SessionRegistry.ro_id _ (so_reg _ _ _ Hs)) in E.
Qed.

Lemma collect_genuine w s ids ex h :
  0 <= w -> shard_ok n (Z.to_nat w) s -> h ∈ SessionRegistry.collect (shard_reg s) ids ex ->
  genuine n h /\ ownerWorkerId_ h = w.
Proof.
  intros Hw Hs (sid & rec & _ & _ & E & _ & ->)%SessionRegistry.collect_elem.
  destruct (so_handles _ _ _ Hs sid rec E) as [? ?]. split; [done | lia].
Qed.

Lemma makeTargets_genuine w s tg ex h :
  0 <= w -> shard_ok n (Z.to_nat w) s -> h ∈ makeTargets w (shard_reg s) tg ex ->
  genuine n h /\ ownerWorkerId_ h = w.
Proof.
  intros Hw Hs. pose proof (owner_check n w s Hw Hs) as Ho.
  destruct tg; cbn [makeTargets];
    unfold SessionRegistry.snapshotAll, SessionRegistry.snapshotScope, SessionRegistry.snapshotTopic;
    rewrite Ho; cbn [negb]; [by apply collect_genuine | |];
    destruct (_ : option (gset Z)); (by apply collect_genuine) || (intros []%elem_of_nil).
Qed.

Lemma genuine_list_ok ts : (forall h, h ∈ ts -> genuine n h) -> Forall (handle_ok n) ts.
Proof. intros H. apply Forall_forall. intros h Hin. right. by apply H. Qed.

Lemma run_task_ok cw t c : inv c -> 0 <= cw < Z.of_nat n -> task_ok n cw t -> fine cw c (run_task cw t c).
Proof.
  intros Hc Hw Ht. destruct t as [h w ch | owner sid | tg op pl ex wid | owner sid op pl | owner op pl ids
    | h pk | g pk | sid reason err | p]; cbn [run_task task_ok] in *.
  - destruct Ht as (Hg & Ho & Hch).
    destruct (on_registry_ok c cw (ownerWorkerId_ h) (SessionRegistry.OAdd h w ch)) as (c' & res & -> & Hc' & Et);
      [done | done | done | done | by intros ? ? ? [= <- _ _] |].
    exists c', []. by split_and!.
  - destruct (on_registry_ok c cw owner (SessionRegistry.ORemove sid)) as (c' & res & -> & Hc' & Et); try done.
    exists c', []. by split_and!.
  - subst wid. destruct (registry_at_ok n c Hc cw Hw) as (s & _ & Hs & ->). cbn.
    rewrite (owner_check n cw s) by (done || lia). cbn [negb]. unfold bc_route. rewrite (ro_bc _ _ (iv_rt n c Hc)).
    case_bool_decide; [by apply fine_same |]. apply fine_same; [done |].
    apply router_broadcast_ok, genuine_list_ok. intros h Hin.
    by eapply makeTargets_genuine; [| done..]; lia.
  - subst owner. destruct (registry_at_ok n c Hc cw Hw) as (s & _ & Hs & ->). cbn.
    rewrite (owner_check n cw s) by (done || lia). cbn [negb]. unfold bc_route. rewrite (ro_bc _ _ (iv_rt n c Hc)).
    destruct (SessionRegistry.tryGetHandle _ _ _) as [h |] eqn:E; [| by apply fine_same].
    apply router_send_ok; [done | | done]. right. by eapply tryGetHandle_genuine; [| done..]; lia.
  - subst owner. destruct (registry_at_ok n c Hc cw Hw) as (s & _ & Hs & ->). cbn.
    rewrite (owner_check n cw s) by (done || lia). cbn [negb]. unfold bc_route. rewrite (ro_bc _ _ (iv_rt n c Hc)).
    case_bool_decide; [by apply fine_same |]. apply fine_same; [done |].
    apply router_broadcast_ok, genuine_list_ok. intros h (sid & _ & E)%list_elem_of_omap.
    by eapply tryGetHandle_genuine; [| done..]; lia.
  - destruct Ht. by apply fine_one.
  - apply fine_same; [done |]. by apply send_all_ok.
  - unfold closeLocal_. zb_eval. eexists _, _. split; [done |]. split_and!; [| done | done].
    apply inv_log; [done |]. split; [lia | done].
  - apply fine_one; [done |]. cbn. by zb_eval.
Qed.

Lemma fanOut_ok cw b tg op body ex :
  regs_ b = map Some (seq 0 n) -> bc_scheduler_ b = Some (all_loops n) ->
  Forall (instr_ok cw) (broadcastImpl_ cw b tg op body ex).
Proof.
  intros Hr Hs. unfold broadcastImpl_, ready_. destruct (bc_router_ b); [| constructor].
  rewrite Hs. case_bool_decide; [constructor |]. unfold fanOut_. apply Forall_fmap, Forall_forall.
  intros wid _. cbn. unfold here_or_post.
  destruct (Z.leb_spec 0 cw), (Z.eqb_spec wid cw); cbn [andb instr_ok task_ok]; by split_and!.
Qed.

Lemma multicast_ok cw b sids op body ex :
  regs_ b = map Some (seq 0 n) -> bc_scheduler_ b = Some (all_loops n) ->
  Forall (instr_ok cw) (multicast cw b sids op body ex).
Proof.
  intros Hr Hs. unfold multicast, ready_. destruct (bc_router_ b); [| constructor].
  rewrite Hs. case_bool_decide; [constructor |]. case_bool_decide; [constructor |].
  apply Forall_join, Forall_fmap, Forall_forall. intros wid _. cbn.
  case_bool_decide; [constructor |]. apply Forall_singleton. unfold here_or_post.
  destruct (Z.leb_spec 0 cw), (Z.eqb_spec wid cw); cbn [andb instr_ok task_ok]; by split_and!.
Qed.

Lemma bc_sendTo_ok c sid op body :
  inv c -> let r := bc_sendTo (broadcaster_ (runtime c)) c sid op body in
  inv r.1 /\ threads r.1 = threads c.
Proof.
  intros Hc. cbn. unfold bc_sendTo. rewrite (ro_bc _ _ (iv_rt n c Hc)). unfold ready_. cbn.
  case_bool_decide; [by split |]. destruct (_ || _); [by split |]. by apply postToWorker_ok.
Qed.

Lemma closeLocal_ok cw c sid reason err :
  inv c -> (0 <= cw -> ownerWorkerFromId sid = cw) ->
  inv (closeLocal_ cw c sid reason err) /\ threads (closeLocal_ cw c sid reason err) = threads c.
Proof.
  intros Hc Ho. unfold closeLocal_. destruct (Z.ltb_spec cw 0); [by split |]. split; [| done].
  apply inv_log; [done |]. split; [done | by apply Ho].
Qed.

Lemma sendToLocal_ok cw s c sid op body k :
  inv c -> 0 <= cw -> shard_ok n (Z.to_nat cw) s -> (forall b, prog_ok n (0 <=? cw) (k b)) ->
  fine cw c (sendToLocal_ cw s c sid op body k).
Proof.
  intros Hc Hw Hs Hk. unfold sendToLocal_. rewrite (so_router _ _ _ Hs), (so_wid _ _ _ Hs).
  destruct (_ || _); [apply fine_one; [done | apply Hk] |].
  rewrite (owner_check n cw s) by done. cbn [negb].
  destruct (SessionRegistry.tryGetHandle _ _ _) as [h |] eqn:E; [| apply fine_one; [done | apply Hk]].
  apply router_send_ok; [done | | done]. right. by eapply tryGetHandle_genuine.
Qed.

Lemma close_ok cw s c sid reason err :
  inv c -> shard_ok n (Z.to_nat cw) s ->
  inv (close cw s c sid reason err) /\ threads (close cw s c sid reason err) = threads c.
Proof.
  intros Hc Hs. unfold close. destruct (_ <? 0); [by split |]. rewrite (so_scheduler _ _ _ Hs).
  destruct (Z.eqb_spec cw (ownerWorkerFromId sid)); cbn [negb]; [by apply closeLocal_ok |].
  by apply postToWorker_ok.
Qed.

Lemma registry_op_ok cw o : call_ok o -> SessionRegistry.op_ok (cw, registry_op o).
Proof. by destruct o. Qed.

Lemma shards_nonempty c : inv c -> (0 < n)%nat -> bool_decide (shards_ (runtime c) = []) = false.
Proof.
  intros Hc Hn. apply bool_decide_eq_false_2. intros E. pose proof (ro_length _ _ (iv_rt n c Hc)) as Hl.
  rewrite E in Hl. cbn in Hl. lia.
Qed.

(** [onSessionStart] and [onSessionEnd]: on the registry here, or posted. *)
Lemma session_call_ok cw c h o t :
  inv c -> worker_id n cw -> genuine n h -> SessionRegistry.op_ok (cw, o) -> task_ok n (ownerWorkerId_ h) t ->
  (forall h' ws cs, o = SessionRegistry.OAdd h' ws cs -> h' = h) ->
  fine cw c (if cw =? ownerWorkerId_ h then
               '(c', _) ← on_registry cw c (ownerWorkerId_ h) o; Some (c', [])
             else match scheduler_ (runtime c) with
                  | None => Some (c, [])
                  | Some s => Some (c, [KPost s (ownerWorkerId_ h) t ignore])
                  end).
Proof.
  intros Hc Hcw Hg Ho Ht Hadd. destruct (Z.eqb_spec cw (ownerWorkerId_ h)) as [-> |].
  - destruct (on_registry_ok c (ownerWorkerId_ h) (ownerWorkerId_ h) o) as (c' & res & -> & Hc' & Et); try done.
    { apply Hg. }
    { intros h' ? ? E. by rewrite (Hadd _ _ _ E). }
    exists c', []. by split_and!.
  - rewrite (ro_scheduler _ _ (iv_rt n c Hc)). by apply fine_one.
Qed.

Lemma fine_then cw c r k :
  fine cw c r -> prog_ok n (0 <=? cw) k ->
  fine cw c ('(c', l) ← r; Some (c', l ++ [KProg k])).
Proof.
  intros (c' & l & -> & Hc' & Et & Hl) Hk. exists c', (l ++ [KProg k]). split_and!; try done.
  apply Forall_app. by split; [| apply Forall_singleton].
Qed.

Lemma worker_true cw : worker_id n cw -> (0 <=? cw) = true -> 0 <= cw < Z.of_nat n.
Proof. unfold worker_id. intros. b2p. lia. Qed.

Lemma run_prog_ok cw p c :
  (0 < n)%nat -> inv c -> worker_id n cw -> prog_ok n (0 <=? cw) p -> fine cw c (run_prog cw p c).
Proof.
  intros Hn Hc Hcw Hp. destruct p as [| h w ch k | h k | o k | sid op body k | sid op body k | tg op body ex k
    | sids op body ex k | sid reason err k | sid reason err k | h op body k | ts pk k | wid p k | sid p k | h p k];
    cbn [run_prog prog_ok] in *.
  - by apply fine_same.
  - destruct Hp as (Hg & Hch & Hk). apply fine_then; [| done]. unfold rt_onSessionStart.
    rewrite shards_nonempty by done. apply session_call_ok; try done. by intros ? ? ? [= <- _ _].
  - destruct Hp as (Hg & Hk). apply fine_then; [| done]. unfold rt_onSessionEnd.
    rewrite shards_nonempty by done. by apply session_call_ok.
  - destruct Hp as (Hw & Ho & Hk). destruct (local_ok n c Hc cw (worker_true cw Hcw Hw)) as (s & -> & _ & _). cbn.
    destruct (on_registry_ok c cw cw (registry_op o)) as (c' & res & -> & Hc' & Et); try done.
    { by apply worker_true. } { by apply registry_op_ok. } { by destruct o. }
    exists c', [KProg (k res)]. split_and!; try done. apply Forall_singleton, Hk.
  - destruct Hp as (Hw & Hk). pose proof (worker_true cw Hcw Hw) as Hr.
    destruct (local_ok n c Hc cw Hr) as (s & -> & Hs & _). cbn. unfold sendTo.
    rewrite (so_router _ _ _ Hs). destruct (_ <? 0); [apply fine_one; [done | apply Hk] |].
    destruct (_ =? _); [apply sendToLocal_ok; try done; lia |].
    pose proof (bc_sendTo_ok c sid op body Hc) as [H1 H2]. destruct (bc_sendTo _ _ _ _ _) as [c' b].
    exists c', [KProg (k b)]. split_and!; try done. apply Forall_singleton, Hk.
  - destruct Hp as (Hw & Hk). pose proof (worker_true cw Hcw Hw) as Hr.
    destruct (local_ok n c Hc cw Hr) as (s & -> & Hs & _). cbn. apply sendToLocal_ok; try done; lia.
  - destruct Hp as (Hw & Hk). destruct (local_ok n c Hc cw (worker_true cw Hcw Hw)) as (s & -> & Hs & _). cbn.
    rewrite (so_router _ _ _ Hs). apply fine_same; [done |]. apply Forall_app.
    split; [| by apply Forall_singleton]. by apply fanOut_ok; rewrite (ro_bc _ _ (iv_rt n c Hc)).
  - destruct Hp as (Hw & Hk). destruct (local_ok n c Hc cw (worker_true cw Hcw Hw)) as (s & -> & Hs & _). cbn.
    rewrite (so_router _ _ _ Hs). apply fine_same; [done |]. apply Forall_app.
    split; [| by apply Forall_singleton]. by apply multicast_ok; rewrite (ro_bc _ _ (iv_rt n c Hc)).
  - destruct Hp as (Hw & Hk). destruct (local_ok n c Hc cw (worker_true cw Hcw Hw)) as (s & -> & Hs & _). cbn.
    destruct (close_ok cw s c sid reason err Hc Hs). eexists _, _. split_and!; try done. by apply Forall_singleton.
  - destruct Hp as (Hw & Hk). destruct (local_ok n c Hc cw (worker_true cw Hcw Hw)) as (s & -> & Hs & Hwid). cbn.
    assert (inv (closeLocal cw s c sid reason err) /\ threads (closeLocal cw s c sid reason err) = threads c) as [? ?].
    { unfold closeLocal. rewrite Hwid. destruct (Z.eqb_spec (ownerWorkerFromId sid) cw);
        destruct (cw =? cw); cbn; try (by split). by apply closeLocal_ok. }
    eexists _, _. split_and!; try done. by apply Forall_singleton.
  - destruct Hp. rewrite (ro_router _ _ (iv_rt n c Hc)). by apply router_send_view_ok.
  - destruct Hp. rewrite (ro_router _ _ (iv_rt n c Hc)). apply fine_same; [done |]. apply Forall_app.
    split; [by apply router_broadcast_ok | by apply Forall_singleton].
  - destruct Hp. unfold rt_postToWorker. rewrite (ro_scheduler _ _ (iv_rt n c Hc)). by apply fine_one.
  - destruct Hp as (Ho & Hp & Hk). unfold postToSessionOwner, postToOwner. rewrite (ro_scheduler _ _ (iv_rt n c Hc)).
    destruct (Z.eqb_spec cw (ownerWorkerFromId sid)); [| by apply fine_one].
    apply fine_same; [done |]. apply Forall_cons; split; [| apply Forall_singleton, Hk]. cbn. by zb_eval.
  - destruct Hp as (Ho & Hp & Hk). unfold postToOwner. rewrite (ro_scheduler _ _ (iv_rt n c Hc)).
    destruct (Z.eqb_spec cw (ownerWorkerId_ h)); [| by apply fine_one].
    apply fine_same; [done |]. apply Forall_cons; split; [| apply Forall_singleton, Hk]. cbn.
    destruct Ho as (_ & ? & _). by zb_eval.
Qed.

Lemma exec_ok cw b i c :
  (0 < n)%nat -> inv c -> worker_id n cw -> instr_ok cw i -> fine cw c (exec cw b i c).
Proof.
  intros Hn Hc Hcw Hi. destruct i as [p | t | s wid t k | owner t | h op v k]; cbn [exec instr_ok] in *.
  - by apply run_prog_ok.
  - destruct Hi. apply run_task_ok; [done | | done]. destruct Hcw; lia.
  - destruct Hi as (-> & Ht & Hk). destruct (postToWorker_ok c wid t Hc Ht) as [H1 H2].
    destruct (postToWorker _ _ _ _) as [c' ok]. exists c', [KProg (k ok)]. split_and!; try done.
    apply Forall_singleton, Hk.
  - destruct Hi as (Ho & Ht). eexists _, _. split; [done |]. split_and!; [by apply inv_post | done | done].
  - destruct Hi as (Hg & Ho & Hk). pose proof Hg as (Hv & Hr & Hid & Hsend).
    unfold sendLocalPacketU16. rewrite Hv, Hsend. cbn [negb]. eexists _, _. split; [done |].
    split_and!; [| done | apply Forall_singleton, Hk]. apply inv_log; [done |]. cbn. rewrite Hsend. split; congruence.
Qed.

Lemma worker_of_n c t : inv c -> worker_of c t = if (0 <=? t) && (t <? Z.of_nat n) then t else -1.
Proof. intros Hc. unfold worker_of. by rewrite (iv_n n c Hc). Qed.

Lemma act_ok c a :
  (0 < n)%nat -> inv c -> action_ok n a -> exists c', act c a = Some c' /\ inv c'.
Proof.
  intros Hn Hc Ha. destruct a as [t b | w | t p]; cbn [act].
  - destruct (stack c t) as [| i rest] eqn:Es; [by exists c |].
    assert (Hall : Forall (instr_ok (worker_of c t)) (i :: rest)).
    { apply Forall_forall. intros j Hj. apply (iv_stacks n c Hc). by rewrite Es. }
    apply Forall_cons in Hall as [Hi Hrest].
    destruct (exec_ok (worker_of c t) b i c Hn Hc) as (c' & l & E & Hc' & Et & Hl);
      [by apply worker_of_id, (iv_n n c Hc) | done |].
    rewrite E. eexists. split; [done |]. apply inv_stack; [done |].
    rewrite (worker_of_n c') by done. rewrite (worker_of_n c) in Hl, Hrest by done. apply Forall_app. by split.
  - destruct (Z.eqb_spec (worker_of c w) w) as [Ew |]; cbn [negb]; [| by exists c].
    destruct (stack c w) as [| i rest] eqn:Es; [| by exists c].
    destruct (queue c w) as [| t q] eqn:Eq; cbn [tryPop]; [by exists c |].
    eexists. split; [done |]. destruct (iv_queues n c Hc w t) as [Hw Ht]; [rewrite Eq; left |].
    apply inv_stack.
    + apply inv_queue; [done |]. intros t' Ht'. apply (iv_queues n c Hc). rewrite Eq. by right.
    + apply Forall_singleton. change (worker_of (set_queue c w q) w) with (worker_of c w). rewrite Ew.
      split; [lia | done].
  - eexists. split; [done |]. apply inv_stack; [done |]. apply Forall_cons. split.
    + cbn in *. rewrite (worker_of_n c) by done. destruct (_ && _) eqn:E; b2p; [| done].
      rewrite andb_true_l in * || idtac. by zb_eval.
    + apply Forall_forall. intros j Hj. by apply (iv_stacks n c Hc).
Qed.

Lemma run_ok s c :
  (0 < n)%nat -> inv c -> Forall (action_ok n) s -> exists c', run_cluster c s = Some c' /\ inv c'.
Proof.
  intros Hn. revert c. induction s as [| a s IH]; intros c Hc Hs; [by exists c |].
  apply Forall_cons in Hs as [Ha Hs]. destruct (act_ok c a Hn Hc Ha) as (c1 & E & Hc1).
  unfold run_cluster. cbn [fold_left]. cbn. rewrite E. by apply IH.
Qed.

Lemma start_shards : shards_ (runtime (start n)) =
  map (fun i => mk_shard i (SessionRegistry.create i) ∅ (Some (all_loops n)) (Some (all_loops n))) (seqZ 0 (Z.of_nat n)).
Proof.
  unfold start. cbn [runtime setWorkerScheduler setRouter new_runtime shards_ map]. cbn.
  assert (zlen (replicate n true) = Z.of_nat n) as -> by apply zlen_all_loops. by rewrite map_map.
Qed.

Lemma start_inv : inv (start n).
Proof.
  assert (Ez : zlen (replicate n true) = Z.of_nat n) by apply zlen_all_loops.
  pose proof start_shards as Es.
  split; [done | | | | by constructor].
  - split; [done | done | | |]; rewrite ?Es.
    + unfold start. cbn. rewrite Ez, !length_map, length_seqZ, Nat2Z.id. done.
    + by rewrite length_map, length_seqZ, Nat2Z.id.
    + intros i s Hs. apply list_lookup_fmap_Some in Hs as (j & -> & Hj).
      apply lookup_seqZ in Hj as [-> Hi].
      destruct (SessionRegistry.create_represents (Z.of_nat i)) as (Hr & _ & _).
      split; cbn; try done; try lia.
  - intros w t. unfold queue, start. cbn. rewrite lookup_empty. intros []%elem_of_nil.
  - intros t i. unfold stack, start. cbn. rewrite lookup_empty. intros []%elem_of_nil.
Qed.

End Exec.

End RuntimeInv.
