(* ===== verification/Delivery.v ===== *)
(** * Delivery: what a broadcast achieves under any interleaving

    The theorems on [Runtime].  The first is the confinement of [RuntimeInv]
    for whole runs.  The others follow one broadcast through the queues: the
    sends it still owes a session, wherever they wait (in a fan-out under way,
    in a queue, in the group a worker is sending), plus the sends already made
    are a constant as long as the session's subscription does not change. *)

From S2P Require Import Prelude Message Handle SessionRegistry Runtime RuntimeInv.
Import Message Handle Runtime RuntimeInv.

Module Delivery.

(* ------------------------------------------------------------------ *)
(** ** Sums over lists and maps of lists *)

Section Sums.
Context {A : Type} (f : A -> Z).

Fixpoint lsum (l : list A) : Z := match l with [] => 0 | x :: r => f x + lsum r end.

Lemma lsum_app l1 l2 : lsum (l1 ++ l2) = lsum l1 + lsum l2.
Proof. induction l1; cbn; lia. Qed.

Lemma lsum_zero l : (forall x, x ∈ l -> f x = 0) -> lsum l = 0.
Proof.
  induction l as [| x l IH]; intros H; [done |]. cbn. rewrite IH, H; [done | left |]. intros. apply H. by right.
Qed.

Lemma lsum_nonneg l : (forall x, 0 <= f x) -> 0 <= lsum l.
Proof. intros H. induction l as [| x l IH]; cbn; [lia |]. specialize (H x). lia. Qed.

Lemma mjoin_cons (l : list A) ls : mjoin (l :: ls) = l ++ mjoin ls.
Proof. done. Qed.

Lemma mjoin_app (l1 l2 : list (list A)) : mjoin (l1 ++ l2) = mjoin l1 ++ mjoin l2.
Proof. induction l1 as [| l l1 IH]; [done |]. cbn [app]. by rewrite !mjoin_cons, IH, (assoc_L (++)). Qed.

Lemma lsum_join {B} (g : B -> list A) ws :
  lsum (mjoin (map g ws)) = foldr (fun w acc => lsum (g w) + acc) 0 ws.
Proof. induction ws as [| w ws IH]; [done |]. cbn [foldr]. rewrite <- IH. apply lsum_app. Qed.

(** The sum over all lists of a map. *)
Definition total (m : gmap Z (list A)) : Z := map_fold (fun _ l acc => lsum l + acc) 0 m.

Lemma total_insert_None m k l : m !! k = None -> total (<[k := l]> m) = lsum l + total m.
Proof. intros H. unfold total. rewrite map_fold_insert_L; [done | intros; lia | done]. Qed.

Lemma total_insert m k l : total (<[k := l]> m) = total m - lsum (default [] (m !! k)) + lsum l.
Proof.
  destruct (m !! k) as [l0 |] eqn:E.
  - assert (Em : m = <[k := l0]> (delete k m)) by by rewrite insert_delete_id.
    rewrite Em at 2. rewrite <- insert_delete_eq, !total_insert_None by apply lookup_delete_eq. cbn. lia.
  - rewrite total_insert_None by done. cbn. lia.
Qed.

Lemma total_nonneg m : (forall x, 0 <= f x) -> 0 <= total m.
Proof.
  intros H. unfold total. apply (map_fold_weak_ind (fun r _ => 0 <= r)); [lia |].
  intros k l m' r _ Hr. pose proof (lsum_nonneg l H). lia.
Qed.

Lemma total_zero m : (forall k x, x ∈ default [] (m !! k) -> f x = 0) -> total m = 0.
Proof.
  intros H. unfold total. induction m as [| k l m Hk IH] using map_ind; [done |].
  fold (total (<[k := l]> m)). rewrite total_insert_None by done. unfold total. rewrite IH.
  - rewrite lsum_zero; [done |]. intros x Hx. apply (H k). by rewrite lookup_insert_eq.
  - intros k' x Hx. apply (H k'). destruct (decide (k = k')) as [<- |]; [by rewrite Hk in Hx; apply elem_of_nil in Hx |].
    by rewrite lookup_insert_ne.
Qed.

End Sums.

(* ------------------------------------------------------------------ *)
(** ** The call *)

(** What a call of a broadcast leaves on the caller's stack. *)
Lemma broadcast_call n c t tg op body ex b :
  inv n c -> 0 <= t < Z.of_nat n ->
  run_cluster c [Callback t (PBroadcast tg op body ex PDone); Step t b] =
  Some (set_stack c t
    ((fanOut_ t (broadcaster_ (runtime c)) (all_loops n) tg op (copyPayload body) ex ++ [KProg PDone]) ++ stack c t)).
Proof.
  intros Hc Ht. assert (Hn : (0 < n)%nat) by lia. unfold run_cluster. cbn.
  unfold stack at 1. cbn [set_stack threads]. rewrite lookup_insert_eq. cbn.
  change (worker_of (set_stack c t (KProg (PBroadcast tg op body ex PDone) :: stack c t)) t) with (worker_of c t).
  assert (Hw : worker_of c t = t) by (rewrite (worker_of_n n) by done; by zb_eval). rewrite Hw.
  destruct (local_ok n c Hc t Ht) as (s & El & Hs & _). rewrite El. cbn. rewrite (so_router _ _ _ Hs).
  unfold broadcastImpl_. rewrite (bc_ready n c Hc Hn). unfold set_stack. cbn.
  by rewrite insert_insert_eq.
Qed.

(* ------------------------------------------------------------------ *)
(** ** One broadcast *)

Section Broadcast.
Context (n : nat) (h0 : SessionHandle) (op0 ex0 : Z) (tg0 : targets) (body0 : MessageView).

Definition owner0 : Z := ownerWorkerId_ h0.
Definition payload0 : option (list byte) := copyPayload body0.
Definition bytes0 : list byte := view_bytes (view (makePacket op0 payload0)).

(** Programs that never send opcode [op0]. *)
Fixpoint quiet (p : prog) : Prop :=
  match p with
  | PDone => True
  | PStart _ _ _ k | PEnd _ k | PClose _ _ _ k | PCloseLocal _ _ _ k => quiet k
  | PService _ k => forall r, quiet (k r)
  | PSendTo _ op _ k | PSendToLocal _ op _ k | PRouterSend _ op _ k => op <> op0 /\ forall b, quiet (k b)
  | PBroadcast _ op _ _ k | PMulticast _ op _ _ k => op <> op0 /\ quiet k
  | PRouterBroadcast _ pk k => rp_opcode pk <> op0 /\ quiet k
  | PPostToWorker _ p k | PPostToSessionOwner _ p k | PPostToHandleOwner _ p k =>
      quiet p /\ forall b, quiet (k b)
  end.

Definition quiet_action (a : action) : Prop := match a with Callback _ p => quiet p | _ => True end.

(** Work that sends [op0] only for this broadcast, once it is [active]. *)
Context (active : bool).

Definition quiet_task (t : task) : Prop :=
  match t with
  | TFan tg op pl ex _ => op <> op0 \/ (active = true /\ tg = tg0 /\ pl = payload0 /\ ex = ex0)
  | TSendTo _ _ op _ | TMulticast _ op _ _ => op <> op0
  | TRouterSend _ pk | TRouterBroadcast _ pk => rp_opcode pk <> op0
  | TUser p => quiet p
  | _ => True
  end.

Definition quiet_instr (i : instr) : Prop :=
  match i with
  | KProg p => quiet p
  | KTask t | KLoopPost _ t => quiet_task t
  | KPost _ _ t k => quiet_task t /\ forall b, quiet (k b)
  | KSend _ op v k => (op <> op0 \/ (active = true /\ view_bytes v = bytes0)) /\ forall b, quiet (k b)
  end.

Definition quiet_event (e : event) : Prop :=
  match e with
  | EvSent _ _ op body _ => op = op0 -> active = true /\ body = bytes0
  | _ => True
  end.

(** Sends of [op0] to the session: made, and still owed.  [m] is what running
    the fan-out on the session's worker yields. *)
Definition is_hit (h : SessionHandle) (op : Z) : bool := (id_ h =? id_ h0) && (op =? op0).

Definition sent (e : event) : Z :=
  match e with EvSent _ h op _ _ => Z.b2z (is_hit h op) | _ => 0 end.

Context (m : bool).

Definition owed_task (t : task) : Z :=
  match t with
  | TFan _ op _ _ wid => Z.b2z (m && (op =? op0) && (wid =? owner0))
  | _ => 0
  end.

Definition owed (i : instr) : Z :=
  match i with
  | KProg _ => 0
  | KTask t | KPost _ _ t _ | KLoopPost _ t => owed_task t
  | KSend h op _ _ => Z.b2z (is_hit h op)
  end.

(** The session is a target in the registry of its worker. *)
Definition is_target (c : cluster) : bool :=
  match at_index (shards_ (runtime c)) owner0 with
  | Some s => bool_decide (h0 ∈ makeTargets owner0 (shard_reg s) tg0 ex0)
  | None => false
  end.

Definition pending (c : cluster) : Z := total owed (threads c) + total owed_task (queues c).
Definition balance (c : cluster) : Z := lsum sent (log c) + pending c.

Record quiet_cluster (c : cluster) : Prop := {
  qc_queues : forall w t, t ∈ queue c w -> quiet_task t;
  qc_stacks : forall t i, i ∈ stack c t -> quiet_instr i;
  qc_log : Forall quiet_event (log c)
}.

Lemma owed_task_nonneg t : 0 <= owed_task t.
Proof. destruct t; cbn; try done. by destruct (_ && _ && _). Qed.

Lemma owed_nonneg i : 0 <= owed i.
Proof. destruct i; cbn; try done; try apply owed_task_nonneg. destruct (is_hit _ _); done. Qed.

Lemma pending_nonneg c : 0 <= pending c.
Proof.
  unfold pending. pose proof (total_nonneg owed (threads c) owed_nonneg).
  pose proof (total_nonneg owed_task (queues c) owed_task_nonneg). lia.
Qed.

(** What an instruction did to the balance. *)
Definition kept (c : cluster) (w : Z) (r : option (cluster * list instr)) : Prop :=
  forall c' l, r = Some (c', l) ->
    lsum sent (log c') + total owed_task (queues c') + lsum owed l =
      lsum sent (log c) + total owed_task (queues c) + w /\
    Forall quiet_instr l /\ (forall w t, t ∈ queue c' w -> quiet_task t) /\ Forall quiet_event (log c').

Lemma kept_same c w l :
  quiet_cluster c -> lsum owed l = w -> Forall quiet_instr l -> kept c w (Some (c, l)).
Proof. intros Hc Hw Hl c' l' [= <- <-]. split_and!; try done; try apply Hc. lia. Qed.

Lemma kept_one c i : quiet_cluster c -> quiet_instr i -> kept c (owed i) (Some (c, [i])).
Proof. intros Hc Hi. apply kept_same; [done | cbn; lia | by apply Forall_singleton]. Qed.

Lemma kept_none c w : kept c w None.
Proof. by intros c' l. Qed.

Lemma post_balance c w t l :
  quiet_cluster c -> quiet_task t -> lsum owed l = 0 -> Forall quiet_instr l ->
  kept c (owed_task t) (Some (post c w t, l)).
Proof.
  intros Hc Ht Hl Hql c' l' [= <- <-]. unfold post. cbn [set_queue queues log].
  rewrite total_insert. unfold push. fold (queue c w). rewrite lsum_app. cbn [lsum].
  split; [lia |]. split; [done |]. split; [| apply Hc]. intros w' t'. unfold queue. cbn [set_queue queues].
  destruct (decide (w = w')) as [<- |].
  - rewrite lookup_insert_eq. cbn. rewrite elem_of_app, list_elem_of_singleton.
    intros [H | ->]; [by apply (qc_queues c Hc w) | done].
  - rewrite lookup_insert_ne by done. apply (qc_queues c Hc).
Qed.

(* ------------------------------------------------------------------ *)
(** ** Instructions of other packets *)

Lemma not_hit h op : op <> op0 -> is_hit h op = false.
Proof. intros H. unfold is_hit. apply Z.eqb_neq in H. rewrite H. apply andb_false_r. Qed.

Lemma send_other h op v k :
  op <> op0 -> (forall b, quiet (k b)) -> owed (KSend h op v k) = 0 /\ quiet_instr (KSend h op v k).
Proof. intros H Hk. cbn. rewrite not_hit by done. split_and!; [done | by left | done]. Qed.

Lemma prog_kept c p : quiet_cluster c -> quiet p -> kept c 0 (Some (c, [KProg p])).
Proof. intros. by apply kept_one. Qed.

Lemma router_send_kept cw r c h pk k :
  quiet_cluster c -> rp_opcode pk <> op0 -> (forall b, quiet (k b)) ->
  kept c 0 (Some (router_send cw r c h pk k)).
Proof.
  intros Hc Ho Hk. unfold router_send. destruct (negb _); [by apply prog_kept |].
  destruct (_ || _); [by apply prog_kept |]. destruct (_ =? _).
  - destruct (send_other h (rp_opcode pk) (view pk) k Ho Hk) as [<- ?]. by apply kept_one.
  - destruct (at_index r _) as [[|] |]; try by apply prog_kept.
    apply (post_balance c _ (TRouterSend h pk)); try done. apply Forall_singleton, Hk.
Qed.

Lemma router_send_view_kept cw r c h op v k :
  quiet_cluster c -> op <> op0 -> (forall b, quiet (k b)) ->
  kept c 0 (Some (router_send_view cw r c h op v k)).
Proof.
  intros Hc Ho Hk. unfold router_send_view. destruct (negb _); [by apply prog_kept |].
  destruct (_ || _); [by apply prog_kept |]. destruct (_ =? _).
  - destruct (send_other h op v k Ho Hk) as [<- ?]. by apply kept_one.
  - apply router_send_kept; try done. unfold copy. by destruct (_ =? _).
Qed.

Lemma send_all_other g pk :
  rp_opcode pk <> op0 -> lsum owed (send_all g pk) = 0 /\ Forall quiet_instr (send_all g pk).
Proof.
  intros Ho. unfold send_all. induction g as [| h g [IH1 IH2]]; [done |]. cbn [map lsum].
  destruct (send_other h (rp_opcode pk) (view pk) ignore Ho) as [-> ?]; [done |].
  split; [lia |]. by apply Forall_cons.
Qed.

Lemma router_broadcast_other cw r ts pk :
  rp_opcode pk <> op0 ->
  lsum owed (router_broadcast cw r ts pk) = 0 /\ Forall quiet_instr (router_broadcast cw r ts pk).
Proof.
  intros Ho. unfold router_broadcast. case_bool_decide; [done |].
  assert (Hg : forall w, lsum owed (router_group cw r ts pk w) = 0 /\ Forall quiet_instr (router_group cw r ts pk w)).
  { intros w. unfold router_group. case_bool_decide; [done |]. destruct (_ =? _); [by apply send_all_other |].
    destruct (at_index r w) as [[|] |]; try done. split; [done |]. by apply Forall_singleton. }
  split.
  - rewrite lsum_join. induction (seqZ 0 (zlen r)) as [| w ws IH]; [done |]. cbn. rewrite IH. by destruct (Hg w) as [-> _].
  - apply Forall_join, Forall_fmap, Forall_forall. intros w _. apply Hg.
Qed.

Lemma on_registry_kept c cw i o (k : SessionRegistry.result -> list instr) :
  quiet_cluster c -> (forall r, lsum owed (k r) = 0 /\ Forall quiet_instr (k r)) ->
  kept c 0 ('(c', res) ← on_registry cw c i o; Some (c', k res)).
Proof.
  intros Hc Hk. unfold on_registry. destruct (at_index _ _) as [s |]; [| apply kept_none].
  destruct (negb _); [apply kept_none |]. destruct (SessionRegistry.registry_step _ _) as [reg res].
  intros c' l [= <- <-]. destruct (Hk res) as [-> ?]. split_and!; try done; apply Hc.
Qed.

(* ------------------------------------------------------------------ *)
(** ** The fan-out on one worker *)

Lemma genuine_inj h1 h2 : genuine n h1 -> genuine n h2 -> id_ h1 = id_ h2 -> h1 = h2.
Proof.
  destruct h1, h2. intros (_ & _ & H1 & H2) (_ & _ & H3 & H4) E. cbn in *. by simplify_eq.
Qed.

Lemma makeTargets_NoDup w s tg ex :
  shard_ok n (Z.to_nat w) s -> NoDup (makeTargets w (shard_reg s) tg ex).
Proof.
  intros Hs. destruct tg; cbn [makeTargets];
    unfold SessionRegistry.snapshotAll, SessionRegistry.snapshotScope, SessionRegistry.snapshotTopic;
    destruct (negb _); try constructor.
  1: apply SessionRegistry.collect_NoDup; [apply Hs | apply NoDup_fst_map_to_list].
  all: destruct (_ : option (gset Z)); [| constructor];
    apply SessionRegistry.collect_NoDup; [apply Hs | apply NoDup_elements].
Qed.

Lemma group_of_own ts w :
  Forall (fun h => genuine n h /\ ownerWorkerId_ h = w) ts -> group_of ts w = ts.
Proof.
  unfold group_of. induction 1 as [| h ts [(? & _) ?] _ IH]; [done |]. rewrite filter_cons_True by done. by rewrite IH.
Qed.

Lemma group_of_other ts w w' :
  Forall (fun h => genuine n h /\ ownerWorkerId_ h = w) ts -> w' <> w -> group_of ts w' = [].
Proof.
  intros H Hne. unfold group_of. induction H as [| h ts [_ Ho] _ IH]; [done |].
  rewrite filter_cons_False; [done |]. intros [_ ?]. congruence.
Qed.

Lemma router_broadcast_local w ts pk :
  0 <= w < Z.of_nat n -> Forall (fun h => genuine n h /\ ownerWorkerId_ h = w) ts ->
  router_broadcast w (all_loops n) ts pk = send_all ts pk.
Proof.
  intros Hw Hts. unfold router_broadcast. case_bool_decide as Ets; [by subst |].
  rewrite zlen_all_loops.
  assert (Hnil : forall l, w ∉ l -> mjoin (map (router_group w (all_loops n) ts pk) l) = []).
  { induction l as [| w' l IH]; intros Hl; [done |]. apply not_elem_of_cons in Hl as [Hne Hl].
    rewrite map_cons, mjoin_cons, IH by done. unfold router_group. rewrite (group_of_other ts w w') by done. by rewrite bool_decide_eq_true_2. }
  replace (Z.of_nat n) with (w + (Z.of_nat n - w)) by lia.
  rewrite seqZ_app, (seqZ_cons (0 + w)) by lia. rewrite map_app, mjoin_app, map_cons, mjoin_cons.
  rewrite !Hnil by (rewrite elem_of_seqZ; lia). rewrite app_nil_r, Z.add_0_l. cbn [app].
  unfold router_group. rewrite group_of_own by done. rewrite bool_decide_eq_false_2 by done. by zb_eval.
Qed.

Lemma send_all_hits ts pk :
  active = true -> genuine n h0 -> Forall (genuine n) ts -> NoDup ts -> rp_opcode pk = op0 -> view_bytes (view pk) = bytes0 ->
  lsum owed (send_all ts pk) = Z.b2z (bool_decide (h0 ∈ ts)) /\ Forall quiet_instr (send_all ts pk).
Proof.
  intros Hact Hg Hts Hnd Ho Hb. split.
  - induction Hnd as [| h ts Hni Hnd IH]; [done |]. apply Forall_cons in Hts as [Hh Hts].
    change (lsum owed (send_all (h :: ts) pk)) with (Z.b2z (is_hit h (rp_opcode pk)) + lsum owed (send_all ts pk)).
    rewrite IH by done. unfold is_hit. rewrite Ho, Z.eqb_refl, andb_true_r.
    destruct (Z.eqb_spec (id_ h) (id_ h0)) as [E |].
    + apply genuine_inj in E as ->; try done. rewrite bool_decide_eq_false_2 by done.
      rewrite bool_decide_eq_true_2; [done | left].
    + rewrite (bool_decide_ext (h0 ∈ h :: ts) (h0 ∈ ts)); [by cbn |]. rewrite elem_of_cons.
      split; [intros [-> |]; done | by right].
  - apply Forall_fmap, Forall_true. intros h. cbn. split; [by right | done].
Qed.

Lemma fan_kept cw c tg op pl ex :
  inv n c -> genuine n h0 -> quiet_cluster c -> 0 <= cw < Z.of_nat n -> quiet_task (TFan tg op pl ex cw) ->
  (active = true -> is_target c = m) ->
  kept c (owed_task (TFan tg op pl ex cw)) (run_task cw (TFan tg op pl ex cw) c).
Proof.
  intros Hc Hg Hq Hw Ht Hm. cbn [run_task owed_task].
  destruct (registry_at_ok n c Hc cw Hw) as (s & Es & Hs & ->). cbn.
  rewrite (owner_check n cw s) by (done || lia). cbn [negb]. unfold bc_route.
  rewrite (ro_bc _ _ (iv_rt n c Hc)). cbn.
  destruct (Z.eqb_spec op op0) as [-> |].
  2: { rewrite andb_false_r. cbn. case_bool_decide; [by apply kept_same |].
       destruct (router_broadcast_other cw (all_loops n) (makeTargets cw (shard_reg s) tg ex) (makePacket op pl));
         [done |]. by apply kept_same. }
  destruct Ht as [? | (Hact & -> & -> & ->)]; [done |]. specialize (Hm Hact). rewrite andb_true_r.
  set (ts := makeTargets cw (shard_reg s) tg0 ex0).
  assert (Hts : Forall (fun h => genuine n h /\ ownerWorkerId_ h = cw) ts).
  { apply Forall_forall. intros h Hh. eapply makeTargets_genuine; [| done..]. lia. }
  assert (Hin : Z.b2z (m && (cw =? owner0)) = Z.b2z (bool_decide (h0 ∈ ts))).
  { destruct (Z.eqb_spec cw owner0) as [E |].
    - rewrite andb_true_r, <- Hm. unfold is_target. by rewrite <- E, Es.
    - rewrite andb_false_r, bool_decide_eq_false_2; [done |]. intros Hh. rewrite Forall_forall in Hts.
      destruct (Hts _ Hh) as [_ ?]. done. }
  rewrite Hin. destruct (decide (ts = [])) as [Ets | Ets].
  { rewrite (bool_decide_eq_true_2 (ts = [])) by done. apply kept_same; [done | | constructor].
    rewrite bool_decide_eq_false_2; [done |]. rewrite Ets. apply not_elem_of_nil. }
  rewrite (bool_decide_eq_false_2 (ts = [])) by done.
  rewrite router_broadcast_local by done.
  destruct (send_all_hits ts (makePacket op0 payload0)) as [H1 H2]; try done.
  { eapply Forall_impl; [exact Hts |]. by intros h []. }
  { by apply makeTargets_NoDup. }
  by apply kept_same.
Qed.

Lemma run_task_kept cw t c :
  inv n c -> genuine n h0 -> quiet_cluster c -> 0 <= cw < Z.of_nat n -> task_ok n cw t -> quiet_task t ->
  (active = true -> is_target c = m) -> kept c (owed_task t) (run_task cw t c).
Proof.
  intros Hc Hg Hq Hw Hok Ht Hm. destruct t as [h w ch | owner sid | tg op pl ex wid | owner sid op pl
    | owner op pl ids | h pk | g pk | sid reason err | p]; cbn [task_ok quiet_task] in *.
  - by apply (on_registry_kept c cw _ _ (fun _ => [])).
  - by apply (on_registry_kept c cw _ _ (fun _ => [])).
  - subst wid. by apply fan_kept.
  - cbn [run_task owed_task]. destruct (registry_at c owner) as [[reg |] |]; cbn;
      [| by apply kept_same | apply kept_none].
    destruct (negb _); [apply kept_none |]. destruct (SessionRegistry.tryGetHandle _ _ _); [| by apply kept_same].
    destruct (bc_route c); cbn; [| apply kept_none]. by apply router_send_kept.
  - cbn [run_task owed_task]. destruct (registry_at c owner) as [[reg |] |]; cbn;
      [| by apply kept_same | apply kept_none].
    destruct (negb _); [apply kept_none |]. case_bool_decide; [by apply kept_same |].
    destruct (bc_route c) as [r |]; cbn; [| apply kept_none].
    destruct (router_broadcast_other cw r (omap (SessionRegistry.tryGetHandle cw reg) ids) (makePacket op pl)); [done |].
    by apply kept_same.
  - destruct (send_other h (rp_opcode pk) (view pk) ignore) as [E ?]; [done | done |]. cbn [run_task owed_task].
    rewrite <- E. by apply kept_one.
  - destruct (send_all_other g pk); [done |]. by apply kept_same.
  - intros c' l. cbn [run_task owed_task]. unfold closeLocal_. destruct (_ <? 0); intros [= <- <-].
    + split_and!; try done; apply Hq.
    + cbn [add_log log queues]. rewrite lsum_app. cbn. split_and!; try done; [lia | apply Hq |].
      apply Forall_app. split; [apply Hq | by apply Forall_singleton].
  - by apply prog_kept.
Qed.

(* ------------------------------------------------------------------ *)
(** ** Programs and threads *)

Lemma postToWorker_kept c w t (k : bool -> list instr) :
  genuine n h0 -> quiet_cluster c -> task_ok n w t -> quiet_task t ->
  (forall b, lsum owed (k b) = 0 /\ Forall quiet_instr (k b)) ->
  kept c (owed_task t) (let '(c', ok) := postToWorker (all_loops n) c w t in Some (c', k ok)).
Proof.
  intros Hg Hq Hok Ht Hk. unfold postToWorker. rewrite zlen_all_loops.
  destruct (_ || _) eqn:E.
  - destruct (Hk false). apply kept_same; [done | | done]. pose proof Hg as (_ & Hr & _).
    destruct t; try done. cbn in *. subst wid. destruct (Z.eqb_spec w owner0) as [Ew |]; [| by rewrite andb_false_r].
    unfold owner0 in Ew. b2p. lia.
  - rewrite all_loops_at by (b2p; lia). destruct (Hk true). by apply post_balance.
Qed.

Lemma broadcast_other cw b tg op body ex :
  op <> op0 ->
  lsum owed (broadcastImpl_ cw b tg op body ex) = 0 /\ Forall quiet_instr (broadcastImpl_ cw b tg op body ex).
Proof.
  intros Ho. unfold broadcastImpl_. destruct (ready_ b) as [[r s] |]; [| done]. unfold fanOut_. split.
  - apply lsum_zero. intros i (wid & -> & _)%list_elem_of_fmap. unfold here_or_post.
    destruct (_ && _); cbn; (rewrite (proj2 (Z.eqb_neq op op0)) by done); by rewrite andb_false_r.
  - apply Forall_fmap, Forall_true. intros wid. cbn. unfold here_or_post.
    destruct (_ && _); cbn; [by left | split; [by left | done]].
Qed.

Lemma multicast_other cw b sids op body ex :
  op <> op0 ->
  lsum owed (multicast cw b sids op body ex) = 0 /\ Forall quiet_instr (multicast cw b sids op body ex).
Proof.
  intros Ho. unfold multicast. destruct (ready_ b) as [[r s] |]; [| done]. case_bool_decide; [done |]. split.
  - apply lsum_zero. intros i (l & Hi & (w & -> & _)%list_elem_of_fmap)%list_elem_of_join.
    case_bool_decide; [by apply elem_of_nil in Hi |]. apply list_elem_of_singleton in Hi as ->.
    unfold here_or_post. by destruct (_ && _).
  - apply Forall_join, Forall_fmap, Forall_true. intros w. cbn. case_bool_decide; [constructor |].
    apply Forall_singleton. unfold here_or_post. by destruct (_ && _).
Qed.

Lemma close_kept cw c sid reason err l :
  quiet_cluster c -> lsum owed l = 0 -> Forall quiet_instr l -> kept c 0 (Some (closeLocal_ cw c sid reason err, l)).
Proof.
  intros Hq Hl Hql. unfold closeLocal_. destruct (_ <? 0); [by apply kept_same |].
  intros c' l' [= <- <-]. cbn [add_log log queues]. rewrite lsum_app. cbn. split_and!; try done; [lia | apply Hq |].
  apply Forall_app. split; [apply Hq | by apply Forall_singleton].
Qed.

Lemma kept_then c r k : kept c 0 r -> quiet k -> kept c 0 ('(c', l) ← r; Some (c', l ++ [KProg k])).
Proof.
  intros Hr Hk c' l'. destruct r as [[c1 l1] |]; [| done]. intros [= <- <-].
  destruct (Hr c1 l1 eq_refl) as (H1 & H2 & H3 & H4). rewrite lsum_app. cbn. split_and!; try done; [lia |].
  apply Forall_app. by split; [| apply Forall_singleton].
Qed.

Lemma sendToLocal_kept cw s c sid op body k :
  quiet_cluster c -> op <> op0 -> (forall b, quiet (k b)) -> kept c 0 (sendToLocal_ cw s c sid op body k).
Proof.
  intros Hq Ho Hk. unfold sendToLocal_. destruct (svc_router_ s); [| by apply prog_kept].
  destruct (_ || _); [by apply prog_kept |]. destruct (negb _); [apply kept_none |].
  destruct (SessionRegistry.tryGetHandle _ _ _); [| by apply prog_kept]. by apply router_send_kept.
Qed.

Lemma session_call_kept cw c owner o t :
  quiet_cluster c -> quiet_task t -> owed_task t = 0 ->
  kept c 0 (if cw =? owner then '(c', _) ← on_registry cw c owner o; Some (c', [])
            else match scheduler_ (runtime c) with
                 | None => Some (c, [])
                 | Some s => Some (c, [KPost s owner t ignore])
                 end).
Proof.
  intros Hq Ht Ho. destruct (_ =? _); [by apply (on_registry_kept c cw _ _ (fun _ => [])) |].
  destruct (scheduler_ _); [| by apply kept_same]. apply kept_same; [done | cbn; lia |].
  apply Forall_singleton. by split.
Qed.

Lemma local_scheduler cw c s :
  inv n c -> local_ cw (runtime c) = Some s -> svc_scheduler_ s = Some (all_loops n).
Proof.
  intros Hc. unfold local_, localOrNull_. destruct (_ || _); [done |]. intros [_ E]%at_index_Some.
  apply (ro_shards _ _ (iv_rt n c Hc)) in E. apply E.
Qed.

Lemma postToOwner_kept cw c owner p k :
  quiet_cluster c -> quiet p -> (forall b, quiet (k b)) -> kept c 0 (Some (c, postToOwner cw c owner p k)).
Proof.
  intros Hq Hp Hk. unfold postToOwner. destruct (scheduler_ _); [| by apply prog_kept].
  destruct (_ =? _); [| by apply (kept_one c (KPost l owner (TUser p) k))].
  apply kept_same; [done | done |]. apply Forall_cons. split; [done |]. apply Forall_singleton, Hk.
Qed.

Lemma run_prog_kept cw p c :
  inv n c -> genuine n h0 -> quiet_cluster c -> quiet p -> kept c 0 (run_prog cw p c).
Proof.
  intros Hc Hg Hq Hp. destruct p as [| h w ch k | h k | o k | sid op body k | sid op body k | tg op body ex k
    | sids op body ex k | sid reason err k | sid reason err k | h op body k | ts pk k | wid p k | sid p k | h p k];
    cbn [run_prog quiet] in *.
  - by apply kept_same.
  - apply kept_then; [| done]. unfold rt_onSessionStart. case_bool_decide; [by apply kept_same |].
    by apply session_call_kept.
  - apply kept_then; [| done]. unfold rt_onSessionEnd. case_bool_decide; [by apply kept_same |].
    by apply session_call_kept.
  - destruct (local_ cw (runtime c)); [| apply kept_none]. cbn.
    apply (on_registry_kept c cw _ _ (fun r => [KProg (k r)])); [done |]. intros r. split; [done |].
    apply Forall_singleton, Hp.
  - destruct Hp as [Ho Hk]. destruct (local_ cw (runtime c)) as [s |]; [| apply kept_none]. cbn. unfold sendTo.
    destruct (svc_router_ s); [| by apply prog_kept]. destruct (_ <? 0); [by apply prog_kept |].
    destruct (_ =? _); [by apply sendToLocal_kept |]. unfold bc_sendTo. rewrite (ro_bc _ _ (iv_rt n c Hc)).
    unfold ready_. cbn. case_bool_decide; [by apply prog_kept |]. destruct (_ || _); [by apply prog_kept |].
    apply (postToWorker_kept c _ (TSendTo _ _ _ _) (fun b => [KProg (k b)])); try done.
    intros b. split; [done |]. apply Forall_singleton, Hk.
  - destruct Hp as [Ho Hk]. destruct (local_ cw (runtime c)) as [s |]; [| apply kept_none]. cbn.
    by apply sendToLocal_kept.
  - destruct Hp as [Ho Hk]. destruct (local_ cw (runtime c)) as [s |]; [| apply kept_none]. cbn.
    destruct (svc_router_ s); [| by apply prog_kept].
    destruct (broadcast_other cw (broadcaster_ (runtime c)) tg op body ex Ho).
    apply kept_same; [done | rewrite lsum_app; cbn; lia |]. apply Forall_app. by split; [| apply Forall_singleton].
  - destruct Hp as [Ho Hk]. destruct (local_ cw (runtime c)) as [s |]; [| apply kept_none]. cbn.
    destruct (svc_router_ s); [| by apply prog_kept].
    destruct (multicast_other cw (broadcaster_ (runtime c)) sids op body ex Ho).
    apply kept_same; [done | rewrite lsum_app; cbn; lia |]. apply Forall_app. by split; [| apply Forall_singleton].
  - destruct (local_ cw (runtime c)) as [s |] eqn:El; [| apply kept_none]. cbn. unfold close.
    destruct (_ <? 0); [by apply prog_kept |]. destruct (svc_scheduler_ s) as [sc |] eqn:Es; [| by apply prog_kept].
    destruct (negb _); [| apply close_kept; [done | done | by apply Forall_singleton]].
    pose proof (local_scheduler cw c s Hc El) as Hs. rewrite Es in Hs. injection Hs as ->.
    pose proof (postToWorker_kept c (ownerWorkerFromId sid) (TClose sid reason err) (fun _ => [KProg k])) as Hp'.
    destruct (postToWorker _ _ _ _). apply Hp'; try done. intros _. split; [done |]. by apply Forall_singleton.
  - destruct (local_ cw (runtime c)) as [s |]; [| apply kept_none]. cbn. unfold closeLocal.
    destruct (_ || _); [by apply prog_kept |]. apply close_kept; [done | done | by apply Forall_singleton].
  - destruct Hp as [Ho Hk]. destruct (router_ _); [| apply kept_none]. by apply router_send_view_kept.
  - destruct Hp as [Ho Hk]. destruct (router_ _) as [r |]; [| apply kept_none].
    destruct (router_broadcast_other cw r ts pk Ho). apply kept_same; [done | rewrite lsum_app; cbn; lia |].
    apply Forall_app. by split; [| apply Forall_singleton].
  - destruct Hp as [Hp Hk]. unfold rt_postToWorker. destruct (scheduler_ _) as [l |]; [| by apply prog_kept].
    by apply (kept_one c (KPost l wid (TUser p) k)).
  - destruct Hp as [Hp Hk]. apply postToOwner_kept; done.
  - destruct Hp as [Hp Hk]. apply postToOwner_kept; done.
Qed.

Lemma exec_kept cw b i c :
  inv n c -> genuine n h0 -> quiet_cluster c -> worker_id n cw -> instr_ok n cw i -> quiet_instr i ->
  (active = true -> is_target c = m) -> kept c (owed i) (exec cw b i c).
Proof.
  intros Hc Hg Hq Hcw Hok Hi Hm. destruct i as [p | t | s wid t k | owner t | h op v k]; cbn [exec instr_ok quiet_instr owed] in *.
  - by apply run_prog_kept.
  - destruct Hok. apply run_task_kept; try done. destruct Hcw; lia.
  - destruct Hok as (-> & Ht & _), Hi as (Hqt & Hk).
    apply (postToWorker_kept c wid t (fun ok => [KProg (k ok)])); try done.
    intros ok. split; [done |]. apply Forall_singleton, Hk.
  - by apply post_balance.
  - destruct Hok as ((Hv & _ & _ & Hs) & _ & _), Hi as [Ho Hk]. unfold sendLocalPacketU16. rewrite Hv, Hs.
    intros c' l [= <- <-]. cbn [add_log log queues]. rewrite lsum_app. cbn. split; [lia |].
    split; [apply Forall_singleton, Hk |]. split; [apply Hq |]. apply Forall_app.
    split; [apply Hq |]. apply Forall_singleton. cbn. intros ->. by destruct Ho.
Qed.

Lemma act_kept c a c' :
  (0 < n)%nat -> inv n c -> genuine n h0 -> quiet_cluster c -> quiet_action a ->
  (active = true -> is_target c = m) -> act c a = Some c' -> balance c' = balance c /\ quiet_cluster c'.
Proof.
  intros Hn Hc Hg Hq Ha Hm E. destruct a as [t b | w | t p]; cbn [act] in E.
  - destruct (stack c t) as [| i rest] eqn:Es; [by simplify_eq |].
    assert (Hin : forall j, j ∈ i :: rest -> quiet_instr j /\ instr_ok n (worker_of c t) j).
    { intros j Hj. rewrite <- Es in Hj. split; [by eapply (qc_stacks c Hq) | by apply (iv_stacks n c Hc)]. }
    destruct (Hin i) as [Hqi Hoki]; [left |].
    assert (Hcw : worker_id n (worker_of c t)) by by apply worker_of_id, (iv_n n c Hc).
    destruct (exec_ok n (worker_of c t) b i c Hn Hc Hcw Hoki) as (c1 & l & Ee & _ & Et & _).
    rewrite Ee in E. cbn in E. injection E as <-.
    destruct (exec_kept (worker_of c t) b i c Hc Hg Hq Hcw Hoki Hqi Hm c1 l Ee) as (Hb & Hl & Hqq & Hlog).
    split.
    + unfold balance, pending. cbn [set_stack threads queues log]. rewrite total_insert, Et. fold (stack c t).
      rewrite Es, lsum_app. cbn [lsum]. lia.
    + split; [done | | done]. intros t' j. unfold stack. cbn [set_stack threads].
      destruct (decide (t = t')) as [<- |].
      * rewrite lookup_insert_eq. cbn. rewrite elem_of_app. intros [Hj | Hj].
        -- rewrite Forall_forall in Hl. by apply Hl.
        -- apply Hin. by right.
      * rewrite lookup_insert_ne, Et by done. apply (qc_stacks c Hq).
  - destruct (negb _); [by simplify_eq |]. destruct (stack c w) as [| i rest] eqn:Es; [| by simplify_eq].
    destruct (queue c w) as [| t q] eqn:Eq; cbn [tryPop] in E; [by simplify_eq |]. injection E as <-.
    assert (Hin : forall j, j ∈ t :: q -> quiet_task j).
    { intros j Hj. rewrite <- Eq in Hj. by eapply (qc_queues c Hq). }
    split.
    + unfold balance, pending. cbn [set_stack set_queue threads queues log]. rewrite !total_insert.
      fold (stack c w) (queue c w). rewrite Es, Eq. cbn. lia.
    + split; [| | apply Hq].
      * intros w' j. unfold queue. cbn [set_stack set_queue queues]. destruct (decide (w = w')) as [<- |].
        -- rewrite lookup_insert_eq. cbn. intros Hj. apply Hin. by right.
        -- rewrite lookup_insert_ne by done. apply (qc_queues c Hq).
      * intros t' j. unfold stack. cbn [set_stack set_queue threads]. destruct (decide (w = t')) as [<- |].
        -- rewrite lookup_insert_eq. cbn. intros ->%list_elem_of_singleton. apply Hin. left.
        -- rewrite lookup_insert_ne by done. apply (qc_stacks c Hq).
  - injection E as <-. split.
    + unfold balance, pending. cbn [set_stack threads queues log]. rewrite total_insert. fold (stack c t). cbn [lsum owed]. lia.
    + split; [apply Hq | | apply Hq]. intros t' j. unfold stack. cbn [set_stack threads].
      destruct (decide (t = t')) as [<- |].
      * rewrite lookup_insert_eq. cbn. intros [-> | Hj]%elem_of_cons; [done |]. by eapply (qc_stacks c Hq).
      * rewrite lookup_insert_ne by done. apply (qc_stacks c Hq).
Qed.

(** [P] holds in every state of a run. *)
Fixpoint always (P : cluster -> Prop) (c : cluster) (s : list action) : Prop :=
  P c /\ match s with
         | [] => True
         | a :: s' => match act c a with Some c' => always P c' s' | None => True end
         end.

Lemma run_kept s c :
  (0 < n)%nat -> inv n c -> genuine n h0 -> quiet_cluster c -> Forall (action_ok n) s -> Forall quiet_action s ->
  (active = true -> always (fun c => is_target c = m) c s) ->
  exists c', run_cluster c s = Some c' /\ inv n c' /\ balance c' = balance c /\ quiet_cluster c'.
Proof.
  intros Hn. revert c. induction s as [| a s IH]; intros c Hc Hg Hq Hok Hqs Hal.
  { exists c. by split_and!. }
  apply Forall_cons in Hok as [Ha Hok], Hqs as [Hqa Hqs].
  destruct (act_ok n c a Hn Hc Ha) as (c1 & E & Hc1).
  destruct (act_kept c a c1 Hn Hc Hg Hq Hqa) as [Hb Hq1]; [intros Hact; by destruct (Hal Hact) | done |].
  destruct (IH c1) as (c2 & Er & Hc2 & Hb2 & Hq2); try done.
  { intros Hact. destruct (Hal Hact) as [_ H]. by rewrite E in H. }
  exists c2. unfold run_cluster in *. cbn [fold_left]. cbn. rewrite E. split_and!; try done. lia.
Qed.

(** The fan-out of this broadcast owes the session [m]. *)
Lemma fan_sum cw s ws :
  NoDup ws ->
  lsum owed (map (fun wid => here_or_post cw s wid (TFan tg0 op0 payload0 ex0 wid)) ws) =
  Z.b2z (m && bool_decide (owner0 ∈ ws)).
Proof.
  induction 1 as [| w ws Hni Hnd IH]; [by rewrite bool_decide_eq_false_2, andb_false_r by apply not_elem_of_nil |].
  cbn [map lsum]. rewrite IH.
  assert (Ew : owed (here_or_post cw s w (TFan tg0 op0 payload0 ex0 w)) = Z.b2z (m && (w =? owner0))).
  { unfold here_or_post. destruct ((0 <=? cw) && _); cbn [owed owed_task]; by rewrite Z.eqb_refl, andb_true_r. }
  rewrite Ew. destruct (Z.eqb_spec w owner0) as [-> |].
  - rewrite (bool_decide_eq_false_2 (owner0 ∈ ws)), bool_decide_eq_true_2 by (done || left).
    by destruct m.
  - rewrite (bool_decide_ext (owner0 ∈ w :: ws) (owner0 ∈ ws)); [by rewrite andb_false_r |].
    rewrite elem_of_cons. naive_solver.
Qed.

Lemma broadcast_starts c t b :
  inv n c -> genuine n h0 -> active = true -> quiet_cluster c -> 0 <= t < Z.of_nat n ->
  exists c1, run_cluster c [Callback t (PBroadcast tg0 op0 body0 ex0 PDone); Step t b] = Some c1 /\
    inv n c1 /\ quiet_cluster c1 /\ balance c1 = balance c + Z.b2z m.
Proof.
  intros Hc Hg Hact Hq Ht. assert (Hn : (0 < n)%nat) by lia.
  destruct (run_ok n [Callback t (PBroadcast tg0 op0 body0 ex0 PDone); Step t b] c Hn Hc) as (c1 & E & Hc1).
  { repeat constructor; cbn; zb_eval; done. }
  exists c1. split; [done |]. split; [done |]. rewrite (broadcast_call n) in E by done. injection E as <-.
  assert (Hsum : lsum owed (fanOut_ t (broadcaster_ (runtime c)) (all_loops n) tg0 op0 (copyPayload body0) ex0) = Z.b2z m).
  { unfold fanOut_. fold payload0. rewrite fan_sum by apply NoDup_seqZ. rewrite (zlen_regs n c Hc).
    rewrite bool_decide_eq_true_2; [by rewrite andb_true_r |]. apply elem_of_seqZ. destruct Hg as (_ & ? & _).
    unfold owner0. lia. }
  split.
  - split; [apply Hq | | apply Hq]. intros t' j. unfold stack at 1. cbn [set_stack threads].
    destruct (decide (t = t')) as [<- |]; [| rewrite lookup_insert_ne by done; apply (qc_stacks c Hq)].
    rewrite lookup_insert_eq. cbn. rewrite !elem_of_app, list_elem_of_singleton.
    intros [[Hj | ->] | Hj]; [| done | by eapply (qc_stacks c Hq)].
    apply list_elem_of_fmap in Hj as (w & -> & _). unfold here_or_post.
    destruct (_ && _); cbn; [by right | split; [by right | done]].
  - unfold balance, pending. cbn [set_stack threads queues log]. rewrite total_insert.
    fold (stack c t). rewrite !lsum_app, Hsum. cbn. lia.
Qed.

End Broadcast.

(* ------------------------------------------------------------------ *)
(** ** Completion *)

Section Completion.
Context (n : nat).

Definition driver (a : action) : Prop := match a with Callback _ _ => False | _ => True end.

(** The threads can get from one state to another on their own. *)
Definition leads (c c' : cluster) : Prop :=
  exists s, Forall driver s /\ run_cluster c s = Some c'.

Lemma run_app s1 s2 c : run_cluster c (s1 ++ s2) = c1 ← run_cluster c s1; run_cluster c1 s2.
Proof.
  unfold run_cluster. rewrite fold_left_app. destruct (fold_left _ s1 _) as [c1 |]; [done |].
  cbn. induction s2; [done |]. cbn. done.
Qed.

Lemma leads_refl c : leads c c.
Proof. by exists []. Qed.

Lemma leads_trans c1 c2 c3 : leads c1 c2 -> leads c2 c3 -> leads c1 c3.
Proof.
  intros (s1 & H1 & E1) (s2 & H2 & E2). exists (s1 ++ s2). split; [by apply Forall_app |].
  by rewrite run_app, E1.
Qed.

Lemma leads_act c a c' : driver a -> act c a = Some c' -> leads c c'.
Proof. intros Ha E. exists [a]. split; [by apply Forall_singleton | done]. Qed.

Lemma driver_ok a : driver a -> action_ok n a.
Proof. by destruct a. Qed.

Lemma leads_inv c c' : (0 < n)%nat -> inv n c -> leads c c' -> inv n c'.
Proof.
  intros Hn Hc (s & Hs & E). destruct (run_ok n s c Hn Hc) as (c1 & E1 & H1); [| congruence].
  eapply Forall_impl; [exact Hs |]. apply driver_ok.
Qed.

Definition is_fan (t : task) : bool := match t with TFan _ _ _ _ _ => true | _ => false end.

(** What a broadcast leaves to do on a thread; [posts] while it fans out. *)
Definition simple (posts : bool) (i : instr) : Prop :=
  match i with
  | KProg p => p = PDone
  | KTask t => is_fan t = true
  | KPost _ _ t k => posts = true /\ is_fan t = true /\ k = ignore
  | KSend _ _ _ k => k = ignore
  | KLoopPost _ _ => False
  end.

Record done_to (posts : bool) (t : Z) (rest : list instr) (c c' : cluster) : Prop := {
  dt_leads : leads c c';
  dt_runtime : runtime c' = runtime c;
  dt_stack : stack c' t = rest;
  dt_stacks : forall t', t' <> t -> stack c' t' = stack c t';
  dt_queues : forall w, exists q, queue c' w = queue c w ++ q /\ Forall (fun x => is_fan x = true) q /\
    (posts = false -> q = [])
}.

Lemma done_refl posts t c rest : stack c t = rest -> done_to posts t rest c c.
Proof.
  intros E. split; try done; [apply leads_refl |]. intros w. exists []. by rewrite app_nil_r.
Qed.

Lemma done_trans posts t r1 r2 c1 c2 c3 :
  done_to posts t r1 c1 c2 -> done_to posts t r2 c2 c3 -> done_to posts t r2 c1 c3.
Proof.
  intros H1 H2. split.
  - eapply leads_trans; [apply H1 | apply H2].
  - rewrite (dt_runtime _ _ _ _ _ H2). apply H1.
  - apply H2.
  - intros t' Ht. rewrite (dt_stacks _ _ _ _ _ H2) by done. by apply H1.
  - intros w. destruct (dt_queues _ _ _ _ _ H1 w) as (q1 & E1 & F1 & N1).
    destruct (dt_queues _ _ _ _ _ H2 w) as (q2 & E2 & F2 & N2). exists (q1 ++ q2).
    rewrite E2, E1, (assoc_L (++)). split_and!; [done | by apply Forall_app |].
    intros Hp. by rewrite N1, N2.
Qed.

(** One instruction that leaves the queues alone, or posts a fan-out. *)
Lemma done_step posts t i rest c c1 l :
  stack c t = i :: rest -> exec (worker_of c t) true i c = Some (c1, l) ->
  runtime c1 = runtime c -> threads c1 = threads c ->
  (forall w, exists q, queue c1 w = queue c w ++ q /\ Forall (fun x => is_fan x = true) q /\ (posts = false -> q = [])) ->
  done_to posts t (l ++ rest) c (set_stack c1 t (l ++ rest)).
Proof.
  intros Es Ee Hr Ht Hq. split; [| done | | | done].
  - apply (leads_act c (Step t true)); [done |]. cbn [act]. by rewrite Es, Ee.
  - unfold stack. cbn [set_stack threads]. by rewrite lookup_insert_eq.
  - intros t' Hne. unfold stack. cbn [set_stack threads]. by rewrite lookup_insert_ne, Ht.
Qed.

Lemma done_step_same posts t i rest c c1 l :
  stack c t = i :: rest -> exec (worker_of c t) true i c = Some (c1, l) ->
  runtime c1 = runtime c -> threads c1 = threads c -> queues c1 = queues c ->
  done_to posts t (l ++ rest) c (set_stack c1 t (l ++ rest)).
Proof.
  intros Es Ee Hr Ht Hq. eapply done_step; try done. intros w. exists [].
  unfold queue. by rewrite Hq, app_nil_r.
Qed.

Lemma prog_done posts t rest c : stack c t = KProg PDone :: rest -> exists c', done_to posts t rest c c'.
Proof. intros Es. eexists. by apply (done_step_same posts t _ rest c c [] Es). Qed.

Lemma send_done posts t h op v rest c :
  stack c t = KSend h op v ignore :: rest -> exists c', done_to posts t rest c c'.
Proof.
  intros Es. destruct (sendLocalPacketU16 (worker_of c t) true h op v c) as [c1 ok] eqn:E.
  assert (H1 : done_to posts t (KProg PDone :: rest) c (set_stack c1 t (KProg PDone :: rest))).
  { unfold sendLocalPacketU16 in E.
    apply (done_step_same posts t _ rest c c1 [KProg PDone] Es); [by cbn; unfold sendLocalPacketU16; rewrite E | ..];
      destruct (negb _); [| destruct (sender_ h)| | destruct (sender_ h)| | destruct (sender_ h)]; by simplify_eq. }
  destruct (prog_done posts t rest (set_stack c1 t (KProg PDone :: rest)) (dt_stack _ _ _ _ _ H1)) as [c' H2].
  exists c'. by eapply done_trans.
Qed.

Lemma sends_done posts t g pk rest c :
  stack c t = send_all g pk ++ rest -> exists c', done_to posts t rest c c'.
Proof.
  revert c. induction g as [| h g IH]; intros c Es; [exists c; by apply done_refl |].
  destruct (send_done posts t h _ _ (send_all g pk ++ rest) c Es) as [c1 H1].
  destruct (IH c1 (dt_stack _ _ _ _ _ H1)) as [c2 H2]. exists c2. by eapply done_trans.
Qed.

Lemma fan_done posts t tk rest c :
  inv n c -> stack c t = KTask tk :: rest -> is_fan tk = true -> exists c', done_to posts t rest c c'.
Proof.
  intros Hc Es Hf. destruct tk as [| | tg op pl ex wid | | | | | |]; try done.
  destruct (iv_stacks n c Hc t (KTask (TFan tg op pl ex wid))) as [Hw ->]; [rewrite Es; left |].
  pose proof (worker_of_id n c t (iv_n n c Hc)) as Hid. unfold worker_id in Hid.
  set (w := worker_of c t) in *. assert (Hr : 0 <= w < Z.of_nat n) by lia.
  destruct (registry_at_ok n c Hc w Hr) as (s & _ & Hs & Ereg).
  set (ts := makeTargets w (shard_reg s) tg ex).
  assert (Ee : exec w true (KTask (TFan tg op pl ex w)) c = Some (c, send_all ts (makePacket op pl))).
  { cbn [exec run_task]. rewrite Ereg. cbn. rewrite (owner_check n w s) by done. cbn [negb].
    unfold bc_route. rewrite (ro_bc _ _ (iv_rt n c Hc)). cbn. fold ts.
    case_bool_decide as E; [by rewrite E |]. rewrite (router_broadcast_local n); [done | done |].
    apply Forall_forall. intros h Hh. by eapply makeTargets_genuine. }
  pose proof (done_step_same posts t _ rest c c (send_all ts (makePacket op pl)) Es Ee eq_refl eq_refl eq_refl) as H1.
  destruct (sends_done posts t ts (makePacket op pl) rest _ (dt_stack _ _ _ _ _ H1)) as [c' H2].
  exists c'. by eapply done_trans.
Qed.

Lemma post_done t s w tk rest c :
  stack c t = KPost s w tk ignore :: rest -> is_fan tk = true -> exists c', done_to true t rest c c'.
Proof.
  intros Es Hf. destruct (postToWorker s c w tk) as [c1 ok] eqn:E.
  assert (H1 : done_to true t (KProg PDone :: rest) c (set_stack c1 t (KProg PDone :: rest))).
  { apply (done_step true t _ rest c c1 [KProg PDone] Es); [by cbn; rewrite E | ..];
      unfold postToWorker in E; destruct (_ || _); [| destruct (at_index s w) as [[|] |]|
        | destruct (at_index s w) as [[|] |]| | destruct (at_index s w) as [[|] |]]; simplify_eq; try done;
      intros w'; try (exists []; by rewrite app_nil_r).
    unfold queue, post. cbn [set_queue queues]. destruct (decide (w = w')) as [<- |].
    - rewrite lookup_insert_eq. exists [tk]. split_and!; [done | by apply Forall_singleton | done].
    - rewrite lookup_insert_ne by done. exists []. by rewrite app_nil_r. }
  destruct (prog_done true t rest _ (dt_stack _ _ _ _ _ H1)) as [c' H2]. exists c'. by eapply done_trans.
Qed.

Lemma stack_done posts t l rest c :
  (0 < n)%nat -> inv n c -> Forall (simple posts) l -> stack c t = l ++ rest -> exists c', done_to posts t rest c c'.
Proof.
  intros Hn Hc Hl. revert c Hc. induction Hl as [| i l Hi Hl IH]; intros c Hc Es; [exists c; by apply done_refl |].
  assert (exists c1, done_to posts t (l ++ rest) c c1) as [c1 H1].
  { destruct i as [p | tk | s w tk k | | h op v k]; cbn in Hi, Es; [subst p | | destruct Hi as (-> & ? & ->) | done | subst k].
    - by apply prog_done.
    - by eapply fan_done.
    - by eapply post_done.
    - by eapply send_done. }
  destruct (IH c1) as [c2 H2]; [by eapply leads_inv, H1 | apply H1 |]. exists c2. by eapply done_trans.
Qed.

(** A worker empties its queue of fan-outs. *)
Lemma queue_done w q c :
  (0 < n)%nat -> inv n c -> 0 <= w < Z.of_nat n -> Forall (fun x => is_fan x = true) q ->
  stack c w = [] -> queue c w = q ->
  exists c', leads c c' /\ runtime c' = runtime c /\ queue c' w = [] /\
    (forall t, stack c' t = stack c t) /\ (forall w', w' <> w -> queue c' w' = queue c w').
Proof.
  intros Hn Hc Hw Hq. revert c Hc. induction Hq as [| tk q Hf Hq IH]; intros c Hc Es Eq.
  { exists c. split_and!; try done. apply leads_refl. }
  set (c1 := set_stack (set_queue c w q) w [KTask tk]).
  assert (E1 : act c (Take w) = Some c1).
  { cbn [act]. rewrite (worker_of_n n) by done. zb_eval. cbn [andb negb]. zb_eval. cbn [negb]. by rewrite Es, Eq. }
  assert (L1 : leads c c1) by by apply (leads_act c (Take w)).
  assert (S1 : stack c1 w = [KTask tk] ++ []) by (unfold stack, c1; cbn; by rewrite lookup_insert_eq).
  destruct (stack_done false w [KTask tk] [] c1) as [c2 H2]; try done; [by eapply leads_inv | by apply Forall_singleton |].
  assert (Q2 : forall w', queue c2 w' = queue c1 w').
  { intros w'. destruct (dt_queues _ _ _ _ _ H2 w') as (q' & -> & _ & Hnil). rewrite (Hnil eq_refl). by rewrite app_nil_r. }
  destruct (IH c2) as (c3 & L3 & R3 & Q3 & S3 & O3).
  - eapply leads_inv; [done | exact Hc |]. eapply leads_trans; [done | apply H2].
  - apply H2.
  - rewrite Q2. unfold queue, c1. cbn. by rewrite lookup_insert_eq.
  - exists c3. split_and!; [| | done | |].
    + eapply leads_trans; [exact L1 |]. eapply leads_trans; [apply H2 | done].
    + rewrite R3. by rewrite (dt_runtime _ _ _ _ _ H2).
    + intros t. rewrite S3. destruct (decide (t = w)) as [-> |]; [rewrite Es; apply H2 |].
      rewrite (dt_stacks _ _ _ _ _ H2) by done. unfold stack, c1. cbn. by rewrite lookup_insert_ne.
    + intros w' Hne. rewrite O3, Q2 by done. unfold queue, c1. cbn. by rewrite lookup_insert_ne.
Qed.

Definition idle (c : cluster) : Prop := forall t, stack c t = [] /\ queue c t = [].

Lemma queues_done ws c :
  (0 < n)%nat -> inv n c -> (forall w, w ∈ ws -> 0 <= w < Z.of_nat n) -> NoDup ws ->
  (forall t, stack c t = []) -> (forall w, Forall (fun x => is_fan x = true) (queue c w)) ->
  exists c', leads c c' /\ runtime c' = runtime c /\ (forall t, stack c' t = []) /\
    (forall w, w ∈ ws -> queue c' w = []) /\ (forall w, w ∉ ws -> queue c' w = queue c w).
Proof.
  intros Hn Hc Hws Hnd Hs Hq. induction Hnd as [| w ws Hni Hnd IH].
  { exists c. split_and!; try done; [apply leads_refl |]. by intros w ?%elem_of_nil. }
  destruct IH as (c1 & L1 & R1 & S1 & Q1 & O1); [intros; apply Hws; by right |].
  destruct (queue_done w (queue c1 w) c1) as (c2 & L2 & R2 & Q2 & S2 & O2); try done.
  { by eapply leads_inv. } { apply Hws. left. } { rewrite O1 by done. apply Hq. }
  exists c2. split_and!.
  - by eapply leads_trans.
  - by rewrite R2.
  - intros t. by rewrite S2.
  - intros w' [-> | Hin]%elem_of_cons; [done |]. rewrite O2 by (intros ->; done). by apply Q1.
  - intros w' [Hne Hni']%not_elem_of_cons. rewrite O2 by done. by apply O1.
Qed.

End Completion.

(* ------------------------------------------------------------------ *)
(** ** Theorems *)

(** C7: Confinement.  Any number of workers, started by the engine, run any
    interleaving of application code, tasks and callbacks on any threads.  No
    thread aborts (no registry is used off its worker, no index is out of
    range), every registry holds sessions of its own worker only, and every
    packet and every close that reaches a session manager comes from the worker
    that owns the session.  The hypotheses are the rules for applications:
    handles come from the engine and the service is used on workers. *)
Theorem workers_confined (n : nat) (s : list action) :
  (0 < n)%nat -> Forall (action_ok n) s ->
  exists c, run_cluster (start n) s = Some c /\
    Forall event_ok (log c) /\
    forall i sh sid rec, shards_ (runtime c) !! i = Some sh ->
      SessionRegistry.store_ (shard_reg sh) !! sid = Some rec ->
      ownerWorkerFromId sid = Z.of_nat i /\ id_ (SessionRegistry.handle rec) = sid.
Proof.
  intros Hn Hs. destruct (run_ok n s (start n) Hn (start_inv n) Hs) as (c & E & Hc).
  exists c. split_and!; [done | apply Hc |]. intros i sh sid rec Hi Hr.
  pose proof (ro_shards _ _ (iv_rt n c Hc) i sh Hi) as Hsh.
  destruct (so_handles _ _ _ Hsh sid rec Hr) as [(_ & _ & Ho & _) Hw].
  pose proof (SessionRegistry.ro_id _ (so_reg _ _ _ Hsh) sid rec Hr) as Hid. split; [| done]. congruence.
Qed.

(** Sends of [op] to session [h] so far. *)
Definition count_sent (h : SessionHandle) (op : Z) (c : cluster) : Z := lsum (sent h op) (log c).

Lemma quiet_weaken op ex tg body c :
  quiet_cluster op ex tg body false c -> quiet_cluster op ex tg body true c.
Proof.
  intros [H1 H2 H3]. split.
  - intros w t Ht. specialize (H1 w t Ht). destruct t; try done. cbn in *. destruct H1 as [|[? _]]; [by left | done].
  - intros t i Hi. specialize (H2 t i Hi).
    assert (Hw : forall tk, quiet_task op ex tg body false tk -> quiet_task op ex tg body true tk).
    { intros [] Hk; try done. cbn in *. destruct Hk as [|[? _]]; [by left | done]. }
    destruct i; cbn in *; try done; try (by apply Hw).
    + destruct H2. by split; [apply Hw |].
    + destruct H2 as [[|[? _]] ?]; [by split; [left |] | done].
  - eapply Forall_impl; [exact H3 |]. intros [] He; [| done]. cbn in *. intros Ho. by destruct (He Ho).
Qed.

Lemma start_quiet n op ex tg body : quiet_cluster op ex tg body false (start n).
Proof.
  split; [| | constructor].
  - intros w t. unfold queue, start. cbn. rewrite lookup_empty. intros []%elem_of_nil.
  - intros w t. unfold stack, start. cbn. rewrite lookup_empty. intros []%elem_of_nil.
Qed.

Lemma idle_pending h op m c : idle c -> pending h op m c = 0.
Proof.
  intros Hi. unfold pending. rewrite !total_zero; [done | |]; intros k x Hx; exfalso;
    destruct (Hi k) as [H1 H2]; unfold stack, queue in *; rewrite ?H1, ?H2 in Hx; by apply elem_of_nil in Hx.
Qed.

(** A view that covers its bytes survives the copy into a packet. *)
Lemma copy_view op body : view_ok body -> view_bytes (view (makePacket op (copyPayload body))) = view_bytes body.
Proof.
  intros Hok. unfold copyPayload, makePacket, view, copy_bytes, view_bytes, view_ok in *.
  destruct body as [[p |] k]; cbn in *.
  - destruct (Z.eqb_spec k 0) as [-> |]; cbn; [by rewrite ztake_0 |].
    destruct (ztake k p) as [| x l] eqn:E; [done |]. cbn. by rewrite ztake_ge by lia.
  - by subst.
Qed.

(** C3: Exactly-once broadcast.  A worker broadcasts a packet (to all, to a
    scope or to a topic) at any point of any run; other threads go on in any
    interleaving and send no other packet of that opcode.  As long as a
    session stays subscribed, it is never sent the packet twice, and when the
    queues have been worked off it has been sent exactly once, with the bytes
    of the body; a session that is not a target ([m] false) is never sent it. *)
Theorem broadcast_delivers_once (n : nat) (t ex op : Z) (tg : targets) (body : MessageView)
    (h : SessionHandle) (s1 s2 : list action) (m : bool) :
  genuine n h -> 0 <= t < Z.of_nat n -> view_ok body ->
  Forall (action_ok n) (s1 ++ s2) -> Forall (quiet_action op) (s1 ++ s2) ->
  exists c1,
    run_cluster (start n) (s1 ++ [Callback t (PBroadcast tg op body ex PDone); Step t true]) = Some c1 /\
    (always (fun c => is_target h ex tg c = m) c1 s2 ->
     exists c2, run_cluster c1 s2 = Some c2 /\
       count_sent h op c2 <= Z.b2z m /\ (idle c2 -> count_sent h op c2 = Z.b2z m) /\
       forall cw h' b ok, EvSent cw h' op b ok ∈ log c2 -> b = view_bytes body).
Proof.
  intros Hg Ht Hv [Hok1 Hok2]%Forall_app [Hq1 Hq2]%Forall_app.
  assert (Hn : (0 < n)%nat) by lia.
  destruct (run_kept n h op ex tg body false m s1 (start n)) as (c0 & E0 & H0 & B0 & Q0); try done.
  { apply start_inv. } { apply start_quiet. }
  destruct (broadcast_starts n h op ex tg body true m c0 t true) as (c1 & E1 & H1 & Q1 & B1); try done.
  { by apply quiet_weaken. }
  exists c1. split; [by rewrite run_app, E0 |]. intros Hal.
  destruct (run_kept n h op ex tg body true m s2 c1) as (c2 & E2 & H2 & B2 & Q2); try done.
  exists c2. split; [done |].
  assert (Bs : balance h op m (start n) = 0).
  { unfold balance. rewrite idle_pending; [done |]. intros w. split; unfold stack, queue, start; cbn; by rewrite lookup_empty. }
  pose proof (pending_nonneg h op m c2) as Hp. unfold balance in *. unfold count_sent. split_and!.
  - lia.
  - intros Hi. rewrite (idle_pending h op m c2 Hi) in B2. lia.
  - intros cw h' b ok Hin. pose proof (qc_log _ _ _ _ _ c2 Q2) as Hlog. rewrite Forall_forall in Hlog.
    destruct (Hlog _ Hin eq_refl) as [_ ->]. by apply copy_view.
Qed.

Lemma fan_simple cw b s tg op pl ex : Forall (simple true) (fanOut_ cw b s tg op pl ex ++ [KProg PDone]).
Proof.
  apply Forall_app. split; [| by apply Forall_singleton]. apply Forall_fmap, Forall_true. intros w. cbn.
  unfold here_or_post. destruct (_ && _); by cbn.
Qed.


(* ------------------------------------------------------------------ *)
(** ** Examples *)

(** Two workers with one session each, both in topic 5 of scope 1. *)
Definition demo_h0 : SessionHandle := mk_handle 1 0 (Some 0).
Definition demo_h1 : SessionHandle := mk_handle 4294967297 1 (Some 1).
Definition demo_body : MessageView := mk_view (Some [z2b 104; z2b 105]) 2.

Definition demo_setup : list action :=
  [Callback 0 (PStart demo_h0 1 5 PDone); Callback 1 (PStart demo_h1 1 5 PDone); Step 1 true; Step 0 true;
   Step 1 true; Step 0 true].

(** Worker 1 fans out, worker 0 takes its part before worker 1 is done. *)
Definition demo_delivery : list action :=
  [Step 1 true; Step 1 true; Take 0; Step 0 true; Step 1 true; Step 0 true; Step 0 true; Step 1 true;
   Step 1 true; Step 1 true; Step 1 true].

Definition demo_call : list action := [Callback 1 (PBroadcast (TTopic 1 5) 7 demo_body 0 PDone); Step 1 true].

Lemma demo_genuine : genuine 2 demo_h0 /\ genuine 2 demo_h1.
Proof. split; by vm_compute. Qed.

Lemma demo_ok : Forall (action_ok 2) (demo_setup ++ demo_delivery).
Proof. repeat constructor; by vm_compute. Qed.

(** The states of the example. *)
Definition demo_run (s : list action) : cluster := default (start 2) (run_cluster (start 2) s).
Definition demo_c0 : cluster := demo_run demo_setup.
Definition demo_c1 : cluster := demo_run (demo_setup ++ demo_call).
Definition demo_c2 : cluster := demo_run (demo_setup ++ demo_call ++ demo_delivery).

(** [idle] as a test on the maps. *)
Definition no_entries {A} (m : gmap Z (list A)) : bool :=
  forallb (fun kl => match kl.2 with [] => true | _ => false end) (map_to_list m).
Definition idle_b (c : cluster) : bool := no_entries (queues c) && no_entries (threads c).

Lemma no_entries_spec {A} (m : gmap Z (list A)) k : no_entries m = true -> default [] (m !! k) = [].
Proof.
  intros H. unfold no_entries in H. rewrite List.forallb_forall in H. destruct (m !! k) as [l |] eqn:E; [| done].
  specialize (H (k, l)). cbn in *. destruct l; [done |]. discriminate H.
  by apply list_elem_of_In, elem_of_map_to_list.
Qed.

Lemma idle_decided c : idle_b c = true -> idle c.
Proof. intros [H1 H2]%andb_prop t. split; by apply no_entries_spec. Qed.

(** The packet reaches both sessions, each from its own worker. *)
Lemma workers_confined_witness :
  exists c, run_cluster (start 2) (demo_setup ++ demo_call ++ demo_delivery) = Some c /\ Forall event_ok (log c) /\
    log demo_c2 = [EvSent 0 demo_h0 7 [z2b 104; z2b 105] true; EvSent 1 demo_h1 7 [z2b 104; z2b 105] true].
Proof.
  destruct (workers_confined 2 (demo_setup ++ demo_call ++ demo_delivery)) as (c & E & He & _).
  - lia.
  - repeat constructor; by vm_compute.
  - exists c. split_and!; [done | done | by vm_compute].
Defined.

Lemma broadcast_delivers_once_witness :
  exists c2, run_cluster demo_c1 demo_delivery = Some c2 /\ (idle c2 -> count_sent demo_h0 7 c2 = 1) /\
    idle_b demo_c2 = true.
Proof.
  destruct (broadcast_delivers_once 2 1 0 7 (TTopic 1 5) demo_body demo_h0 demo_setup demo_delivery true)
    as (c1 & E1 & H).
  - apply demo_genuine.
  - lia.
  - by vm_compute.
  - apply demo_ok.
  - repeat constructor.
  - assert (Ec : c1 = demo_c1) by (unfold demo_c1, demo_run, demo_call; by rewrite E1). subst c1.
    destruct H as (c2 & E2 & _ & Hidle & _); [vm_compute; tauto |]. exists c2. split_and!; [done | done | by vm_compute].
Defined.


End Delivery.
