(* ===== verification/Guard.v ===== *)
(** * Guard: handlers that run only in allowed states

    Models [SessionStateMachine] and [AppRuntime::registerPacketHandlerCtx]:
    a handler registered with a mask of connection states is called only for a
    session whose state is in the mask, and only with a packet that parsed.
    The state machine of a worker looks the mask up in its table by opcode; a
    registration made before the shards exist keeps the mask in its closure. *)

From S2P Require Import Prelude Endian Message Handle PacketReader PacketCodec SessionRegistry Runtime.
Import Message Handle PacketCodec Runtime.

Module Guard.

(* ------------------------------------------------------------------ *)
(** ** SessionStateMachine *)

(** [tryGetAllowedContext_] of the machine of shard [sh], on worker [cw]. *)
Definition tryGetAllowedContext_ (cw : Z) (sh : WorkerShard) (sid opcode : Z)
  : option SessionRegistry.SessionContext :=
  match sm_allowed_ sh !! opcode with
  | None => None
  | Some mask =>
      match SessionRegistry.tryGetContext cw (shard_reg sh) sid with
      | None => None
      | Some ctx =>
          if Z.land mask (SessionRegistry.stateBit (SessionRegistry.state ctx)) =? 0 then None else Some ctx
      end
  end.

Definition isAllowed (cw : Z) (sh : WorkerShard) (sid opcode : Z) : bool :=
  match tryGetAllowedContext_ cw sh sid opcode with Some _ => true | None => false end.

Definition isAllowedCtx (sh : WorkerShard) (ctx : SessionRegistry.SessionContext) (opcode : Z) : bool :=
  match sm_allowed_ sh !! opcode with
  | None => false
  | Some mask => negb (Z.land mask (SessionRegistry.stateBit (SessionRegistry.state ctx)) =? 0)
  end.

Section Handlers.
Context {St : Type}.

(** What a handler acts on: the worker it runs on, the runtime, the rest. *)
Record gworld := mk_gworld { gw_cw : Z; gw_rt : AppRuntime; gw_app : St }.

Abbreviation handler := (Handler (Session := SessionHandle) (W := gworld)).
Abbreviation dispatcher := (Dispatcher (Session := SessionHandle) (W := gworld)).

(** A handler with the session's context. *)
Definition ctx_handler : Type :=
  SessionHandle -> MessageView -> SessionRegistry.SessionContext -> gworld -> gworld.

Definition update_shard (rt : AppRuntime) (i : nat) (f : WorkerShard -> WorkerShard) : AppRuntime :=
  set_shards rt (alter f i (shards_ rt)).

(** [registerGuardedCtx] of the machine of shard [i]; the closure keeps a
    pointer to the machine. *)
Definition guarded (i : nat) (opcode : Z) (fn : ctx_handler) : handler :=
  fun from body w =>
    match shards_ (gw_rt w) !! i with
    | None => w
    | Some sh =>
        match tryGetAllowedContext_ (gw_cw w) sh (id_ from) opcode with
        | None => w
        | Some ctx => fn from body ctx w
        end
    end.

Definition registerGuardedCtx (i : nat) (rt : AppRuntime) (d : dispatcher) (opcode allowedMask : Z)
    (fn : ctx_handler) : AppRuntime * dispatcher :=
  (update_shard rt i (fun s => setAllowedStates s opcode allowedMask),
   (registerHandler d opcode (Some (guarded i opcode fn))).1).

(** [registerGuarded]: the handler does not see the context. *)
Definition registerGuarded (i : nat) (rt : AppRuntime) (d : dispatcher) (opcode allowedMask : Z)
    (fn : handler) : AppRuntime * dispatcher :=
  registerGuardedCtx i rt d opcode allowedMask (fun from body _ => fn from body).

(** Decoding of the body: [pkt.read(r) && (!strict || r.expectEnd())]. *)
Definition read_packet {P} `{PacketType P} (strict : bool) (body : MessageView) : outcome P PacketReader.t :=
  if strict then parse_strict body else read (PacketReader.reset body).

(** The closure of [registerPacketHandlerCtx]; [onBadPacket] may be absent.
    (Lawful packet types never read out of bounds.) *)
Definition packet_handler {P} `{PacketType P} (strict : bool)
    (fn : SessionHandle -> P -> SessionRegistry.SessionContext -> gworld -> gworld)
    (onBadPacket : option ctx_handler) : ctx_handler :=
  fun s raw ctx w =>
    match read_packet strict raw with
    | Done pkt _ => fn s pkt ctx w
    | Failed | Undefined => match onBadPacket with Some bad => bad s raw ctx w | None => w end
    end.

(* ------------------------------------------------------------------ *)
(** ** AppRuntime *)

(** [tryGetContext_]: from the shard of the calling worker. *)
Definition tryGetContext_ (cw : Z) (rt : AppRuntime) (sid : Z) : option SessionRegistry.SessionContext :=
  match localOrNull_ cw rt with
  | None => None
  | Some sh => SessionRegistry.tryGetContext cw (shard_reg sh) sid
  end.

Definition recordDeferredAllowed_ (rt : AppRuntime) (opcode mask : Z) : AppRuntime :=
  mk_rt (router_ rt) (scheduler_ rt) (jobs_scheduler_ rt) (broadcaster_ rt) (shards_ rt)
    (deferredAllowed_ rt ++ [(opcode, mask)]).

Definition deferred (allowedMask : Z) (fn : ctx_handler) : handler :=
  fun s raw w =>
    match tryGetContext_ (gw_cw w) (gw_rt w) (id_ s) with
    | None => w
    | Some ctx =>
        if Z.land allowedMask (SessionRegistry.stateBit (SessionRegistry.state ctx)) =? 0 then w
        else fn s raw ctx w
    end.

(** [AppRuntime::registerPacketHandlerCtx] by worker [cw], for a handler of
    decoded packets. *)
Definition registerCtx (cw : Z) (rt : AppRuntime) (d : dispatcher) (opcode allowedMask : Z)
    (fn : ctx_handler) : AppRuntime * dispatcher :=
  match localOrNull_ cw rt with
  | Some _ => registerGuardedCtx (Z.to_nat cw) rt d opcode allowedMask fn
  | None =>
      (recordDeferredAllowed_ rt opcode allowedMask,
       (registerHandler d opcode (Some (deferred allowedMask fn))).1)
  end.

Definition registerPacketHandlerCtx {P} `{PacketType P} (cw : Z) (rt : AppRuntime) (d : dispatcher)
    (opcode allowedMask : Z)
    (fn : SessionHandle -> P -> SessionRegistry.SessionContext -> gworld -> gworld)
    (onBadPacket : option ctx_handler) (strict : bool) : AppRuntime * dispatcher :=
  registerCtx cw rt d opcode allowedMask (packet_handler strict fn onBadPacket).

(** A registration, and a sequence of them. *)
Record registration := mk_registration { r_opcode : Z; r_mask : Z; r_fn : ctx_handler }.

Definition register_all (cw : Z) (regs : list registration) (rd : AppRuntime * dispatcher)
  : AppRuntime * dispatcher :=
  fold_left (fun rd r => registerCtx cw rd.1 rd.2 (r_opcode r) (r_mask r) (r_fn r)) regs rd.

(* ------------------------------------------------------------------ *)
(** ** What a registration means *)

(** The handler runs with the session's context if the session is registered
    with this worker and its state is in the mask; else nothing happens. *)
Definition guarded_call (r : registration) (sh : WorkerShard) (s : SessionHandle) (body : MessageView)
    (w : gworld) : gworld :=
  match SessionRegistry.tryGetContext (gw_cw w) (shard_reg sh) (id_ s) with
  | Some ctx =>
      if has_flag (r_mask r) (SessionRegistry.stateBit (SessionRegistry.state ctx))
      then r_fn r s body ctx w else w
  | None => w
  end.

Lemma has_flag_land a b : has_flag a b = negb (Z.land a b =? 0).
Proof. done. Qed.

Lemma guarded_runs i r s body w sh :
  shards_ (gw_rt w) !! i = Some sh -> sm_allowed_ sh !! r_opcode r = Some (r_mask r) ->
  guarded i (r_opcode r) (r_fn r) s body w = guarded_call r sh s body w.
Proof.
  intros Hs Ha. unfold guarded, guarded_call, tryGetAllowedContext_, has_flag. rewrite Hs, Ha.
  destruct (SessionRegistry.tryGetContext _ _ _) as [ctx |]; [| done]. by destruct (_ =? 0).
Qed.

Lemma local_lookup cw rt sh :
  0 <= cw -> shards_ rt !! Z.to_nat cw = Some sh -> localOrNull_ cw rt = Some sh.
Proof.
  intros Hw Hs. unfold localOrNull_, at_index. pose proof (lookup_lt_Some _ _ _ Hs).
  unfold zlen. zb_eval. done.
Qed.

Lemma deferred_runs r s body w sh :
  0 <= gw_cw w -> shards_ (gw_rt w) !! Z.to_nat (gw_cw w) = Some sh ->
  deferred (r_mask r) (r_fn r) s body w = guarded_call r sh s body w.
Proof.
  intros Hw Hs. unfold deferred, guarded_call, tryGetContext_, has_flag. rewrite (local_lookup _ _ sh) by done.
  destruct (SessionRegistry.tryGetContext _ _ _) as [ctx |]; [| done]. by destruct (_ =? 0).
Qed.

Lemma dispatch_stored (d : dispatcher) op (h : handler) s body w :
  handlers_ d !! op = Some h -> dispatch d op s body w = (h s body w, true).
Proof. intros E. unfold dispatch. unfold Handler in *. by rewrite E. Qed.

(** The handler of a registration, as stored in the dispatcher. *)
Definition stored (here : bool) (cw : Z) (r : registration) : handler :=
  if here then guarded (Z.to_nat cw) (r_opcode r) (r_fn r) else deferred (r_mask r) (r_fn r).

Definition is_local (cw : Z) (rt : AppRuntime) : bool :=
  match localOrNull_ cw rt with Some _ => true | None => false end.

Lemma register_local cw rt d r :
  is_local cw (registerCtx cw rt d (r_opcode r) (r_mask r) (r_fn r)).1 = is_local cw rt.
Proof.
  unfold registerCtx, is_local. destruct (localOrNull_ cw rt) as [sh |] eqn:E.
  2: { cbn [fst]. change (localOrNull_ cw (recordDeferredAllowed_ rt _ _)) with (localOrNull_ cw rt). by rewrite E. }
  unfold localOrNull_, at_index, registerGuardedCtx, update_shard in *. cbn [fst shards_ set_shards] in *.
  unfold zlen in *. rewrite length_alter. destruct (_ || _); [done |]. destruct (_ <? _); [done |].
  by rewrite list_lookup_alter_eq, E.
Qed.

Lemma register_stores cw rt d r op :
  handlers_ (registerCtx cw rt d (r_opcode r) (r_mask r) (r_fn r)).2 !! op =
  match handlers_ d !! op with
  | Some h => Some h
  | None => if op =? r_opcode r then Some (stored (is_local cw rt) cw r) else None
  end.
Proof.
  assert (Hreg : forall h : handler, handlers_ (registerHandler d (r_opcode r) (Some h)).1 !! op =
    match handlers_ d !! op with Some h' => Some h' | None => if op =? r_opcode r then Some h else None end).
  { intros h. cbn. destruct (Z.eqb_spec op (r_opcode r)) as [-> |].
    - destruct (handlers_ d !! r_opcode r) eqn:E; cbn; [done | by rewrite lookup_insert_eq].
    - destruct (handlers_ d !! r_opcode r); cbn; [| rewrite lookup_insert_ne by done]; by destruct (handlers_ d !! op). }
  unfold registerCtx, is_local, stored. destruct (localOrNull_ cw rt); apply Hreg.
Qed.

Lemma register_table cw rt d r i sh' :
  is_local cw rt = true ->
  shards_ (registerCtx cw rt d (r_opcode r) (r_mask r) (r_fn r)).1 !! i = Some sh' ->
  exists sh, shards_ rt !! i = Some sh /\
    sm_allowed_ sh' = if decide (i = Z.to_nat cw) then <[r_opcode r := r_mask r]> (sm_allowed_ sh) else sm_allowed_ sh.
Proof.
  unfold registerCtx, is_local. destruct (localOrNull_ cw rt); [| done]. intros _.
  cbn [registerGuardedCtx fst update_shard set_shards shards_].
  destruct (decide (i = Z.to_nat cw)) as [-> |].
  - rewrite list_lookup_alter_eq. destruct (shards_ rt !! Z.to_nat cw) as [sh |]; [| done].
    intros [= <-]. by exists sh.
  - rewrite list_lookup_alter_ne by done. intros E. by exists sh'.
Qed.

Section Sequences.
Implicit Types (regs : list registration) (rd : AppRuntime * dispatcher).

Lemma register_all_cons cw r regs rd :
  register_all cw (r :: regs) rd =
  register_all cw regs (registerCtx cw rd.1 rd.2 (r_opcode r) (r_mask r) (r_fn r)).
Proof. done. Qed.

(** Registrations of other opcodes change nothing for [op]. *)
Lemma register_all_other cw regs rd op :
  op ∉ map r_opcode regs ->
  is_local cw (register_all cw regs rd).1 = is_local cw rd.1 /\
  handlers_ (register_all cw regs rd).2 !! op = handlers_ rd.2 !! op /\
  (is_local cw rd.1 = true -> forall i sh', shards_ (register_all cw regs rd).1 !! i = Some sh' ->
     exists sh, shards_ rd.1 !! i = Some sh /\ sm_allowed_ sh' !! op = sm_allowed_ sh !! op).
Proof.
  revert rd. induction regs as [| r regs IH]; intros rd Hop.
  { split_and!; try done. intros _ i sh' E. by exists sh'. }
  cbn [map] in Hop. apply not_elem_of_cons in Hop as [Hne Hop]. rewrite register_all_cons.
  destruct (IH (registerCtx cw rd.1 rd.2 (r_opcode r) (r_mask r) (r_fn r)) Hop) as (H1 & H2 & H3).
  rewrite register_local in H1, H3. split_and!; [done | |].
  - rewrite H2, register_stores. apply Z.eqb_neq in Hne. rewrite Hne. by destruct (handlers_ rd.2 !! op).
  - intros Hl i sh' E. destruct (H3 Hl i sh' E) as (sh1 & E1 & ->).
    destruct (register_table cw rd.1 rd.2 r i sh1 Hl E1) as (sh & E0 & ->). exists sh. split; [done |].
    destruct (decide _); [| done]. by rewrite lookup_insert_ne.
Qed.

Lemma register_all_stores cw regs rd r :
  NoDup (map r_opcode regs) -> r ∈ regs -> (forall r', r' ∈ regs -> handlers_ rd.2 !! r_opcode r' = None) ->
  handlers_ (register_all cw regs rd).2 !! r_opcode r = Some (stored (is_local cw rd.1) cw r) /\
  (is_local cw rd.1 = true -> forall sh', shards_ (register_all cw regs rd).1 !! Z.to_nat cw = Some sh' ->
     sm_allowed_ sh' !! r_opcode r = Some (r_mask r)).
Proof.
  revert rd. induction regs as [| r0 regs IH]; intros rd Hnd Hin Hfree; [by apply elem_of_nil in Hin |].
  cbn [map] in Hnd. apply NoDup_cons in Hnd as [Hni Hnd]. rewrite register_all_cons.
  set (rd1 := registerCtx cw rd.1 rd.2 (r_opcode r0) (r_mask r0) (r_fn r0)).
  apply elem_of_cons in Hin as [-> | Hin].
  - destruct (register_all_other cw regs rd1 (r_opcode r0) Hni) as (_ & H2 & H3). split.
    + rewrite H2. unfold rd1. rewrite register_stores, (Hfree r0) by left. by rewrite Z.eqb_refl.
    + intros Hl sh' E. unfold rd1 in H3. rewrite register_local in H3. destruct (H3 Hl _ sh' E) as (sh1 & E1 & ->).
      destruct (register_table cw rd.1 rd.2 r0 _ sh1 Hl E1) as (sh & E0 & ->).
      rewrite decide_True by done. by rewrite lookup_insert_eq.
  - destruct (IH rd1) as [H1 H2]; [done | done | |].
    + intros r' Hr'. unfold rd1. rewrite register_stores, Hfree by by right.
      destruct (Z.eqb_spec (r_opcode r') (r_opcode r0)) as [E |]; [| done].
      destruct Hni. rewrite <- E. apply list_elem_of_fmap. by exists r'.
    + unfold rd1 in H1, H2 at 1. by rewrite register_local in H1, H2.
Qed.

End Sequences.

(** The result of decoding a body. *)
Definition decoded {P} `{PacketType P} (body : MessageView) : option P :=
  match parse_strict body with Done p _ => Some p | _ => None end.

Lemma decoded_spec {P} `{PacketLaws P} (body : MessageView) :
  view_ok body -> mv_size body <= VEC_MAX ->
  (is_Some (decoded (P := P) body) <-> zlen (view_bytes body) = wire_size) /\
  (forall p : P, packet_ok p -> view_bytes body = encoding p -> decoded body = Some p).
Proof.
  intros Hv Hm. destruct (parse_strict_size (P := P) body Hv Hm) as [_ Hsz]. unfold decoded. split.
  - rewrite <- Hsz. destruct (parse_strict body) as [p r | |]; split; try (by intros [? ?]); eauto.
    + intros (? & ? & ?). done.
    + intros (? & ? & ?). done.
  - intros p Hok E. by destruct (parse_strict_encoded p body Hok Hv Hm E) as (r & ->).
Qed.

(** The whole effect of a strict packet handler behind its guard. *)
Definition guarded_packet {P} `{PacketType P} (mask : Z)
    (fn : SessionHandle -> P -> SessionRegistry.SessionContext -> gworld -> gworld)
    (onBadPacket : option ctx_handler) (sh : WorkerShard) (s : SessionHandle) (body : MessageView)
    (w : gworld) : gworld :=
  match SessionRegistry.tryGetContext (gw_cw w) (shard_reg sh) (id_ s) with
  | None => w
  | Some ctx =>
      if negb (has_flag mask (SessionRegistry.stateBit (SessionRegistry.state ctx))) then w else
      match decoded body with
      | Some pkt => fn s pkt ctx w
      | None => match onBadPacket with Some bad => bad s body ctx w | None => w end
      end
  end.

(** A message of a registered opcode has the effect of the packet handler
    behind its guard. *)
Lemma dispatch_guarded {P} `{PacketType P} (cw : Z) (rt : AppRuntime) (regs : list registration)
    (mask op : Z) (fn : SessionHandle -> P -> SessionRegistry.SessionContext -> gworld -> gworld)
    (onBadPacket : option ctx_handler) (s : SessionHandle) (body : MessageView) (w : gworld) (sh : WorkerShard) :
  let rd := register_all cw regs (rt, dispatcher_init) in
  NoDup (map r_opcode regs) -> mk_registration op mask (packet_handler true fn onBadPacket) ∈ regs ->
  0 <= gw_cw w -> shards_ (gw_rt w) !! Z.to_nat (gw_cw w) = Some sh ->
  (is_local cw rt = true -> gw_cw w = cw /\
     exists sh', shards_ rd.1 !! Z.to_nat cw = Some sh' /\ sm_allowed_ sh = sm_allowed_ sh') ->
  dispatch rd.2 op s body w = (guarded_packet mask fn onBadPacket sh s body w, true).
Proof.
  intros rd Hnd Hin Hw Hs Hl.
  destruct (register_all_stores cw regs (rt, dispatcher_init) _ Hnd Hin) as [Hst Htab]; [done |].
  cbn [r_opcode fst] in Hst, Htab. fold rd in Hst. etrans; [exact (dispatch_stored _ _ _ s body w Hst) |]. f_equal.
  set (r := mk_registration op mask (packet_handler true fn onBadPacket)) in *.
  trans (guarded_call r sh s body w).
  - unfold stored. destruct (is_local cw rt) eqn:El.
    + destruct (Hl eq_refl) as (<- & sh' & E' & Ea). apply (guarded_runs _ r); [done |].
      rewrite Ea. by apply Htab.
    + by apply (deferred_runs r).
  - unfold guarded_call, guarded_packet. destruct (SessionRegistry.tryGetContext _ _ _) as [ctx |]; [| done].
    cbn [r_mask r_fn r]. destruct (has_flag _ _); [| done]. cbn [negb]. unfold packet_handler, read_packet, decoded.
    by destruct (parse_strict body).
Qed.

(** The handlers of a dispatcher are those registered. *)
Lemma register_all_only cw regs (rd : AppRuntime * dispatcher) op h :
  handlers_ (register_all cw regs rd).2 !! op = Some h ->
  handlers_ rd.2 !! op = Some h \/ exists r, r ∈ regs /\ op = r_opcode r /\ h = stored (is_local cw rd.1) cw r.
Proof.
  revert rd. induction regs as [| r regs IH]; intros rd; [by left |].
  rewrite register_all_cons. intros E. destruct (IH _ E) as [E' | (r' & Hin & -> & ->)].
  - cbn [snd] in E'. rewrite register_stores in E'. destruct (handlers_ rd.2 !! op); [by left; simplify_eq |].
    destruct (Z.eqb_spec op (r_opcode r)); [| done]. simplify_eq. right. exists r. split; [left | done].
  - right. exists r'. rewrite register_local. split; [by right | done].
Qed.


(** A second registration of an opcode on a worker is refused by the
    dispatcher, but its mask replaces the first one: the first handler then
    runs in the states of the second mask, not of its own. *)
Theorem second_registration_moves_guard (cw : Z) (rt : AppRuntime) (d : dispatcher) (op m1 m2 : Z)
    (f1 f2 : ctx_handler) (s : SessionHandle) (body : MessageView) (w : gworld) (sh : WorkerShard) :
  is_local cw rt = true -> handlers_ d !! op = None ->
  let rd1 := registerCtx cw rt d op m1 f1 in
  let rd2 := registerCtx cw rd1.1 rd1.2 op m2 f2 in
  shards_ (gw_rt w) !! Z.to_nat cw = Some sh ->
  (exists sh', shards_ rd2.1 !! Z.to_nat cw = Some sh' /\ sm_allowed_ sh = sm_allowed_ sh') ->
  dispatch rd2.2 op s body w = (guarded_call (mk_registration op m2 f1) sh s body w, true).
Proof.
  intros Hl Hfree rd1 rd2 Hs (sh' & E' & Ea).
  pose proof (register_local cw rt d (mk_registration op m1 f1)) as Hl1. cbn in Hl1. fold rd1 in Hl1. rewrite Hl in Hl1.
  pose proof (register_stores cw rt d (mk_registration op m1 f1) op) as H1. cbn [r_opcode r_mask r_fn] in H1.
  fold rd1 in H1. rewrite Hfree, Z.eqb_refl, Hl in H1.
  pose proof (register_stores cw rd1.1 rd1.2 (mk_registration op m2 f2) op) as H2. cbn [r_opcode r_mask r_fn] in H2.
  fold rd2 in H2. rewrite H1 in H2.
  destruct (register_table cw rd1.1 rd1.2 (mk_registration op m2 f2) (Z.to_nat cw) sh' Hl1 E') as (sh1 & _ & Et).
  rewrite decide_True in Et by done. cbn [r_opcode r_mask] in Et.
  etrans; [exact (dispatch_stored _ _ _ s body w H2) |]. f_equal. unfold stored. cbn [r_opcode r_fn].
  apply (guarded_runs (Z.to_nat cw) (mk_registration op m2 f1)); [done |]. cbn [r_opcode r_mask].
  by rewrite Ea, Et, lookup_insert_eq.
Qed.

End Handlers.

(* ------------------------------------------------------------------ *)
(** ** Examples *)

(** One worker with one session in state [Connected]; hello packets (opcode 7)
    are allowed in that state and logged with their role. *)
Definition demo_handle : SessionHandle := mk_handle 1 0 (Some 0).
Definition demo_rt : AppRuntime :=
  runtime (default (start 1) (run_cluster (start 1) [Callback 0 (PStart demo_handle 0 0 PDone); Step 0 true])).

Definition demo_fn (s : SessionHandle) (p : RoleHelloReqPkt) (_ : SessionRegistry.SessionContext)
    (w : gworld (St := list Z)) : gworld :=
  mk_gworld (gw_cw w) (gw_rt w) (gw_app w ++ [req_role p]).

Definition demo_connected : Z := SessionRegistry.stateBit SessionRegistry.Connected.
Definition demo_authed : Z := SessionRegistry.stateBit SessionRegistry.Authed.

Definition demo_regs : list (registration (St := list Z)) :=
  [mk_registration 8 demo_authed (packet_handler true demo_fn None);
   mk_registration 7 demo_connected (packet_handler true demo_fn None)].

Definition demo_rd := register_all 0 demo_regs (demo_rt, dispatcher_init).
Definition demo_shard : WorkerShard := default (new_shard 0) (shards_ demo_rd.1 !! 0%nat).
Definition demo_world : gworld (St := list Z) := mk_gworld 0 demo_rd.1 [].
Definition demo_hello : MessageView := mk_view (Some [z2b 2; z2b 0; z2b 0; z2b 0]) 4.


(** A handler registered for [Authed] runs for a session that is only
    [Connected], once the opcode is registered again with that mask. *)
Lemma second_registration_moves_guard_witness :
  let rd1 := registerCtx 0 demo_rt dispatcher_init 7 demo_authed (packet_handler true demo_fn None) in
  let rd2 := registerCtx 0 rd1.1 rd1.2 7 demo_connected (fun _ _ _ w => w) in
  gw_app (dispatch rd1.2 7 demo_handle demo_hello (mk_gworld 0 rd1.1 [])).1 = [] /\
  gw_app (dispatch rd2.2 7 demo_handle demo_hello (mk_gworld 0 rd2.1 [])).1 = [2].
Proof.
  intros rd1 rd2. split; [by vm_compute |].
  unfold rd2, rd1.
  rewrite (second_registration_moves_guard 0 demo_rt dispatcher_init 7 demo_authed demo_connected
    (packet_handler true demo_fn None) (fun _ _ _ w => w) demo_handle demo_hello (mk_gworld 0 rd2.1 [])
    (default (new_shard 0) (shards_ rd2.1 !! 0%nat))).
  - by vm_compute.
  - by vm_compute.
  - done.
  - by vm_compute.
  - exists (default (new_shard 0) (shards_ rd2.1 !! 0%nat)). split; [by vm_compute | done].
Defined.

End Guard.
