(* ===== verification/Controllers.v ===== *)
(** * Controllers: the trading roles over the application runtime

    Models [UpstreamGateway], the handshake and benchmark controllers of the
    three roles (client, gateway, exchange), their installation with
    [PacketBind] and the application callbacks around them.

    A controller acts on a [gworld]: the worker it runs on, the runtime with
    its registries, and the process's own data.  Sends and closes go to the
    session service, whose behaviour is modelled in [Runtime]; here they are
    recorded in the order in which they are asked for.  The clock is a list of
    the values it will show. *)

From stdpp Require Import strings.
From S2P Require Import Prelude Message Handle PacketWriter PacketCodec SessionRegistry Runtime Guard.
Import Message Handle PacketCodec Runtime Guard.

Module Controllers.

(* ------------------------------------------------------------------ *)
(** ** The session service, as the controllers use it *)

Inductive action :=
| ASend (cw sid opcode : Z) (body : list byte)
| AClose (cw sid : Z) (reason : string).

(** The data of a process around the runtime; [aborted]: an [assert] failed. *)
Record app (A : Type) := mk_app {
  data : A;
  out : list action;
  clock : list Z;
  txMessages : Z;
  aborted : bool
}.
Arguments mk_app {_} _ _ _ _ _.
Arguments data {_} _.
Arguments out {_} _.
Arguments clock {_} _.
Arguments txMessages {_} _.
Arguments aborted {_} _.

Section Service.
Context {A : Type}.
Abbreviation world := (gworld (St := app A)).
Implicit Types w : world.

Definition set_app w (a : app A) : world := mk_gworld (gw_cw w) (gw_rt w) a.
Definition set_rt w (rt : AppRuntime) : world := mk_gworld (gw_cw w) rt (gw_app w).
Definition the_data w : A := data (gw_app w).
Definition set_data w (d : A) : world :=
  let a := gw_app w in set_app w (mk_app d (out a) (clock a) (txMessages a) (aborted a)).
Definition emit w (x : action) : world :=
  let a := gw_app w in set_app w (mk_app (data a) (out a ++ [x]) (clock a) (txMessages a) (aborted a)).

(** [nowNs]. *)
Definition nowNs w : Z * world :=
  let a := gw_app w in
  (default 0 (head (clock a)), set_app w (mk_app (data a) (out a) (tail (clock a)) (txMessages a) (aborted a))).

(** [engineMetrics().onTxMessage()]. *)
Definition onTxMessage w : world :=
  let a := gw_app w in set_app w (mk_app (data a) (out a) (clock a) (u64 (txMessages a + 1)) (aborted a)).

Definition fail_assert w : world :=
  let a := gw_app w in set_app w (mk_app (data a) (out a) (clock a) (txMessages a) true).

(** [rt.service().sendTo(sid, pkt)]: nothing without a router. *)
Definition sendTo {P} `{PacketType P} w (sid : Z) (pkt : P) : world :=
  match local_ (gw_cw w) (gw_rt w) with
  | None => fail_assert w
  | Some sh =>
      match svc_router_ sh with
      | None => w
      | Some _ => emit w (ASend (gw_cw w) sid (kOpcode (P := P)) (PacketWriter.buf_ (write pkt PacketWriter.init)))
      end
  end.

(** [rt.service().close(sid, reason)]. *)
Definition close w (sid : Z) (reason : string) : world :=
  match local_ (gw_cw w) (gw_rt w) with
  | None => fail_assert w
  | Some sh =>
      if ownerWorkerFromId sid <? 0 then w else
      match svc_scheduler_ sh with None => w | Some _ => emit w (AClose (gw_cw w) sid reason) end
  end.

(** A call on the registry of the calling worker's shard. *)
Definition on_local w (f : SessionRegistry.t -> SessionRegistry.t) : world :=
  match local_ (gw_cw w) (gw_rt w) with
  | None => fail_assert w
  | Some _ => set_rt w (update_shard (gw_rt w) (Z.to_nat (gw_cw w)) (fun sh => set_reg sh (f (shard_reg sh))))
  end.

(** [rt.service().setState(sid, st)]. *)
Definition setState w (sid : Z) (st : SessionRegistry.ConnState) : world :=
  on_local w (fun reg => SessionRegistry.setState (gw_cw w) reg sid st).

(** [AppRuntime::onSessionStart] and [onSessionEnd] on the owner's thread. *)
Definition rt_onSessionStart w (session : SessionHandle) : world :=
  on_local w (fun reg => SessionRegistry.add (gw_cw w) reg session 0 0).
Definition rt_onSessionEnd w (session : SessionHandle) : world :=
  on_local w (fun reg => SessionRegistry.remove (gw_cw w) reg (id_ session)).

(** [PacketBind]: registration of a handler for packets [P] in the states of
    the mask, strict; a bad packet is only logged. *)
Definition bind {P} `{PacketType P} (mask : Z)
    (fn : SessionHandle -> P -> SessionRegistry.SessionContext -> world -> world) : registration :=
  mk_registration (kOpcode (P := P)) mask (packet_handler true fn (Some (fun _ _ _ w => w))).

(** What [registerPacketCtx] reports as a violation when it does not hold. *)
Definition binding_ok (r : registration (St := app A)) : bool :=
  isValidTradingOpcode (r_opcode r) && negb (r_mask r =? 0).

End Service.

(** [states(...)]. *)
Definition states (l : list SessionRegistry.ConnState) : Z := foldr (fun s m => Z.lor (SessionRegistry.stateBit s) m) 0 l.

(* ------------------------------------------------------------------ *)
(** ** UpstreamGateway *)

Record UpstreamGateway := mk_upstream { workerCount_ : Z; slots_ : list Z }.

Definition reset (workerCount : Z) : UpstreamGateway :=
  mk_upstream workerCount (replicate (Z.to_nat workerCount) 0).

(** The accesses with their assertions; [None]: the assertion fails. *)
Definition setForWorker (cw : Z) (u : UpstreamGateway) (workerId sid : Z) : option UpstreamGateway :=
  if (0 <=? workerId) && (workerId <? workerCount_ u) && (cw =? workerId)
  then Some (mk_upstream (workerCount_ u) (<[Z.to_nat workerId := sid]> (slots_ u))) else None.

Definition getForWorker (u : UpstreamGateway) (workerId : Z) : option Z :=
  if (0 <=? workerId) && (workerId <? workerCount_ u) then slots_ u !! Z.to_nat workerId else None.

Definition getLocal (cw : Z) (u : UpstreamGateway) : option Z := getForWorker u cw.

Definition clearLocal (cw : Z) (u : UpstreamGateway) : option UpstreamGateway :=
  if (0 <=? cw) && (cw <? workerCount_ u)
  then Some (mk_upstream (workerCount_ u) (<[Z.to_nat cw := 0]> (slots_ u))) else None.

Definition isLocal (cw : Z) (u : UpstreamGateway) (sid : Z) : option bool :=
  if sid =? 0 then Some false else (fun l => sid =? l) <$> getLocal cw u.

(* ------------------------------------------------------------------ *)
(** ** The gateway *)

Record gateway := mk_gateway { upstream_ : UpstreamGateway; handoff_mode_ : bool }.

Abbreviation gworld_ := (gworld (St := app gateway)).

(** The result of an operation with an assertion. *)
Definition asserted {B} (w : gworld_) (o : option B) (k : B -> gworld_) : gworld_ :=
  match o with Some x => k x | None => fail_assert w end.

Definition set_upstream (w : gworld_) (u : UpstreamGateway) : gworld_ :=
  set_data w (mk_gateway u (handoff_mode_ (the_data w))).

Definition buildAck (result assignedRole : Z) : RoleHelloAckPkt := mk_ack result assignedRole.

(** The end of [RoleHelloGatewayController::onRoleHello_]. *)
Definition accept_role (session : SessionHandle) (pkt : RoleHelloReqPkt) (w : gworld_) : gworld_ :=
  let w := setState w (id_ session) SessionRegistry.Handshaked in
  sendTo w (id_ session) (buildAck HelloResult_Ok (req_role pkt)).

Definition onRoleHello_ (session : SessionHandle) (pkt : RoleHelloReqPkt)
    (_ : SessionRegistry.SessionContext) (w : gworld_) : gworld_ :=
  let wid := gw_cw w in
  asserted w (getForWorker (upstream_ (the_data w)) wid) (fun localUp =>
  if req_role pkt =? PeerRole_Exchange then
    if negb (localUp =? 0) && negb (id_ session =? localUp) then close w (id_ session) "UPSTREAM_ROLE_CONFLICT"
    else if localUp =? 0 then
      asserted w (setForWorker (gw_cw w) (upstream_ (the_data w)) wid (id_ session))
        (fun u => accept_role session pkt (set_upstream w u))
    else accept_role session pkt w
  else
    if negb (localUp =? 0) && (id_ session =? localUp) then close w (id_ session) "CLIENT_SID_EQUALS_UPSTREAM"
    else accept_role session pkt w).

(** [RoleHelloGatewayController::onSessionEnd]. *)
Definition hello_onSessionEnd (session : SessionHandle) (w : gworld_) : gworld_ :=
  let wid := gw_cw w in
  asserted w (getForWorker (upstream_ (the_data w)) wid) (fun upId =>
  if negb (upId =? 0) && (upId =? id_ session) then
    asserted w (setForWorker (gw_cw w) (upstream_ (the_data w)) wid 0) (fun u => set_upstream w u)
  else w).

Definition with_route (p : PerfPkt) (sid stamp : Z) : PerfPkt := mk_perf sid (seq p) (t1 p) stamp (t3 p) (t4 p).
Definition with_t4 (p : PerfPkt) (stamp : Z) : PerfPkt := mk_perf (client_sid p) (seq p) (t1 p) (t2 p) (t3 p) stamp.

(** [session.id() % wc] on 64 bits, [wid() % wc] on [int]. *)
Definition route (g : gateway) (cw : Z) (session : SessionHandle) : Z :=
  let wc := workerCount_ (upstream_ g) in
  if handoff_mode_ g then i32_of_u32 (u32 (id_ session mod u64 wc)) else Z.rem cw wc.

(** [BenchmarkGatewayController::onPerfPing] and [onPerfPong]. *)
Definition gateway_onPerfPing (session : SessionHandle) (pkt : PerfPingPkt)
    (_ : SessionRegistry.SessionContext) (w : gworld_) : gworld_ :=
  let g := the_data w in
  if workerCount_ (upstream_ g) <=? 0 then w else
  asserted w (getForWorker (upstream_ g) (route g (gw_cw w) session)) (fun upstreamSid =>
  if upstreamSid =? 0 then w else
  let '(now, w) := nowNs w in
  onTxMessage (sendTo w upstreamSid (mk_ping (with_route (ping pkt) (id_ session) now)))).

Definition gateway_onPerfPong (_ : SessionHandle) (pkt : PerfPongPkt)
    (_ : SessionRegistry.SessionContext) (w : gworld_) : gworld_ :=
  let clientSid := client_sid (pong pkt) in
  if clientSid =? 0 then w else
  let '(now, w) := nowNs w in
  onTxMessage (sendTo w clientSid (mk_pong (with_t4 (pong pkt) now))).

(** [gateway::Install]: the registrations, in order. *)
Definition gateway_regs : list (registration (St := app gateway)) :=
  [bind (states [SessionRegistry.Connected]) onRoleHello_;
   bind (states [SessionRegistry.Handshaked]) gateway_onPerfPing;
   bind (states [SessionRegistry.Handshaked]) gateway_onPerfPong].

(** The callback of [connectTcp] for a dial that succeeded, on worker [i]. *)
Definition upstream_connected (i : Z) (session : SessionHandle) (w : gworld_) : gworld_ :=
  asserted w (setForWorker (gw_cw w) (upstream_ (the_data w)) i (id_ session)) (fun u => set_upstream w u).

(** [FepGatewayApplication::onSessionStart] and [onSessionEnd] (the
    controllers of the gateway do nothing at a session's start). *)
Definition gateway_onSessionStart (session : SessionHandle) (w : gworld_) : gworld_ := rt_onSessionStart w session.

Definition gateway_onSessionEnd (session : SessionHandle) (w : gworld_) : gworld_ :=
  let w := rt_onSessionEnd (hello_onSessionEnd session w) session in
  if workerCount_ (upstream_ (the_data w)) <=? 0 then w else
  asserted w (isLocal (gw_cw w) (upstream_ (the_data w)) (id_ session)) (fun here =>
  if here then asserted w (clearLocal (gw_cw w) (upstream_ (the_data w))) (fun u => set_upstream w u) else w).

(* ------------------------------------------------------------------ *)
(** ** The exchange *)

Section Exchange.
Context {A : Type}.
Implicit Types w : gworld (St := app A).

(** [BenchmarkExchangeController::onPerfPing]; the pong's [t4] keeps its
    initial value. *)
Definition exchange_onPerfPing (session : SessionHandle) (pkt : PerfPingPkt)
    (_ : SessionRegistry.SessionContext) w : gworld (St := app A) :=
  let p := ping pkt in
  let '(now, w) := nowNs w in
  onTxMessage (sendTo w (id_ session) (mk_pong (mk_perf (client_sid p) (seq p) (t1 p) (t2 p) now 0))).

(** [onSessionStart] and [onRoleHelloAck_] of the exchange and the client; the
    client goes on with [onOk]. *)
Definition say_hello (role : Z) (session : SessionHandle) w : gworld (St := app A) :=
  sendTo w (id_ session) (mk_hello role).

Definition onRoleHelloAck_ (onOk : SessionHandle -> gworld (St := app A) -> gworld (St := app A))
    (session : SessionHandle) (pkt : RoleHelloAckPkt) (_ : SessionRegistry.SessionContext) w : gworld (St := app A) :=
  if negb (ack_result pkt =? HelloResult_Ok) then w
  else onOk session (setState w (id_ session) SessionRegistry.Handshaked).

End Exchange.

(** [exchange::Install]. *)
Definition exchange_regs : list (registration (St := app unit)) :=
  [bind (states [SessionRegistry.Connected]) (onRoleHelloAck_ (fun _ w => w));
   bind (states [SessionRegistry.Handshaked]) exchange_onPerfPing].

(* ------------------------------------------------------------------ *)
(** ** The load generator *)

Definition kWarmupCount : Z := 10000.
Definition kMeasureCount : Z := 200000.

(** One entry of each vector of [LatencyRecorder]. *)
Record latency := mk_latency { rtt_ : Z; hop1_ : Z; hop2_ : Z; hop3_ : Z; hop4_ : Z }.

Record bench := mk_bench {
  recorder_ : list latency;
  target_sessions_ : Z;
  sessions_ : list Z;
  rr_ : Z;
  started_ : bool;
  seq_ : Z;
  start_ns_ : Z;
  tpsMode_ : bool;
  exited : bool
}.

Abbreviation cworld := (gworld (St := app bench)).

(** The constructor; [tpsMode_] is initialised to [true]. *)
Definition new_bench (target_sessions_per_worker : Z) : bench :=
  mk_bench [] (Z.max 1 target_sessions_per_worker) [] 0 false 0 0 true false.

Definition since (a b : Z) : Z := if b <? a then a - b else 0.

(** A ping over session [rr_] of the list. *)
Definition send_ping (w : cworld) (s : Z) : cworld :=
  let '(now, w) := nowNs w in
  let b := the_data w in
  match sessions_ b !! Z.to_nat (rr_ b) with
  | None => fail_assert w
  | Some sid => sendTo w sid (mk_ping (mk_perf 0 s now 0 0 0))
  end.

Definition onHandshakeOk (session : SessionHandle) (w : cworld) : cworld :=
  let b := the_data w in
  let ss := sessions_ b ++ [id_ session] in
  let w := set_data w (mk_bench (recorder_ b) (target_sessions_ b) ss (rr_ b) (started_ b) (seq_ b) (start_ns_ b) (tpsMode_ b) (exited b)) in
  if tpsMode_ b then sendTo w (id_ session) (mk_ping (mk_perf 0 1 0 0 0 0))
  else if negb (started_ b) && (target_sessions_ b <=? zlen ss) then
    let '(start, w) := if kWarmupCount =? 0 then nowNs w else (0, w) in
    let w := set_data w (mk_bench (recorder_ b) (target_sessions_ b) ss 0 true 1 start (tpsMode_ b) (exited b)) in
    send_ping w 1
  else w.

(** [onPerfPong] in [tpsMode_]: the answer is a new packet whose [seq] is 1.
    A division by zero is undefined, like a failed assertion. *)
Definition pong_tps (session : SessionHandle) (w : cworld) : cworld :=
  let p := mk_perf 0 (u64 (0 + 1)) 0 0 0 0 in
  let w := sendTo w (id_ session) (mk_ping p) in
  if zlen (sessions_ (the_data w)) =? 0 then fail_assert w else
  if seq p =? kMeasureCount / zlen (sessions_ (the_data w)) then rt_onSessionEnd w session else w.

(** The recording part, for a pong received at [t5]. *)
Definition record_pong (b : bench) (p : PerfPkt) (t5 : Z) : bench :=
  if kWarmupCount <? seq p then
    mk_bench (recorder_ b ++ [mk_latency (since t5 (t1 p)) (since (t2 p) (t1 p)) (since (t3 p) (t2 p)) (since (t4 p) (t3 p)) (since t5 (t4 p))])
      (target_sessions_ b) (sessions_ b) (rr_ b) (started_ b) (seq_ b) (start_ns_ b) (tpsMode_ b) (exited b)
  else b.

Definition set_start (b : bench) (now : Z) : bench :=
  mk_bench (recorder_ b) (target_sessions_ b) (sessions_ b) (rr_ b) (started_ b) (seq_ b) now (tpsMode_ b) (exited b).

(** [std::exit(0)] after the report. *)
Definition exit_ (b : bench) : bench :=
  mk_bench (recorder_ b) (target_sessions_ b) (sessions_ b) (rr_ b) (started_ b) (seq_ b) (start_ns_ b) (tpsMode_ b) true.

Definition next_ping (b : bench) (s : Z) : bench :=
  mk_bench (recorder_ b) (target_sessions_ b) (sessions_ b) ((rr_ b + 1) mod zlen (sessions_ b)) (started_ b)
    (u64 (s + 1)) (start_ns_ b) (tpsMode_ b) (exited b).

(** The measurement of a pong: its latencies, and the time at which the warm-up
    ends. *)
Definition measure (p : PerfPkt) (w : cworld) : cworld :=
  let '(t5, w) := nowNs w in
  let w := set_data w (record_pong (the_data w) p t5) in
  if seq p =? kWarmupCount then let '(now, w) := nowNs w in set_data w (set_start (the_data w) now) else w.

Definition client_onPerfPong (session : SessionHandle) (pkt : PerfPongPkt)
    (_ : SessionRegistry.SessionContext) (w : cworld) : cworld :=
  if tpsMode_ (the_data w) then pong_tps session w else
  let p := pong pkt in
  let w := measure p w in
  if kWarmupCount + kMeasureCount <=? seq p then
    let '(_, w) := nowNs w in set_data w (exit_ (the_data w))
  else
    let w := set_data w (next_ping (the_data w) (seq p)) in
    send_ping w (seq_ (the_data w)).

(** [client::Install]. *)
Definition client_regs : list (registration (St := app bench)) :=
  [bind (states [SessionRegistry.Connected]) (onRoleHelloAck_ onHandshakeOk);
   bind (states [SessionRegistry.Handshaked]) client_onPerfPong].

End Controllers.
