(* ===== verification/Composite.v ===== *)
(** * Composite: binding packets and composing controllers

    Models [PacketBind.hpp] (the binder, its checks and what they report),
    [IController], [CompositeController] and the [Install] functions of the
    three roles, and shows that the composed controllers are what
    [Controllers] describes role by role. *)

From stdpp Require Import strings.
From S2P Require Import Prelude Message Handle PacketCodec SessionRegistry Runtime Guard Controllers.
Import Message Handle PacketCodec Runtime Guard Controllers.

Module Composite.

Section Binder.
Context {A : Type} (kBindFailFast : bool).
Abbreviation world := (gworld (St := app A)).
Abbreviation dispatcher := (Dispatcher (Session := SessionHandle) (W := world)).

(* ------------------------------------------------------------------ *)
(** ** PacketBind *)

(** What installing acts on: the runtime, the worker's dispatcher and the
    violations logged so far; [dead]: the process was aborted. *)
Record setup := mk_setup {
  s_rt : AppRuntime;
  s_dispatcher : dispatcher;
  violations : list (string * Z);
  dead : bool
}.

Definition reportViolation (reason : string) (opcode : Z) (s : setup) : setup :=
  if dead s then s
  else mk_setup (s_rt s) (s_dispatcher s) (violations s ++ [(reason, opcode)]) kBindFailFast.

Definition enforceTradingOpcodePolicyOrDie (opcode : Z) (s : setup) : setup :=
  if isValidTradingOpcode opcode then s else reportViolation "InvalidOpcode" opcode s.

(** The handler signatures [invoke_handler] accepts; the runtime is part of
    the world. *)
Inductive handler (P : Type) :=
| HRuntimeCtx (f : SessionHandle -> P -> SessionRegistry.SessionContext -> world -> world)
| HCtx (f : SessionHandle -> P -> SessionRegistry.SessionContext -> world -> world)
| HRuntime (f : SessionHandle -> P -> world -> world)
| HPlain (f : SessionHandle -> P -> world -> world).
Arguments HRuntimeCtx {P} _.
Arguments HCtx {P} _.
Arguments HRuntime {P} _.
Arguments HPlain {P} _.

Definition invoke_handler {P} (h : handler P) (s : SessionHandle) (pkt : P)
    (ctx : SessionRegistry.SessionContext) (w : world) : world :=
  match h with
  | HRuntimeCtx f | HCtx f => f s pkt ctx w
  | HRuntime f | HPlain f => f s pkt w
  end.

(** Only a log line. *)
Definition defaultBadPacket (s : SessionHandle) (raw : MessageView) (ctx : SessionRegistry.SessionContext) (w : world) : world := w.

(** [invoke_bad]: no handler stands for [nullptr] and for one of another
    signature. *)
Definition invoke_bad (opcode : Z)
    (bad : option (SessionHandle -> MessageView -> SessionRegistry.SessionContext -> Z -> world -> world))
    (s : SessionHandle) (raw : MessageView) (ctx : SessionRegistry.SessionContext) (w : world) : world :=
  match bad with Some f => f s raw ctx opcode w | None => defaultBadPacket s raw ctx w end.

(** [registerPacketCtx] by worker [cw]. *)
Definition registerPacketCtx {P} `{PacketType P} (cw opcode allowedMask : Z) (h : handler P)
    (bad : option (SessionHandle -> MessageView -> SessionRegistry.SessionContext -> Z -> world -> world)) (strict : bool)
    (s : setup) : setup :=
  let s := enforceTradingOpcodePolicyOrDie opcode s in
  let s := if allowedMask =? 0 then reportViolation "EmptyAllowedMask" opcode s else s in
  if dead s then s
  else
    let '(rt, d) := registerPacketHandlerCtx cw (s_rt s) (s_dispatcher s) opcode allowedMask (invoke_handler h)
                      (Some (invoke_bad opcode bad)) strict in
    mk_setup rt d (violations s) (dead s).

(** [PacketBinder::Allowed]: a mask that waits for its binding. *)
Record Allowed := mk_allowed { allowedMask_ : Z; bound_ : bool }.

Definition allowMask (allowedMask : Z) : Allowed := mk_allowed allowedMask false.
Definition allowStates (l : list SessionRegistry.ConnState) : Allowed := allowMask (states l).

(** The move constructor: the new object and the one moved from. *)
Definition move_allowed (other : Allowed) : Allowed * Allowed :=
  (mk_allowed (allowedMask_ other) (bound_ other), mk_allowed (allowedMask_ other) true).

Definition destroy_allowed (a : Allowed) (s : setup) : setup :=
  if bound_ a then s else reportViolation "MissingBinding" 0 s.

Definition on {P} `{PacketType P} (cw : Z) (a : Allowed) (h : handler P)
    (bad : option (SessionHandle -> MessageView -> SessionRegistry.SessionContext -> Z -> world -> world)) (strict : bool)
    (s : setup) : Allowed * setup :=
  (mk_allowed (allowedMask_ a) true, registerPacketCtx cw (kOpcode (P := P)) (allowedMask_ a) h bad strict s).

(** [BIND_PACKET_WITH_STATES], and the default state of [BIND_PACKET]; the
    temporary is destroyed at the end of the expression. *)
Definition BIND_PACKET_WITH_STATES {P} `{PacketType P} (h : handler P) (l : list SessionRegistry.ConnState)
    (cw : Z) (s : setup) : setup :=
  let '(a, s) := on cw (allowStates l) h None true s in destroy_allowed a s.
Definition BIND_PACKET {P} `{PacketType P} (h : handler P) : Z -> setup -> setup :=
  BIND_PACKET_WITH_STATES h [SessionRegistry.Connected].

(* ------------------------------------------------------------------ *)
(** ** Controllers *)

Record IController := mk_controller {
  install : Z -> setup -> setup;
  onServerStart : world -> world;
  onServerStop : world -> world;
  onSessionStart : SessionHandle -> world -> world;
  onSessionEnd : SessionHandle -> world -> world
}.

(** The hooks a class does not override do nothing. *)
Definition with_defaults (inst : Z -> setup -> setup) : IController :=
  mk_controller inst (fun w => w) (fun w => w) (fun _ w => w) (fun _ w => w).
Definition overriding_start (c : IController) (f : SessionHandle -> world -> world) : IController :=
  mk_controller (install c) (onServerStart c) (onServerStop c) f (onSessionEnd c).
Definition overriding_end (c : IController) (f : SessionHandle -> world -> world) : IController :=
  mk_controller (install c) (onServerStart c) (onServerStop c) (onSessionStart c) f.

(** [CompositeController]: [add] drops a null pointer, the rest are loops over
    the children. *)
Definition add (children_ : list IController) (child : option IController) : list IController :=
  match child with Some c => children_ ++ [c] | None => children_ end.

Definition for_each {W} (f : IController -> W -> W) (children_ : list IController) (w : W) : W :=
  foldl (fun w c => f c w) w children_.

Definition CompositeController (children_ : list IController) : IController :=
  mk_controller
    (fun cw => for_each (fun c => install c cw) children_)
    (for_each onServerStart children_)
    (for_each onServerStop children_)
    (fun session => for_each (fun c => onSessionStart c session) children_)
    (fun session => for_each (fun c => onSessionEnd c session) children_).

(** Two controllers that no caller can tell apart. *)
Record same_controller (c d : IController) : Prop := {
  same_install : forall cw s, install c cw s = install d cw s;
  same_serverStart : forall w, onServerStart c w = onServerStart d w;
  same_serverStop : forall w, onServerStop c w = onServerStop d w;
  same_sessionStart : forall h w, onSessionStart c h w = onSessionStart d h w;
  same_sessionEnd : forall h w, onSessionEnd c h w = onSessionEnd d h w
}.

#[export] Instance same_controller_equivalence : Equivalence same_controller.
Proof.
  split.
  - intros c. by split.
  - intros c d []. by split; intros; symmetry.
  - intros c d e [] []. split; intros; etransitivity; eauto.
Qed.

Lemma for_each_same {W} (f : IController -> W -> W) :
  (forall c d, same_controller c d -> forall w, f c w = f d w) ->
  forall l l', Forall2 same_controller l l' -> forall w, for_each f l w = for_each f l' w.
Proof. intros Hf l l' F. unfold for_each. induction F as [| c d l l' S F IH]; intros w; cbn; [done |]. by rewrite (Hf c d S), IH. Qed.

#[export] Instance composite_proper : Proper (Forall2 same_controller ==> same_controller) CompositeController.
Proof. intros l l' F. split; intros; cbn; apply for_each_same; try done; by intros c d []. Qed.

(** A composite among the children acts as its children in its place. *)
Lemma composite_flattens l1 l2 l3 :
  same_controller (CompositeController (l1 ++ CompositeController l2 :: l3)) (CompositeController (l1 ++ l2 ++ l3)).
Proof. split; intros; cbn; unfold for_each; by rewrite !foldl_app. Qed.

(* ------------------------------------------------------------------ *)
(** ** What a binding does *)

(** The state after the registrations [regs]. *)
Definition registered (cw : Z) (regs : list registration) (s : setup) : setup :=
  let rd := register_all cw regs (s_rt s, s_dispatcher s) in mk_setup rd.1 rd.2 (violations s) (dead s).

Lemma bind_packet_registers {P} `{PacketType P} (h : handler P) l cw s :
  isValidTradingOpcode (kOpcode (P := P)) = true -> states l <> 0 -> dead s = false ->
  BIND_PACKET_WITH_STATES h l cw s = registered cw [bind (states l) (invoke_handler h)] s.
Proof.
  intros V M D. unfold BIND_PACKET_WITH_STATES, on, registerPacketCtx, enforceTradingOpcodePolicyOrDie, destroy_allowed, registered.
  cbn [allowedMask_ bound_ allowStates allowMask]. rewrite V. zb_eval. rewrite D. unfold registerPacketHandlerCtx, register_all, bind. cbn.
  by destruct (registerCtx _ _ _ _ _ _).
Qed.

Lemma registered_app cw l1 l2 s : registered cw l2 (registered cw l1 s) = registered cw (l1 ++ l2) s.
Proof. unfold registered, register_all. cbn. rewrite fold_left_app. by destruct (fold_left _ l1 _). Qed.

(** A binder that is dropped without a handler is reported, once, also when it
    was moved before; one with a handler is not. *)
Lemma missing_binding_reported mask s : dead s = false ->
  let '(a, moved) := move_allowed (allowMask mask) in
  violations (destroy_allowed moved (destroy_allowed a s)) = violations s ++ [("MissingBinding"%string, 0)].
Proof. intros D. cbn. unfold destroy_allowed, reportViolation. cbn. by rewrite D. Qed.

End Binder.

(* ------------------------------------------------------------------ *)
(** ** The roles *)

Arguments HRuntimeCtx {A P} _.

Section Roles.
Context (kBindFailFast : bool).

(** [RoleHelloGatewayController] and [BenchmarkGatewayController]. *)
Definition RoleHelloGatewayController : IController (A := gateway) :=
  overriding_end (with_defaults (BIND_PACKET kBindFailFast (HRuntimeCtx onRoleHello_))) hello_onSessionEnd.
Definition BenchmarkGatewayController : IController (A := gateway) :=
  with_defaults (fun cw s =>
    let s := BIND_PACKET_WITH_STATES kBindFailFast (HRuntimeCtx gateway_onPerfPing) [SessionRegistry.Handshaked] cw s in
    BIND_PACKET_WITH_STATES kBindFailFast (HRuntimeCtx gateway_onPerfPong) [SessionRegistry.Handshaked] cw s).

(** [RoleHelloExchangeController] and [BenchmarkExchangeController]; no
    [onOk_] is set. *)
Definition RoleHelloExchangeController : IController (A := unit) :=
  overriding_start (with_defaults (BIND_PACKET kBindFailFast (HRuntimeCtx (onRoleHelloAck_ (fun _ w => w))))) (say_hello PeerRole_Exchange).
Definition BenchmarkExchangeController : IController (A := unit) :=
  with_defaults (BIND_PACKET_WITH_STATES kBindFailFast (HRuntimeCtx exchange_onPerfPing) [SessionRegistry.Handshaked]).

(** [RoleHelloClientController] with [onOk_] set to the benchmark's
    [onHandshakeOk], and [BenchmarkClientController]. *)
Definition RoleHelloClientController : IController (A := bench) :=
  overriding_start (with_defaults (BIND_PACKET kBindFailFast (HRuntimeCtx (onRoleHelloAck_ onHandshakeOk)))) (say_hello PeerRole_Client).
Definition BenchmarkClientController : IController (A := bench) :=
  with_defaults (BIND_PACKET_WITH_STATES kBindFailFast (HRuntimeCtx client_onPerfPong) [SessionRegistry.Handshaked]).

(** The [Install] functions: the root, and the state after its [install]. *)
Definition Install {A} (children : list (option (IController (A := A)))) (cw : Z) (s : setup) : IController * setup :=
  let root := CompositeController (foldl add [] children) in (root, install root cw s).
Definition gateway_Install := Install [Some RoleHelloGatewayController; Some BenchmarkGatewayController].
Definition exchange_Install := Install [Some RoleHelloExchangeController; Some BenchmarkExchangeController].
Definition client_Install := Install [Some RoleHelloClientController; Some BenchmarkClientController].

(** [l] can be installed: its registrations pass the binder's checks. *)
Lemma install_registers {A} (s : setup (A := A)) cw (i1 i2 : Z -> setup -> setup) r1 r2 : dead s = false ->
  (forall s, dead s = false -> i1 cw s = registered cw r1 s) -> (forall s, dead s = false -> i2 cw s = registered cw r2 s) ->
  i2 cw (i1 cw s) = registered cw (r1 ++ r2) s.
Proof. intros D H1 H2. rewrite H1, H2 by done. apply registered_app. Qed.

(** The three [Install] functions, through the binder and the composite
    controller, make exactly the registrations of their role in order and
    report no violation, whether violations are fatal or not; and the hooks of
    the controller they return are those of the role: the gateway reacts to
    the end of a session only, exchange and client greet at its start, and
    nothing else happens in any hook. *)
Theorem roles_composed cw :
  (forall s, dead s = false ->
     let '(root, s') := gateway_Install cw s in
     s' = registered cw gateway_regs s /\
     same_controller root (mk_controller (fun cw s => (gateway_Install cw s).2) (fun w => w) (fun w => w) (fun _ w => w) hello_onSessionEnd)) /\
  (forall s, dead s = false ->
     let '(root, s') := exchange_Install cw s in
     s' = registered cw exchange_regs s /\
     same_controller root (mk_controller (fun cw s => (exchange_Install cw s).2) (fun w => w) (fun w => w) (say_hello PeerRole_Exchange) (fun _ w => w))) /\
  (forall s, dead s = false ->
     let '(root, s') := client_Install cw s in
     s' = registered cw client_regs s /\
     same_controller root (mk_controller (fun cw s => (client_Install cw s).2) (fun w => w) (fun w => w) (say_hello PeerRole_Client) (fun _ w => w))).
Proof.
  split_and!; intros s D; cbn [gateway_Install exchange_Install client_Install Install]; (split; [| by split]).
  - apply (install_registers s cw _ _ [_] [_; _] D); intros s' D'; [by apply bind_packet_registers |].
    cbn [install BenchmarkGatewayController with_defaults]. rewrite (bind_packet_registers _ _ _ cw s') by done. rewrite bind_packet_registers by done. apply (registered_app cw [_] [_]).
  - apply (install_registers s cw _ _ [_] [_] D); intros s' D'; by apply bind_packet_registers.
  - apply (install_registers s cw _ _ [_] [_] D); intros s' D'; by apply bind_packet_registers.
Qed.

End Roles.

Lemma roles_composed_witness : (gateway_Install true 0 (mk_setup (runtime (start 1)) dispatcher_init [] false)).2 =
    registered 0 gateway_regs (mk_setup (runtime (start 1)) dispatcher_init [] false) /\
  handlerCount (s_dispatcher (registered 0 gateway_regs (mk_setup (runtime (start 1)) dispatcher_init [] false))) = 3.
Proof.
  split; [| by vm_compute].
  exact (proj1 (proj1 (roles_composed true 0) (mk_setup (runtime (start 1)) dispatcher_init [] false) eq_refl)).
Defined.

End Composite.
