(* ===== verification/Startup.v ===== *)
(** * Startup: the three programs around their controllers

    Models [IWorkerScheduler] with [GlobalWorkerScheduler],
    [WorkerControllerAppBase], [SessionService::connectTcp] and the start-up
    of the gateway, the load generator and the mock exchange: the workers'
    threads register handlers, the engine calls [onServerStart] on worker 0,
    which posts a task to every worker, and the tasks dial out; sessions,
    dial results and the server's stop come in between.

    What a program brings is a record [application]; what its controllers
    promise is the class [LawfulController]; the theorem about the start holds
    for all lawful programs, and the three programs are instances. *)

From stdpp Require Import strings.
From S2P Require Import Prelude Message Handle PacketCodec SessionRegistry Config Runtime Guard Controllers Composite.
Import Message Handle PacketCodec Runtime Guard Controllers Composite.

Module Startup.

(* ------------------------------------------------------------------ *)
(** ** IWorkerScheduler *)

Class IWorkerScheduler (L Task : Type) := {
  workerCount : L -> Z;
  postToWorker : Z -> Task -> L -> bool * L
}.

(** What its callers rely on: a task for a worker it has goes to the end of
    that worker's queue and nowhere else, any other is refused. *)
Class SchedulerLaws (L Task : Type) `{IWorkerScheduler L Task} := {
  queue_of : L -> Z -> option (list Task);
  has_queues : forall l i, is_Some (queue_of l i) -> 0 <= i < workerCount l;
  post_accepted : forall l i t q, queue_of l i = Some q -> exists l', postToWorker i t l = (true, l') /\
    workerCount l' = workerCount l /\
    forall j, queue_of l' j = if i =? j then Some (q ++ [t]) else queue_of l j;
  post_refused : forall l i t, queue_of l i = None -> postToWorker i t l = (false, l)
}.

(** [GlobalWorkerScheduler::postToWorker] over the loops, of which only the
    queues matter; a null pointer is [None]. *)
Definition global_post {Task} (workerId : Z) (t : Task) (loops_ : list (option (list Task))) : bool * list (option (list Task)) :=
  if (workerId <? 0) || (zlen loops_ <=? workerId) then (false, loops_)
  else match loops_ !! Z.to_nat workerId with
       | Some (Some q) => (true, <[Z.to_nat workerId := Some (q ++ [t])]> loops_)
       | _ => (false, loops_)
       end.

#[export] Instance GlobalWorkerScheduler {Task} : IWorkerScheduler (list (option (list Task))) Task := {
  workerCount := zlen;
  postToWorker := global_post
}.

#[export] Instance GlobalWorkerScheduler_laws {Task} : SchedulerLaws (list (option (list Task))) Task.
Proof.
  unshelve econstructor.
  - exact (fun l i => if i <? 0 then None else mjoin (l !! Z.to_nat i)).
  - intros l i [q E]. cbn. destruct (Z.ltb_spec i 0); [done |].
    destruct (l !! Z.to_nat i) as [o |] eqn:L; [| done]. apply lookup_lt_Some in L. unfold zlen. lia.
  - intros l i t q E. cbn in *. unfold global_post. destruct (Z.ltb_spec i 0); [done |].
    destruct (l !! Z.to_nat i) as [[q' |] |] eqn:L; try done. cbn in E. simplify_eq.
    pose proof (lookup_lt_Some _ _ _ L). assert (i < zlen l) by (unfold zlen; lia). zb_eval. eexists. split; [reflexivity |].
    split; [unfold zlen; by rewrite length_insert |]. intros j. destruct (Z.eqb_spec i j) as [<- | N].
    + zb_eval. by rewrite list_lookup_insert_eq.
    + destruct (Z.ltb_spec j 0); [done |]. by rewrite list_lookup_insert_ne by lia.
  - intros l i t E. cbn in *. unfold global_post. destruct (Z.ltb_spec i 0); [done |]. cbn.
    destruct (l !! Z.to_nat i) as [[q' |] |] eqn:L; try done; by destruct (_ <=? _).
Defined.

(** A task for every worker, as the programs post them: [mk i] to worker
    [i]. *)
Definition post_all {L Task} `{IWorkerScheduler L Task} (mk : Z -> Task) (l : L) : L :=
  foldl (fun l i => (postToWorker i (mk i) l).2) l (seqZ 0 (workerCount l)).

Lemma post_some {L Task} `{SchedulerLaws L Task} (mk : Z -> Task) (js : list Z) : NoDup js -> forall l,
  let l' := foldl (fun l i => (postToWorker i (mk i) l).2) l js in
  workerCount l' = workerCount l /\
  forall i, queue_of l' i = (fun q => q ++ if decide (i ∈ js) then [mk i] else []) <$> queue_of l i.
Proof.
  induction 1 as [| j js N D IH]; intros l; cbn.
  { split; [done |]. intros i. destruct (queue_of l i); [cbn; by rewrite app_nil_r | done]. }
  assert (exists l1, (postToWorker j (mk j) l).2 = l1 /\ workerCount l1 = workerCount l /\
    forall i, queue_of l1 i = (fun q => q ++ if j =? i then [mk i] else []) <$> queue_of l i) as (l1 & -> & C & Q).
  { destruct (queue_of l j) as [q |] eqn:E.
    - destruct (post_accepted l j (mk j) q E) as (l1 & P & C & Q). rewrite P. exists l1. split_and!; [done | done |].
      intros i. rewrite Q. destruct (Z.eqb_spec j i) as [<- | ?]; [by rewrite E |].
      destruct (queue_of l i); [cbn; by rewrite app_nil_r | done].
    - rewrite (post_refused l j (mk j) E). exists l. split_and!; [done | done |]. intros i. cbn.
      destruct (Z.eqb_spec j i) as [<- | ?]; [by rewrite E |]. destruct (queue_of l i); [cbn; by rewrite app_nil_r | done]. }
  destruct (IH l1) as [C' Q']. split; [by rewrite C', C |]. intros i. rewrite Q', Q.
  destruct (queue_of l i) as [q |]; [| done]. cbn. f_equal.
  destruct (Z.eqb_spec j i) as [<- | ?].
  - rewrite (decide_False (P := j ∈ js)) by done. rewrite decide_True by set_solver. by rewrite app_nil_r.
  - rewrite app_nil_r. f_equal. destruct (decide (i ∈ js)); [rewrite decide_True by set_solver | rewrite decide_False by set_solver]; done.
Qed.

(** Every worker gets exactly its task, at the end of its queue. *)
Lemma post_all_spec {L Task} `{SchedulerLaws L Task} (mk : Z -> Task) (l : L) :
  workerCount (post_all mk l) = workerCount l /\
  forall i, queue_of (post_all mk l) i = (fun q => q ++ [mk i]) <$> queue_of l i.
Proof.
  destruct (post_some mk (seqZ 0 (workerCount l)) (NoDup_seqZ _ _) l) as [C Q]. split; [done |].
  intros i. unfold post_all. rewrite Q. destruct (queue_of l i) as [q |] eqn:E; [| done]. cbn.
  rewrite decide_True; [done |]. apply elem_of_seqZ. pose proof (has_queues l i ltac:(by rewrite E)). lia.
Qed.

(* ------------------------------------------------------------------ *)
(** ** WorkerControllerAppBase *)

Record base {A} := mk_base { app_scheduler_ : bool; controllersByWorker_ : list (option (IController (A := A))) }.
Arguments base : clear implicits.
Arguments mk_base {A} _ _.

(** [setWorkerScheduler], with the number of workers; the runtime gets it
    too. *)
Definition setWorkerScheduler {A} (scheduler : option Z) (b : base A) : base A :=
  match scheduler with
  | Some n => mk_base true (replicate (Z.to_nat n) None)
  | None => mk_base false (controllersByWorker_ b)
  end.

Definition getController {A} (b : base A) (wid : Z) : option IController :=
  if (0 <=? wid) && (wid <? zlen (controllersByWorker_ b)) then mjoin (controllersByWorker_ b !! Z.to_nat wid) else None.

Definition setController {A} (b : base A) (wid : Z) (controller : IController) : base A :=
  if (0 <=? wid) && (wid <? zlen (controllersByWorker_ b))
  then mk_base (app_scheduler_ b) (<[Z.to_nat wid := Some controller]> (controllersByWorker_ b)) else b.

(* ------------------------------------------------------------------ *)
(** ** SessionService::connectTcp *)

Record ConnectTcpOptions := mk_connect { host : string; port : Z; targetScope : Z; targetTopic : Z }.

#[export] Instance ConnectTcpOptions_eq_dec : EqDecision ConnectTcpOptions.
Proof. solve_decision. Defined.

(** What [connectTcp] on the service of shard [sh] does when worker [cw] calls
    it; [sm]: the worker has a session manager. *)
Inductive connecting := CFails (err : string) | CPosts (owner : Z) | CDials.

Definition connectTcp (cw : Z) (sh : WorkerShard) (sm : bool) : connecting :=
  if negb (cw =? shard_wid sh) then
    match svc_scheduler_ sh with
    | None => CFails "connectTcp failed: scheduler not injected"
    | Some _ => CPosts (shard_wid sh)
    end
  else if sm then CDials else CFails "connectTcp failed: SessionManager not found".

(** The callback it gives to [dialTcpSession], before that of the caller. *)
Definition subscribe_dialled {A} (opt : ConnectTcpOptions) (h : SessionHandle) (w : gworld (St := app A)) : gworld :=
  if (targetScope opt =? 0) && (targetTopic opt =? 0) then w
  else on_local w (fun reg =>
    (SessionRegistry.setPrimaryTopic (gw_cw w) (SessionRegistry.subscribe (gw_cw w) reg (id_ h) (targetScope opt) (targetTopic opt)).1
       (id_ h) (targetScope opt) (targetTopic opt)).1).

(* ------------------------------------------------------------------ *)
(** ** Programs *)

(** What a program adds to the base class: its controllers, its part of
    [setWorkerScheduler], the assertion on the scheduler, whether its start task calls the controller's hook, what it
    dials, and its part of the callbacks.  The data of its controllers are
    kept in [S], of which a worker sees its part. *)
Record application {A S : Type} := mk_application {
  children : list (option (IController (A := A)));
  on_scheduler : Z -> S -> S;
  scheduler_asserted : bool;
  hook_at_start : bool;
  dials : list ConnectTcpOptions;
  on_connected : Z -> SessionHandle -> gworld (St := app A) -> gworld (St := app A);
  after_end : SessionHandle -> gworld (St := app A) -> gworld (St := app A);
  see : Z -> S -> app A;
  put : Z -> app A -> S -> S
}.
Arguments application : clear implicits.
Arguments mk_application {A S} _ _ _ _ _ _ _ _ _.

(** [FepGatewayApplication]: one upstream session per worker, kept in the
    slots all workers share. *)
Definition forget_upstream (session : SessionHandle) (w : gworld (St := app gateway)) : gworld :=
  if workerCount_ (upstream_ (the_data w)) <=? 0 then w else
  asserted w (isLocal (gw_cw w) (upstream_ (the_data w)) (id_ session)) (fun here =>
  if here then asserted w (clearLocal (gw_cw w) (upstream_ (the_data w))) (fun u => set_upstream w u) else w).

Definition FepGatewayApplication (failfast : bool) (cfg : Config.FepConfig) : application gateway (app gateway) :=
  mk_application [Some (RoleHelloGatewayController failfast); Some (BenchmarkGatewayController failfast)]
    (fun n a => mk_app (mk_gateway (reset n) (handoff_mode_ (data a))) (out a) (clock a) (txMessages a) (aborted a))
    true false [mk_connect (Config.upstream_host cfg) (Config.upstream_port cfg) 0 0]
    upstream_connected forget_upstream (fun _ s => s) (fun _ a _ => a).

(** [LoadgenApplication]: [connection_count] sessions per worker, and a
    controller with data of its own for each. *)
Definition LoadgenApplication (failfast : bool) (cfg : Config.ExchangeSimConfig) : application bench (list (app bench)) :=
  mk_application [Some (RoleHelloClientController failfast); Some (BenchmarkClientController failfast)]
    (fun _ s => s) false true (replicate (Z.to_nat (Config.connection_count cfg)) (mk_connect (Config.fep_host cfg) (u16 (Config.fep_port cfg)) 0 0))
    (fun _ _ w => w) (fun _ w => w)
    (fun cw s => default (mk_app (new_bench (Config.connection_count cfg)) [] [] 0 false) (s !! Z.to_nat cw))
    (fun cw a s => <[Z.to_nat cw := a]> s).

(** [MockExchangeApplication]: waits for the gateway. *)
Definition MockExchangeApplication (failfast : bool) : application unit (app unit) :=
  mk_application [Some (RoleHelloExchangeController failfast); Some (BenchmarkExchangeController failfast)]
    (fun _ s => s) false true [] (fun _ _ w => w) (fun _ w => w) (fun _ s => s) (fun _ a _ => a).

(* ------------------------------------------------------------------ *)
(** ** A running program *)

Inductive task := TServerStart (i : Z) | TServerStop (i : Z) | TConnect (i k : Z) (opt : ConnectTcpOptions).

(** What was done on a worker; [found]: its controller was there. *)
Inductive event :=
| VServerStart (found : bool)
| VServerStop (found : bool)
| VDial (k : Z) (opt : ConnectTcpOptions)
| VAnswer (k : Z) (ok : bool)
| VSession (sid : Z) (found : bool)
| VSessionEnd (sid : Z) (found : bool).

#[export] Instance event_eq_dec : EqDecision event.
Proof. solve_decision. Defined.

Section Process.
Context {A S : Type} (prog : application A S) (n : nat).
Abbreviation world := (gworld (St := app A)).
Abbreviation dispatcher := (Dispatcher (Session := SessionHandle) (W := world)).

Record process := mk_process {
  rt : AppRuntime;
  own : S;
  app_base : base A;
  loops_ : list (option (list task));
  dispatchers : list dispatcher;
  reported : list (string * Z);      (** violations of the binder *)
  ready : Z;                         (** threads that have registered handlers *)
  called : bool;                     (** [onServerStart] was called *)
  dialing : list (Z * Z);            (** dials in flight: worker and number *)
  trace : list (Z * event);
  stopped : bool                     (** aborted *)
}.

Definition set_world p r o := mk_process r o (app_base p) (loops_ p) (dispatchers p) (reported p) (ready p) (called p) (dialing p) (trace p) (stopped p).
Definition set_loops p l := mk_process (rt p) (own p) (app_base p) l (dispatchers p) (reported p) (ready p) (called p) (dialing p) (trace p) (stopped p).
Definition set_called p := mk_process (rt p) (own p) (app_base p) (loops_ p) (dispatchers p) (reported p) (ready p) true (dialing p) (trace p) (stopped p).
Definition set_dialing p d := mk_process (rt p) (own p) (app_base p) (loops_ p) (dispatchers p) (reported p) (ready p) (called p) d (trace p) (stopped p).
Definition log p cw e := mk_process (rt p) (own p) (app_base p) (loops_ p) (dispatchers p) (reported p) (ready p) (called p) (dialing p) (trace p ++ [(cw, e)]) (stopped p).
Definition abort p := mk_process (rt p) (own p) (app_base p) (loops_ p) (dispatchers p) (reported p) (ready p) (called p) (dialing p) (trace p) true.

(** Before the threads start: [setSessionRouter] and [setWorkerScheduler]. *)
Definition init (o : S) : process :=
  mk_process (runtime (start n)) (on_scheduler prog (Z.of_nat n) o) (setWorkerScheduler (Some (Z.of_nat n)) (mk_base false [])) (replicate n (Some [])) [] [] 0 false [] [] false.

(** Runs [f] on worker [cw]. *)
Definition run_on (cw : Z) (f : world -> world) (p : process) : process :=
  let w := f (mk_gworld cw (rt p) (see prog cw (own p))) in set_world p (gw_rt w) (put prog cw (gw_app w) (own p)).

(** A hook of worker [i]'s controller, if there is one. *)
Definition hook (cw i : Z) (f : IController -> world -> world) (e : bool -> event) (p : process) : process :=
  match getController (app_base p) i with
  | Some c => log (run_on cw (f c) p) cw (e true)
  | None => log p cw (e false)
  end.

(** [registerHandlers], on the thread of worker [wid]. *)
Definition registerHandlers (wid : Z) (p : process) : process :=
  let '(controller, s) := Install (children prog) wid (mk_setup (rt p) dispatcher_init (reported p) false) in
  mk_process (s_rt s) (own p) (setController (app_base p) wid controller) (loops_ p) (dispatchers p ++ [s_dispatcher s])
    (violations s) (wid + 1) (called p) (dialing p) (trace p) (stopped p || dead s).

(** The result of dial [k] that worker [i]'s task asked for. *)
Definition answered (cw i k : Z) (opt : ConnectTcpOptions) (r : SessionHandle + string) (p : process) : process :=
  let p := log p cw (VAnswer k (match r with inl _ => true | inr _ => false end)) in
  match r with
  | inl h => run_on cw (fun w => on_connected prog i h (subscribe_dialled opt h w)) p
  | inr _ => p
  end.

(** [runtime_.service().connectTcp(opt, cb)]; [now]: the dial fails at once. *)
Definition connect (cw i k : Z) (opt : ConnectTcpOptions) (now : option string) (p : process) : process :=
  match local_ cw (rt p) with
  | None => abort p
  | Some sh =>
      match connectTcp cw sh (cw <? ready p) with
      | CFails err => answered cw i k opt (inr err) p
      | CPosts owner => set_loops p (postToWorker owner (TConnect i k opt) (loops_ p)).2
      | CDials =>
          let p := log p cw (VDial k opt) in
          match now with
          | Some err => answered cw i k opt (inr err) p
          | None => set_dialing p (dialing p ++ [(cw, k)])
          end
      end
  end.

(** The loop over the dials of a start task. *)
Fixpoint connect_all (cw i k : Z) (opts : list ConnectTcpOptions) (now : list (option string)) (p : process) : process :=
  match opts with
  | [] => p
  | opt :: opts => connect_all cw i (k + 1) opts (tail now) (connect cw i k opt (default None (head now)) p)
  end.

Definition run_task (cw : Z) (t : task) (now : list (option string)) (p : process) : process :=
  match t with
  | TServerStart i =>
      let p := if hook_at_start prog then hook cw i onServerStart VServerStart p else p in
      connect_all cw i 0 (dials prog) now p
  | TServerStop i => hook cw i onServerStop VServerStop p
  | TConnect i k opt => connect cw i k opt (default None (head now)) p
  end.

(** [onServerStart] of the programs and [onServerStop] of the base class. *)
Definition app_onServerStart (p : process) : process :=
  if app_scheduler_ (app_base p) then set_loops p (post_all TServerStart (loops_ p))
  else if scheduler_asserted prog then abort p else p.
Definition app_onServerStop (p : process) : process :=
  if app_scheduler_ (app_base p) then set_loops p (post_all TServerStop (loops_ p)) else p.

(** [onSessionStart] and [onSessionEnd]. *)
Definition app_onSessionStart (cw : Z) (h : SessionHandle) (p : process) : process :=
  hook cw (ownerWorkerId_ h) (fun c => onSessionStart c h) (VSession (id_ h)) (run_on cw (fun w => rt_onSessionStart w h) p).
Definition app_onSessionEnd (cw : Z) (h : SessionHandle) (p : process) : process :=
  let p := hook cw (ownerWorkerId_ h) (fun c => onSessionEnd c h) (VSessionEnd (id_ h)) p in
  run_on cw (fun w => after_end prog h (rt_onSessionEnd w h)) p.

Inductive move :=
| MThread                                        (** the next worker's thread *)
| MServerStart
| MTask (cw : Z) (now : list (option string))
| MDialled (cw k : Z) (opt : ConnectTcpOptions) (r : SessionHandle + string)
| MSession (cw : Z) (h : SessionHandle)
| MSessionEnd (cw : Z) (h : SessionHandle)
| MServerStop.

(** One occurrence of [x] less. *)
Fixpoint without (x : Z * Z) (l : list (Z * Z)) : option (list (Z * Z)) :=
  match l with
  | [] => None
  | y :: l => if decide (x = y) then Some l else cons y <$> without x l
  end.

Definition step (p : process) (m : move) : option process :=
  if stopped p then None else
  match m with
  | MThread => if ready p <? Z.of_nat n then Some (registerHandlers (ready p) p) else None
  | MServerStart => if (ready p =? Z.of_nat n) && negb (called p) then Some (set_called (app_onServerStart p)) else None
  | MTask cw now =>
      if (0 <=? cw) && (cw <? ready p) then
        match mjoin (loops_ p !! Z.to_nat cw) with
        | Some (t :: q) => Some (run_task cw t now (set_loops p (<[Z.to_nat cw := Some q]> (loops_ p))))
        | _ => None
        end
      else None
  | MDialled cw k opt r =>
      match without (cw, k) (dialing p) with
      | Some d => if decide ((cw, VDial k opt) ∈ trace p) then Some (answered cw cw k opt r (set_dialing p d)) else None
      | None => None
      end
  | MSession cw h => if (0 <=? cw) && (cw <? ready p) && (ownerWorkerId_ h =? cw) then Some (app_onSessionStart cw h p) else None
  | MSessionEnd cw h => if (0 <=? cw) && (cw <? ready p) && (ownerWorkerId_ h =? cw) then Some (app_onSessionEnd cw h p) else None
  | MServerStop => if ready p =? Z.of_nat n then Some (app_onServerStop p) else None
  end.

Fixpoint run (p : process) (l : list move) : option process :=
  match l with
  | [] => Some p
  | m :: l => p ← step p m; run p l
  end.

(* ------------------------------------------------------------------ *)
(** ** What controllers promise *)

(** The workers of the runtime's shards. *)
Definition wids (r : AppRuntime) : list Z := shard_wid <$> shards_ r.

(** Hooks and installation leave the shards with their workers, and
    installation passes the binder's checks. *)
Class LawfulController (c : IController (A := A)) : Prop := {
  lawful_install : forall cw s, dead s = false ->
    wids (s_rt (install c cw s)) = wids (s_rt s) /\ dead (install c cw s) = false /\ violations (install c cw s) = violations s;
  lawful_serverStart : forall w, wids (gw_rt (onServerStart c w)) = wids (gw_rt w);
  lawful_serverStop : forall w, wids (gw_rt (onServerStop c w)) = wids (gw_rt w);
  lawful_sessionStart : forall h w, wids (gw_rt (onSessionStart c h w)) = wids (gw_rt w);
  lawful_sessionEnd : forall h w, wids (gw_rt (onSessionEnd c h w)) = wids (gw_rt w)
}.

Class LawfulApplication : Prop := {
  lawful_children : Forall (fun o => forall c, o = Some c -> LawfulController c) (children prog);
  lawful_connected : forall i h w, wids (gw_rt (on_connected prog i h w)) = wids (gw_rt w);
  lawful_after_end : forall h w, wids (gw_rt (after_end prog h w)) = wids (gw_rt w)
}.

Lemma for_each_keeps {W} (P : W -> Prop) (f : IController (A := A) -> W -> W) l w :
  Forall (fun c => forall w, P w -> P (f c w)) l -> P w -> P (for_each f l w).
Proof. intros F. revert w. unfold for_each. induction F as [| c l H F IH]; intros w Pw; [done |]. cbn. auto. Qed.

(** A hook that runs those of the children in turn. *)
Tactic Notation "keep_wids" uconstr(law) :=
  match goal with |- wids (gw_rt (for_each _ _ ?w)) = _ => apply (for_each_keeps (fun w' => wids (gw_rt w') = wids (gw_rt w))); [| done] end;
  match goal with F : Forall LawfulController _ |- _ => eapply Forall_impl; [exact F |] end; intros c L w' H; by rewrite law.

(** A composite of lawful controllers is lawful. *)
#[export] Instance lawful_composite l : Forall LawfulController l -> LawfulController (CompositeController l).
Proof.
  intros F. split; cbn.
  - intros cw s D. apply (for_each_keeps (fun s' => wids (s_rt s') = wids (s_rt s) /\ dead s' = false /\ violations s' = violations s)); [| done].
    eapply Forall_impl; [exact F |]. intros c L s' (H1 & H2 & H3). destruct (lawful_install cw s' H2) as (H4 & H5 & H6).
    by rewrite H4, H6.
  - intros w. keep_wids lawful_serverStart.
  - intros w. keep_wids lawful_serverStop.
  - intros h w. keep_wids lawful_sessionStart.
  - intros h w. keep_wids lawful_sessionEnd.
Qed.

Lemma added_lawful (l : list (option (IController (A := A)))) acc : Forall LawfulController acc ->
  Forall (fun o => forall c, o = Some c -> LawfulController c) l -> Forall LawfulController (foldl add acc l).
Proof.
  intros Fa F. revert acc Fa. induction F as [| [c |] l H F IH]; intros acc Fa; cbn; [done | | by apply IH].
  apply IH, Forall_app; split; [done | constructor; [by apply H | done]].
Qed.

(* ------------------------------------------------------------------ *)
(** ** What the trace shows *)

(** The part of a start task: its hook and its dials. *)
Definition start_event (e : event) : bool := match e with VServerStart _ | VDial _ _ => true | _ => false end.

Definition starts (i : Z) (tr : list (Z * event)) : list event :=
  omap (fun x => if (x.1 =? i) && start_event x.2 then Some x.2 else None) tr.

Fixpoint numbered (k : Z) (opts : list ConnectTcpOptions) : list event :=
  match opts with [] => [] | opt :: opts => VDial k opt :: numbered (k + 1) opts end.

(** All that the start of a worker is. *)
Definition reference : list event :=
  (if hook_at_start prog then [VServerStart true] else []) ++ numbered 0 (dials prog).

Definition dials_of (tr : list (Z * event)) : list (Z * Z) :=
  omap (fun x => match x.2 with VDial k _ => Some (x.1, k) | _ => None end) tr.
Definition answers_of (tr : list (Z * event)) : list (Z * Z) :=
  omap (fun x => match x.2 with VAnswer k _ => Some (x.1, k) | _ => None end) tr.

#[local] Arguments starts : simpl never.
#[local] Arguments dials_of : simpl never.
#[local] Arguments answers_of : simpl never.

(** A callback that found its controller. *)
Definition heard (e : event) : bool :=
  match e with VServerStart b | VServerStop b | VSession _ b | VSessionEnd _ b => b | _ => true end.

Lemma starts_app i t1 t2 : starts i (t1 ++ t2) = starts i t1 ++ starts i t2.
Proof. apply omap_app. Qed.
Lemma dials_app t1 t2 : dials_of (t1 ++ t2) = dials_of t1 ++ dials_of t2.
Proof. apply omap_app. Qed.
Lemma answers_app t1 t2 : answers_of (t1 ++ t2) = answers_of t1 ++ answers_of t2.
Proof. apply omap_app. Qed.

Lemma dial_started i k tr : (i, k) ∈ dials_of tr -> starts i tr <> [].
Proof.
  unfold dials_of. rewrite list_elem_of_omap. intros ([cw e] & I & E) N. destruct e; try done. cbn in E. simplify_eq.
  assert (VDial k opt ∈ starts i tr) as H; [| by rewrite N in H; apply elem_of_nil in H].
  apply list_elem_of_omap. exists (i, VDial k opt). split; [done |]. cbn. by rewrite Z.eqb_refl.
Qed.

(* ------------------------------------------------------------------ *)
(** ** Start tasks *)

Definition extend (p : process) (tr : list (Z * event)) (d : list (Z * Z)) : process :=
  mk_process (rt p) (own p) (app_base p) (loops_ p) (dispatchers p) (reported p) (ready p) (called p) (dialing p ++ d) (trace p ++ tr) (stopped p).

Lemma extend_extend p t1 d1 t2 d2 : extend (extend p t1 d1) t2 d2 = extend p (t1 ++ t2) (d1 ++ d2).
Proof. unfold extend. cbn. by rewrite <- !app_assoc. Qed.

Lemma local_shard p cw : wids (rt p) = seqZ 0 (Z.of_nat n) -> 0 <= cw < Z.of_nat n ->
  exists sh, local_ cw (rt p) = Some sh /\ shard_wid sh = cw.
Proof.
  intros W H. assert ((seqZ 0 (Z.of_nat n)) !! Z.to_nat cw = Some cw) as L.
  { apply lookup_seqZ. lia. }
  rewrite <- W in L. unfold wids in L. apply list_lookup_fmap_Some in L as (sh & E & L). exists sh. split; [| done].
  apply local_lookup; [lia | done].
Qed.

(** A dial from the worker's own thread: the dial, and its answer if it fails
    at once. *)
Lemma connect_dials cw k opt now p : wids (rt p) = seqZ 0 (Z.of_nat n) -> 0 <= cw < ready p -> ready p <= Z.of_nat n ->
  connect cw cw k opt now p =
  match now with
  | Some _ => extend p [(cw, VDial k opt); (cw, VAnswer k false)] []
  | None => extend p [(cw, VDial k opt)] [(cw, k)]
  end.
Proof.
  intros W H R. unfold connect. destruct (local_shard p cw W ltac:(lia)) as (sh & -> & E).
  unfold connectTcp. rewrite E, Z.eqb_refl. zb_eval. unfold extend.
  destruct now; cbn; [unfold answered, log; cbn; by rewrite app_nil_r, <- app_assoc | done].
Qed.

(** What a run of dials adds, from number [k] on. *)
Record dialled (cw k : Z) (opts : list ConnectTcpOptions) (tr : list (Z * event)) (d : list (Z * Z)) : Prop := {
  dl_starts : starts cw tr = numbered k opts;
  dl_others : forall i, i <> cw -> starts i tr = [];
  dl_numbers : dials_of tr = (fun j => (cw, j)) <$> seqZ k (zlen opts);
  dl_answers : dials_of tr ≡ₚ answers_of tr ++ d;
  dl_heard : Forall (fun x => heard x.2 = true) tr
}.

Lemma connect_all_dials cw opts : forall k now p, wids (rt p) = seqZ 0 (Z.of_nat n) -> 0 <= cw < ready p -> ready p <= Z.of_nat n ->
  exists tr d, connect_all cw cw k opts now p = extend p tr d /\ dialled cw k opts tr d.
Proof.
  induction opts as [| opt opts IH]; intros k now p W H R; cbn.
  { exists [], []. split; [unfold extend; destruct p; cbn; by rewrite !app_nil_r |]. by split. }
  rewrite (connect_dials cw k opt _ p W H R).
  set (p1 := match default None (head now) with Some _ => _ | None => _ end).
  destruct (IH (k + 1) (tail now) p1) as (tr & d & E & [St O N An Hd]); try (by subst p1; destruct (default None _)).
  assert (seqZ k (zlen (opt :: opts)) = k :: seqZ (k + 1) (zlen opts)) as Sq.
  { rewrite (seqZ_cons k); unfold zlen; cbn [length]; [| lia]. f_equal. f_equal; lia. }
  assert (forall i, i <> cw -> (cw =? i) = false) as Ne by (intros i ?; apply Z.eqb_neq; lia).
  rewrite E. subst p1. destruct (default None (head now)).
  - exists ([(cw, VDial k opt); (cw, VAnswer k false)] ++ tr), d. split; [by rewrite extend_extend |].
    split.
    + rewrite starts_app, St. unfold starts. cbn. by rewrite Z.eqb_refl.
    + intros i Hi. rewrite starts_app, O by done. unfold starts. cbn. by rewrite Ne.
    + by rewrite Sq, dials_app, N.
    + by rewrite dials_app, answers_app, An.
    + by repeat constructor.
  - exists ([(cw, VDial k opt)] ++ tr), ([(cw, k)] ++ d). split; [by rewrite extend_extend |].
    split.
    + rewrite starts_app, St. unfold starts. cbn. by rewrite Z.eqb_refl.
    + intros i Hi. rewrite starts_app, O by done. unfold starts. cbn. by rewrite Ne.
    + by rewrite Sq, dials_app, N.
    + rewrite dials_app, answers_app, An. apply (Permutation_middle (answers_of tr) d (cw, k)).
    + by repeat constructor.
Qed.

(* ------------------------------------------------------------------ *)
(** ** The invariant *)

Definition starters (q : list task) : nat := length (omap (fun t => match t with TServerStart _ => Some t | _ => None end) q).

(** A queue holds tasks of its worker only, and a start task waits exactly
    while the start was called and the worker has not started. *)
Definition waiting (p : process) (i : Z) (q : list task) : Prop :=
  Forall (fun t => t = TServerStart i \/ t = TServerStop i) q /\
  (if called p then (starters q = 1%nat /\ starts i (trace p) = []) \/ (starters q = 0%nat /\ starts i (trace p) = reference)
   else starters q = 0%nat /\ starts i (trace p) = []).

Record inv (p : process) : Prop := {
  inv_wids : wids (rt p) = seqZ 0 (Z.of_nat n);
  inv_alive : stopped p = false;
  inv_reported : reported p = [];
  inv_ready : 0 <= ready p <= Z.of_nat n;
  inv_called : called p = true -> ready p = Z.of_nat n;
  inv_scheduler : app_scheduler_ (app_base p) = true;
  inv_slots : zlen (controllersByWorker_ (app_base p)) = Z.of_nat n;
  inv_controllers : forall i, 0 <= i < ready p -> exists c, getController (app_base p) i = Some c /\ LawfulController c;
  inv_loops : zlen (loops_ p) = Z.of_nat n;
  inv_queues : forall i, 0 <= i < Z.of_nat n -> exists q, queue_of (loops_ p) i = Some q /\ waiting p i q;
  inv_dials : dials_of (trace p) ≡ₚ answers_of (trace p) ++ dialing p;
  inv_once : NoDup (dials_of (trace p));
  inv_heard : Forall (fun x => heard x.2 = true) (trace p)
}.

Lemma inv_init o : inv (init o).
Proof.
  split; cbn; try done; try lia.
  - unfold wids, start. cbn. rewrite map_id. unfold zlen. rewrite length_replicate.
    rewrite <- (list_fmap_id (seqZ 0 _)) at 2. rewrite <- list_fmap_compose. by apply list_fmap_ext.
  - unfold zlen. by rewrite length_replicate, Nat2Z.id.
  - unfold zlen. by rewrite length_replicate.
  - intros i H. exists []. split; [| done]. zb_eval. rewrite lookup_replicate_2 by lia. done.
  - constructor.
Qed.

(** Only the world changes. *)
Lemma inv_world p r o : inv p -> wids r = wids (rt p) -> inv (set_world p r o).
Proof. intros [] W. split; cbn; try done. by rewrite W. Qed.

Lemma inv_run_on p cw f : inv p -> (forall w, wids (gw_rt (f w)) = wids (gw_rt w)) -> inv (run_on cw f p).
Proof. intros I H. apply inv_world; [done |]. by rewrite H. Qed.

(** A callback is recorded. *)
Definition callback_event (e : event) : bool := match e with VServerStop b | VSession _ b | VSessionEnd _ b => b | _ => false end.

Lemma recorded_inv p cw e : inv p -> callback_event e = true -> inv (log p cw e).
Proof.
  intros [] E. split; cbn; try done.
  - intros i H. destruct (inv_queues0 i H) as (q & Q & T & W). exists q. split; [done |]. split; [done |]. cbn.
    rewrite starts_app. replace (starts i [(cw, e)]) with (@nil event); [by rewrite app_nil_r |].
    unfold starts. cbn. by destruct e; cbn; rewrite ?andb_false_r.
  - rewrite dials_app, answers_app. by destruct e; rewrite ?app_nil_r.
  - rewrite dials_app. by destruct e; rewrite ?app_nil_r.
  - apply Forall_app. split; [done |]. constructor; [by destruct e | done].
Qed.

Lemma inv_hook p cw i f e : inv p -> 0 <= i < ready p -> (forall c w, LawfulController c -> wids (gw_rt (f c w)) = wids (gw_rt w)) ->
  callback_event (e true) = true -> inv (hook cw i f e p).
Proof.
  intros I H Hf E. unfold hook. destruct (inv_controllers _ I i H) as (c & -> & L).
  apply recorded_inv; [| done]. apply inv_run_on; auto.
Qed.

(* ------------------------------------------------------------------ *)
(** ** Its preservation *)

Context {lawful : LawfulApplication}.

Lemma root_lawful : LawfulController (CompositeController (foldl add [] (children prog))).
Proof. apply lawful_composite, added_lawful; [constructor | apply lawful_children]. Qed.

Lemma thread_inv p : inv p -> ready p < Z.of_nat n -> inv (registerHandlers (ready p) p).
Proof.
  intros I R. unfold registerHandlers, Install. cbv zeta. pose proof root_lawful as L. revert L.
  generalize (CompositeController (foldl add [] (children prog))) as root. intros root L.
  destruct (lawful_install (ready p) (mk_setup (rt p) dispatcher_init (reported p) false) eq_refl) as (W & D & V).
  revert W D V. generalize (install root (ready p) (mk_setup (rt p) dispatcher_init (reported p) false)) as s. intros s W D V.
  destruct I. split; cbn; try done; try lia.
  - by rewrite W.
  - by rewrite inv_alive0, D.
  - by rewrite V.
  - intros C. specialize (inv_called0 C). lia.
  - unfold setController. zb_eval. done.
  - unfold setController. zb_eval. cbn. unfold zlen. by rewrite length_insert.
  - intros i H. unfold setController, getController. zb_eval. cbn. unfold zlen. rewrite length_insert. unfold zlen in inv_slots0.
    assert (i < Z.of_nat n) by lia. zb_eval. destruct (decide (i = ready p)) as [-> | N].
    + exists root. rewrite list_lookup_insert_eq by lia. done.
    + destruct (inv_controllers0 i ltac:(lia)) as (c & E & Lc). exists c. split; [| done].
      rewrite list_lookup_insert_ne by lia. revert E. unfold getController, zlen. zb_eval. done.
Qed.

(** A task for every worker. *)
Lemma posted_inv p (mk : Z -> task) start : inv p -> (forall i, mk i = if start : bool then TServerStart i else TServerStop i) ->
  (start = true -> called p = false /\ ready p = Z.of_nat n) ->
  inv (let p' := set_loops p (post_all mk (loops_ p)) in if start then set_called p' else p').
Proof.
  intros I M C. destruct (post_all_spec mk (loops_ p)) as [N Q].
  assert (forall i, 0 <= i < Z.of_nat n -> exists q, queue_of (post_all mk (loops_ p)) i = Some q /\
    waiting (if start then set_called p else p) i q) as W.
  { intros i H. destruct (inv_queues _ I i H) as (q & E & T & St). exists (q ++ [mk i]). rewrite Q, E. split; [done |].
    split; [apply Forall_app; split; [done |]; constructor; [rewrite M; destruct start; auto | done] |].
    unfold starters. rewrite omap_app, length_app, M. destruct start; cbn.
    - destruct (C eq_refl) as [Cf _]. rewrite Cf in St. left. unfold starters in St. destruct St. split; [lia | done].
    - by rewrite Nat.add_0_r. }
  destruct start, I; split; cbn; try done. all: try (by rewrite <- N in *). all: try (by apply C).
  all: unfold zlen in *; change (workerCount (post_all mk (loops_ p))) with (zlen (post_all mk (loops_ p))) in N; unfold zlen in N; rewrite N; done.
Qed.

(** The first task of a queue is taken. *)
Lemma queue_lookup (l : list (option (list task))) i : 0 <= i -> queue_of l i = mjoin (l !! Z.to_nat i).
Proof. intros H. cbn. zb_eval. done. Qed.

Lemma queue_insert (l : list (option (list task))) cw q i : 0 <= cw < zlen l ->
  queue_of (<[Z.to_nat cw := Some q]> l) i = if cw =? i then Some q else queue_of l i.
Proof.
  intros H. unfold zlen in H. cbn. destruct (Z.ltb_spec i 0); [destruct (Z.eqb_spec cw i); [lia | done] |].
  destruct (Z.eqb_spec cw i) as [-> | N]; [by rewrite list_lookup_insert_eq by lia | by rewrite list_lookup_insert_ne by lia].
Qed.

Lemma stop_taken p cw q : inv p -> 0 <= cw < Z.of_nat n -> queue_of (loops_ p) cw = Some (TServerStop cw :: q) ->
  inv (set_loops p (<[Z.to_nat cw := Some q]> (loops_ p))).
Proof.
  intros I H E. pose proof (inv_loops _ I) as Ln. destruct (inv_queues _ I cw H) as (q' & E' & T & St). rewrite E in E'. simplify_eq.
  destruct I. split; cbn [set_loops rt stopped reported ready called app_base loops_ dispatchers dialing trace]; try done.
  - unfold zlen in *. by rewrite length_insert.
  - intros i Hi. rewrite queue_insert by lia. destruct (Z.eqb_spec cw i) as [<- | N]; [| by apply inv_queues0].
    exists q. split; [done |]. inversion T. by split.
Qed.

(** A start task is taken and run: [tr] and [d] are what it adds. *)
Lemma start_taken p cw q r o tr d : inv p -> 0 <= cw < Z.of_nat n -> queue_of (loops_ p) cw = Some (TServerStart cw :: q) ->
  wids r = wids (rt p) -> starts cw tr = reference -> (forall i, i <> cw -> starts i tr = []) ->
  dials_of tr = (fun j => (cw, j)) <$> seqZ 0 (zlen (dials prog)) -> dials_of tr ≡ₚ answers_of tr ++ d ->
  Forall (fun x => heard x.2 = true) tr ->
  inv (extend (set_world (set_loops p (<[Z.to_nat cw := Some q]> (loops_ p))) r o) tr d).
Proof.
  intros I H E W St Ot Nu An Hd. pose proof (inv_loops _ I) as Ln.
  destruct (inv_queues _ I cw H) as (q' & E' & T & Sq). rewrite E in E'. simplify_eq.
  unfold starters in Sq. cbn in Sq. destruct (called p) eqn:C; [| by destruct Sq].
  destruct Sq as [[Sq S0] | [Sq _]]; [| done].
  destruct I. split; cbn [extend set_world set_loops rt stopped reported ready called app_base loops_ dispatchers dialing trace]; try done.
  - by rewrite W.
  - unfold zlen in *. by rewrite length_insert.
  - intros i Hi. rewrite queue_insert by lia. destruct (Z.eqb_spec cw i) as [<- | N].
    + exists q. split; [done |]. inversion T. split; [done |]. cbn. rewrite C. right. unfold starters. split; [lia |].
      by rewrite starts_app, S0, St.
    + destruct (inv_queues0 i Hi) as (q' & Q & T' & Sq'). exists q'. split; [done |]. split; [done |]. cbn.
      rewrite starts_app, Ot by done. by rewrite app_nil_r.
  - rewrite dials_app, answers_app, inv_dials0, An. rewrite <- !app_assoc. f_equiv. rewrite !app_assoc. f_equiv. apply Permutation_app_comm.
  - rewrite dials_app. apply NoDup_app. split_and!; [done | | rewrite Nu; apply NoDup_fmap_2; [by intros ? ? [=] | apply NoDup_seqZ]].
    intros [i k] Hin Hn. rewrite Nu in Hn. apply list_elem_of_fmap in Hn as (j & Ej & _). simplify_eq.
    by apply dial_started in Hin.
  - by apply Forall_app.
Qed.

Lemma startup_task_inv p cw t q now : inv p -> 0 <= cw < ready p -> queue_of (loops_ p) cw = Some (t :: q) ->
  inv (run_task cw t now (set_loops p (<[Z.to_nat cw := Some q]> (loops_ p)))).
Proof.
  intros I H E. pose proof (inv_ready _ I) as R. destruct (inv_queues _ I cw ltac:(lia)) as (q' & E' & T & _).
  rewrite E in E'. simplify_eq. inversion T as [| ? ? Ht ?]. subst. destruct Ht as [-> | ->].
  - cbn [run_task]. set (p1 := set_loops p _).
    assert (exists r o, wids r = wids (rt p) /\ (if hook_at_start prog then hook cw cw onServerStart VServerStart p1 else p1) =
      extend (set_world p1 r o) (if hook_at_start prog then [(cw, VServerStart true)] else []) []) as (r & o & W & ->).
    { destruct (hook_at_start prog).
      - unfold hook. destruct (inv_controllers _ I cw H) as (c & Ec & Lc). change (app_base p1) with (app_base p). rewrite Ec.
        do 2 eexists. split; [| unfold extend; cbn; rewrite app_nil_r; reflexivity]. apply (lawful_serverStart (c := c)).
      - exists (rt p), (own p). split; [done |]. unfold extend. cbn. by rewrite !app_nil_r. }
    set (t0 := if hook_at_start prog then _ else _).
    destruct (connect_all_dials cw (dials prog) 0 now (extend (set_world p1 r o) t0 [])) as (tr & d & -> & [D1 D2 D3 D4 D5]);
      [cbn; rewrite W; apply I | done | cbn; lia |].
    rewrite extend_extend. apply start_taken; try done; try lia; subst t0; unfold reference.
    + rewrite starts_app, D1. destruct (hook_at_start prog); [| done]. unfold starts. cbn. by rewrite Z.eqb_refl.
    + intros i Ni. rewrite starts_app, D2 by done. destruct (hook_at_start prog); [| done]. unfold starts. cbn.
      destruct (Z.eqb_spec cw i); [lia | done].
    + rewrite dials_app, D3. by destruct (hook_at_start prog).
    + rewrite dials_app, answers_app, D4. by destruct (hook_at_start prog).
    + apply Forall_app. split; [| done]. destruct (hook_at_start prog); by repeat constructor.
  - cbn [run_task]. apply inv_hook; [by apply stop_taken; [| lia |] | done | intros; by rewrite lawful_serverStop | done].
Qed.

Lemma without_perm x l l' : without x l = Some l' -> l ≡ₚ x :: l'.
Proof.
  revert l'. induction l as [| y l IH]; intros l' E; cbn in E; [done |]. destruct (decide (x = y)) as [-> | N]; [by simplify_eq |].
  apply fmap_Some in E as (l1 & E & ->). rewrite (IH _ E). apply Permutation_swap.
Qed.

Lemma update_shard_wids r i f : (forall sh, shard_wid (f sh) = shard_wid sh) -> wids (update_shard r i f) = wids r.
Proof.
  intros Hf. unfold wids, update_shard. cbn. apply list_eq. intros j. rewrite !list_lookup_fmap.
  destruct (decide (j = i)) as [-> | N]; [rewrite list_lookup_alter_eq | by rewrite list_lookup_alter_ne].
  destruct (shards_ r !! i); [cbn; by rewrite Hf | done].
Qed.

Lemma on_local_wids (w : world) f : wids (gw_rt (on_local w f)) = wids (gw_rt w).
Proof. unfold on_local. destruct (local_ _ _); [by apply update_shard_wids | done]. Qed.

Lemma answered_inv p cw k opt r d : inv p -> without (cw, k) (dialing p) = Some d -> inv (answered cw cw k opt r (set_dialing p d)).
Proof.
  intros I E. assert (inv (log (set_dialing p d) cw (VAnswer k (match r with inl _ => true | inr _ => false end)))) as I1.
  { destruct I. split; cbn; try done.
    - intros i H. destruct (inv_queues0 i H) as (q & Q & T & W). exists q. split; [done |]. split; [done |]. cbn.
      rewrite starts_app. replace (starts i [(cw, _)]) with (@nil event); [by rewrite app_nil_r |].
      unfold starts. cbn. by rewrite andb_false_r.
    - rewrite dials_app, answers_app, app_nil_r, inv_dials0, (without_perm _ _ _ E). unfold answers_of at 3. cbn.
      by rewrite <- app_assoc.
    - by rewrite dials_app, app_nil_r.
    - apply Forall_app. split; [done |]. by constructor. }
  unfold answered. destruct r; [| done]. apply inv_run_on; [done |]. intros w. rewrite lawful_connected.
  unfold subscribe_dialled. destruct (_ && _); [done | apply on_local_wids].
Qed.

Lemma startup_step_inv p m p' : inv p -> step p m = Some p' -> inv p'.
Proof.
  intros I E. unfold step in E. rewrite (inv_alive _ I) in E. pose proof (inv_ready _ I) as R. destruct m.
  - destruct (Z.ltb_spec (ready p) (Z.of_nat n)); simplify_eq. by apply thread_inv.
  - destruct (_ && _) eqn:C; simplify_eq. b2p. unfold app_onServerStart. rewrite (inv_scheduler _ I).
    by apply (posted_inv p TServerStart true).
  - destruct (_ && _) eqn:C; [| done]. b2p. destruct (mjoin _) as [[| t q] |] eqn:Q; try done. simplify_eq.
    apply startup_task_inv; [done | done |]. by rewrite queue_lookup.
  - destruct (without _ _) as [d |] eqn:W; [| done]. destruct (decide _); simplify_eq. by apply answered_inv.
  - destruct (_ && _) eqn:C; simplify_eq. b2p. apply inv_hook; [| cbn; lia | intros; by rewrite lawful_sessionStart | done].
    apply inv_run_on; [done |]. intros w. apply on_local_wids.
  - destruct (_ && _) eqn:C; simplify_eq. b2p. apply inv_run_on.
    + apply inv_hook; [done | lia | intros; by rewrite lawful_sessionEnd | done].
    + intros w. rewrite lawful_after_end. apply on_local_wids.
  - destruct (_ =? _) eqn:C; simplify_eq. unfold app_onServerStop. rewrite (inv_scheduler _ I).
    by apply (posted_inv p TServerStop false).
Qed.

Lemma startup_run_inv l : forall p p', inv p -> run p l = Some p' -> inv p'.
Proof.
  induction l as [| m l IH]; cbn; intros p p' I E; [by simplify_eq |].
  apply bind_Some in E as (p1 & E1 & E). eapply IH, E. by eapply startup_step_inv.
Qed.

(* ------------------------------------------------------------------ *)
(** ** Its completion *)

(** Moves of the program's own threads. *)
Definition own_move (m : move) : bool := match m with MThread | MServerStart | MTask _ _ => true | _ => false end.

Definition queued (p : process) : nat := sum_list_with (fun o => match o with Some q => length q | None => 0%nat end) (loops_ p).

Lemma queued_taken p cw t q : 0 <= cw -> queue_of (loops_ p) cw = Some (t :: q) ->
  (queued (set_loops p (<[Z.to_nat cw := Some q]> (loops_ p))) < queued p)%nat.
Proof.
  intros H E. rewrite queue_lookup in E by done. destruct (loops_ p !! Z.to_nat cw) as [[q' |] |] eqn:L; try done. cbn in E. simplify_eq.
  unfold queued. cbn. revert L. generalize (Z.to_nat cw). induction (loops_ p) as [| o l IH]; intros [| j] L; cbn in *; simplify_eq; [cbn; lia |].
  apply Nat.add_lt_mono_l. exact (IH j L).
Qed.

(** Running a start or stop task leaves the queues alone. *)
Lemma task_queues p cw t now : inv p -> 0 <= cw < ready p -> t = TServerStart cw \/ t = TServerStop cw -> forall p1,
  rt p1 = rt p -> app_base p1 = app_base p -> ready p1 = ready p -> loops_ (run_task cw t now p1) = loops_ p1 /\
  ready (run_task cw t now p1) = ready p1 /\ called (run_task cw t now p1) = called p1.
Proof.
  intros I H Ht p1 E1 E2 E3. pose proof (inv_ready _ I) as R. destruct (inv_controllers _ I cw H) as (c & Ec & Lc).
  assert (forall f e, hook cw cw f e p1 = log (run_on cw (f c) p1) cw (e true)) as Hk.
  { intros f e. unfold hook. by rewrite E2, Ec. }
  destruct Ht as [-> | ->]; cbn [run_task]; [| by rewrite Hk].
  set (p2 := if hook_at_start prog then _ else _).
  assert (loops_ p2 = loops_ p1 /\ ready p2 = ready p1 /\ called p2 = called p1 /\ wids (rt p2) = wids (rt p)) as (<- & <- & <- & W).
  { subst p2. destruct (hook_at_start prog); [| by rewrite E1]. rewrite Hk. split_and!; try done. cbn. rewrite lawful_serverStart. cbn. by rewrite E1. }
  assert (ready p2 = ready p) as Rd by (subst p2; destruct (hook_at_start prog); [by rewrite Hk | done]).
  destruct (connect_all_dials cw (dials prog) 0 now p2) as (tr & d & -> & _); [rewrite W; apply I | lia | lia | done].
Qed.

Lemma threads_start : forall p, inv p -> exists l p', Forall (fun m => own_move m = true) l /\ run p l = Some p' /\ inv p' /\ ready p' = Z.of_nat n.
Proof.
  intros p. remember (Z.to_nat (Z.of_nat n - ready p)) as m eqn:M. revert p M. induction m as [| m IH]; intros p M I; pose proof (inv_ready _ I).
  { exists [], p. split_and!; [done | done | done | lia]. }
  assert (step p MThread = Some (registerHandlers (ready p) p)) as E.
  { unfold step. rewrite (inv_alive _ I). destruct (Z.ltb_spec (ready p) (Z.of_nat n)); [done | lia]. }
  pose proof (startup_step_inv _ _ _ I E) as I1.
  assert (ready (registerHandlers (ready p) p) = ready p + 1) as R1 by done.
  destruct (IH (registerHandlers (ready p) p)) as (l & p' & F & Rn & I' & Rd); [rewrite R1; lia | done |].
  exists (MThread :: l), p'. split_and!; [by constructor | cbn [run]; by rewrite E | done | done].
Qed.

Lemma server_starts p : inv p -> ready p = Z.of_nat n -> exists l p', Forall (fun m => own_move m = true) l /\ run p l = Some p' /\ inv p' /\
  ready p' = Z.of_nat n /\ called p' = true.
Proof.
  intros I R. destruct (called p) eqn:C; [by exists [], p |].
  assert (step p MServerStart = Some (set_called (app_onServerStart p))) as E.
  { unfold step. rewrite (inv_alive _ I), R, C. by rewrite Z.eqb_refl. }
  exists [MServerStart], (set_called (app_onServerStart p)). split_and!; [by constructor | cbn [run]; by rewrite E | by eapply startup_step_inv | | done].
  unfold app_onServerStart. by rewrite (inv_scheduler _ I).
Qed.

Definition has_task (p : process) (i : Z) : bool := match queue_of (loops_ p) i with Some (_ :: _) => true | _ => false end.

Lemma take_task p cw : inv p -> ready p = Z.of_nat n -> called p = true -> 0 <= cw < Z.of_nat n -> has_task p cw = true ->
  exists p', step p (MTask cw []) = Some p' /\ inv p' /\ ready p' = Z.of_nat n /\ called p' = true /\ (queued p' < queued p)%nat.
Proof.
  intros I R C H T. unfold has_task in T. destruct (queue_of (loops_ p) cw) as [[| t q] |] eqn:Q; try done.
  assert (step p (MTask cw []) = Some (run_task cw t [] (set_loops p (<[Z.to_nat cw := Some q]> (loops_ p))))) as E.
  { unfold step. rewrite (inv_alive _ I). rewrite queue_lookup in Q by lia. zb_eval. by rewrite Q. }
  eexists. split; [exact E |]. split; [by eapply startup_step_inv |].
  destruct (inv_queues _ I cw H) as (q' & Q' & Ts & _). rewrite Q in Q'. simplify_eq. inversion Ts as [| ? ? Ht _].
  destruct (task_queues p cw t [] I ltac:(lia) Ht (set_loops p (<[Z.to_nat cw := Some q]> (loops_ p)))) as (E1 & -> & ->); try done.
  split_and!; try done. unfold queued. rewrite E1. by apply (queued_taken p cw t q); [lia |].
Qed.

Lemma queues_drain k : forall p, (queued p <= k)%nat -> inv p -> ready p = Z.of_nat n -> called p = true ->
  exists l p', Forall (fun m => own_move m = true) l /\ run p l = Some p' /\ inv p' /\ called p' = true /\
    forall i, 0 <= i < Z.of_nat n -> has_task p' i = false.
Proof.
  induction k as [| k IH]; intros p Le I R C.
  all: destruct (decide (Exists (fun i => has_task p i = true) (seqZ 0 (Z.of_nat n)))) as [Ex | No].
  2, 4: exists [], p; split_and!; try done; intros i H; destruct (has_task p i) eqn:T; [| done];
    destruct No; apply Exists_exists; exists i; split; [apply elem_of_seqZ; lia | done].
  all: apply Exists_exists in Ex as (cw & Hc & T); apply elem_of_seqZ in Hc;
    destruct (take_task p cw I R C ltac:(lia) T) as (p1 & E & I1 & R1 & C1 & Lt).
  { lia. }
  destruct (IH p1) as (l & p' & F & Rn & I' & C' & D); [lia | done | done | done |].
  exists (MTask cw [] :: l), p'. split_and!; [by constructor | cbn [run]; by rewrite E | done | done | done].
Qed.

Lemma startup_run_app l1 : forall p l2, run p (l1 ++ l2) = (p1 ← run p l1; run p1 l2).
Proof. induction l1 as [| m l1 IH]; intros p l2; [done |]. cbn. destruct (step p m); [apply IH | done]. Qed.


End Process.

(* ------------------------------------------------------------------ *)
(** ** The three programs *)

Section Programs.
Context (failfast : bool).

Lemma registered_wids {A} cw regs (s : setup (A := A)) : wids (s_rt (registered cw regs s)) = wids (s_rt s).
Proof.
  unfold registered. cbn. destruct s as [r d v b]. cbn. revert r d. induction regs as [| x regs IH]; intros r d; [done |].
  rewrite register_all_cons. cbn [fst snd]. destruct (registerCtx cw r d (r_opcode x) (r_mask x) (r_fn x)) as [r1 d1] eqn:E. rewrite IH.
  unfold registerCtx in E. destruct (localOrNull_ cw r); [| by simplify_eq].
  unfold registerGuardedCtx in E. simplify_eq. by apply update_shard_wids.
Qed.

(** A controller that binds packets and whose hooks only touch its own data. *)
Lemma binding_lawful {A} (c : IController (A := A)) :
  (forall cw s, dead s = false -> exists regs, install c cw s = registered cw regs s) ->
  (forall w, onServerStart c w = w) -> (forall w, onServerStop c w = w) ->
  (forall h w, gw_rt (onSessionStart c h w) = gw_rt w) -> (forall h w, gw_rt (onSessionEnd c h w) = gw_rt w) -> LawfulController c.
Proof.
  intros I S1 S2 S3 S4. split.
  - intros cw s D. destruct (I cw s D) as [regs ->]. split; [apply registered_wids | done].
  - intros w. by rewrite S1.
  - intros w. by rewrite S2.
  - intros h w. by rewrite S3.
  - intros h w. by rewrite S4.
Qed.

Lemma asserted_rt {B} (w : gworld (St := app gateway)) (o : option B) k :
  (forall x, gw_rt (k x) = gw_rt w) -> gw_rt (asserted w o k) = gw_rt w.
Proof. intros H. unfold asserted. by destruct o. Qed.

Lemma hello_end_rt h w : gw_rt (hello_onSessionEnd h w) = gw_rt w.
Proof. apply asserted_rt. intros u. destruct (_ && _); [by apply asserted_rt | done]. Qed.

Lemma forget_upstream_rt h w : gw_rt (forget_upstream h w) = gw_rt w.
Proof. unfold forget_upstream. destruct (_ <=? _); [done |]. apply asserted_rt. intros []; [by apply asserted_rt | done]. Qed.

Lemma say_hello_rt {A} role h (w : gworld (St := app A)) : gw_rt (say_hello role h w) = gw_rt w.
Proof. unfold say_hello, sendTo. destruct (local_ _ _) as [sh |]; [| done]. by destruct (svc_router_ sh). Qed.

(** One binding, with the defaults or an override. *)
Ltac one_binding := apply binding_lawful; intros; first [done | apply hello_end_rt | apply say_hello_rt | eexists; by apply bind_packet_registers].

#[export] Instance hello_gateway_lawful : LawfulController (RoleHelloGatewayController failfast).
Proof. one_binding. Qed.
#[export] Instance bench_gateway_lawful : LawfulController (BenchmarkGatewayController failfast).
Proof.
  apply binding_lawful; auto. intros cw s D. eexists. cbn [install BenchmarkGatewayController with_defaults].
  rewrite (bind_packet_registers _ _ _ cw s) by done. rewrite bind_packet_registers by done. apply registered_app.
Qed.
#[export] Instance hello_exchange_lawful : LawfulController (RoleHelloExchangeController failfast).
Proof. one_binding. Qed.
#[export] Instance bench_exchange_lawful : LawfulController (BenchmarkExchangeController failfast).
Proof. one_binding. Qed.
#[export] Instance hello_client_lawful : LawfulController (RoleHelloClientController failfast).
Proof. one_binding. Qed.
#[export] Instance bench_client_lawful : LawfulController (BenchmarkClientController failfast).
Proof. one_binding. Qed.

Ltac lawful_program := split; cbn; [repeat (apply Forall_cons_2; [intros ? [= <-]; apply _ |]); by apply Forall_nil_2 | |]; intros; try done.

#[export] Instance gateway_lawful cfg : LawfulApplication (FepGatewayApplication failfast cfg).
Proof. lawful_program; f_equal; [by apply asserted_rt | apply forget_upstream_rt]. Qed.
#[export] Instance loadgen_lawful cfg : LawfulApplication (LoadgenApplication failfast cfg).
Proof. lawful_program. Qed.
#[export] Instance exchange_lawful : LawfulApplication (MockExchangeApplication failfast).
Proof. lawful_program. Qed.

(** The gateway's callbacks, through base class and composite controller, are
    those of [Controllers]. *)
Definition gateway_root : IController (A := gateway) :=
  CompositeController [RoleHelloGatewayController failfast; BenchmarkGatewayController failfast].

Lemma hello_end_cw h w : gw_cw (hello_onSessionEnd h w) = gw_cw w.
Proof.
  unfold hello_onSessionEnd, asserted. destruct (getForWorker _ _) as [u |]; [| done]. destruct (_ && _); [| done].
  by destruct (setForWorker _ _ _ _).
Qed.

Lemma gateway_callbacks cfg cw h (p : process) : getController (app_base p) (ownerWorkerId_ h) = Some gateway_root ->
  let prog := FepGatewayApplication failfast cfg in
  app_onSessionStart prog cw h p = log (run_on prog cw (gateway_onSessionStart h) p) cw (VSession (id_ h) true) /\
  app_onSessionEnd prog cw h p = log (run_on prog cw (gateway_onSessionEnd h) p) cw (VSessionEnd (id_ h) true).
Proof.
  intros G prog. split.
  - unfold app_onSessionStart, hook. change (app_base (run_on prog cw _ p)) with (app_base p). by rewrite G.
  - unfold app_onSessionEnd, hook. rewrite G. unfold run_on, log, set_world. cbn.
    pose proof (hello_end_cw h (mk_gworld cw (rt p) (own p))) as C. cbn in C.
    unfold gateway_onSessionEnd, forget_upstream. destruct (hello_onSessionEnd _ _) as [cw' r a]. cbn in C. by subst cw'.
Qed.

End Programs.

(* ------------------------------------------------------------------ *)
(** ** A run *)

(** A gateway with two workers: worker 1 gets its upstream session, the dial of
    worker 0 fails at once. *)
Definition demo_prog : application gateway (app gateway) :=
  FepGatewayApplication true (Config.mk_fep "10.0.0.1" 9100 2 false).
Definition demo_opt : ConnectTcpOptions := mk_connect "10.0.0.1" 9100 0 0.
Definition demo_handle : SessionHandle := mk_handle 4294967297 1 (Some 1).
Definition demo_moves : list move :=
  [MThread; MThread; MServerStart; MTask 1 []; MTask 0 [Some "refused"%string]; MSession 1 demo_handle; MDialled 1 0 demo_opt (inl demo_handle)].
Definition demo_init : process (A := gateway) (S := app gateway) := init demo_prog 2 (mk_app (mk_gateway (reset 0) false) [] [] 0 false).
Definition demo_process : process (A := gateway) (S := app gateway) := default demo_init (run demo_prog 2 demo_init demo_moves).

Lemma demo_run : run demo_prog 2 demo_init demo_moves = Some demo_process.
Proof.
  assert (match run demo_prog 2 demo_init demo_moves with Some _ => true | None => false end = true) as E by by vm_compute.
  unfold demo_process. by destruct (run demo_prog 2 demo_init demo_moves).
Qed.


End Startup.
