(* ===== verification/Trading.v ===== *)
(** * Trading: the gateway, the echo and the benchmark

    The gateway as a machine whose moves are the callbacks the engine makes
    (session start and end, dial results, messages through the dispatcher),
    with its invariant; the way of a benchmark packet from a client through
    gateway and exchange and back, as bytes; and the load generator's count. *)

From stdpp Require Import strings.
From S2P Require Import Prelude Message Handle PacketWriter PacketReader PacketCodec SessionRegistry Runtime RuntimeInv Guard Controllers.
Import Message Handle PacketCodec Runtime Guard Controllers.

Module Trading.

Abbreviation gdispatcher := (Dispatcher (Session := SessionHandle) (W := gworld (St := app gateway))).

(* ------------------------------------------------------------------ *)
(** ** The gateway process *)

Record proc := mk_proc { p_rt : AppRuntime; p_app : app gateway; p_ds : list gdispatcher }.

(** [registerHandlers] on every worker, each with its own dispatcher. *)
Definition install_one (rd : AppRuntime * list gdispatcher) (cw : Z) : AppRuntime * list gdispatcher :=
  let r := register_all cw gateway_regs (rd.1, dispatcher_init) in (r.1, rd.2 ++ [r.2]).

Definition gateway_init (n : nat) (handoff : bool) (ticks : list Z) : proc :=
  let rd := foldl install_one (runtime (start n), []) (seqZ 0 (Z.of_nat n)) in
  mk_proc rd.1 (mk_app (mk_gateway (reset (Z.of_nat n)) handoff) [] ticks 0 false) rd.2.

(** What the engine calls on worker [cw]. *)
Inductive gevent :=
| EStart (cw : Z) (s : SessionHandle)
| EDial (cw : Z) (s : SessionHandle)
| EMessage (cw : Z) (s : SessionHandle) (op : Z) (body : MessageView)
| EEnd (cw : Z) (s : SessionHandle).

Definition registered (rt : AppRuntime) (cw sid : Z) : bool :=
  match at_index (shards_ rt) cw with
  | Some sh => bool_decide (is_Some (SessionRegistry.store_ (shard_reg sh) !! sid))
  | None => false
  end.

Definition on_worker (p : proc) (cw : Z) (f : gworld (St := app gateway) -> gworld) : proc :=
  let w := f (mk_gworld cw (p_rt p) (p_app p)) in mk_proc (gw_rt w) (gw_app w) (p_ds p).

(** The engine calls back on the worker that owns the session, starts a
    session once with a fresh id that carries the worker, and reports a dial
    with a session that has started. *)
Definition gstep (p : proc) (e : gevent) : option proc :=
  match e with
  | EStart cw s =>
      if (0 <=? cw) && (cw <? zlen (shards_ (p_rt p))) && negb (id_ s =? 0) && (ownerWorkerFromId (id_ s) =? cw) && negb (registered (p_rt p) cw (id_ s))
      then Some (on_worker p cw (gateway_onSessionStart s)) else None
  | EDial cw s => if registered (p_rt p) cw (id_ s) then Some (on_worker p cw (upstream_connected cw s)) else None
  | EMessage cw s op body =>
      match at_index (p_ds p) cw with
      | Some d => Some (on_worker p cw (fun w => (dispatch d op s body w).1))
      | None => None
      end
  | EEnd cw s => if registered (p_rt p) cw (id_ s) then Some (on_worker p cw (gateway_onSessionEnd s)) else None
  end.

Fixpoint grun (p : proc) (l : list gevent) : option proc :=
  match l with [] => Some p | e :: l => p ← gstep p e; grun p l end.

(* ------------------------------------------------------------------ *)
(** ** Its invariant *)

Definition live (rt : AppRuntime) (i : nat) (sid : Z) : Prop :=
  exists sh, shards_ rt !! i = Some sh /\ is_Some (SessionRegistry.store_ (shard_reg sh) !! sid).

Record inv (n : Z) (rt : AppRuntime) (a : app gateway) : Prop := mk_inv {
  inv_shards : zlen (shards_ rt) = n;
  inv_count : workerCount_ (upstream_ (data a)) = n;
  inv_slots : zlen (slots_ (upstream_ (data a))) = n;
  inv_owner : forall i sh, shards_ rt !! i = Some sh -> SessionRegistry.ownerWorkerId_ (shard_reg sh) = Z.of_nat i;
  inv_ids : forall i sid, live rt i sid -> sid <> 0 /\ ownerWorkerFromId sid = Z.of_nat i;
  inv_live : forall i u, slots_ (upstream_ (data a)) !! i = Some u -> u = 0 \/ live rt i u;
  inv_alive : aborted a = false
}.

(** Pings go to sessions that are alive. *)
Definition ping_live (rt : AppRuntime) (x : action) : Prop :=
  match x with ASend _ sid op _ => op = kOpcodePerfPing -> exists i, live rt i sid | AClose _ _ _ => True end.

(** A call on a worker keeps the invariant and asks for nothing wrong. *)
Definition good (n : Z) (w w' : gworld (St := app gateway)) : Prop :=
  gw_cw w' = gw_cw w /\ inv n (gw_rt w') (gw_app w') /\
  exists new, out (gw_app w') = out (gw_app w) ++ new /\ Forall (ping_live (gw_rt w')) new.

Definition on (n : Z) (w : gworld (St := app gateway)) : Prop := 0 <= gw_cw w < n /\ inv n (gw_rt w) (gw_app w).

Lemma good_refl n w : on n w -> good n w w.
Proof. intros [H I]. split_and!; [done | done |]. exists []. rewrite app_nil_r. by split. Qed.

Lemma on_local_some n w : on n w -> exists sh, local_ (gw_cw w) (gw_rt w) = Some sh /\
  shards_ (gw_rt w) !! Z.to_nat (gw_cw w) = Some sh.
Proof.
  intros [H I]. destruct (shards_ (gw_rt w) !! Z.to_nat (gw_cw w)) as [sh |] eqn:E.
  - exists sh. split; [apply local_lookup; [lia | done] | done].
  - apply lookup_ge_None in E. pose proof (inv_shards _ _ _ I) as L. unfold zlen in L. lia.
Qed.

Lemma slot_some n w i : inv n (gw_rt w) (gw_app w) -> 0 <= i < n ->
  exists u, getForWorker (upstream_ (the_data w)) i = Some u /\ slots_ (upstream_ (the_data w)) !! Z.to_nat i = Some u.
Proof.
  intros I H. unfold getForWorker, the_data. pose proof (inv_count _ _ _ I). pose proof (inv_slots _ _ _ I) as L.
  zb_eval. destruct (slots_ _ !! Z.to_nat i) as [u |] eqn:E; [by exists u |].
  apply lookup_ge_None in E. unfold zlen in L. lia.
Qed.

(** Changing neither the registries nor the slots. *)
Lemma good_app n w a' new : on n w -> data a' = data (gw_app w) -> aborted a' = false ->
  out a' = out (gw_app w) ++ new -> Forall (ping_live (gw_rt w)) new -> good n w (set_app w a').
Proof.
  intros [H I] D B O F. split_and!; [done | | by exists new].
  destruct I. split; cbn; rewrite ?D; done.
Qed.

Lemma on_app n w a' : on n w -> data a' = data (gw_app w) -> aborted a' = false -> on n (set_app w a').
Proof. intros [H I] D B. split; [done |]. destruct I. split; cbn; rewrite ?D; done. Qed.

Lemma good_sendTo {P} `{PacketType P} n w sid (pkt : P) : on n w ->
  (kOpcode (P := P) = kOpcodePerfPing -> exists i, live (gw_rt w) i sid) -> good n w (sendTo w sid pkt).
Proof.
  intros O L. unfold sendTo. destruct (on_local_some n w O) as (sh & -> & _).
  destruct (svc_router_ sh); [| by apply good_refl]. unfold emit.
  eapply (good_app _ _ _ [_]); [done | done | apply O | done |]. by constructor.
Qed.

Lemma good_close n w sid r : on n w -> good n w (close w sid r).
Proof.
  intros O. unfold close. destruct (on_local_some n w O) as (sh & -> & _).
  destruct (_ <? _); [by apply good_refl |]. destruct (svc_scheduler_ sh); [| by apply good_refl]. unfold emit.
  eapply (good_app _ _ _ [_]); [done | done | apply O | done |]. by constructor.
Qed.

Lemma good_trans n w w1 w2 :
  good n w w1 -> (forall i sid, live (gw_rt w1) i sid -> live (gw_rt w2) i sid) -> good n w1 w2 -> good n w w2.
Proof.
  intros (C1 & I1 & new1 & O1 & F1) L (C2 & I2 & new2 & O2 & F2). split_and!; [by rewrite C2 | done |].
  exists (new1 ++ new2). rewrite O2, O1, app_assoc. split; [done |]. apply Forall_app. split; [| done].
  eapply Forall_impl; [exact F1 |]. intros [cw sid op b | ] X; [| done]. cbn in *. intros E. destruct (X E) as [i ?]. eauto.
Qed.

Lemma good_on n w w' : on n w -> good n w w' -> on n w'.
Proof. intros [H I] (C & I' & _). split; [by rewrite C | done]. Qed.

(** The upstream of the calling worker is set to nothing or a live session. *)
Lemma good_upstream n w u sid : on n w -> setForWorker (gw_cw w) (upstream_ (the_data w)) (gw_cw w) sid = Some u ->
  sid = 0 \/ live (gw_rt w) (Z.to_nat (gw_cw w)) sid -> good n w (set_upstream w u).
Proof.
  intros [H I] S L. unfold setForWorker in S. destruct (_ && _); [| done]. injection S as <-.
  split_and!; [done | | exists []; rewrite app_nil_r; by split]. destruct I. split; cbn; try done.
  - unfold zlen. rewrite length_insert. done.
  - intros i u. destruct (decide (i = Z.to_nat (gw_cw w))) as [-> |].
    + rewrite list_lookup_insert_eq; [intros [= <-]; done |]. unfold the_data, zlen in *. lia.
    + rewrite list_lookup_insert_ne by done. apply inv_live0.
Qed.

Lemma setForWorker_some n w sid : on n w -> exists u, setForWorker (gw_cw w) (upstream_ (the_data w)) (gw_cw w) sid = Some u.
Proof.
  intros [H I]. unfold setForWorker, the_data. rewrite (inv_count _ _ _ I), Z.eqb_refl. zb_eval. eauto.
Qed.

(** ** Calls on the registry *)

Lemma on_local_eq n w f : on n w ->
  on_local w f = set_rt w (update_shard (gw_rt w) (Z.to_nat (gw_cw w)) (fun sh => set_reg sh (f (shard_reg sh)))).
Proof. intros O. unfold on_local. by destruct (on_local_some n w O) as (sh & -> & _). Qed.

Lemma live_update rt k f i sid : live (update_shard rt k (fun sh => set_reg sh (f (shard_reg sh)))) i sid <->
  if decide (i = k) then exists sh, shards_ rt !! k = Some sh /\ is_Some (SessionRegistry.store_ (f (shard_reg sh)) !! sid)
  else live rt i sid.
Proof.
  unfold live, update_shard. cbn [shards_ set_shards]. destruct (decide (i = k)) as [-> |].
  - rewrite list_lookup_alter_eq. destruct (shards_ rt !! k) as [sh |]; cbn; [| naive_solver].
    split; [intros (? & [= <-] & ?); by exists sh | intros (? & [= <-] & ?); by eexists].
  - by rewrite list_lookup_alter_ne.
Qed.

Lemma good_on_local n w f : on n w ->
  (forall reg, SessionRegistry.ownerWorkerId_ (f reg) = SessionRegistry.ownerWorkerId_ reg) ->
  (forall sh sid, shards_ (gw_rt w) !! Z.to_nat (gw_cw w) = Some sh ->
     is_Some (SessionRegistry.store_ (f (shard_reg sh)) !! sid) -> sid <> 0 /\ ownerWorkerFromId sid = gw_cw w) ->
  (forall sh u, slots_ (upstream_ (the_data w)) !! Z.to_nat (gw_cw w) = Some u -> u <> 0 ->
     shards_ (gw_rt w) !! Z.to_nat (gw_cw w) = Some sh -> is_Some (SessionRegistry.store_ (f (shard_reg sh)) !! u)) ->
  good n w (on_local w f).
Proof.
  intros O F1 F2 F3. rewrite (on_local_eq n) by done. destruct (on_local_some n w O) as (sh & _ & S). destruct O as [H I].
  split_and!; [done | | exists []; rewrite app_nil_r; by split]. destruct I. split; cbn [gw_rt gw_app set_rt].
  - unfold update_shard, zlen in *. cbn. by rewrite length_alter.
  - done.
  - done.
  - intros i sh'. unfold update_shard. cbn [shards_ set_shards]. destruct (decide (i = Z.to_nat (gw_cw w))) as [-> |].
    + rewrite list_lookup_alter_eq, S. cbn. intros [= <-]. cbn. rewrite F1. by apply inv_owner0.
    + rewrite list_lookup_alter_ne by done. apply inv_owner0.
  - intros i sid. rewrite live_update. destruct (decide _) as [-> |]; [| apply inv_ids0].
    intros (sh' & E & L). rewrite Z2Nat.id by lia. by apply (F2 sh').
  - intros i u E. destruct (decide (u = 0)) as [| Nz]; [by left | right]. rewrite live_update.
    destruct (decide _) as [-> |]; [exists sh; split; [done | by apply (F3 sh u)] |].
    by destruct (inv_live0 i u E).
  - done.
Qed.

Lemma owner_thread n w sh : on n w -> shards_ (gw_rt w) !! Z.to_nat (gw_cw w) = Some sh ->
  SessionRegistry.ensureOwnerThread_ (gw_cw w) (shard_reg sh) = true.
Proof.
  intros [H I] E. unfold SessionRegistry.ensureOwnerThread_. rewrite (inv_owner _ _ _ I _ _ E).
  apply orb_true_iff. right. apply Z.eqb_eq. lia.
Qed.

Lemma setState_store cw reg sid st x :
  is_Some (SessionRegistry.store_ (SessionRegistry.setState cw reg sid st) !! x) <-> is_Some (SessionRegistry.store_ reg !! x).
Proof.
  unfold SessionRegistry.setState. destruct (SessionRegistry.ensureOwnerThread_ _ _); [| done]. cbn [negb].
  destruct (SessionRegistry.store_ reg !! sid) as [r |] eqn:E; [| done]. cbn.
  destruct (decide (x = sid)) as [-> |]; [rewrite lookup_insert_eq, E; split; eauto | by rewrite lookup_insert_ne].
Qed.

Lemma registry_owner cw reg sid st s :
  SessionRegistry.ownerWorkerId_ (SessionRegistry.setState cw reg sid st) = SessionRegistry.ownerWorkerId_ reg /\
  SessionRegistry.ownerWorkerId_ (SessionRegistry.add cw reg s 0 0) = SessionRegistry.ownerWorkerId_ reg /\
  SessionRegistry.ownerWorkerId_ (SessionRegistry.remove cw reg sid) = SessionRegistry.ownerWorkerId_ reg.
Proof.
  unfold SessionRegistry.setState, SessionRegistry.add, SessionRegistry.remove.
  destruct (SessionRegistry.ensureOwnerThread_ _ _); cbn; [| done]. by destruct (SessionRegistry.store_ reg !! sid).
Qed.

(** The registry keeps what it has when a session changes its state. *)
Lemma good_setState n w sid st : on n w -> good n w (setState w sid st) /\
  forall i x, live (gw_rt (setState w sid st)) i x <-> live (gw_rt w) i x.
Proof.
  intros O. destruct (on_local_some n w O) as (sh & _ & S). unfold setState. split.
  - apply good_on_local; [done | intros reg; apply (registry_owner _ reg sid st null_handle) | |].
    + intros sh' x E X%setState_store. replace (gw_cw w) with (Z.of_nat (Z.to_nat (gw_cw w))) by (destruct O; lia).
      apply (inv_ids _ _ _ (proj2 O)). by exists sh'.
    + intros sh' u E Nz E'. apply setState_store. destruct (inv_live _ _ _ (proj2 O) _ _ E) as [| (sh2 & ? & ?)]; [done |].
      by simplify_eq.
  - intros i x. rewrite (on_local_eq n) by done. cbn [gw_rt set_rt]. rewrite (live_update _ _ (fun reg => SessionRegistry.setState (gw_cw w) reg sid st)).
    destruct (decide _) as [-> |]; [| done]. unfold live. by setoid_rewrite setState_store.
Qed.

(* ------------------------------------------------------------------ *)
(** ** The handlers keep the invariant *)

Lemma sendTo_rt {P} `{PacketType P} n w sid (pkt : P) : on n w -> gw_rt (sendTo w sid pkt) = gw_rt w.
Proof. intros O. unfold sendTo. destruct (on_local_some n w O) as (sh & -> & _). by destruct (svc_router_ sh). Qed.

Lemma good_accept n w s pkt : on n w ->
  good n w (accept_role s pkt w) /\ forall i x, live (gw_rt w) i x -> live (gw_rt (accept_role s pkt w)) i x.
Proof.
  intros O. unfold accept_role. destruct (good_setState n w (id_ s) SessionRegistry.Handshaked O) as [G L].
  assert (on n (setState w (id_ s) SessionRegistry.Handshaked)) as O1 by by eapply good_on.
  split; [| intros i x; rewrite (sendTo_rt n) by done; apply L].
  eapply good_trans; [exact G | intros i sid; by rewrite (sendTo_rt n) | by apply good_sendTo].
Qed.

Lemma good_hello n w s pkt ctx : on n w -> live (gw_rt w) (Z.to_nat (gw_cw w)) (id_ s) ->
  good n w (onRoleHello_ s pkt ctx w).
Proof.
  intros O L. unfold onRoleHello_. destruct (slot_some n w (gw_cw w) (proj2 O) (proj1 O)) as (u & -> & S). cbn [asserted].
  repeat case_match; try (by apply good_close); try (by apply good_accept).
  destruct (setForWorker_some n w (id_ s) O) as (u' & E). rewrite E. cbn [asserted].
  assert (good n w (set_upstream w u')) as G by (eapply good_upstream; eauto).
  destruct (good_accept n (set_upstream w u') s pkt) as [G' L']; [by eapply good_on |].
  eapply good_trans; [exact G | exact L' | exact G'].
Qed.

Lemma route_range g cw s : 0 < workerCount_ (upstream_ g) < 2147483648 -> 0 <= cw ->
  0 <= route g cw s < workerCount_ (upstream_ g).
Proof.
  intros H C. unfold route. destruct (handoff_mode_ g).
  - rewrite (u64_small (workerCount_ _)) by lia.
    pose proof (Z.mod_pos_bound (id_ s) (workerCount_ (upstream_ g)) ltac:(lia)).
    unfold u32, i32_of_u32. rewrite Z.mod_small by lia. by zb_eval.
  - rewrite Z.rem_mod_nonneg by lia. apply Z.mod_pos_bound. lia.
Qed.

Lemma on_nowNs n w : on n w -> on n (nowNs w).2.
Proof. intros O. apply on_app; [done | done | apply O]. Qed.

Lemma good_now n w w' : on n w -> gw_rt w' = gw_rt w -> good n (nowNs w).2 w' -> good n w w'.
Proof. intros O E (C & I & new & H). split_and!; [done | done |]. by exists new. Qed.

Lemma good_tx n w w' : good n w w' -> good n w (onTxMessage w').
Proof.
  intros (C & I & new & H). split_and!; [done | | by exists new]. destruct I. by split.
Qed.

Lemma good_ping n w s pkt ctx : on n w -> n < 2147483648 -> good n w (gateway_onPerfPing s pkt ctx w).
Proof.
  intros O B. pose proof (inv_count _ _ _ (proj2 O)) as C. unfold gateway_onPerfPing. fold (the_data w) in C.
  rewrite C. destruct (n <=? 0) eqn:Z0; b2p; [by apply good_refl |].
  pose proof (route_range (the_data w) (gw_cw w) s ltac:(lia) ltac:(destruct O; lia)) as R. rewrite C in R.
  destruct (slot_some n w _ (proj2 O) R) as (u & -> & S). cbn [asserted].
  destruct (u =? 0) eqn:U; b2p; [by apply good_refl |].
  destruct (nowNs w) as [now w1] eqn:N. assert (w1 = (nowNs w).2) as -> by by rewrite N.
  pose proof (on_nowNs n w O) as O1. apply good_tx, good_now; [done | by rewrite (sendTo_rt n) |].
  apply good_sendTo; [done |]. intros _. exists (Z.to_nat (route (the_data w) (gw_cw w) s)).
  by destruct (inv_live _ _ _ (proj2 O) _ _ S).
Qed.

Lemma good_pong n w s pkt ctx : on n w -> good n w (gateway_onPerfPong s pkt ctx w).
Proof.
  intros O. unfold gateway_onPerfPong. destruct (_ =? 0); [by apply good_refl |].
  destruct (nowNs w) as [now w1] eqn:N. assert (w1 = (nowNs w).2) as -> by by rewrite N.
  pose proof (on_nowNs n w O) as O1. apply good_tx, good_now; [done | by rewrite (sendTo_rt n) |].
  by apply good_sendTo.
Qed.

(** A bound handler sees a registered session or does nothing. *)
Lemma good_bound n w s body ctx r : on n w -> n < 2147483648 -> r ∈ gateway_regs ->
  live (gw_rt w) (Z.to_nat (gw_cw w)) (id_ s) -> good n w (r_fn r s body ctx w).
Proof.
  intros O B R L. unfold gateway_regs in R. rewrite !elem_of_cons, elem_of_nil in R.
  destruct R as [-> | [-> | [-> | []]]]; cbn [r_fn bind]; unfold packet_handler;
    destruct (read_packet _ _); try (by apply good_refl).
  - by apply good_hello.
  - by apply good_ping.
  - by apply good_pong.
Qed.

Lemma good_stored n w s body b r : on n w -> n < 2147483648 -> r ∈ gateway_regs ->
  good n w (stored b (gw_cw w) r s body w).
Proof.
  intros O B R. destruct (on_local_some n w O) as (sh & Lo & Sh).
  assert (forall ctx, SessionRegistry.tryGetContext (gw_cw w) (shard_reg sh) (id_ s) = Some ctx ->
    live (gw_rt w) (Z.to_nat (gw_cw w)) (id_ s)) as X.
  { intros ctx. unfold SessionRegistry.tryGetContext. destruct (negb _); [done |].
    intros (rec & E & _)%fmap_Some. exists sh. eauto. }
  unfold stored. destruct b.
  - unfold guarded. rewrite Sh. unfold tryGetAllowedContext_. destruct (sm_allowed_ sh !! _); [| by apply good_refl].
    destruct (SessionRegistry.tryGetContext _ _ _) as [ctx |] eqn:E; [| by apply good_refl].
    destruct (_ =? 0); [by apply good_refl |]. eapply good_bound; eauto.
  - unfold deferred, tryGetContext_. unfold local_ in Lo. rewrite Lo. destruct (SessionRegistry.tryGetContext _ _ _) as [ctx |] eqn:E; [| by apply good_refl].
    destruct (_ =? 0); [by apply good_refl |]. eapply good_bound; eauto.
Qed.

(* ------------------------------------------------------------------ *)
(** ** Sessions start and end *)

Lemma good_after n w w1 w2 : gw_cw w1 = gw_cw w -> out (gw_app w1) = out (gw_app w) -> good n w1 w2 -> good n w w2.
Proof. intros C O (C2 & I & new & H). rewrite O in H. split_and!; [by rewrite C2 | done | by exists new]. Qed.

Lemma on_local_out n w f : on n w -> out (gw_app (on_local w f)) = out (gw_app w) /\ gw_cw (on_local w f) = gw_cw w
  /\ the_data (on_local w f) = the_data w.
Proof. intros O. by rewrite (on_local_eq n) by done. Qed.

Lemma good_start n w s : on n w -> id_ s <> 0 -> ownerWorkerFromId (id_ s) = gw_cw w -> good n w (gateway_onSessionStart s w).
Proof.
  intros O Nz Ow. apply good_on_local; [done | intros reg; apply (registry_owner _ reg 0 SessionRegistry.Connected s) | |];
    unfold SessionRegistry.add.
  - intros sh sid E. rewrite (owner_thread n w sh O E). cbn. destruct (decide (sid = id_ s)) as [-> |]; [done |].
    rewrite lookup_insert_ne by done. intros L. replace (gw_cw w) with (Z.of_nat (Z.to_nat (gw_cw w))) by (destruct O; lia).
    apply (inv_ids _ _ _ (proj2 O)). by exists sh.
  - intros sh u E Nz' S. rewrite (owner_thread n w sh O S). cbn.
    destruct (decide (u = id_ s)) as [-> |]; [rewrite lookup_insert_eq; eauto | rewrite lookup_insert_ne by done].
    destruct (inv_live _ _ _ (proj2 O) _ _ E) as [| (sh' & ? & ?)]; [done |]. by simplify_eq.
Qed.

(** Removing a session that is not the worker's upstream. *)
Lemma good_remove n w s : on n w -> (forall u, slots_ (upstream_ (the_data w)) !! Z.to_nat (gw_cw w) = Some u -> u <> id_ s \/ u = 0) ->
  good n w (rt_onSessionEnd w s).
Proof.
  intros O D. apply good_on_local; [done | intros reg; apply (registry_owner _ reg (id_ s) SessionRegistry.Connected s) | |];
    unfold SessionRegistry.remove.
  - intros sh sid E. rewrite (owner_thread n w sh O E). cbn. intros L.
    replace (gw_cw w) with (Z.of_nat (Z.to_nat (gw_cw w))) by (destruct O; lia).
    apply (inv_ids _ _ _ (proj2 O)). exists sh. split; [done |].
    destruct (SessionRegistry.store_ (shard_reg sh) !! id_ s); [| done]. cbn in L.
    destruct L as [rec [_ L]%lookup_delete_Some]. eauto.
  - intros sh u E Nz S. rewrite (owner_thread n w sh O S). cbn.
    destruct (inv_live _ _ _ (proj2 O) _ _ E) as [| (sh' & S' & L)]; [done |]. simplify_eq.
    destruct (D u E) as [Ne |]; [| done].
    destruct (SessionRegistry.store_ (shard_reg sh) !! id_ s); [cbn; by rewrite lookup_delete_ne | done].
Qed.

Lemma clearLocal_set n w u : on n w -> clearLocal (gw_cw w) (upstream_ (the_data w)) = Some u ->
  setForWorker (gw_cw w) (upstream_ (the_data w)) (gw_cw w) 0 = Some u.
Proof. intros [H I]. unfold clearLocal, setForWorker. rewrite Z.eqb_refl, andb_true_r. done. Qed.

(** The end of a session: first the slot, then the registry. *)
Lemma good_hello_end n w s : on n w -> good n w (hello_onSessionEnd s w) /\
  out (gw_app (hello_onSessionEnd s w)) = out (gw_app w) /\
  (forall u, slots_ (upstream_ (the_data (hello_onSessionEnd s w))) !! Z.to_nat (gw_cw w) = Some u -> u <> id_ s \/ u = 0).
Proof.
  intros O. unfold hello_onSessionEnd. destruct (slot_some n w (gw_cw w) (proj2 O) (proj1 O)) as (u & -> & S). cbn [asserted].
  destruct (u =? 0) eqn:U, (u =? id_ s) eqn:V; cbn [negb andb]; b2p.
  2-4: try (split_and!; [by apply good_refl | done |]; intros u' E; rewrite E in S; simplify_eq; tauto).
  - split_and!; [by apply good_refl | done |]. intros u' E. rewrite E in S. simplify_eq. by right.
  - destruct (setForWorker_some n w 0 O) as (u' & E). rewrite E. cbn [asserted].
    split_and!; [eapply good_upstream; eauto | done |]. intros x. unfold setForWorker in E. destruct (_ && _); [| done].
    injection E as <-. cbn. rewrite list_lookup_insert_eq; [intros [= <-]; by right |]. by apply lookup_lt_Some in S.
Qed.

Lemma good_end n w s : on n w -> 0 < n -> good n w (gateway_onSessionEnd s w).
Proof.
  intros O Pn. destruct (good_hello_end n w s O) as (G1 & E1 & S1). unfold gateway_onSessionEnd.
  pose proof (good_on n w _ O G1) as O1. set (w1 := hello_onSessionEnd s w) in *.
  assert (gw_cw w1 = gw_cw w) as C1 by apply G1.
  destruct (on_local_out n w1 (fun reg => SessionRegistry.remove (gw_cw w1) reg (id_ s)) O1) as (E2 & C2 & _).
  fold (rt_onSessionEnd w1 s) in E2, C2.
  assert (good n w1 (rt_onSessionEnd w1 s)) as G2 by (apply good_remove; [done | by rewrite C1]).
  pose proof (good_on n w1 _ O1 G2) as O2. set (w2 := rt_onSessionEnd w1 s) in *.
  assert (forall w3, good n w2 w3 -> good n w w3) as Q
    by (intros w3; apply good_after; [by rewrite C2 | by rewrite E2]).
  cbn zeta. pose proof (inv_count _ _ _ (proj2 O2)) as Cn. fold (the_data w2) in Cn. rewrite Cn. zb_eval.
  unfold isLocal, getLocal. destruct (id_ s =? 0); [cbn; apply Q; by apply good_refl |].
  destruct (slot_some n w2 (gw_cw w2) (proj2 O2) (proj1 O2)) as (u & -> & S). cbn [fmap option_fmap option_map asserted].
  destruct (id_ s =? u); [| apply Q; by apply good_refl].
  destruct (clearLocal (gw_cw w2) (upstream_ (the_data w2))) as [u' |] eqn:K.
  - cbn [asserted]. apply Q. eapply good_upstream; [done | by eapply clearLocal_set | by left].
  - exfalso. unfold clearLocal in K. rewrite Cn in K. destruct O2 as [R _].
    rewrite (proj2 (Z.leb_le _ _)), (proj2 (Z.ltb_lt _ _)) in K by lia. done.
Qed.

(* ------------------------------------------------------------------ *)
(** ** Installation *)

Section Install.
Context {St : Type}.
Implicit Types regs : list (registration (St := St)).

(** Registering handlers leaves the registries alone. *)
Lemma register_regs cw rt d op mask fn :
  shard_reg <$> shards_ (registerCtx (St := St) cw rt d op mask fn).1 = shard_reg <$> shards_ rt.
Proof.
  unfold registerCtx. destruct (localOrNull_ cw rt); [| done]. cbn. apply list_eq. intros i.
  rewrite !list_lookup_fmap. destruct (decide (i = Z.to_nat cw)) as [-> |].
  - rewrite list_lookup_alter_eq. by destruct (shards_ rt !! Z.to_nat cw).
  - by rewrite list_lookup_alter_ne.
Qed.

Lemma register_all_regs cw regs rd : shard_reg <$> shards_ (register_all cw regs rd).1 = shard_reg <$> shards_ rd.1.
Proof.
  revert rd. induction regs as [| r regs IH]; intros rd; [done |].
  rewrite register_all_cons, IH. apply register_regs.
Qed.

End Install.

Definition installed (ds : list gdispatcher) : Prop :=
  forall i d op h, ds !! i = Some d -> handlers_ d !! op = Some h ->
  exists b r, r ∈ gateway_regs /\ h = stored b (Z.of_nat i) r.

Lemma install_all n rt : let rd := foldl install_one (rt, []) (seqZ 0 (Z.of_nat n)) in
  shard_reg <$> shards_ rd.1 = shard_reg <$> shards_ rt /\ length rd.2 = n /\ installed rd.2.
Proof.
  induction n as [| n IH]; cbn zeta; [by split_and! |].
  rewrite seqZ_S, foldl_snoc. cbn zeta in IH. destruct IH as (R & L & D). set (rd := foldl install_one (rt, []) (seqZ 0 (Z.of_nat n))) in *. unfold install_one. cbn [fst snd].
  split_and!.
  - by rewrite register_all_regs.
  - rewrite length_app. cbn. lia.
  - intros i d op h. rewrite lookup_app. destruct (_ !! i) as [d' |] eqn:E.
    + intros [= <-]. by apply (D i).
    + intros [K <-]%list_lookup_singleton_Some H. apply lookup_ge_None in E.
      apply register_all_only in H as [H | (r & Hr & _ & ->)]; [done |].
      eexists _, r. split; [done |]. f_equal. lia.
Qed.

Lemma gateway_init_inv n handoff ticks : let p := gateway_init n handoff ticks in
  inv (Z.of_nat n) (p_rt p) (p_app p) /\ installed (p_ds p) /\ length (p_ds p) = n.
Proof.
  unfold gateway_init. cbn zeta. destruct (install_all n (runtime (start n))) as (R & L & D). cbn [p_rt p_app p_ds].
  split; [| done]. set (rt := (foldl _ _ _).1) in *.
  assert (shard_reg <$> shards_ rt = SessionRegistry.create <$> seqZ 0 (Z.of_nat n)) as E.
  { rewrite R, RuntimeInv.start_shards. apply list_eq. intros i. rewrite !list_lookup_fmap.
    by destruct (seqZ _ _ !! i). }
  assert (forall i sh, shards_ rt !! i = Some sh -> shard_reg sh = SessionRegistry.create (Z.of_nat i)) as F.
  { intros i sh S. apply (f_equal (fun l => l !! i)) in E. rewrite !list_lookup_fmap, S in E. cbn in E.
    destruct (seqZ _ _ !! i) as [z |] eqn:Q; [| done]. apply lookup_seqZ in Q as [-> _]. by injection E as ->. }
  assert (length (shards_ rt) = n) as Ln.
  { apply (f_equal length) in E. rewrite !length_fmap, length_seqZ in E. lia. }
  split; cbn.
  - unfold zlen. by rewrite Ln.
  - done.
  - unfold zlen. by rewrite length_replicate, Nat2Z.id.
  - intros i sh S. by rewrite (F i sh S).
  - intros i sid (sh & S & X). rewrite (F i sh S) in X. by destruct X.
  - intros i u [-> _]%lookup_replicate. by left.
  - done.
Qed.

(* ------------------------------------------------------------------ *)
(** ** Every move keeps the invariant *)

Record proc_ok (n : nat) (p : proc) : Prop := mk_proc_ok {
  po_inv : inv (Z.of_nat n) (p_rt p) (p_app p);
  po_installed : installed (p_ds p);
  po_workers : length (p_ds p) = n
}.

(** What a move adds to the requests. *)
Definition adds (p p' : proc) : Prop :=
  exists new, out (p_app p') = out (p_app p) ++ new /\ Forall (ping_live (p_rt p')) new.

Lemma on_worker_ok n p cw f : proc_ok n p -> 0 <= cw < Z.of_nat n ->
  (on (Z.of_nat n) (mk_gworld cw (p_rt p) (p_app p)) -> good (Z.of_nat n) (mk_gworld cw (p_rt p) (p_app p)) (f (mk_gworld cw (p_rt p) (p_app p)))) ->
  proc_ok n (on_worker p cw f) /\ adds p (on_worker p cw f).
Proof.
  intros [I D L] C G. destruct G as (_ & I' & O); [by split |]. split; [by split | done].
Qed.

Lemma registered_live n p cw sid : proc_ok n p -> registered (p_rt p) cw sid = true ->
  0 <= cw < Z.of_nat n /\ live (p_rt p) (Z.to_nat cw) sid.
Proof.
  intros P. unfold registered, at_index. destruct (cw <? 0) eqn:C; [done |]. b2p.
  destruct (shards_ (p_rt p) !! Z.to_nat cw) as [sh |] eqn:E; [| done]. intros H%bool_decide_eq_true.
  split; [| by exists sh]. apply lookup_lt_Some in E. pose proof (inv_shards _ _ _ (po_inv n p P)) as S. unfold zlen in S. lia.
Qed.

Lemma gstep_ok n p e p' : (0 < n)%nat -> Z.of_nat n < 2147483648 -> proc_ok n p -> gstep p e = Some p' ->
  proc_ok n p' /\ adds p p'.
Proof.
  intros Pn Bn P. destruct e as [cw s | cw s | cw s op body | cw s]; cbn.
  - pose proof (inv_shards _ _ _ (po_inv n p P)) as S. rewrite S. destruct (_ && _) eqn:C; [| done]. intros [= <-]. b2p.
    apply on_worker_ok; [done | lia |]. intros O. by apply good_start.
  - destruct (registered _ _ _) eqn:R; [| done]. intros [= <-]. destruct (registered_live n p cw _ P R) as [C L].
    apply on_worker_ok; [done | done |]. intros O. unfold upstream_connected. cbn [gw_cw].
    destruct (setForWorker_some _ _ (id_ s) O) as (u & E). cbn [gw_cw] in E. rewrite E. cbn [asserted].
    eapply good_upstream; [done | exact E | by right].
  - unfold at_index. destruct (cw <? 0) eqn:C; [done |]. b2p. destruct (p_ds p !! Z.to_nat cw) as [d |] eqn:E; [| done].
    intros [= <-]. pose proof (lookup_lt_Some _ _ _ E) as L. rewrite (po_workers n p P) in L.
    apply on_worker_ok; [done | lia |]. intros O. unfold dispatch.
    destruct (handlers_ d !! op) as [h |] eqn:H; cbn [fst]; [| by apply good_refl].
    destruct (po_installed n p P _ _ _ _ E H) as (b & r & R & ->).
    rewrite Z2Nat.id by lia. by apply (good_stored _ (mk_gworld cw (p_rt p) (p_app p))).
  - destruct (registered _ _ _) eqn:R; [| done]. intros [= <-]. destruct (registered_live n p cw _ P R) as [C L].
    apply on_worker_ok; [done | done |]. intros O. apply good_end; [done | lia].
Qed.

Lemma grun_ok n l : forall p p', (0 < n)%nat -> Z.of_nat n < 2147483648 -> proc_ok n p -> grun p l = Some p' -> proc_ok n p'.
Proof.
  induction l as [| e l IH]; cbn; intros p p' Pn Bn P E; [by simplify_eq |].
  apply bind_Some in E as (p1 & E1 & E). eapply IH; [done | done | | exact E]. by eapply gstep_ok.
Qed.


(* ------------------------------------------------------------------ *)
(** ** The way of a benchmark packet *)

Section Serving.
Context {A : Type}.
Abbreviation world := (gworld (St := app A)).
Abbreviation dispatcher := (Dispatcher (Session := SessionHandle) (W := world)).

(** The worker of [w] has installed the registrations in dispatcher [d]; its
    shard keeps the masks. *)
Definition serves (regs : list (registration (St := app A))) (w : world) (d : dispatcher) : Prop :=
  0 <= gw_cw w /\ exists rt sh sh', is_local (gw_cw w) rt = true /\
    d = (register_all (gw_cw w) regs (rt, dispatcher_init)).2 /\
    shards_ (gw_rt w) !! Z.to_nat (gw_cw w) = Some sh /\
    shards_ (register_all (gw_cw w) regs (rt, dispatcher_init)).1 !! Z.to_nat (gw_cw w) = Some sh' /\
    sm_allowed_ sh = sm_allowed_ sh' /\ is_Some (svc_router_ sh).

(** The session is registered with this worker in the given state. *)
Definition in_state (w : world) (s : SessionHandle) (st : SessionRegistry.ConnState) : Prop :=
  exists sh ctx, shards_ (gw_rt w) !! Z.to_nat (gw_cw w) = Some sh /\
    SessionRegistry.tryGetContext (gw_cw w) (shard_reg sh) (id_ s) = Some ctx /\ SessionRegistry.state ctx = st.

(** A frame's body as the dispatcher passes it on. *)
Definition body_view (b : list byte) : MessageView := mk_view (Some b) (zlen b).

Lemma decoded_view {P} `{PacketLaws P} (p : P) : packet_ok p -> decoded (body_view (encoding p)) = Some p.
Proof.
  intros Ok. pose proof (encoding_size p) as S. pose proof (wire_size_range (P := P)) as R.
  assert (view_bytes (body_view (encoding p)) = encoding p) as B
    by (unfold view_bytes, body_view; cbn; rewrite ?ztake_ge by lia; done).
  apply (decoded_spec (P := P) (body_view (encoding p))); [| cbn; lia | done | done].
  unfold view_ok, body_view; cbn. lia.
Qed.

Lemma written {P} `{PacketLaws P} (p : P) : PacketWriter.buf_ (write p PacketWriter.init) = encoding p.
Proof. by rewrite write_encodes. Qed.

(** A whole packet in an allowed state reaches its handler. *)
Lemma dispatch_bound {P} `{PacketLaws P} regs w d mask st s (pkt : P)
    (fn : SessionHandle -> P -> SessionRegistry.SessionContext -> world -> world) :
  serves regs w d -> NoDup (map r_opcode regs) -> bind mask fn ∈ regs -> in_state w s st ->
  has_flag mask (SessionRegistry.stateBit st) = true -> packet_ok pkt ->
  exists ctx, (dispatch d (kOpcode (P := P)) s (body_view (encoding pkt)) w).1 = fn s pkt ctx w.
Proof.
  intros (C & rt & sh & sh' & Lo & -> & S & S' & Al & _) Nd In (sh2 & ctx & S2 & G & <-) M Ok. exists ctx. simplify_eq.
  rewrite (dispatch_guarded (gw_cw w) rt regs mask (kOpcode (P := P)) fn (Some (fun _ _ _ w => w)) s _ w sh);
    [| done | done | done | done | intros _; split; [done |]; by exists sh'].
  cbn [fst]. unfold guarded_packet. rewrite G, M. cbn [negb]. by rewrite decoded_view.
Qed.

Lemma sendTo_out {P} `{PacketLaws P} regs w d sid (pkt : P) : serves regs w d ->
  out (gw_app (sendTo w sid pkt)) = out (gw_app w) ++ [ASend (gw_cw w) sid (kOpcode (P := P)) (encoding pkt)].
Proof.
  intros (C & rt & sh & sh' & Lo & _ & S & _ & _ & [r Ro]). unfold sendTo, local_.
  rewrite (local_lookup _ _ sh C S), Ro. cbn. by rewrite written.
Qed.

Lemma serves_app regs w d a : serves regs w d -> serves regs (set_app w a) d.
Proof. done. Qed.

End Serving.

(** Each role binds an opcode once, in the trading range, in some state. *)
Lemma opcodes_distinct :
  NoDup (map r_opcode gateway_regs) /\ NoDup (map r_opcode exchange_regs) /\ NoDup (map r_opcode client_regs) /\
  forallb binding_ok gateway_regs && forallb binding_ok exchange_regs && forallb binding_ok client_regs = true.
Proof.
  split_and!; [eapply (proj1 (bool_decide_eq_true _)); by vm_compute.. | done].
Qed.

(** C20: the echo.  A ping a client sends to the gateway leaves it, in one
    packet, for the upstream session of the worker the mode selects; the
    exchange answers it on the session it came on; the gateway passes the
    answer on to the client's session, on whatever worker it came: as bytes at
    every hop, through the registered and guarded handlers.  The client gets
    back its own sequence number and time stamp, and the stamps the hops put
    in. *)
Theorem echo_returns_to_sender (w1 w3 : gworld (St := app gateway)) (w2 : gworld (St := app unit)) d1 d2 d3
    (client upstream peer : SessionHandle) (u : Z) (p : PerfPkt) :
  serves gateway_regs w1 d1 -> serves exchange_regs w2 d2 -> serves gateway_regs w3 d3 ->
  in_state w1 client SessionRegistry.Handshaked -> in_state w2 peer SessionRegistry.Handshaked ->
  in_state w3 upstream SessionRegistry.Handshaked ->
  0 < workerCount_ (upstream_ (the_data w1)) ->
  getForWorker (upstream_ (the_data w1)) (route (the_data w1) (gw_cw w1) client) = Some u -> u <> 0 ->
  perf_ok p -> 0 < id_ client < U64 ->
  0 <= (nowNs w1).1 < U64 -> 0 <= (nowNs w2).1 < U64 -> 0 <= (nowNs w3).1 < U64 ->
  exists b1 b2 b3,
    out (gw_app (dispatch d1 kOpcodePerfPing client (body_view (perf_encoding p)) w1).1) =
      out (gw_app w1) ++ [ASend (gw_cw w1) u kOpcodePerfPing b1] /\
    out (gw_app (dispatch d2 kOpcodePerfPing peer (body_view b1) w2).1) =
      out (gw_app w2) ++ [ASend (gw_cw w2) (id_ peer) kOpcodePerfPong b2] /\
    out (gw_app (dispatch d3 kOpcodePerfPong upstream (body_view b2) w3).1) =
      out (gw_app w3) ++ [ASend (gw_cw w3) (id_ client) kOpcodePerfPong b3] /\
    decoded (body_view b3) = Some (mk_pong (mk_perf (id_ client) (seq p) (t1 p) (nowNs w1).1 (nowNs w2).1 (nowNs w3).1)).
Proof.
  intros V1 V2 V3 S1 S2 S3 Wc R Nu Ok Cl N1 N2 N3.
  set (q1 := mk_ping (with_route p (id_ client) (nowNs w1).1)).
  set (q2 := mk_pong (mk_perf (id_ client) (seq p) (t1 p) (nowNs w1).1 (nowNs w2).1 0)).
  set (q3 := mk_pong (mk_perf (id_ client) (seq p) (t1 p) (nowNs w1).1 (nowNs w2).1 (nowNs w3).1)).
  assert (perf_ok (ping q1) /\ perf_ok (pong q2) /\ perf_ok (pong q3)) as (K1 & K2 & K3)
    by (unfold perf_ok in *; cbn [q1 q2 q3 ping pong with_route client_sid seq t1 t2 t3 t4]; lia).
  destruct opcodes_distinct as (Nd & Nx & _).
  exists (encoding q1), (encoding q2), (encoding q3). split_and!; [| | | by apply decoded_view].
  - destruct (dispatch_bound gateway_regs w1 d1 _ _ client (mk_ping p) gateway_onPerfPing V1 Nd ltac:(right; left) S1 eq_refl Ok)
      as (ctx & E). etrans; [exact (f_equal (fun w => out (gw_app w)) E) |].
    unfold gateway_onPerfPing. rewrite (proj2 (Z.leb_gt _ _) Wc), R. cbn [asserted]. rewrite (proj2 (Z.eqb_neq _ _) Nu).
    exact (sendTo_out gateway_regs (nowNs w1).2 d1 u q1 (serves_app _ _ _ _ V1)).
  - destruct (dispatch_bound exchange_regs w2 d2 _ _ peer q1 exchange_onPerfPing V2 Nx ltac:(right; left) S2 eq_refl K1)
      as (ctx & E). etrans; [exact (f_equal (fun w => out (gw_app w)) E) |].
    exact (sendTo_out exchange_regs (nowNs w2).2 d2 (id_ peer) q2 (serves_app _ _ _ _ V2)).
  - destruct (dispatch_bound gateway_regs w3 d3 _ _ upstream q2 gateway_onPerfPong V3 Nd ltac:(right; right; left) S3 eq_refl K2)
      as (ctx & E). etrans; [exact (f_equal (fun w => out (gw_app w)) E) |].
    unfold gateway_onPerfPong. cbn [pong q2 client_sid]. rewrite (proj2 (Z.eqb_neq (id_ client) 0)) by lia.
    exact (sendTo_out gateway_regs (nowNs w3).2 d3 (id_ client) q3 (serves_app _ _ _ _ V3)).
Qed.

(* ------------------------------------------------------------------ *)
(** ** A run of the gateway *)

Definition demo_up : SessionHandle := mk_handle 1 0 (Some 0).
Definition demo_client : SessionHandle := mk_handle 2 0 (Some 0).
Definition demo_peer : SessionHandle := mk_handle 5 0 (Some 0).
Definition hello_body (role : Z) : MessageView := body_view (encoding (mk_hello role)).
Definition demo_ping : PerfPkt := mk_perf 0 7 100 0 0 0.

(** The upstream connects and says hello, a client says hello. *)
Definition demo_events : list gevent :=
  [EStart 0 demo_up; EDial 0 demo_up; EMessage 0 demo_up kOpcodeRoleHelloReq (hello_body PeerRole_Exchange);
   EStart 0 demo_client; EMessage 0 demo_client kOpcodeRoleHelloReq (hello_body PeerRole_Client)].

Definition demo_proc : proc := default (gateway_init 2 false []) (grun (gateway_init 2 false [200; 400]) demo_events).

Lemma demo_runs : grun (gateway_init 2 false [200; 400]) demo_events = Some demo_proc.
Proof.
  assert (match grun (gateway_init 2 false [200; 400]) demo_events with Some _ => true | None => false end = true) as R by by vm_compute.
  unfold demo_proc. by destruct (grun (gateway_init 2 false [200; 400]) demo_events).
Qed.


Definition demo_w1 : gworld (St := app gateway) := mk_gworld 0 (p_rt demo_proc) (p_app demo_proc).
Definition demo_d1 : gdispatcher := (register_all 0 gateway_regs (runtime (start 2), dispatcher_init)).2.
Definition demo_rd2 := register_all 0 exchange_regs (runtime (start 1), dispatcher_init).
Definition demo_w2 : gworld (St := app unit) :=
  setState (rt_onSessionStart (mk_gworld 0 demo_rd2.1 (mk_app tt [] [300] 0 false)) demo_peer) 5 SessionRegistry.Handshaked.
Definition demo_w3 : gworld (St := app gateway) := (dispatch demo_d1 kOpcodePerfPing demo_client (body_view (perf_encoding demo_ping)) demo_w1).1.

Ltac serve_by c :=
  split; [by vm_compute |]; exists (runtime c); eexists _, _;
  split_and!; [vm_compute; reflexivity | reflexivity | vm_compute; reflexivity | vm_compute; reflexivity
    | vm_compute; reflexivity | vm_compute; by eexists].

Lemma echo_returns_to_sender_witness : exists b1 b2 b3,
    out (gw_app (dispatch demo_d1 kOpcodePerfPing demo_client (body_view (perf_encoding demo_ping)) demo_w1).1) =
      out (gw_app demo_w1) ++ [ASend 0 1 kOpcodePerfPing b1] /\
    out (gw_app (dispatch demo_rd2.2 kOpcodePerfPing demo_peer (body_view b1) demo_w2).1) =
      out (gw_app demo_w2) ++ [ASend 0 5 kOpcodePerfPong b2] /\
    out (gw_app (dispatch demo_d1 kOpcodePerfPong demo_up (body_view b2) demo_w3).1) =
      out (gw_app demo_w3) ++ [ASend 0 2 kOpcodePerfPong b3] /\
    decoded (body_view b3) = Some (mk_pong (mk_perf 2 7 100 200 300 400)).
Proof.
  assert (serves gateway_regs demo_w1 demo_d1 /\ serves exchange_regs demo_w2 demo_rd2.2 /\ serves gateway_regs demo_w3 demo_d1) as (V1 & V2 & V3).
  { split_and!; [serve_by (start 2) | serve_by (start 1) | serve_by (start 2)]. }
  apply (echo_returns_to_sender demo_w1 demo_w3 demo_w2 demo_d1 demo_rd2.2 demo_d1 demo_client demo_up demo_peer 1 demo_ping V1 V2 V3).
  1-3: eexists _, _; split_and!; vm_compute; reflexivity.
  all: vm_compute; intuition discriminate.
Defined.

End Trading.
