(* ===== verification/Benchmark.v ===== *)
(** * Benchmark: what the load generator sends and measures

    The client's benchmark controller ([BenchmarkClientController]) from the
    first handshake to the end of the measurement, in the two modes: with
    [tpsMode_] off (round trips over the sessions in turn, counted) and on. *)

From stdpp Require Import strings.
From S2P Require Import Prelude Message Handle PacketWriter PacketCodec SessionRegistry Runtime Guard Controllers Trading.
Import Message Handle PacketCodec Runtime Guard Controllers Trading.

Module Benchmark.

(** The worker has its shard and the shard its router. *)
Definition connected (w : cworld) : Prop :=
  exists sh, local_ (gw_cw w) (gw_rt w) = Some sh /\ is_Some (svc_router_ sh).

Lemma sendTo_sends {P} `{PacketLaws P} (w : cworld) sid (pkt : P) : connected w ->
  sendTo w sid pkt = emit w (ASend (gw_cw w) sid (kOpcode (P := P)) (encoding pkt)).
Proof. intros (sh & L & [r R]). unfold sendTo. by rewrite L, R, written. Qed.

(** What a run leaves alone: the worker, the runtime, the assertions. *)
Definition same (w w' : cworld) : Prop :=
  gw_cw w' = gw_cw w /\ gw_rt w' = gw_rt w /\ aborted (gw_app w') = aborted (gw_app w).

Lemma same_connected w w' : same w w' -> connected w -> connected w'.
Proof. intros (C & R & _) (sh & H). exists sh. by rewrite C, R. Qed.

(** The ping number [i] (from 0): sequence number [i + 1], over the sessions in
    turn. *)
Definition ping_at (cw : Z) (ss : list Z) (i : Z) (a : action) : Prop :=
  exists sid now, ss !! Z.to_nat (i mod zlen ss) = Some sid /\
    a = ASend cw sid kOpcodePerfPing (perf_encoding (mk_perf 0 (i + 1) now 0 0 0)).

(** The controller after [k] pongs of a run over [ss]. *)
Record measuring (ss : list Z) (k : Z) (b : bench) : Prop := mk_measuring {
  ms_sessions : sessions_ b = ss;
  ms_rr : rr_ b = k mod zlen ss;
  ms_mode : tpsMode_ b = false;
  ms_count : zlen (recorder_ b) = Z.max 0 (k - kWarmupCount);
  ms_going : exited b = false
}.

Lemma send_ping_spec (w : cworld) ss k : connected w -> 0 < zlen ss -> 0 <= k -> measuring ss k (the_data w) ->
  let w' := send_ping w (k + 1) in
  same w w' /\ the_data w' = the_data w /\
  exists a, out (gw_app w') = out (gw_app w) ++ [a] /\ ping_at (gw_cw w) ss k a.
Proof.
  intros C N K [S R M Cn G]. unfold send_ping. destruct (nowNs w) as [now w1] eqn:E. injection E as E1 <-.
  change (the_data (set_app w _)) with (the_data w). rewrite S, R.
  pose proof (Z.mod_pos_bound k (zlen ss) N) as B.
  destruct (ss !! Z.to_nat (k mod zlen ss)) as [sid |] eqn:L.
  2:{ apply lookup_ge_None in L. unfold zlen in *. lia. }
  rewrite sendTo_sends by done. cbn zeta. split; [done |]. split; [done |].
  eexists. split; [done |]. by exists sid, now.
Qed.

(** What measuring a pong does. *)
Lemma measure_spec (w : cworld) ss k p : measuring ss k (the_data w) -> 0 <= k -> seq p = k + 1 ->
  let w' := measure p w in
  same w w' /\ out (gw_app w') = out (gw_app w) /\ sessions_ (the_data w') = ss /\ rr_ (the_data w') = k mod zlen ss /\
  tpsMode_ (the_data w') = false /\ exited (the_data w') = false /\
  zlen (recorder_ (the_data w')) = Z.max 0 (k + 1 - kWarmupCount).
Proof.
  intros [S R M Cn G] K Q. unfold measure. destruct (nowNs w) as [t5 w1] eqn:E. injection E as E1 <-. rewrite Q.
  set (b1 := record_pong (the_data w) p t5).
  assert (sessions_ b1 = ss /\ rr_ b1 = k mod zlen ss /\ tpsMode_ b1 = false /\ exited b1 = false /\
    zlen (recorder_ b1) = Z.max 0 (k + 1 - kWarmupCount)) as (S1 & R1 & M1 & G1 & C1).
  { unfold b1, record_pong. rewrite Q. destruct (kWarmupCount <? k + 1) eqn:W; b2p;
      cbn [recorder_ sessions_ rr_ tpsMode_ exited]; rewrite ?zlen_app, ?Cn; split_and!; try done; zlen_lia. }
  by destruct (_ =? kWarmupCount).
Qed.

(** One pong before the last. *)
Lemma pong_goes_on (w : cworld) ss k s pkt ctx : connected w -> 0 < zlen ss -> 0 <= k -> measuring ss k (the_data w) ->
  seq (pong pkt) = k + 1 -> k + 1 < kWarmupCount + kMeasureCount ->
  let w' := client_onPerfPong s pkt ctx w in
  same w w' /\ measuring ss (k + 1) (the_data w') /\
  exists a, out (gw_app w') = out (gw_app w) ++ [a] /\ ping_at (gw_cw w) ss (k + 1) a.
Proof.
  intros C N K Me Q L. unfold client_onPerfPong. rewrite (ms_mode _ _ _ Me), Q, (proj2 (Z.leb_gt _ _) L).
  destruct (measure_spec w ss k (pong pkt) Me K Q) as (Sa & O3 & S3 & R3 & M3 & G3 & C3).
  set (w3 := measure (pong pkt) w) in *. clearbody w3. cbn zeta. set (w4 := set_data w3 (next_ping (the_data w3) (k + 1))).
  assert (measuring ss (k + 1) (the_data w4)) as Me4.
  { split; cbn; rewrite ?S3, ?R3, ?C3; try done. by rewrite Zplus_mod_idemp_l. }
  assert (seq_ (the_data w4) = k + 1 + 1) as -> by (cbn; rewrite u64_small; unfold kWarmupCount, kMeasureCount in L; lia).
  destruct (send_ping_spec w4 ss (k + 1)) as (Sb & D & a & O & P); [by apply (same_connected w) | done | lia | done |].
  destruct Sa as (X1 & X2 & X3), Sb as (Y1 & Y2 & Y3).
  split; [split_and!; [by rewrite Y1 | by rewrite Y2 | by rewrite Y3] |]. rewrite D. split; [done |].
  exists a. rewrite O. split; [by cbn; rewrite O3 |]. cbn in P. by rewrite X1 in P.
Qed.

(** The last pong ends the run. *)
Lemma pong_ends (w : cworld) ss k s pkt ctx : measuring ss k (the_data w) ->
  seq (pong pkt) = k + 1 -> k + 1 = kWarmupCount + kMeasureCount ->
  let w' := client_onPerfPong s pkt ctx w in
  same w w' /\ out (gw_app w') = out (gw_app w) /\ exited (the_data w') = true /\
  zlen (recorder_ (the_data w')) = kMeasureCount.
Proof.
  intros Me Q L. assert (0 <= k) as K by (unfold kWarmupCount, kMeasureCount in L; lia).
  destruct (measure_spec w ss k (pong pkt) Me K Q) as (Sa & O3 & _ & _ & _ & _ & C3).
  unfold client_onPerfPong. rewrite (ms_mode _ _ _ Me), Q, (proj2 (Z.leb_le _ _)) by lia.
  set (w3 := measure (pong pkt) w) in *. clearbody w3. cbn zeta.
  split; [done |]. split; [done |]. split; [done |]. change (zlen (recorder_ (the_data w3)) = kMeasureCount).
  rewrite C3. unfold kWarmupCount, kMeasureCount in *. lia.
Qed.

(* ------------------------------------------------------------------ *)
(** ** Runs *)

Abbreviation pong_in := (SessionHandle * PerfPongPkt * SessionRegistry.SessionContext)%type.

Definition handshakes (w : cworld) (hs : list SessionHandle) : cworld := foldl (fun w s => onHandshakeOk s w) w hs.
Definition pongs (w : cworld) (l : list pong_in) : cworld := foldl (fun w x => client_onPerfPong x.1.1 x.1.2 x.2 w) w l.

(** The pongs answer the pings in turn, from number [k]. *)
Definition in_turn (k : Z) (l : list pong_in) : Prop :=
  forall (i : nat) x, l !! i = Some x -> seq (pong x.1.2) = k + Z.of_nat i + 1.

Lemma same_trans w w1 w2 : same w w1 -> same w1 w2 -> same w w2.
Proof. intros (X1 & X2 & X3) (Y1 & Y2 & Y3). split_and!; congruence. Qed.

Lemma pongs_run ss : 0 < zlen ss -> forall l w k, connected w -> 0 <= k -> measuring ss k (the_data w) -> in_turn k l ->
  k + zlen l < kWarmupCount + kMeasureCount ->
  same w (pongs w l) /\ measuring ss (k + zlen l) (the_data (pongs w l)) /\
  exists new, out (gw_app (pongs w l)) = out (gw_app w) ++ new /\ Forall2 (ping_at (gw_cw w) ss) (seqZ (k + 1) (zlen l)) new.
Proof.
  intros N. induction l as [| [[s pkt] ctx] l IH]; intros w k C K M T L.
  { rewrite zlen_nil, Z.add_0_r. split; [done |]. split; [done |]. exists []. rewrite app_nil_r. split; [done |]. by constructor. }
  rewrite zlen_cons in *. pose proof (zlen_nonneg l).
  destruct (pong_goes_on w ss k s pkt ctx C N K M) as (S & M' & a & O & P).
  { pose proof (T 0%nat _ eq_refl) as X. cbn in X. lia. } { lia. }
  destruct (IH (client_onPerfPong s pkt ctx w) (k + 1)) as (S' & M2 & new & O' & F);
    [by apply (same_connected w) | lia | done | | lia |].
  { intros i x E. rewrite (T (Datatypes.S i) x E). lia. }
  change (pongs w ((s, pkt, ctx) :: l)) with (pongs (client_onPerfPong s pkt ctx w) l).
  replace (k + (1 + zlen l)) with (k + 1 + zlen l) by lia.
  split; [by eapply same_trans |]. split; [done |]. exists (a :: new). split; [by rewrite O', O, <- app_assoc |].
  rewrite (seqZ_cons (k + 1)) by lia. constructor; [done |].
  replace (Z.succ (k + 1)) with (k + 1 + 1) by lia. replace (Z.pred (1 + zlen l)) with (zlen l) by lia.
  by rewrite (proj1 S) in F.
Qed.

(** Gathering sessions until the target is reached. *)
Record gathering (target : Z) (ids : list Z) (b : bench) : Prop := mk_gathering {
  ga_sessions : sessions_ b = ids;
  ga_target : target_sessions_ b = target;
  ga_started : started_ b = false;
  ga_mode : tpsMode_ b = false;
  ga_recorder : recorder_ b = [];
  ga_going : exited b = false
}.

Lemma handshake_waits (w : cworld) target ids s : gathering target ids (the_data w) -> zlen ids + 1 < target ->
  same w (onHandshakeOk s w) /\ out (gw_app (onHandshakeOk s w)) = out (gw_app w) /\
  gathering target (ids ++ [id_ s]) (the_data (onHandshakeOk s w)).
Proof.
  intros [S T St M R G] L. unfold onHandshakeOk. rewrite M, St, S, T. cbn [negb andb].
  rewrite (proj2 (Z.leb_gt _ _)) by zlen_lia. by split_and!.
Qed.

Lemma handshake_starts (w : cworld) target ids s : connected w -> gathering target ids (the_data w) -> zlen ids + 1 = target ->
  same w (onHandshakeOk s w) /\ measuring (ids ++ [id_ s]) 0 (the_data (onHandshakeOk s w)) /\
  exists a, out (gw_app (onHandshakeOk s w)) = out (gw_app w) ++ [a] /\ ping_at (gw_cw w) (ids ++ [id_ s]) 0 a.
Proof.
  intros C [S T St M R G] L. unfold onHandshakeOk. rewrite M, St, S, T, R, G. cbn [negb andb].
  rewrite (proj2 (Z.leb_le _ _)) by zlen_lia. cbn [kWarmupCount Z.eqb].
  set (w1 := set_data _ (mk_bench [] target (ids ++ [id_ s]) 0 true 1 0 false false)).
  assert (measuring (ids ++ [id_ s]) 0 (the_data w1)) as Me by (split; try done; cbn; by rewrite Z.mod_0_l by zlen_lia).
  destruct (send_ping_spec w1 (ids ++ [id_ s]) 0) as (Sa & D & a & O & P); [done | zlen_lia | lia | done |].
  change (0 + 1) with 1 in *. split; [done |]. rewrite D. split; [done |]. by exists a.
Qed.

Lemma handshakes_run hs : forall (w : cworld) target ids, connected w -> gathering target ids (the_data w) -> hs <> [] ->
  zlen ids + zlen hs = target ->
  same w (handshakes w hs) /\ measuring (ids ++ (id_ <$> hs)) 0 (the_data (handshakes w hs)) /\
  exists a, out (gw_app (handshakes w hs)) = out (gw_app w) ++ [a] /\ ping_at (gw_cw w) (ids ++ (id_ <$> hs)) 0 a.
Proof.
  induction hs as [| s hs IH]; intros w target ids C G Ne L; [done |]. rewrite zlen_cons in L.
  destruct hs as [| s' hs].
  - apply (handshake_starts w target ids s C G). rewrite zlen_nil in L. lia.
  - destruct (handshake_waits w target ids s G) as (S & O & G'); [zlen_lia |].
    destruct (IH (onHandshakeOk s w) target (ids ++ [id_ s])) as (S' & M & a & O' & P);
      [by apply (same_connected w) | done | done | zlen_lia |].
    change (handshakes w (s :: s' :: hs)) with (handshakes (onHandshakeOk s w) (s' :: hs)).
    rewrite <- app_assoc in M, P. split; [by eapply same_trans |]. split; [done |].
    exists a. rewrite O', O. split; [done |]. by rewrite (proj1 S) in P.
Qed.

(** [tpsMode_] switched off in the source, as the README says for this run. *)
Definition latency_bench (target : Z) : bench :=
  let b := new_bench target in
  mk_bench (recorder_ b) (target_sessions_ b) (sessions_ b) (rr_ b) (started_ b) (seq_ b) (start_ns_ b) false (exited b).

(** C38: with [tpsMode_] off the benchmark starts when the last of the wanted
    sessions has shaken hands and then, as long as each ping is answered,
    sends pings 1, 2, 3, ... over the sessions in turn; it records each answer
    after the warm-up once, and it ends with the answer to the last one, when
    exactly [kMeasureCount] round trips are recorded, and not before. *)
Theorem benchmark_measures_all (target : Z) (w : cworld) (hs : list SessionHandle) (l : list pong_in) :
  connected w -> the_data w = latency_bench target -> zlen hs = Z.max 1 target ->
  in_turn 0 l -> zlen l <= kWarmupCount + kMeasureCount ->
  let w' := pongs (handshakes w hs) l in
  same w w' /\
  exited (the_data w') = (zlen l =? kWarmupCount + kMeasureCount) /\
  zlen (recorder_ (the_data w')) = Z.max 0 (zlen l - kWarmupCount) /\
  exists new, out (gw_app w') = out (gw_app w) ++ new /\
    Forall2 (ping_at (gw_cw w) (id_ <$> hs)) (seqZ 0 (Z.min (zlen l + 1) (kWarmupCount + kMeasureCount))) new.
Proof.
  intros C D H T L. cbn zeta. pose proof (zlen_nonneg l) as Pl.
  assert (hs <> []) as Ne by (intros ->; rewrite zlen_nil in H; lia).
  destruct (handshakes_run hs w (Z.max 1 target) []) as (S & M & a & O & P); [done | by rewrite D | done | by rewrite zlen_nil |].
  change ([] ++ (id_ <$> hs)) with (id_ <$> hs) in *. set (w0 := handshakes w hs) in *. set (ss := id_ <$> hs) in *.
  assert (0 < zlen ss) as N by (unfold ss, zlen in *; rewrite length_fmap; lia).
  assert (connected w0) as C0 by by apply (same_connected w).
  destruct (Z.eqb_spec (zlen l) (kWarmupCount + kMeasureCount)) as [E | E].
  - destruct (exists_last (l := l)) as (l' & [[s pkt] ctx] & ->); [intros ->; unfold kWarmupCount, kMeasureCount in E; done |].
    rewrite zlen_app, zlen_cons, zlen_nil in *. pose proof (zlen_nonneg l').
    destruct (pongs_run ss N l' w0 0) as (S' & M' & new & O' & F); [done | lia | done | | lia |].
    { intros i x X. apply T. by apply lookup_app_l_Some. }
    destruct (pong_ends (pongs w0 l') ss (0 + zlen l') s pkt ctx M') as (S2 & O2 & X2 & R2).
    { pose proof (T (length l') (s, pkt, ctx) (list_lookup_middle l' [] _ _ eq_refl)) as X. cbn in X. unfold zlen. lia. } { lia. }
    unfold pongs at 1 2 3 4. rewrite foldl_snoc. cbn [fst snd]. fold (pongs w0 l').
    split; [by do 2 (eapply same_trans; [done |]) |]. split; [done |].
    assert (zlen (A := pong_in) [] = 0) as Z0 by done. rewrite Z0.
    split; [rewrite R2; unfold kWarmupCount, kMeasureCount in *; lia |].
    exists (a :: new). split; [by rewrite O2, O', O, <- app_assoc |].
    rewrite Z.min_r by lia. rewrite seqZ_cons by lia. constructor; [done |].
    replace (Z.pred _) with (zlen l') by lia. by rewrite (proj1 S) in F.
  - destruct (pongs_run ss N l w0 0) as (S' & M' & new & O' & F); [done | lia | done | done | lia |].
    split; [by eapply same_trans |]. split; [apply (ms_going _ _ _ M') |].
    split; [by rewrite (ms_count _ _ _ M') |]. exists (a :: new). split; [by rewrite O', O, <- app_assoc |].
    rewrite Z.min_l by lia. rewrite seqZ_cons by lia. constructor; [done |].
    replace (Z.pred _) with (zlen l) by lia. by rewrite (proj1 S) in F.
Qed.

(** With [tpsMode_] on, as it is in the source, every pong is answered with the
    same packet, sequence number 1: with up to 100000 sessions, or more than
    200000, the run records nothing and never ends. *)
Theorem tps_mode_never_ends (w : cworld) (l : list pong_in) :
  connected w -> tpsMode_ (the_data w) = true ->
  0 < zlen (sessions_ (the_data w)) <= 100000 \/ 200000 < zlen (sessions_ (the_data w)) ->
  same w (pongs w l) /\ the_data (pongs w l) = the_data w /\
  out (gw_app (pongs w l)) = out (gw_app w) ++
    ((fun x => ASend (gw_cw w) (id_ x.1.1) kOpcodePerfPing (perf_encoding (mk_perf 0 1 0 0 0 0))) <$> l).
Proof.
  intros C M N. revert w C M N. induction l as [| [[s pkt] ctx] l IH]; intros w C M N.
  { split; [done |]. split; [done |]. by rewrite app_nil_r. }
  assert (client_onPerfPong s pkt ctx w = emit w (ASend (gw_cw w) (id_ s) kOpcodePerfPing (perf_encoding (mk_perf 0 1 0 0 0 0)))) as E.
  { unfold client_onPerfPong, pong_tps. rewrite M, sendTo_sends by done.
    change (the_data (emit w _)) with (the_data w). rewrite (proj2 (Z.eqb_neq (zlen _) 0)) by lia.
    rewrite (proj2 (Z.eqb_neq _ _)); [done |]. change (seq (mk_perf 0 (u64 (0 + 1)) 0 0 0 0)) with 1. unfold kMeasureCount.
    intros Q. destruct N as [N | N].
    - pose proof (Z.div_le_lower_bound 200000 (zlen (sessions_ (the_data w))) 2). lia.
    - rewrite Z.div_small in Q by lia. lia. }
  change (pongs w ((s, pkt, ctx) :: l)) with (pongs (client_onPerfPong s pkt ctx w) l). rewrite E.
  destruct (IH (emit w (ASend (gw_cw w) (id_ s) kOpcodePerfPing (perf_encoding (mk_perf 0 1 0 0 0 0))))) as (S & D & O); [done | done | done |].
  split; [done |]. split; [done |]. rewrite O. cbn. by rewrite <- app_assoc.
Qed.

(** Two sessions, three answers: pings 1 to 4 over the sessions in turn. *)
Definition demo_bench : cworld := mk_gworld 0 (runtime (start 1)) (mk_app (latency_bench 2) [] [10; 20; 30; 40] 0 false).
Definition demo_sessions : list SessionHandle := [mk_handle 11 0 (Some 0); mk_handle 12 0 (Some 0)].
Definition demo_ctx : SessionRegistry.SessionContext := SessionRegistry.mk_ctx SessionRegistry.Handshaked 0 0 0 0.
Definition demo_pong (k : Z) : pong_in := (mk_handle 11 0 (Some 0), mk_pong (mk_perf 1 k 10 11 12 13), demo_ctx).
Definition demo_pongs : list pong_in := [demo_pong 1; demo_pong 2; demo_pong 3].

Lemma benchmark_measures_all_witness :
  let w' := pongs (handshakes demo_bench demo_sessions) demo_pongs in
  same demo_bench w' /\
  exited (the_data w') = (zlen demo_pongs =? kWarmupCount + kMeasureCount) /\
  zlen (recorder_ (the_data w')) = Z.max 0 (zlen demo_pongs - kWarmupCount) /\
  exists new, out (gw_app w') = out (gw_app demo_bench) ++ new /\
    Forall2 (ping_at 0 [11; 12]) (seqZ 0 (Z.min (zlen demo_pongs + 1) (kWarmupCount + kMeasureCount))) new.
Proof.
  apply (benchmark_measures_all 2 demo_bench demo_sessions demo_pongs).
  - eexists. split; [vm_compute; reflexivity |]. by eexists.
  - done.
  - done.
  - intros i x E. unfold demo_pongs in E. do 3 (destruct i as [| i]; [cbn in E; by simplify_eq |]). done.
  - by vm_compute.
Defined.

End Benchmark.
