(* ===== verification/Report.v ===== *)
(** * Report: the statistics the load generator prints

    Models [LatencyRecorder] (trading/feature/benchmark/client/
    LatencyRecorder.hpp) with the text of its table, and the two lines that
    [BenchmarkClientController::onPerfPong] prints after it.

    The percentile indices and the mean are computed in [double].  A [double]
    is here a mantissa and an exponent, and each operation rounds its exact
    result to 53 bits, to nearest with ties to even, as IEEE 754 prescribes.
    Only numbers that are not negative occur, and all of them are between
    2^-64 and 2^128, so the ends of the exponent range play no part. *)

From Stdlib Require Import Ascii.
From stdpp Require Import strings sorting.
From S2P Require Import Prelude Monitoring Message Handle PacketCodec SessionRegistry Runtime Guard Controllers.
Import Monitoring PacketCodec Guard Controllers.

Module Report.

(* ------------------------------------------------------------------ *)
(** ** Rounding *)

(** The integer nearest to [a / b], ties to even. *)
Definition rhe (a b : Z) : Z :=
  let q := a / b in
  let r := a mod b in
  if 2 * r <? b then q else if b <? 2 * r then q + 1 else if Z.even q then q else q + 1.

(** [mant * 2^expo]. *)
Record double := mk_double { mant : Z; expo : Z }.

(** Numerator and denominator of [num / den / 2^e]. *)
Definition scaled (num den e : Z) : Z * Z :=
  if 0 <=? e then (num, den * 2 ^ e) else (num * 2 ^ (- e), den).

(** The exponent at which [num / den] has 53 bits before the point. *)
Definition exponent (num den : Z) : Z :=
  let e := Z.log2 num - Z.log2 den - 52 in
  let '(a, b) := scaled num den e in
  if a <? 2 ^ 52 * b then e - 1 else e.

(** The [double] nearest to [num / den * 2^s]. *)
Definition round53 (num den s : Z) : double :=
  if num =? 0 then mk_double 0 0 else
  let e := exponent num den in
  let '(a, b) := scaled num den e in
  mk_double (rhe a b) (e + s).

Definition of_u64 (n : Z) : double := round53 n 1 0.
Definition fmul (x y : double) : double := round53 (mant x * mant y) 1 (expo x + expo y).
Definition fdiv (x y : double) : double := round53 (mant x) (mant y) (expo x - expo y).
Definition fadd (x y : double) : double :=
  let e := Z.min (expo x) (expo y) in
  round53 (mant x * 2 ^ (expo x - e) + mant y * 2 ^ (expo y - e)) 1 e.
Definition fpos (x : double) : bool := 0 <? mant x.

(** Conversion to an integer type: towards zero. *)
Definition trunc (x : double) : Z := Z.shiftl (mant x) (expo x).

(** [std::fixed] with [std::setprecision(0)]: the nearest integer. *)
Definition nearest (x : double) : Z :=
  if 0 <=? expo x then mant x * 2 ^ expo x else rhe (mant x) (2 ^ (- expo x)).

(** The literals: the [double]s nearest to 1/2, 99/100 and 999/1000. *)
Definition c50 : double := mk_double 1 (-1).
Definition c99 : double := mk_double 8917127262193582 (-53).
Definition c999 : double := mk_double 8998192055486251 (-53).

Example literals_rounded :
  round53 99 100 0 = c99 /\ round53 999 1000 0 = c999 /\ nearest (fmul (of_u64 2) c50) = 1.
Proof. vm_compute. done. Qed.

(* ------------------------------------------------------------------ *)
(** ** [std::cout] *)

(** The text written so far and the flags; [width] is that of the next item. *)
Record ostream := mk_os {
  written : text;
  adjust_left : bool;
  fixed_flag : bool;
  precision : Z;
  width : Z
}.

Definition std_cout : ostream := mk_os [] false false 6 0.

Inductive item :=
| Left | Setw (n : Z) | Fixed | Setprecision (n : Z)
| Str (t : text) | U64v (v : Z) | Dbl (d : double).

Definition fill (o : ostream) (t : text) : text :=
  let blanks := replicate (Z.to_nat (width o - zlen t)) sp in
  if adjust_left o then t ++ blanks else blanks ++ t.

Definition put (o : ostream) (t : text) : ostream :=
  mk_os (written o ++ fill o t) (adjust_left o) (fixed_flag o) (precision o) 0.

(** [operator<<].  Only the format of [double]s that the program gets to use
    is given: [std::fixed] without decimals. *)
Definition insert_item (o : ostream) (i : item) : option ostream :=
  match i with
  | Left => Some (mk_os (written o) true (fixed_flag o) (precision o) (width o))
  | Setw n => Some (mk_os (written o) (adjust_left o) (fixed_flag o) (precision o) n)
  | Fixed => Some (mk_os (written o) (adjust_left o) true (precision o) (width o))
  | Setprecision n => Some (mk_os (written o) (adjust_left o) (fixed_flag o) n (width o))
  | Str t => Some (put o t)
  | U64v v => Some (put o (to_string v))
  | Dbl d => if fixed_flag o && (precision o =? 0) then Some (put o (to_string (nearest d))) else None
  end.

Definition cout (o : ostream) (l : list item) : option ostream := foldl (fun o i => o ≫= fun o => insert_item o i) (Some o) l.

(* ------------------------------------------------------------------ *)
(** ** The recorder *)

(** The five vectors of the recorder. *)
Record LatencyRecorder := mk_recorder { rtts : list Z; hop1s : list Z; hop2s : list Z; hop3s : list Z; hop4s : list Z }.

Definition new_recorder : LatencyRecorder := mk_recorder [] [] [] [] [].

Definition record (r : LatencyRecorder) (total h1 h2 h3 h4 : Z) : LatencyRecorder :=
  mk_recorder (rtts r ++ [total]) (hop1s r ++ [h1]) (hop2s r ++ [h2]) (hop3s r ++ [h3]) (hop4s r ++ [h4]).

(** [std::accumulate(begin, end, 0.0)]. *)
Definition accumulate (l : list Z) : double := foldl (fun s x => fadd s (of_u64 x)) (mk_double 0 0) l.

(** [data[data.size() * c]]; [None] would be an access outside the vector. *)
Definition at_share (data : list Z) (c : double) : option Z :=
  let i := trunc (fmul (of_u64 (zlen data)) c) in
  if i <? 0 then None else data !! Z.to_nat i.

(** Returns the sorted vector and the stream. *)
Definition printRow (name : text) (data : list Z) (o : ostream) : option (list Z * ostream) :=
  match data with
  | [] => Some (data, o)
  | _ :: _ =>
      let data := merge_sort Z.le data in
      min_v ← head data;
      max_v ← last data;
      let sum := accumulate data in
      let avg := fdiv sum (of_u64 (zlen data)) in
      p50 ← at_share data c50;
      p99 ← at_share data c99;
      p999 ← at_share data c999;
      o ← cout o
        [Left; Setw 15; Str name; Str (lit "| "); Setw 10; U64v min_v; Str (lit "| "); Setw 10; Fixed; Setprecision 0; Dbl avg;
         Str (lit "| "); Setw 10; U64v max_v; Str (lit "| "); Setw 10; U64v p50; Str (lit "| "); Setw 10; U64v p99;
         Str (lit "| "); Setw 10; U64v p999; Str (lit " |" ++ [nl])];
      Some (data, o)
  end.

Definition rule (c : ascii) : text := replicate 89 c ++ [nl].

Definition title : text := replicate 31 sp ++ lit "BENCHMARK RESULT REPORT" ++ replicate 35 sp ++ [nl].

Definition printReport (r : LatencyRecorder) (o : ostream) : option (LatencyRecorder * ostream) :=
  o ← cout o
    [Str ([nl] ++ rule "="); Str title; Str (rule "=");
     Left; Setw 15; Str (lit "Metric"); Str (lit "| "); Setw 10; Str (lit "Min(ns)"); Str (lit "| "); Setw 10; Str (lit "Avg(ns)");
     Str (lit "| "); Setw 10; Str (lit "Max(ns)"); Str (lit "| "); Setw 10; Str (lit "p50"); Str (lit "| "); Setw 10; Str (lit "p99");
     Str (lit "| "); Setw 10; Str (lit "p99.9"); Str (lit " |" ++ [nl]); Str (rule "-")];
  '(v0, o) ← printRow (lit "Total RTT") (rtts r) o;
  '(v1, o) ← printRow (lit "Hop1(C->F)") (hop1s r) o;
  '(v2, o) ← printRow (lit "Hop2(F->M)") (hop2s r) o;
  '(v3, o) ← printRow (lit "Hop3(M->F)") (hop3s r) o;
  '(v4, o) ← printRow (lit "Hop4(F->C)") (hop4s r) o;
  o ← cout o [Str (rule "=")];
  Some (mk_recorder v0 v1 v2 v3 v4, o).

(** The end of the measurement: the report and the two lines after it. *)
Definition elapsed_s (start_ns end_ns : Z) : double :=
  if (0 <? start_ns) && (start_ns <? end_ns) then fdiv (of_u64 (end_ns - start_ns)) (of_u64 1000000000) else mk_double 0 0.

Definition ops_sec (elapsed : double) : double :=
  if fpos elapsed then fdiv (of_u64 kMeasureCount) elapsed else mk_double 0 0.

Definition finish (r : LatencyRecorder) (start_ns end_ns : Z) (o : ostream) : option (LatencyRecorder * ostream) :=
  let e := elapsed_s start_ns end_ns in
  '(r, o) ← printReport r o;
  o ← cout o [Str (lit "Elapsed(s): "); Dbl e; Str [nl]];
  o ← cout o [Str (lit "Ops/sec   : "); Dbl (ops_sec e); Str [nl]];
  Some (r, o).

(** The recorder of [Controllers], which keeps the five latencies of a round
    trip together. *)
Definition vectors (l : list latency) : LatencyRecorder :=
  mk_recorder (rtt_ <$> l) (hop1_ <$> l) (hop2_ <$> l) (hop3_ <$> l) (hop4_ <$> l).

Lemma record_vectors l a b c d e : vectors (l ++ [mk_latency a b c d e]) = record (vectors l) a b c d e.
Proof. unfold vectors, record. by rewrite !fmap_app. Qed.

(* ------------------------------------------------------------------ *)
(** ** Facts about rounding *)

Lemma rhe_spec a b : 0 < b -> let p := rhe a b in
  2 * Z.abs (a - p * b) <= b /\ (2 * Z.abs (a - p * b) = b -> Z.even p = true).
Proof.
  intros B. unfold rhe. pose proof (Z.div_mod a b ltac:(lia)) as D. pose proof (Z.mod_pos_bound a b B) as M.
  set (q := a / b) in *. set (r := a mod b) in *. cbn zeta.
  destruct (Z.ltb_spec (2 * r) b); [split; intros; nia |].
  destruct (Z.ltb_spec b (2 * r)); [split; intros; nia |].
  destruct (Z.even q) eqn:V; [split; intros; [nia | done] |].
  split; [nia |]. intros _. by rewrite Z.even_add, V.
Qed.

Lemma rhe_unique a b p : 0 < b ->
  2 * Z.abs (a - p * b) <= b -> (2 * Z.abs (a - p * b) = b -> Z.even p = true) -> rhe a b = p.
Proof.
  intros B H T. destruct (rhe_spec a b B) as [H' T']. cbn zeta in *. set (q := rhe a b) in *.
  destruct (Z.lt_trichotomy q p) as [L | [E | L]]; [| done |].
  - assert (q = p - 1) as E by nia. rewrite E in *.
    rewrite Z.even_sub in T'. rewrite T in T' by nia. specialize (T' ltac:(nia)). done.
  - assert (q = p + 1) as E by nia. rewrite E in *.
    rewrite Z.even_add in T'. rewrite T in T' by nia. specialize (T' ltac:(nia)). done.
Qed.

Lemma rhe_exact p b : 0 < b -> rhe (p * b) b = p.
Proof. intros B. apply rhe_unique; intros; lia. Qed.

Lemma rhe_1 p : rhe p 1 = p.
Proof. rewrite <- (Z.mul_1_r p) at 1. by apply rhe_exact. Qed.

Lemma rhe_scale a b c : 0 < b -> 0 < c -> rhe (a * c) (b * c) = rhe a b.
Proof.
  intros B C. destruct (rhe_spec a b B) as [H T]. cbn zeta in *. set (p := rhe a b) in *.
  assert (Z.abs (a * c - p * (b * c)) = Z.abs (a - p * b) * c) as E by (rewrite <- (Z.abs_eq c) at 3 by lia; rewrite <- Z.abs_mul; f_equal; lia).
  apply rhe_unique; [lia | |]; rewrite E; [nia |]. intros Q. apply T. nia.
Qed.

Lemma rhe_nonneg a b : 0 <= a -> 0 < b -> 0 <= rhe a b.
Proof. intros A B. destruct (rhe_spec a b B) as [H _]. cbn zeta in H. nia. Qed.

Lemma pow2_pos e : 0 <= e -> 0 < 2 ^ e.
Proof. intros. apply Z.pow_pos_nonneg; lia. Qed.

Lemma scaled_pos num den e : 0 < num -> 0 < den -> 0 < (scaled num den e).1 /\ 0 < (scaled num den e).2.
Proof.
  intros N D. unfold scaled. destruct (Z.leb_spec 0 e); cbn; split; try done;
    apply Z.mul_pos_pos; (done || apply pow2_pos; lia).
Qed.


(** [scaled] is the quotient it stands for. *)
Lemma scaled_value num den e K : 0 <= K -> 0 <= K + e ->
  (scaled num den e).1 * (den * 2 ^ (K + e)) = num * 2 ^ K * (scaled num den e).2.
Proof.
  intros H1 H2. unfold scaled. destruct (Z.leb_spec 0 e); cbn.
  - rewrite Z.pow_add_r by lia. ring.
  - assert (2 ^ K = 2 ^ (K + e) * 2 ^ (- e)) as -> by (rewrite <- Z.pow_add_r by lia; f_equal; lia). ring.
Qed.

Lemma scaled_cross num den e k j : 0 < den -> 0 <= k -> 0 <= j ->
  (scaled (num * 2 ^ k) (den * 2 ^ j) (e + k - j)).1 * (scaled num den e).2 =
  (scaled num den e).1 * (scaled (num * 2 ^ k) (den * 2 ^ j) (e + k - j)).2.
Proof.
  intros D Hk Hj. set (K := Z.abs e + j).
  pose proof (scaled_value num den e K ltac:(lia) ltac:(lia)) as V.
  pose proof (scaled_value (num * 2 ^ k) (den * 2 ^ j) (e + k - j) K ltac:(lia) ltac:(lia)) as W.
  destruct (scaled num den e) as [a b], (scaled (num * 2 ^ k) (den * 2 ^ j) (e + k - j)) as [a' b']. cbn in *.
  assert (2 ^ j * 2 ^ (K + (e + k - j)) = 2 ^ (K + e) * 2 ^ k) as P by (rewrite <- !Z.pow_add_r by lia; f_equal; lia).
  pose proof (pow2_pos (K + e) ltac:(lia)). pose proof (pow2_pos k Hk).
  apply (Z.mul_reg_r _ _ (den * 2 ^ (K + e) * 2 ^ k)); [nia |].
  transitivity (a' * (den * 2 ^ j * 2 ^ (K + (e + k - j))) * b); [rewrite <- (Z.mul_assoc den (2 ^ j)), P; ring |].
  rewrite W. transitivity ((num * 2 ^ K * b) * 2 ^ k * b'); [ring |]. rewrite <- V. ring.
Qed.

Lemma cross_lt a b a' b' c : 0 < b -> 0 < b' -> a' * b = a * b' -> (a <? c * b) = (a' <? c * b').
Proof. intros. destruct (Z.ltb_spec a (c * b)), (Z.ltb_spec a' (c * b')); nia. Qed.

Lemma rhe_cross a b a' b' : 0 < b -> 0 < b' -> a' * b = a * b' -> rhe a' b' = rhe a b.
Proof. intros B B' E. rewrite <- (rhe_scale a b b'), <- (rhe_scale a' b' b) by done. by rewrite E, Z.mul_comm, (Z.mul_comm b). Qed.

(** Rounding depends on the number only, not on how it is written. *)
Lemma round53_shift num den s k j : 0 <= num -> 0 < den -> 0 <= k -> 0 <= j ->
  round53 (num * 2 ^ k) (den * 2 ^ j) s = if num =? 0 then mk_double 0 0 else round53 num den (s + k - j).
Proof.
  intros N D Hk Hj. pose proof (pow2_pos k Hk). pose proof (pow2_pos j Hj). unfold round53.
  destruct (Z.eqb_spec num 0) as [-> | N0]; [done |]. rewrite (proj2 (Z.eqb_neq (num * 2 ^ k) 0)) by nia.
  assert (forall e, let x := scaled num den e in let x' := scaled (num * 2 ^ k) (den * 2 ^ j) (e + k - j) in
    (x.1 <? 2 ^ 52 * x.2) = (x'.1 <? 2 ^ 52 * x'.2) /\ rhe x'.1 x'.2 = rhe x.1 x.2) as C.
  { intros e. cbn zeta. pose proof (scaled_cross num den e k j D Hk Hj).
    pose proof (scaled_pos num den e ltac:(lia) D). pose proof (scaled_pos (num * 2 ^ k) (den * 2 ^ j) (e + k - j) ltac:(nia) ltac:(nia)).
    split; [apply cross_lt | apply rhe_cross]; tauto. }
  assert (exponent (num * 2 ^ k) (den * 2 ^ j) = exponent num den + k - j) as E.
  { unfold exponent. rewrite !Z.log2_mul_pow2 by lia.
    replace (k + Z.log2 num - (j + Z.log2 den) - 52) with (Z.log2 num - Z.log2 den - 52 + k - j) by lia.
    specialize (C (Z.log2 num - Z.log2 den - 52)). cbn zeta in C. destruct C as [C _].
    destruct (scaled num den _), (scaled (num * _) _ _). cbn [fst snd] in C. rewrite C. clear. destruct (z1 <? _); ring. }
  rewrite E. destruct (C (exponent num den)) as [_ R].
  destruct (scaled num den _), (scaled (num * _) _ _). cbn in R. rewrite R. f_equal. lia.
Qed.

(** The mantissa before rounding has 53 bits. *)
Lemma exponent_spec num den : 0 < num -> 0 < den ->
  let '(a, b) := scaled num den (exponent num den) in 0 < b /\ 2 ^ 52 * b <= a < 2 ^ 53 * b.
Proof.
  intros N D. unfold exponent. set (e := Z.log2 num - Z.log2 den - 52).
  destruct (Z.log2_spec num N) as [N1 N2], (Z.log2_spec den D) as [D1 D2].
  pose proof (Z.log2_nonneg num). pose proof (Z.log2_nonneg den). set (K := Z.abs e + 1).
  pose proof (scaled_value num den e K ltac:(lia) ltac:(lia)) as V. pose proof (scaled_pos num den e N D) as P.
  pose proof (scaled_value num den (e - 1) K ltac:(lia) ltac:(lia)) as V'. pose proof (scaled_pos num den (e - 1) N D) as P'.
  destruct (scaled num den e) as [a b] eqn:S, (scaled num den (e - 1)) as [a' b'] eqn:S'. cbn in *.
  assert (2 ^ (K + e) * 2 ^ Z.log2 den * 2 ^ 52 = 2 ^ K * 2 ^ Z.log2 num) as Q by (rewrite <- !Z.pow_add_r by lia; f_equal; lia).
  assert (2 ^ (K + e) = 2 * 2 ^ (K + (e - 1))) as Q' by (rewrite <- Z.pow_succ_r by lia; f_equal; lia).
  rewrite Z.pow_succ_r in N2, D2 by lia.
  pose proof (pow2_pos (K + e) ltac:(lia)) as X. pose proof (pow2_pos K ltac:(lia)) as Y. pose proof (pow2_pos (K + (e - 1)) ltac:(lia)) as X'.
  set (L := 2 ^ Z.log2 den) in *. set (M := 2 ^ Z.log2 num) in *. clearbody L M K.
  set (x := 2 ^ (K + e)) in *. set (y := 2 ^ K) in *. set (x' := 2 ^ (K + (e - 1))) in *. clearbody x y x'.
  destruct P as [Pa Pb], P' as [Pa' Pb'].
  assert (a < 2 ^ 53 * b) as U.
  { apply (Zmult_gt_0_lt_reg_r _ _ (x * L)); [nia |].
    assert (a * (x * L) <= a * (den * x)) by nia. assert (num * y * b < 2 * M * y * b) by nia.
    replace (2 ^ 53 * b * (x * L)) with (2 * (x * L * 2 ^ 52) * b) by lia. rewrite Q. lia. }
  assert (2 ^ 51 * b < a) as U'.
  { apply (Zmult_gt_0_lt_reg_r _ _ (2 * (x * L))); [nia |].
    assert (a * (den * x) < a * (2 * (x * L))) by nia. assert (M * y * b <= num * y * b) by nia.
    replace (2 ^ 51 * b * (2 * (x * L))) with ((x * L * 2 ^ 52) * b) by lia. rewrite Q. lia. }
  destruct (Z.ltb_spec a (2 ^ 52 * b)) as [Lt | Ge]; [| rewrite S; lia].
  rewrite S'. assert (a' * b = 2 * a * b') as Cr.
  { apply (Z.mul_reg_r _ _ (den * x')); [nia |].
    transitivity (a' * (den * x') * b); [ring |]. rewrite V'. transitivity (num * y * b * b'); [ring |].
    rewrite <- V, Q'. ring. }
  split; [done |]. split; nia.
Qed.

(** A [double] that is the integer [n]. *)
Definition is_int (x : double) (n : Z) : Prop := exists k, 0 <= k /\ x = mk_double (n * 2 ^ k) (- k).

Lemma of_u64_exact n : 0 <= n < 2 ^ 53 -> is_int (of_u64 n) n.
Proof.
  intros [N B]. unfold of_u64, round53. destruct (Z.eqb_spec n 0) as [-> | N0]; [by exists 0 |].
  assert (Z.log2 n < 53) by (apply Z.log2_lt_pow2; lia). pose proof (Z.log2_spec n ltac:(lia)) as [L _].
  pose proof (Z.log2_nonneg n).
  assert (exponent n 1 = Z.log2 n - 52 /\ scaled n 1 (Z.log2 n - 52) = (n * 2 ^ (52 - Z.log2 n), 1)) as [-> ->].
  { unfold exponent. change (Z.log2 1) with 0. rewrite Z.sub_0_r.
    assert (scaled n 1 (Z.log2 n - 52) = (n * 2 ^ (52 - Z.log2 n), 1)) as S.
    { unfold scaled. destruct (Z.leb_spec 0 (Z.log2 n - 52)); [| do 3 f_equal; lia].
      replace (Z.log2 n - 52) with 0 by lia; replace (52 - Z.log2 n) with 0 by lia. f_equal; lia. }
    rewrite S. split; [| done]. rewrite (proj2 (Z.ltb_ge _ _)); [done |].
    assert (2 ^ 52 = 2 ^ Z.log2 n * 2 ^ (52 - Z.log2 n)) as -> by (rewrite <- Z.pow_add_r by lia; f_equal; lia).
    pose proof (pow2_pos (52 - Z.log2 n) ltac:(lia)). nia. }
  exists (52 - Z.log2 n). split; [lia |]. rewrite rhe_1. f_equal. lia.
Qed.

Lemma fadd_exact x y a b : is_int x a -> is_int y b -> 0 <= a -> 0 <= b -> a + b < 2 ^ 53 -> is_int (fadd x y) (a + b).
Proof.
  intros (k & Hk & ->) (j & Hj & ->) A B S. unfold fadd. cbn [mant expo].
  set (e := Z.min (- k) (- j)).
  replace (a * 2 ^ k * 2 ^ (- k - e) + b * 2 ^ j * 2 ^ (- j - e)) with ((a + b) * 2 ^ (- e)).
  2: { rewrite <- !Z.mul_assoc, <- !Z.pow_add_r by lia. replace (k + (- k - e)) with (- e) by lia.
       replace (j + (- j - e)) with (- e) by lia. ring. }
  pose proof (round53_shift (a + b) 1 e (- e) 0 ltac:(lia) ltac:(lia) ltac:(lia) ltac:(lia)) as R.
  change (1 * 2 ^ 0) with 1 in R. rewrite R. destruct (Z.eqb_spec (a + b) 0) as [-> | N]; [by exists 0 |].
  replace (e + - e - 0) with 0 by lia. apply of_u64_exact; lia.
Qed.

Lemma fdiv_ints x y a b : is_int x a -> is_int y b -> 0 <= a -> 0 < b -> fdiv x y = round53 a b 0.
Proof.
  intros (k & Hk & ->) (j & Hj & ->) A B. unfold fdiv. cbn [mant expo]. rewrite round53_shift by lia.
  destruct (Z.eqb_spec a 0) as [-> | N]; [done |]. f_equal. lia.
Qed.

Definition zsum (l : list Z) : Z := foldr Z.add 0 l.

Lemma zsum_nonneg l : Forall (fun x => 0 <= x) l -> 0 <= zsum l.
Proof. unfold zsum. induction 1; cbn in *; lia. Qed.

#[global] Instance zsum_proper : Proper ((≡ₚ) ==> (=)) zsum.
Proof. unfold zsum. induction 1; cbn in *; lia. Qed.

Lemma accumulate_exact l : Forall (fun x => 0 <= x) l -> zsum l < 2 ^ 53 -> is_int (accumulate l) (zsum l).
Proof.
  intros P. unfold accumulate.
  cut (forall s d, 0 <= s -> is_int d s -> s + zsum l < 2 ^ 53 -> is_int (foldl (fun s x => fadd s (of_u64 x)) d l) (s + zsum l)).
  { intros H B. apply (H 0 (mk_double 0 0)); [done | by exists 0 | done]. }
  induction P as [| x l X P IH]; intros s d Hs D S; cbn in *; [by rewrite Z.add_0_r |].
  pose proof (zsum_nonneg l P) as Q. fold (zsum l) in *. rewrite Z.add_assoc. apply IH; [lia | | lia].
  apply fadd_exact; [done | apply of_u64_exact; lia | done | done | lia].
Qed.

(** Rounding to 53 bits and then to an integer is rounding to an integer. *)
Lemma nearest_round53 a b : 0 <= a < 2 ^ 52 -> 0 < b -> nearest (round53 a b 0) = rhe a b.
Proof.
  intros [A A'] B. unfold round53. destruct (Z.eqb_spec a 0) as [-> | N]; [symmetry; by apply (rhe_exact 0 b) |].
  pose proof (exponent_spec a b ltac:(lia) B) as S. rewrite Z.add_0_r. set (e := exponent a b) in *. clearbody e.
  unfold scaled in *. destruct (Z.leb_spec 0 e).
  { pose proof (pow2_pos e ltac:(lia)). nia. }
  unfold nearest. cbn [mant expo]. rewrite (proj2 (Z.leb_gt 0 e)) by lia.
  set (t := - e) in *. assert (1 <= t) as T by lia. pose proof (pow2_pos t ltac:(lia)) as Pt.
  assert (2 ^ t = 2 * 2 ^ (t - 1)) as H2 by (rewrite <- Z.pow_succ_r by lia; f_equal; lia).
  set (h := 2 ^ (t - 1)) in *. set (w := 2 ^ t) in *. clearbody h w t.
  destruct (rhe_spec (a * w) b B) as [M _]. cbn zeta in M.
  set (m := rhe (a * w) b) in *. destruct (rhe_spec m w Pt) as [P E]. cbn zeta in P, E. set (p := rhe m w) in *.
  symmetry. assert (2 * Z.abs (a - p * b) <= b) as Cl.
  { apply Z.nlt_ge. intros Far. assert (b < w) by nia.
    assert (2 * Z.abs (a * w - p * w * b) <= b + w * b) by nia. nia. }
  apply rhe_unique; [done | done |]. intros Tie. apply E.
  assert (a * w = (p * w + h) * b \/ a * w = (p * w - h) * b) as [Q | Q] by nia.
  - assert (m = p * w + h) as Em by (unfold m; rewrite Q; by apply rhe_exact). rewrite Em. lia.
  - assert (m = p * w - h) as Em by (unfold m; rewrite Q; by apply rhe_exact). rewrite Em. lia.
Qed.

(** A share [u/v] of [n] samples, with the literal [c * 2^-53] for [u/v]: the
    rounding errors of literal and product never change the index.  2^44
    samples fill a 47-bit address space. *)
Lemma share_index c u v d n : 0 < u < v -> v <= 1000 -> 0 <= d <= 8 -> 2 * d < u -> v * c = u * 2 ^ 53 - d -> 2 ^ 52 <= c < 2 ^ 53 ->
  0 < n < 2 ^ 44 -> trunc (fmul (of_u64 n) (mk_double c (-53))) = n * u / v.
Proof.
  intros U V D Du C Cr [N Nb]. destruct (of_u64_exact n ltac:(lia)) as (k & Hk & ->). unfold fmul. cbn [mant expo].
  pose proof (round53_shift (n * c) 1 (- k + -53) k 0 ltac:(lia) ltac:(lia) Hk ltac:(lia)) as R.
  change (1 * 2 ^ 0) with 1 in R. replace (n * 2 ^ k * c) with (n * c * 2 ^ k) by ring. rewrite R. clear R.
  rewrite (proj2 (Z.eqb_neq (n * c) 0)) by nia. replace (- k + -53 + k - 0) with (-53) by lia. clear k Hk.
  assert (2 ^ 52 <= n * c < 2 ^ 97) as Pr by nia. assert (v * (n * c) = n * u * 2 ^ 53 - d * n) as E by nia.
  set (P := n * c) in *. clearbody P.
  unfold round53. rewrite (proj2 (Z.eqb_neq P 0)) by lia.
  assert (52 <= Z.log2 P <= 96) as L.
  { split; [apply Z.log2_le_pow2; lia | apply Zlt_succ_le, Z.log2_lt_pow2; lia]. }
  destruct (Z.log2_spec P ltac:(lia)) as [L1 L2]. rewrite Z.pow_succ_r in L2 by lia.
  set (sh := Z.log2 P - 52). assert (2 ^ Z.log2 P = 2 ^ 52 * 2 ^ sh) as Ls by (rewrite <- Z.pow_add_r by lia; f_equal; lia).
  assert (scaled P 1 sh = (P, 2 ^ sh)) as S by (unfold scaled; rewrite (proj2 (Z.leb_le 0 sh)) by lia; by rewrite Z.mul_1_l).
  assert (exponent P 1 = sh) as Ex.
  { unfold exponent. change (Z.log2 1) with 0. rewrite Z.sub_0_r. fold sh. rewrite S.
    rewrite (proj2 (Z.ltb_ge _ _)); [done | lia]. }
  rewrite Ex, S. unfold trunc. cbn [mant expo]. rewrite Z.shiftl_div_pow2 by lia.
  assert (2 ^ sh * 2 ^ (- (sh + -53)) = 2 ^ 53) as BD by (rewrite <- Z.pow_add_r by lia; f_equal; lia).
  assert (2 ^ sh <= 2 ^ 44) as Sb by (apply Z.pow_le_mono_r; lia). pose proof (pow2_pos sh ltac:(lia)) as B0.
  pose proof (pow2_pos (- (sh + -53)) ltac:(lia)) as D0.
  set (B := 2 ^ sh) in *. set (K := 2 ^ (- (sh + -53))) in *. clearbody B K. rewrite Ls in *. clear S Ex Ls L sh.
  destruct (rhe_spec P B B0) as [M _]. cbn zeta in M. set (m := rhe P B) in *. clearbody m.
  pose proof (Z.div_mod (n * u) v ltac:(lia)) as Q. pose proof (Z.mod_pos_bound (n * u) v ltac:(lia)) as Rb.
  set (q := n * u / v) in *. set (r := (n * u) mod v) in *. clearbody q r.
  symmetry. apply Z.div_unique with (m - K * q); [left | ring]. clear C Cr Pr.
  assert (v * P = v * q * 2 ^ 53 + r * 2 ^ 53 - d * n) as E' by (rewrite E, Q; ring).
  split.
  - apply Z.nlt_ge. intros Lt. assert (m * B <= q * 2 ^ 53 - B) as H by nia.
    assert (2 * (P - q * 2 ^ 53) <= - B) as H' by lia. assert (2 * (r * 2 ^ 53 - d * n) <= - (v * B)) as H'' by nia.
    destruct (Z.eq_dec r 0) as [-> | R0]; [| nia].
    assert (n * (u * 2 ^ 53 - d) < v * (B * 2 ^ 53)) as X by nia.
    assert (v * (B * 2 ^ 53) <= n * (2 * d * 2 ^ 53)) as Y by nia. nia.
  - apply Z.nle_gt. intros Ge. assert ((q + 1) * 2 ^ 53 <= m * B) as H by nia.
    assert (2 * ((q + 1) * 2 ^ 53 - P) <= B) as H' by lia.
    assert (2 * ((v - r) * 2 ^ 53 + d * n) <= v * B) as H'' by nia. nia.
Qed.

Lemma c50_index n : 0 < n < 2 ^ 44 -> trunc (fmul (of_u64 n) c50) = n / 2.
Proof.
  intros N. replace (n / 2) with (n * 1 / 2) by (f_equal; lia). rewrite <- (share_index (2 ^ 52) 1 2 0) by lia. f_equal.
  destruct (of_u64_exact n ltac:(lia)) as (k & Hk & ->). unfold fmul, c50. cbn [mant expo].
  pose proof (pow2_pos k Hk).
  pose proof (round53_shift (n * 2 ^ k) 1 (- k + -53) 52 0 ltac:(nia) ltac:(lia) ltac:(lia) ltac:(lia)) as R.
  change (1 * 2 ^ 0) with 1 in R. rewrite R, (proj2 (Z.eqb_neq _ 0)) by nia. f_equal; lia.
Qed.

Lemma c99_index n : 0 < n < 2 ^ 44 -> trunc (fmul (of_u64 n) c99) = n * 99 / 100.
Proof. intros N. by apply (share_index _ _ _ 8). Qed.

Lemma c999_index n : 0 < n < 2 ^ 44 -> trunc (fmul (of_u64 n) c999) = n * 999 / 1000.
Proof. intros N. by apply (share_index _ _ _ 8). Qed.

(* ------------------------------------------------------------------ *)
(** ** What a row has to show *)

(** [v] is the [i]-th smallest of the data, counted from 0. *)
Definition kth (data : list Z) (i v : Z) : Prop :=
  v ∈ data /\ zlen (filter (fun x => x < v) data) <= i < zlen (filter (fun x => x <= v) data).

Lemma filter_mono (P Q : Z -> Prop) `{!forall x, Decision (P x), !forall x, Decision (Q x)} l :
  (forall x, P x -> Q x) -> zlen (filter P l) <= zlen (filter Q l).
Proof.
  intros Imp. induction l as [| x l IH]; [done |]. rewrite !filter_cons.
  destruct (decide (P x)) as [p |], (decide (Q x)) as [| q]; rewrite ?zlen_cons; try lia. by destruct (q (Imp x p)).
Qed.

Lemma filter_zlen_le (P : Z -> Prop) `{!forall x, Decision (P x)} l : zlen (filter P l) <= zlen l.
Proof. unfold zlen. pose proof (length_filter P l). lia. Qed.

Lemma filter_none (P : Z -> Prop) `{!forall x, Decision (P x)} l : Forall (fun x => ~ P x) l -> filter P l = [].
Proof. induction 1 as [| x l X _ IH]; [done |]. by rewrite filter_cons_False. Qed.

Lemma filter_all (P : Z -> Prop) `{!forall x, Decision (P x)} l : Forall P l -> filter P l = l.
Proof. induction 1 as [| x l X _ IH]; [done |]. by rewrite filter_cons_True, IH. Qed.

Lemma kth_mono data i j v w : kth data i v -> kth data j w -> i <= j -> v <= w.
Proof.
  intros [_ V] [_ W] L. apply Z.nlt_ge. intros Lt.
  pose proof (filter_mono (fun x => x <= w) (fun x => x < v) data ltac:(cbn; intros; lia)). lia.
Qed.

Lemma kth_unique data i v w : kth data i v -> kth data i w -> v = w.
Proof. intros V W. pose proof (kth_mono _ _ _ _ _ V W). pose proof (kth_mono _ _ _ _ _ W V). lia. Qed.

(** Position [i] of the sorted data holds it. *)
Lemma sorted_kth data s i v : StronglySorted Z.le s -> s ≡ₚ data -> s !! i = Some v -> kth data (Z.of_nat i) v.
Proof.
  intros S P E. assert (kth s (Z.of_nat i) v) as [H1 H2]; [| unfold kth, zlen in *; by rewrite <- P].
  pose proof (lookup_lt_Some _ _ _ E) as Lt. split; [by eapply list_elem_of_lookup_2 |].
  rewrite <- (take_drop_middle s i v E) in S |- *.
  apply StronglySorted_app in S as (Le & _ & S). apply StronglySorted_cons in S as [Ge _].
  assert (zlen (take i s) = Z.of_nat i) as Zt by (unfold zlen; rewrite length_take; lia).
  assert (Forall (fun x => x <= v) (take i s)) as A.
  { apply Forall_forall. intros x X. apply Le; [done | apply list_elem_of_here]. }
  rewrite !filter_app, !zlen_app, (filter_all _ _ A), !(filter_cons _ v). split.
  - rewrite decide_False by lia. rewrite (filter_none _ (drop _ _)), zlen_nil; [| eapply Forall_impl; [done |]; cbn; intros; lia].
    pose proof (filter_zlen_le (fun x => x < v) (take i s)). lia.
  - rewrite decide_True, zlen_cons by lia. pose proof (zlen_nonneg (filter (fun x => x <= v) (drop (S i) s))). lia.
Qed.

(** Text at the left of a column of [n] characters. *)
Definition cell (n : Z) (t : text) : text := t ++ replicate (Z.to_nat (n - zlen t)) sp.

Definition line (first : text) (cells : list text) : text :=
  cell 15 first ++ concat ((fun c => lit "| " ++ cell 10 c) <$> cells) ++ lit " |" ++ [nl].

Definition head_line : text := line (lit "Metric") (lit <$> ["Min(ns)"; "Avg(ns)"; "Max(ns)"; "p50"; "p99"; "p99.9"]%string).

(** The row of a vector: nothing if it is empty, otherwise the smallest
    sample, the mean to the nearest integer (ties to even), the largest sample
    and those at ranks n/2, 99n/100 and 999n/1000. *)
Definition row_of (name : text) (data : list Z) (t : text) : Prop :=
  let n := zlen data in
  if n =? 0 then t = [] else
  exists min_v avg max_v p50 p99 p999,
    kth data 0 min_v /\ kth data (n - 1) max_v /\
    kth data (n / 2) p50 /\ kth data (n * 99 / 100) p99 /\ kth data (n * 999 / 1000) p999 /\
    min_v <= p50 <= p99 /\ p99 <= p999 <= max_v /\
    (zsum data < 2 ^ 52 -> avg = rhe (zsum data) n) /\
    t = line name (to_string <$> [min_v; avg; max_v; p50; p99; p999]).

(** A vector that exists in memory, of unsigned numbers. *)
Definition sample (data : list Z) : Prop := Forall (fun x => 0 <= x) data /\ zlen data < 2 ^ 44.

Lemma cout_str w f x p t l : cout (mk_os w f x p 0) (Str t :: l) = cout (mk_os (w ++ t) f x p 0) l.
Proof.
  change (cout (put (mk_os w f x p 0) t) l = cout (mk_os (w ++ t) f x p 0) l). unfold put, fill. cbn [written adjust_left fixed_flag precision width].
  replace (Z.to_nat (0 - zlen t)) with 0%nat by (pose proof (zlen_nonneg t); lia). cbn. by rewrite app_nil_r; destruct f.
Qed.

Lemma cout_cell w x p n t l : cout (mk_os w true x p 0) (Setw n :: Str t :: l) = cout (mk_os (w ++ cell n t) true x p 0) l.
Proof. done. Qed.

Lemma cout_num w x p n v l : cout (mk_os w true x p 0) (Setw n :: U64v v :: l) = cout (mk_os (w ++ cell n (to_string v)) true x p 0) l.
Proof. done. Qed.

Lemma cout_avg w x p n d l :
  cout (mk_os w true x p 0) (Setw n :: Fixed :: Setprecision 0 :: Dbl d :: l) = cout (mk_os (w ++ cell n (to_string (nearest d))) true true 0 0) l.
Proof. done. Qed.

Lemma cout_left w f x p l : cout (mk_os w f x p 0) (Left :: l) = cout (mk_os w true x p 0) l.
Proof. done. Qed.

Lemma cout_dbl w f d l : cout (mk_os w f true 0 0) (Dbl d :: l) = cout (mk_os w f true 0 0) (Str (to_string (nearest d)) :: l).
Proof. done. Qed.

Lemma cout_nil o : cout o [] = Some o.
Proof. done. Qed.

Ltac run_cout := repeat (rewrite cout_nil || rewrite cout_cell || rewrite cout_num || rewrite cout_avg || rewrite cout_left || rewrite cout_dbl || rewrite cout_str).

#[local] Instance Zle_total : Total Z.le.
Proof. intros x y. lia. Qed.

Lemma match_cons {A B} (l : list A) (x y : B) : 0 < zlen l -> match l with [] => x | _ :: _ => y end = y.
Proof. by destruct l. Qed.

Section Row.
Variable data : list Z.
Hypothesis sampled : sample data.
Hypothesis ne : 0 < zlen data.
Let s := merge_sort Z.le data.

Lemma sort_perm : s ≡ₚ data.
Proof. apply merge_sort_Permutation. Qed.

Lemma sort_zlen : zlen s = zlen data.
Proof. unfold zlen. by rewrite (Permutation_length sort_perm). Qed.

Lemma sort_at i : 0 <= i < zlen data -> exists v, s !! Z.to_nat i = Some v /\ kth data i v.
Proof.
  intros I. destruct (lookup_lt_is_Some_2 s (Z.to_nat i)) as [v V]; [pose proof sort_zlen; unfold zlen in *; lia |].
  exists v. split; [done |]. rewrite <- (Z2Nat.id i) by lia. apply (sorted_kth _ s); [| apply sort_perm | done].
  apply StronglySorted_merge_sort; [intros ???; lia | apply _].
Qed.

Lemma share_at c k : trunc (fmul (of_u64 (zlen data)) c) = k -> 0 <= k < zlen data -> exists v, at_share s c = Some v /\ kth data k v.
Proof.
  intros E K. destruct (sort_at k K) as (v & V & H). exists v. split; [| done]. unfold at_share. rewrite sort_zlen, E.
  by rewrite (proj2 (Z.ltb_ge k 0)) by lia.
Qed.

Lemma mean_exact : zsum data < 2 ^ 52 -> nearest (fdiv (accumulate s) (of_u64 (zlen s))) = rhe (zsum data) (zlen data).
Proof.
  intros B. destruct sampled as [P L]. rewrite sort_zlen. rewrite <- sort_perm in P.
  pose proof (zsum_proper _ _ sort_perm) as E. rewrite <- E in *. pose proof (zsum_nonneg s P).
  erewrite fdiv_ints; [| apply accumulate_exact; [done | lia] | apply of_u64_exact; lia | done | done].
  apply nearest_round53; [lia | done].
Qed.

Lemma shares_ordered : let n := zlen data in n / 2 <= n * 99 / 100 <= n * 999 / 1000 /\ n * 999 / 1000 <= n - 1.
Proof.
  cbn zeta. split_and!; [apply Z.div_le_lower_bound | apply Z.div_le_lower_bound | apply Zlt_succ_le, Z.div_lt_upper_bound]; try lia;
    [pose proof (Z.mul_div_le (zlen data) 2) | pose proof (Z.mul_div_le (zlen data * 99) 100)]; lia.
Qed.

Lemma printRow_exact name w f x p :
  exists t, row_of name data t /\ printRow name data (mk_os w f x p 0) = Some (s, mk_os (w ++ t) true true 0 0).
Proof.
  destruct sampled as [P L]. pose proof shares_ordered as O. cbn zeta in O. set (n := zlen data) in *.
  destruct (sort_at 0) as (mn & Mn & Kn); [lia |]. destruct (sort_at (n - 1)) as (mx & Mx & Kx); [lia |].
  destruct (share_at c50 (n / 2)) as (v50 & E50 & K50); [apply c50_index; lia | split; [apply Z.div_pos; lia | apply Z.div_lt_upper_bound; lia] |].
  destruct (share_at c99 (n * 99 / 100)) as (v99 & E99 & K99); [apply c99_index; lia | split; [apply Z.div_pos; lia | apply Z.div_lt_upper_bound; lia] |].
  destruct (share_at c999 (n * 999 / 1000)) as (v999 & E999 & K999); [apply c999_index; lia | split; [apply Z.div_pos; lia | apply Z.div_lt_upper_bound; lia] |].
  exists (line name (to_string <$> [mn; nearest (fdiv (accumulate s) (of_u64 (zlen s))); mx; v50; v99; v999])). split.
  - unfold row_of. fold n. rewrite (proj2 (Z.eqb_neq n 0)) by lia.
    exists mn, (nearest (fdiv (accumulate s) (of_u64 (zlen s)))), mx, v50, v99, v999.
    split_and!; try done; [.. | apply mean_exact]; eapply kth_mono; try done; [apply Z.div_pos; lia | ..]; lia.
  - unfold printRow. fold s. rewrite match_cons by done.
    rewrite head_lookup. change 0%nat with (Z.to_nat 0). rewrite Mn. cbn [mbind option_bind].
    rewrite last_lookup. replace (Nat.pred (length s)) with (Z.to_nat (n - 1)) by (pose proof sort_zlen; unfold n, zlen in *; lia).
    rewrite Mx, E50, E99, E999. cbn [mbind option_bind]. run_cout. cbn [mbind option_bind].
    unfold line. cbn [fmap list_fmap concat]. rewrite <- !app_assoc. done.
Qed.
End Row.

Lemma printRow_ok name data w x p : sample data ->
  exists t x' p', row_of name data t /\
    printRow name data (mk_os w true x p 0) = Some (merge_sort Z.le data, mk_os (w ++ t) true x' p' 0) /\
    (data = [] /\ x' = x /\ p' = p \/ x' = true /\ p' = 0).
Proof.
  intros S. destruct (Z.eq_dec (zlen data) 0) as [E | E].
  - apply zlen_zero_nil in E as ->. exists [], x, p. split; [done |]. split; [by rewrite app_nil_r | by left].
  - pose proof (zlen_nonneg data). destruct (printRow_exact data S ltac:(lia) name w true x p) as (t & R & Pr).
    exists t, true, 0. split; [done |]. split; [done | by right].
Qed.

Definition columns (r : LatencyRecorder) : list (text * list Z) :=
  [(lit "Total RTT", rtts r); (lit "Hop1(C->F)", hop1s r); (lit "Hop2(F->M)", hop2s r);
   (lit "Hop3(M->F)", hop3s r); (lit "Hop4(F->C)", hop4s r)].

Definition sorted (r : LatencyRecorder) : LatencyRecorder :=
  mk_recorder (merge_sort Z.le (rtts r)) (merge_sort Z.le (hop1s r)) (merge_sort Z.le (hop2s r))
    (merge_sort Z.le (hop3s r)) (merge_sort Z.le (hop4s r)).

(** The report on a fresh line of any stream. *)
Lemma printReport_exact r w f x p : Forall (fun c => sample c.2) (columns r) ->
  exists rows x' p', Forall2 (fun c t => row_of c.1 c.2 t) (columns r) rows /\
    printReport r (mk_os w f x p 0) =
      Some (sorted r, mk_os (w ++ [nl] ++ rule "=" ++ title ++ rule "=" ++ head_line ++ rule "-" ++ concat rows ++ rule "=") true x' p' 0) /\
    (rtts r = [] \/ x' = true /\ p' = 0).
Proof.
  unfold columns. rewrite !Forall_cons. cbn [snd]. intros (S0 & S1 & S2 & S3 & S4 & _).
  unfold printReport. run_cout. cbn [mbind option_bind].
  match goal with |- context [printRow _ _ (mk_os ?w0 true x p 0)] => set (w0' := w0) end.
  destruct (printRow_ok (lit "Total RTT") (rtts r) w0' x p S0) as (t0 & x0 & p0 & R0 & -> & F0). cbn [mbind option_bind].
  destruct (printRow_ok (lit "Hop1(C->F)") (hop1s r) (w0' ++ t0) x0 p0 S1) as (t1 & x1 & p1 & R1 & -> & F1). cbn [mbind option_bind].
  destruct (printRow_ok (lit "Hop2(F->M)") (hop2s r) ((w0' ++ t0) ++ t1) x1 p1 S2) as (t2 & x2 & p2 & R2 & -> & F2). cbn [mbind option_bind].
  destruct (printRow_ok (lit "Hop3(M->F)") (hop3s r) (((w0' ++ t0) ++ t1) ++ t2) x2 p2 S3) as (t3 & x3 & p3 & R3 & -> & F3). cbn [mbind option_bind].
  destruct (printRow_ok (lit "Hop4(F->C)") (hop4s r) ((((w0' ++ t0) ++ t1) ++ t2) ++ t3) x3 p3 S4) as (t4 & x4 & p4 & R4 & -> & F4).
  cbn [mbind option_bind]. run_cout. cbn [mbind option_bind].
  exists [t0; t1; t2; t3; t4], x4, p4. split; [repeat constructor; done |]. split.
  - do 2 f_equal. unfold sorted. f_equal. unfold w0', head_line, line. cbn [concat fmap list_fmap]. rewrite <- !app_assoc. done.
  - destruct F0 as [(-> & _) | F0]; [by left | right].
    destruct F1 as [(_ & -> & ->) | F1], F2 as [(_ & -> & ->) | F2], F3 as [(_ & -> & ->) | F3], F4 as [(_ & -> & ->) | F4]; done.
Qed.


(** Two entries are recorded in full, one after the other, and reported. *)
Definition demo_recorder : LatencyRecorder :=
  record (record (record new_recorder 900 100 200 300 300) 100 10 20 30 40) 501 100 200 100 101.


(** The text of a row: three round trips of 100, 501 and 900 ns. *)
Example demo_row :
  (fun x => written x.2) <$> printRow (lit "Total RTT") (rtts demo_recorder) std_cout =
  Some (lit "Total RTT      | 100       | 500       | 900       | 501       | 900       | 900        |" ++ [nl]).
Proof. vm_compute. done. Qed.

(* ------------------------------------------------------------------ *)
(** ** The lines after the report *)

Lemma nearest_close a b : 0 <= a < 2 ^ 52 * b -> 0 < b -> 4 * Z.abs (nearest (round53 a b 0) * b - a) <= 3 * b.
Proof.
  intros [A A'] B. unfold round53. destruct (Z.eqb_spec a 0) as [-> | N]; [cbn; lia |].
  pose proof (exponent_spec a b ltac:(lia) B) as S. rewrite Z.add_0_r. set (e := exponent a b) in *. clearbody e.
  unfold scaled in *. destruct (Z.leb_spec 0 e).
  { pose proof (pow2_pos e ltac:(lia)). nia. }
  unfold nearest. cbn [mant expo]. rewrite (proj2 (Z.leb_gt 0 e)) by lia.
  set (t := - e) in *. pose proof (pow2_pos (t - 1) ltac:(lia)) as Pt.
  assert (2 ^ t = 2 * 2 ^ (t - 1)) as H2 by (rewrite <- Z.pow_succ_r by lia; f_equal; lia).
  set (h := 2 ^ (t - 1)) in *. set (w := 2 ^ t) in *. clearbody h w t.
  destruct (rhe_spec (a * w) b B) as [M _]. cbn zeta in M.
  set (m := rhe (a * w) b) in *. destruct (rhe_spec m w ltac:(lia)) as [P _]. cbn zeta in P. set (p := rhe m w) in *.
  clearbody p m. clear S. assert (2 * (w * Z.abs (p * b - a)) <= w * b + b) as C.
  { assert (w * Z.abs (p * b - a) = Z.abs ((p * w - m) * b + (m * b - a * w))) as ->.
    { rewrite <- (Z.abs_eq w) at 1 by lia. rewrite <- Z.abs_mul. f_equal. ring. }
    pose proof (Z.abs_triangle ((p * w - m) * b) (m * b - a * w)) as T. rewrite Z.abs_mul, (Z.abs_eq b) in T by lia.
    assert (2 * Z.abs (p * w - m) * b <= w * b) by nia. lia. }
  nia.
Qed.

(** [elapsed_s] of [d] nanoseconds is [m / 2^t] with a relative error of at most 2^-53. *)
Lemma elapsed_close start_ns end_ns : let d := end_ns - start_ns in
  0 < start_ns -> 0 < d < 2 ^ 52 ->
  exists m t, elapsed_s start_ns end_ns = mk_double m (- t) /\ 0 < t /\ 0 < m /\ 2 ^ 53 * Z.abs (m * 1000000000 - d * 2 ^ t) <= d * 2 ^ t.
Proof.
  cbn zeta. intros S D. unfold elapsed_s. rewrite (proj2 (Z.ltb_lt 0 start_ns)), (proj2 (Z.ltb_lt start_ns end_ns)) by lia. cbn [andb].
  set (d := end_ns - start_ns) in *. clearbody d.
  rewrite (fdiv_ints _ _ d 1000000000) by (try apply of_u64_exact; lia).
  pose proof (exponent_spec d 1000000000 ltac:(lia) ltac:(lia)) as E. unfold round53. rewrite (proj2 (Z.eqb_neq d 0)) by lia.
  rewrite Z.add_0_r. set (e := exponent d 1000000000) in *. clearbody e. unfold scaled in *. destruct (Z.leb_spec 0 e).
  { pose proof (pow2_pos e ltac:(lia)). nia. }
  destruct (rhe_spec (d * 2 ^ (- e)) 1000000000 ltac:(lia)) as [M _]. cbn zeta in M. set (m := rhe _ _) in *. clearbody m.
  exists m, (- e). split; [f_equal; lia |]. split; [lia |]. destruct E as (_ & E & _). set (y := d * 2 ^ (- e)) in *. clearbody y. split; lia.
Qed.

Lemma ops_close start_ns end_ns : let d := end_ns - start_ns in
  0 < start_ns -> 0 < d < 2 ^ 52 ->
  Z.abs (nearest (ops_sec (elapsed_s start_ns end_ns)) * d - kMeasureCount * 1000000000) < d.
Proof.
  cbn zeta. intros S D. destruct (elapsed_close start_ns end_ns S D) as (m & t & -> & T & M & C).
  set (d := end_ns - start_ns) in *. clearbody d. unfold ops_sec, fpos. cbn [mant]. rewrite (proj2 (Z.ltb_lt 0 m)) by done.
  destruct (of_u64_exact kMeasureCount) as (k & Hk & ->); [done |]. unfold fdiv. cbn [mant expo].
  pose proof (round53_shift kMeasureCount m (- k - - t) k 0 ltac:(done) M Hk ltac:(lia)) as R.
  pose proof (round53_shift kMeasureCount m 0 t 0 ltac:(done) M ltac:(lia) ltac:(lia)) as R'.
  rewrite Z.mul_1_r in R, R'. rewrite R. cbn [Z.eqb kMeasureCount] in *. replace (- k - - t + k - 0) with (0 + t - 0) by lia. rewrite <- R'.
  clear R R' Hk k. pose proof (pow2_pos t ltac:(lia)) as W. set (w := 2 ^ t) in *. clearbody w.
  assert (w <= d * w) as Y by nia. set (y := d * w) in *.
  pose proof (nearest_close (kMeasureCount * w) m) as P. unfold kMeasureCount in *. set (p := nearest _) in *. clearbody p.
  specialize (P ltac:(lia) M).
  assert (0 <= p <= 230000000000000) as Pb.
  { assert (- m <= p * m <= 230000000000000 * m) by lia. split; [| nia]. assert (0 <= p * m + m) by lia. nia. }
  assert (w * Z.abs (p * d - 200000 * 1000000000) = Z.abs ((p * m - 200000 * w) * 1000000000 - p * (m * 1000000000 - y))) as E.
  { rewrite <- (Z.abs_eq w) at 1 by lia. rewrite <- Z.abs_mul. f_equal. unfold y. ring. }
  assert (2 ^ 53 * Z.abs (p * (m * 1000000000 - y)) <= 230000000000000 * y) as Q.
  { rewrite Z.abs_mul, (Z.abs_eq p) by lia. nia. }
  assert (Z.abs ((p * m - 200000 * w) * 1000000000 - p * (m * 1000000000 - y)) < w * d) as L.
  { replace (w * d) with y by (unfold y; ring). clearbody y. set (g := p * (m * 1000000000 - y)) in *. clearbody g. lia. }
  rewrite <- E in L. nia.
Qed.

(** The end of a measurement is only reached with samples recorded. *)
Lemma last_pong_recorded (p : PerfPkt) (w : cworld) : kWarmupCount + kMeasureCount <= seq p -> recorder_ (the_data (measure p w)) <> [].
Proof.
  intros L. unfold measure. destruct (nowNs w) as [t5 w1].
  assert (forall w2 : cworld, recorder_ (the_data (set_data w2 (record_pong (the_data w2) p t5))) <> []) as R.
  { intros w2. unfold record_pong. rewrite (proj2 (Z.ltb_lt kWarmupCount (seq p))); [| unfold kWarmupCount, kMeasureCount in *; lia].
    cbn. by destruct (recorder_ _). }
  rewrite (proj2 (Z.eqb_neq (seq p) kWarmupCount)); [| unfold kWarmupCount, kMeasureCount in *; lia]. apply R.
Qed.

(** After the report the stream still has the format of the mean, [std::fixed]
    with no decimals: the time is printed in whole seconds, and the rate is
    within 1 of the exact one (for a run of less than 2^52 ns). *)
Theorem elapsed_in_whole_seconds (r : LatencyRecorder) (o : ostream) (start_ns end_ns : Z) :
  Forall (fun c => sample c.2) (columns r) -> rtts r <> [] -> width o = 0 -> 0 < start_ns -> 0 < end_ns - start_ns < 2 ^ 52 ->
  exists report o' ops, finish r start_ns end_ns o = Some (sorted r, o') /\
    written o' = written o ++ report ++ lit "Elapsed(s): " ++ to_string (rhe (end_ns - start_ns) 1000000000) ++ [nl] ++
      lit "Ops/sec   : " ++ to_string ops ++ [nl] /\
    Z.abs (ops * (end_ns - start_ns) - kMeasureCount * 1000000000) < end_ns - start_ns.
Proof.
  intros S N W St D. destruct o as [w f x p u]. cbn in W. subst u.
  destruct (printReport_exact r w f x p S) as (rows & x' & p' & _ & E & [F | [-> ->]]); [done |].
  match type of E with _ = Some (_, mk_os (_ ++ ?t) _ _ _ _) => set (T := t) in * end. clearbody T.
  unfold finish. rewrite E. cbn [mbind option_bind]. run_cout. cbn [mbind option_bind]. run_cout. cbn [mbind option_bind].
  eexists T, _, _. split; [reflexivity |]. split; [| by apply ops_close]. cbn [written]. rewrite <- !app_assoc. do 4 f_equal.
  f_equal. unfold elapsed_s. rewrite (proj2 (Z.ltb_lt 0 start_ns)), (proj2 (Z.ltb_lt start_ns end_ns)) by lia. cbn [andb].
  rewrite (fdiv_ints _ _ (end_ns - start_ns) 1000000000) by (try apply of_u64_exact; lia). apply nearest_round53; lia.
Qed.

(** A run of 400 ms: the time shown is 0 s, the rate 500000 per second. *)
Example elapsed_shows_zero :
  (fun x => zdrop (zlen (written x.2) - 33) (written x.2)) <$> finish demo_recorder 1 400000001 std_cout =
  Some (lit "Elapsed(s): 0" ++ [nl] ++ lit "Ops/sec   : 500000" ++ [nl]).
Proof. vm_compute. done. Qed.

End Report.
